(* ===== verification/_CoqProject ===== *)
-Q . S2P
Prelude.v
GoString.v
GoSort.v
Interfaces.v
Heap.v
Paths.v
PathsTheory.v
PathBuilder.v
DeltaSequence.v
DeltaSequenceTheory.v
Committer.v
CommitterTheory.v
LiveCache.v
LiveStorage.v
LiveTheory.v
Pipeline.v
ExecStore.v
ExecStoreOps.v
ExecStoreTheory.v
ExecStoreOpsTheory.v
Accounts.v
AccountsTheory.v
Codec.v
CodecTheory.v
EthLib.v
EthAccount.v
EthWorldState.v
EthWriter.v
EthAccountTheory.v
EthWorldTheory.v
EthWriterTheory.v
EthBlockTheory.v
EthStoreTheory.v
EthNode.v
EthProof.v
OpVerifier.v
EthProofTheory.v
EthCacheTheory.v
StoreDigest.v
Proxy.v
Snapshot.v
Remote.v
Node.v
NodeTheory.v
NodeBlock.v
NodeRead.v
NodeAgree.v
NodeExec.v
Proxies.v
Harness.v
Reference.v
Witnesses.v
RefStore.v
WitnessesStore.v
RefCodec.v
WitnessesCodec.v
RefEth.v
WitnessesEth.v
WitnessesNode.v
RefExec.v
WitnessesExec.v
