(* ===== verification/Prelude.v ===== *)
(** * The Arcology state engine: a verification development

    The repository (Go, under src/) is the state layer of a parallel EVM.
    Transactions run against a working set of state cells; what they changed is
    resolved path by path, merged, and committed to a memory cache, to an
    execution database and to the Ethereum tries.

    ** The parts and how they interact

    - common/: the path scheme ([blcc://eth1.0/account/0x.../storage/...]), the
      table of built-in paths, identifiers of callees, creation of accounts.
      Paths.v (Modules Constants, PathTypes, Platform: constants.go,
      path_types.go, platform.go), PathBuilder.v (path_builder.go, utils.go),
      Accounts.v (CreateDefaultPaths of utils.go).
    - state/cache/: the execution state store.  ExecStore.v
      (execution_state_store.go, state_cache_wildcard.go: reads, writes, the
      parent's key set, wildcard deletions), ExecStoreOps.v (batches of
      execution_state_store.go, state_cache_path.go, state_cache_filter.go,
      execution_store_indexer.go, execution_store_writer.go), StoreDigest.v
      (Equal and Checksum of execution_state_store.go).
    - state/committer/: DeltaSequence.v (delta_sequence.go), Committer.v
      (indexer.go, committer.go).  The committer drives any list of writers; it
      is written against the class [StoreWriter].
    - storage/execstorage/: LiveCache.v and LiveStorage.v, the writers of the
      cache of typed values and of the database of encodings.
    - storage/codec/: Codec.v, the RLP codec of each type, the native codec,
      and the selector between them.
    - storage/ethstorage/: EthAccount.v (eth_account.go,
      ethtrie_storage_backend.go, and the state of the package), EthWorldState.v
      (eth_world_state.go), EthWriter.v
      (eth_storage_indexer.go, eth_storage_writer.go), EthProof.v
      (ethtrie_util.go, ethtrie_types.go, ethtrie_storage_proof.go,
      ethtrie_proof_cache.go).
      EthLib.v has the classes of the libraries they call and their laws.
    - storage/proxy/: Proxy.v, the filter and the codecs that the proxy gives
      its stores; Snapshot.v (snapshot_state_proxy.go), the proxy of an earlier root;
      Remote.v, the server side of remote/; Node.v, the lists of writers of the
      proxy (state_proxy.go) and of the execution store
      (execution_state_store.go) over the state of a whole node; Proxies.v, the
      constructors of the proxy, with live_cache.go and live_storage.go.
    - op/: OpVerifier.v (type_converter.go, op_verifier.go), account proofs in
      Optimism's format and their verification.
    - test/harness/: Harness.v (util.go), accounts and values put into the
      stores through a block of their own.

    A transaction reads and writes through the execution state store; its
    exported cells are imported by the committer, which indexes them by path
    and by transaction, erases those of rejected transactions, merges the rest
    of each path, and lets every writer take the generation in two phases
    (Precommit) and the block in one (Commit).  Node.v gives the three writers
    of the proxy and that of the execution store as one instance of
    [StoreWriter]; NodeTheory.v follows them through the phases and NodeBlock.v
    a block from its transitions to the stores; Pipeline.v does so for the
    live cache alone.  The writer of the
    Ethereum store groups a generation's cells by account, updates the records
    and storage tries of the accounts, writes the world trie, and at the commit
    of the block moves the tries to the trie database, from which snapshots
    and proofs of that root are read.

    ** How the code is modelled

    Go functions with effects are functions of the state they run in, in the
    monad [Go] below: [Panic] is a nil dereference, a failed type assertion, an
    index out of range or an explicit panic; errors the code returns are values
    (option string, a sum).  Cells are shared objects: Heap.v has a store of
    cells that pointers ([loc]) refer to, and the state of a component is seen
    through lenses ([HeapLens], [ObjLens]), so that every component works on
    the same cells and aliasing is visible.  Loops over slices are the folds of
    this file; the only other recursion is structural, so there is no fuel,
    except in two places: for the digits of a big integer in Codec.v, where the
    number of binary digits is enough ([CodecTheory.fuel_enough]), and for the
    loop that drops old roots in EthWorldState.v, where the number of roots is
    enough ([EthBlockTheory.prune_terminates]).  Integers of machine
    width are integers with their wrap-around written out ([u64], [i64]).

    What is not in the repository is a parameter.  Interfaces.v has a class of
    operations and a class of documented laws for each package: slices, maps,
    caches, stores, the unordered indexer, CRDT values and cells, the pool.
    Codec.v and CodecTheory.v have those of rlp, uint256 and the CRDT types,
    EthLib.v those of the tries, the trie database, the key-value databases, the
    hashes and the hexadecimal codec; a trie is seen there through the finite
    map it holds ([TrieSpec], [TrieLaws]).  In
    particular what a cell does when it is set ([CellEffects]) belongs to the
    CRDT package; the theorems about writes say what happens around it.
    Reference.v, RefStore.v, RefCodec.v and RefEth.v give concrete instances of
    all of them, on which Witnesses.v, WitnessesStore.v, WitnessesCodec.v,
    WitnessesEth.v and WitnessesNode.v evaluate every theorem that has a
    hypothesis; RefExec.v and WitnessesExec.v do so for executions in a node.

    ** What the theorems show

    - CommitterTheory.v, DeltaSequenceTheory.v: the index invariant of an
      import; which transitions a whitelist removes; that finalizing leaves one
      transition per path, the first accepted one in SYSTEM-then-number order,
      holding the others' deltas in order; that the order in which the paths
      are processed does not matter.
    - LiveTheory.v, Pipeline.v: generations and block commits of both writers,
      and the refinement of a whole block to its specification [block_spec].
    - NodeTheory.v, NodeBlock.v: a block of several generations through all the
      writers ([generations]) refines [cache_spec], [storage_spec] and
      [accounts_spec], what it should leave in the live cache, the database of
      encodings and the Ethereum store; each generation is visible to the
      executions of the block ([exec_spec]); and no state it reaches is stuck.
      NodeRead.v: the live cache stays coherent with its backend, so that what
      the next block reads is what the generations left, also after evictions.
      NodeAgree.v: when the Ethereum store and the live stores go on agreeing on
      a slot, and when they part.
      NodeExec.v: what executions leave in the indexes of their stores becomes
      a generation of the block, path by path the merge of the accepted ones in
      the order of their transactions ([executions_entry]); the executions of the
      next block read it back ([executions_spec]); and an execution whose cells
      the block takes over as they are is read back as it was.
      Proxies.v: a node on a proxy just made shows nothing, and when a block can
      start with its committer.
      Harness.v: the accounts that the harness creates in a new store; and what
      it injects, for a slice.MoveIf that keeps the array it works on.
    - ExecStoreTheory.v, ExecStoreOpsTheory.v, AccountsTheory.v: what a path
      shows ([view]); that reads return it and change nothing; which writes are
      refused and what an accepted one does; the invariant of every reachable
      store; exports, generations and block commits of the execution cache; the
      creation of an account.
    - EthAccountTheory.v, EthWorldTheory.v, EthWriterTheory.v, EthBlockTheory.v,
      EthStoreTheory.v: the well-formedness invariant of the Ethereum store
      ([eth_wf]); what the update of an account writes and leaves alone; what a
      generation shows ([generation_view]) and what a commit puts in the trie
      database; a block, from its transitions to a snapshot of its root.
      EthNode.v: the store as a state machine, the refinement of its traces to
      [spec_step], and that it never gets stuck.
    - EthProofTheory.v, EthCacheTheory.v: proofs of accounts and slots against
      the trie, their validation and their conversion, and the bound of the
      cache of proof providers.
    - CodecTheory.v, Proxy.v: round trips of every type through every codec,
      and where they lose something; which type a decoder returns; the filter
      of the stores.
    - StoreDigest.v, Snapshot.v, Remote.v: equality and checksum of two stores;
      what a snapshot answers; the three handlers of the server.
    - PathsTheory.v, PathBuilder.v: each parser against a declarative reading
      of a path, and the predicates on them.

    Several theorems state what the code does where that differs from what its
    comments say: sizes measured after the write, an error that is overwritten,
    wildcard deletions that are never recorded, deletions that are undone by an
    earlier value of the same block, byte strings that lose leading zeros, an
    account that comes into being without a transition of its own, a marked
    account whose mark a second generation overwrites, roots recorded under a
    version that is not the block's number, proofs of absent slots that their
    own validation refuses.

    ** What is not modelled

    The client of the remote store, which is commented out; the printers and
    the names of the writers; the getters that only return a field or a handle of
    a library, and Close; StateCommitter.New, which makes a committer without
    indexers, on which every call panics.  Goroutines: a parallel loop over a slice runs its bodies in some
    order, each as one step (the bodies the code runs so work on different
    accounts), the locks are
    left out with that, and the races on the error of the Ethereum store are
    not modelled.  A typed value is part of its cell: two cells holding
    pointers to one value are not modelled as such.  The filter of the live
    writers is a pure predicate there; [Proxy.NonTransientOnly_spec] says when
    the proxy's is one.  The cells of a pool are fresh objects: their reuse
    after a reset is covered only by letting the reset change the store of
    cells in any way; as the commit of the execution store's writer resets the
    pool before the live cache is written, a block with that writer asks that
    the reset leaves the transitions of the block alone ([reset_safe]).  What
    an execution store reads below itself is a fixed store, also in a node:
    after a block it is opened again over the stores as they are by then.

    slice.MoveIf may or may not rearrange the caller's array, which the
    committer keeps as its list of writers: the theorems about a block are for a
    committer whose list is the one it was given, and [Proxies.node_start] shows
    that these are the committers a block can start with.  Nothing else is
    assumed on that array, except by [Harness.InjectTransitions_commits], which
    says so.  The proxy without a backend (NewCacheOnlyStoreProxy) is made, but a
    node is not modelled on it.

    What statecell and the CRDT types do is a parameter, so that a theorem about
    executions starts from the cells they leave.  What the theorems about a node
    say an execution store shows is its [view]; whether a read gets there also
    depends on the container above the path ([ExecStoreTheory.exists_spec],
    [NodeExec.reads_as]).  The hypotheses on the cells of
    a block ([block_ready]: the deltas apply, the fields of an account have
    their types and are in range) are those without which the code panics.  The
    execution store of the harness is opened again over the proxy at the end
    of a routine ([reread]), and the read-only store it hands to the committer is
    the store as it is at that moment; CreateAccountInStore, which passes its
    cells through a conversion of statecell, is evaluated on the concrete
    instances only.

    This file holds the notation, the effect monad and its laws, and machine
    integers. *)
From stdpp Require Export base decidable option list gmap strings fin_maps sorting.
From Stdlib Require Export ZArith Ascii String Lia.

Declare Scope go_scope.
Delimit Scope go_scope with go.
Open Scope go_scope.

Abbreviation length := List.length.
(** Byte slices: lists of integers in [0, 255]. *)
Abbreviation bytes := (list Z).
Abbreviation len := String.length.
#[global] Arguments String.append !_ _ / : simpl nomatch.

(** ** Effects.  A Go function that reads and writes shared objects is a
    function of the store it runs in; a nil dereference, a failed type
    assertion, an index out of range or an explicit [panic] is [Panic]. *)
Inductive outcome (A : Type) : Type :=
| Ret (a : A)
| Panic.
Arguments Ret {A} a.
Arguments Panic {A}.

Definition Go (S A : Type) : Type := S -> outcome (A * S).

Definition gret {S A} (a : A) : Go S A := fun s => Ret (a, s).
Definition gpanic {S A} : Go S A := fun _ => Panic.
Definition gbind {S A B} (m : Go S A) (f : A -> Go S B) : Go S B :=
  fun s => match m s with
           | Ret (a, s') => f a s'
           | Panic => Panic
           end.
Definition gget {S} : Go S S := fun s => Ret (s, s).
Definition gput {S} (s : S) : Go S unit := fun _ => Ret (tt, s).
Definition gmodify {S} (f : S -> S) : Go S unit := fun s => Ret (tt, f s).

(** A value the code dereferences without a check: nil panics. *)
Definition gsome {S A} (o : option A) : Go S A :=
  match o with Some a => gret a | None => gpanic end.

Notation "'let!' x ':=' c 'in' k" := (gbind c (fun x => k))
  (at level 10, x name, c at level 100, k at level 200) : go_scope.
Notation "'let!' ' p ':=' c 'in' k" := (gbind c (fun x => match x with p => k end))
  (at level 10, p strict pattern, c at level 100, k at level 200) : go_scope.
Notation "c ;;; k" := (gbind c (fun _ => k))
  (at level 199, k at level 200, right associativity) : go_scope.

(** [for _, x := range xs { f(x) }] *)
Fixpoint gforeach {S A} (f : A -> Go S unit) (xs : list A) : Go S unit :=
  match xs with
  | [] => gret tt
  | x :: xs' => f x ;;; gforeach f xs'
  end.

(** A loop that accumulates a value. *)
Fixpoint gfold {S A B} (f : B -> A -> Go S B) (b : B) (xs : list A) : Go S B :=
  match xs with
  | [] => gret b
  | x :: xs' => let! b' := f b x in gfold f b' xs'
  end.

Definition gmap_list {S A B} (f : A -> Go S B) (xs : list A) : Go S (list B) :=
  gfold (fun acc x => let! b := f x in gret (acc ++ [b])) [] xs.

Section EffectLaws.
Context {S : Type}.

Lemma gbind_ret {A B} (m : Go S A) (f : A -> Go S B) s b s' :
  gbind m f s = Ret (b, s') <-> exists a s1, m s = Ret (a, s1) /\ f a s1 = Ret (b, s').
Proof.
  unfold gbind. destruct (m s) as [[a s1]|] eqn:E; split.
  - intros H. exists a, s1. auto.
  - intros (a' & s1' & H1 & H2). by simplify_eq.
  - done.
  - by intros (a' & s1' & H1 & H2).
Qed.

Lemma gbind_eq {A B} (m : Go S A) (f : A -> Go S B) s a s1 :
  m s = Ret (a, s1) -> gbind m f s = f a s1.
Proof. intros E. unfold gbind. by rewrite E. Qed.

Lemma gbind_assoc {A B C} (m : Go S A) (f : A -> Go S B) (g : B -> Go S C) s :
  gbind (gbind m f) g s = gbind m (fun a => gbind (f a) g) s.
Proof. unfold gbind. by destruct (m s) as [[]|]. Qed.

Lemma gbind_ext {A B} (m : Go S A) (f g : A -> Go S B) s :
  (forall a s', f a s' = g a s') -> gbind m f s = gbind m g s.
Proof. intros E. unfold gbind. destruct (m s) as [[]|]; [apply E|done]. Qed.

Lemma gbind_panic {A B} (m : Go S A) (f : A -> Go S B) s : m s = Panic -> gbind m f s = Panic.
Proof. intros E. unfold gbind. by rewrite E. Qed.

Lemma gret_eq {A} (a : A) (s : S) : gret a s = Ret (a, s).
Proof. done. Qed.

Lemma gret_ret {A} (a b : A) (s s' : S) : gret a s = Ret (b, s') <-> a = b /\ s = s'.
Proof. unfold gret. naive_solver. Qed.

Lemma gsome_ret {A} (o : option A) (b : A) (s s' : S) :
  gsome o s = Ret (b, s') <-> o = Some b /\ s = s'.
Proof. unfold gsome, gret, gpanic. destruct o; naive_solver. Qed.

Lemma gforeach_app {A} (f : A -> Go S unit) xs ys s :
  gforeach f (xs ++ ys) s = (gforeach f xs ;;; gforeach f ys) s.
Proof.
  revert s. induction xs as [|x xs IH]; intros s; simpl; [done|].
  unfold gbind in *. destruct (f x s) as [[[] s1]|]; [apply IH|done].
Qed.

Lemma gfold_ret {A B} (f : B -> A -> Go S B) (g : B -> A -> S -> B * S) xs b s :
  (forall b x s, f b x s = Ret (g b x s)) ->
  gfold f b xs s = Ret (fold_left (fun bs x => g bs.1 x bs.2) xs (b, s)).
Proof.
  intros Hf. revert b s. induction xs as [|x xs IH]; intros b s; simpl; [done|].
  unfold gbind. rewrite Hf. destruct (g b x s) as [b' s'] eqn:E; simpl. apply IH.
Qed.

(** [I] holds after every normal return when it holds before. *)
Definition preserves {A} (I : S -> Prop) (m : Go S A) : Prop :=
  forall s a s', I s -> m s = Ret (a, s') -> I s'.

Lemma preserves_ret {A} I (a : A) : preserves I (gret a).
Proof. intros s b s' HI H. apply gret_ret in H as [_ <-]. done. Qed.
Lemma preserves_panic {A} I : preserves I (@gpanic S A).
Proof. intros s b s' HI H. done. Qed.
Lemma preserves_get I : preserves I (@gget S).
Proof. intros s b s' HI H. unfold gget in H. by simplify_eq. Qed.
Lemma preserves_some {A} I (o : option A) : preserves I (gsome o).
Proof. intros s b s' HI H. apply gsome_ret in H as [_ <-]. done. Qed.
Lemma preserves_bind {A B} I (m : Go S A) (f : A -> Go S B) :
  preserves I m -> (forall a, preserves I (f a)) -> preserves I (gbind m f).
Proof.
  intros Hm Hf s b s' HI H. apply gbind_ret in H as (a & s1 & H1 & H2).
  eapply Hf; [|done]. eapply Hm; done.
Qed.
Lemma preserves_modify I (f : S -> S) :
  (forall s, I s -> I (f s)) -> preserves I (gmodify f).
Proof. intros Hf s b s' HI H. unfold gmodify in H. simplify_eq. auto. Qed.
Lemma preserves_foreach {A} I (f : A -> Go S unit) xs :
  (forall x, preserves I (f x)) -> preserves I (gforeach f xs).
Proof.
  intros Hf. induction xs as [|x xs IH]; simpl;
    [apply preserves_ret|apply preserves_bind; auto].
Qed.
Lemma preserves_fold {A B} I (f : B -> A -> Go S B) b xs :
  (forall b x, preserves I (f b x)) -> preserves I (gfold f b xs).
Proof.
  intros Hf. revert b. induction xs as [|x xs IH]; intros b; simpl;
    [apply preserves_ret|apply preserves_bind; auto].
Qed.
End EffectLaws.

Create HintDb goinv discriminated.
#[export] Hint Resolve preserves_ret preserves_panic preserves_get preserves_some
  preserves_bind preserves_modify preserves_foreach preserves_fold : goinv.

(** Take a run of a composed effect apart, one [gbind] at a time. *)
Ltac go_inv :=
  repeat match goal with
  | H : gbind _ _ _ = Ret _ |- _ => apply gbind_ret in H as (? & ? & ? & ?)
  | H : gret _ _ = Ret _ |- _ => apply gret_ret in H as [? ?]; subst
  | H : gsome _ _ = Ret _ |- _ => apply gsome_ret in H as [? ?]; subst
  | H : gget _ = Ret _ |- _ => unfold gget in H; simplify_eq
  | H : gmodify _ _ = Ret _ |- _ => unfold gmodify in H; simplify_eq
  | H : gpanic _ = Ret _ |- _ => discriminate H
  end.

(** Prove [preserves I m] by following the structure of [m]. *)
Ltac go_preserves :=
  repeat first
    [ apply preserves_ret | apply preserves_panic | apply preserves_get
    | apply preserves_some | apply preserves_bind; [|intros ?]
    | apply preserves_foreach; intros ? | apply preserves_fold; intros ? ?
    | progress case_match | progress case_decide
    | solve [eauto with goinv] ].

(** ** Machine integers *)
Definition u64 (z : Z) : Z := (z mod 2 ^ 64)%Z.
Definition i64 (z : Z) : Z :=
  (let r := z mod 2 ^ 64 in if r <? 2 ^ 63 then r else r - 2 ^ 64)%Z.
Definition MaxUint64 : Z := (2 ^ 64 - 1)%Z.
Definition MaxInt32 : Z := (2 ^ 31 - 1)%Z.
Definition MaxUint32 : Z := (2 ^ 32 - 1)%Z.

Lemma u64_range z : (0 <= u64 z < 2 ^ 64)%Z.
Proof. apply Z.mod_pos_bound. lia. Qed.
Lemma u64_small z : (0 <= z < 2 ^ 64)%Z -> u64 z = z.
Proof. apply Z.mod_small. Qed.
Lemma i64_small z : (- 2 ^ 63 <= z < 2 ^ 63)%Z -> i64 z = z.
Proof.
  intros H. unfold i64. destruct (Z.ltb_spec z 0) as [Hz|Hz].
  - replace (z mod 2 ^ 64)%Z with (z + 2 ^ 64)%Z.
    + destruct (Z.ltb_spec (z + 2 ^ 64) (2 ^ 63)); lia.
    + symmetry. rewrite <- (Z.mod_small (z + 2 ^ 64) (2 ^ 64)) by lia.
      rewrite <- (Z_mod_plus_full z 1 (2 ^ 64)). f_equal; lia.
  - rewrite Z.mod_small by lia. destruct (Z.ltb_spec z (2 ^ 63)); lia.
Qed.
