(* ===== verification/GoString.v ===== *)
(** * Go strings: the byte-string operations of the language and of package
    [strings] that the repository uses, and their laws. *)
From S2P Require Import Prelude.

(** [s[:n]] and [s[n:]] for [n <= len(s)]. *)
Fixpoint str_take (n : nat) (s : string) : string :=
  match n, s with
  | S n', String c s' => String c (str_take n' s')
  | _, _ => ""
  end.
Fixpoint str_drop (n : nat) (s : string) : string :=
  match n, s with
  | S n', String _ s' => str_drop n' s'
  | O, _ => s
  | S _, EmptyString => ""
  end.
(** [s[a:b]] for [a <= b <= len(s)]. *)
Definition str_slice (s : string) (a b : nat) : string := str_take (b - a) (str_drop a s).
(** [s[a:b]] with the run-time check. *)
Definition str_slice_chk (s : string) (a b : nat) : option string :=
  if decide (a <= b /\ b <= len s) then Some (str_slice s a b) else None.

Definition HasPrefix (s p : string) : bool :=
  (len p <=? len s) && String.eqb (str_take (len p) s) p.
Definition HasSuffix (s suf : string) : bool :=
  (len suf <=? len s) && String.eqb (str_drop (len s - len suf) s) suf.
Fixpoint ContainsByte (c : ascii) (s : string) : bool :=
  match s with
  | "" => false
  | String d s' => Ascii.eqb c d || ContainsByte c s'
  end.
(** [strings.LastIndex(s, string(c))]: -1 when absent. *)
Fixpoint LastIndexByte (c : ascii) (s : string) : Z :=
  match s with
  | "" => -1
  | String d s' =>
      let r := LastIndexByte c s' in
      if (0 <=? r)%Z then (r + 1)%Z else if Ascii.eqb c d then 0%Z else (-1)%Z
  end.

Create Rewrite HintDb gostr.

Lemma str_app_nil_r s : s +:+ "" = s.
Proof. induction s; simpl; congruence. Qed.
Lemma str_app_assoc s t u : s +:+ (t +:+ u) = (s +:+ t) +:+ u.
Proof. induction s; simpl; congruence. Qed.
Lemma len_app s t : len (s +:+ t) = len s + len t.
Proof. induction s; simpl; lia. Qed.
Lemma str_app_inj_l s t u : s +:+ t = s +:+ u -> t = u.
Proof. induction s; simpl; [done|]. intros [=]; auto. Qed.
Lemma str_app_inj_len s t u v : len s = len t -> s +:+ u = t +:+ v -> s = t /\ u = v.
Proof.
  revert t. induction s as [|c s IH]; intros [|d t] Hl H; simpl in *; try lia; [done|].
  injection H as -> H. injection Hl as Hl. apply IH in H as [-> ->]; auto.
Qed.
Lemma len_zero s : len s = 0 <-> s = "".
Proof. destruct s; simpl; split; done. Qed.

Lemma str_take_drop n s : str_take n s +:+ str_drop n s = s.
Proof. revert s; induction n; intros [|c s]; simpl; auto. by rewrite IHn. Qed.
Lemma len_take n s : len (str_take n s) = n `min` len s.
Proof. revert s; induction n; intros [|c s]; simpl; auto. Qed.
Lemma len_drop n s : len (str_drop n s) = len s - n.
Proof. revert s; induction n; intros [|c s]; simpl; auto. Qed.
Lemma str_take_app n s t : n = len s -> str_take n (s +:+ t) = s.
Proof. intros ->. induction s; simpl; [by destruct t|congruence]. Qed.
Lemma str_drop_app n s t : n = len s -> str_drop n (s +:+ t) = t.
Proof. intros ->. induction s; simpl; [by destruct t|done]. Qed.
Lemma str_drop_0 s : str_drop 0 s = s.
Proof. by destruct s. Qed.
Lemma str_take_0 s : str_take 0 s = "".
Proof. by destruct s. Qed.
Lemma str_take_ge n s : len s <= n -> str_take n s = s.
Proof. revert s; induction n; intros [|c s]; simpl; intros; try done; try lia. f_equal. apply IHn. lia. Qed.
Lemma str_drop_ge n s : len s <= n -> str_drop n s = "".
Proof. revert s; induction n; intros [|c s]; simpl; intros; try done; try lia. apply IHn. lia. Qed.
Lemma str_drop_app_le n s t : n <= len s -> str_drop n (s +:+ t) = str_drop n s +:+ t.
Proof.
  revert n. induction s as [|c s IH]; intros n H; simpl in *.
  - assert (n = 0) as -> by lia. by destruct t.
  - destruct n; simpl; [done|]. apply IH. lia.
Qed.
Lemma str_take_app_le n s t : n <= len s -> str_take n (s +:+ t) = str_take n s.
Proof.
  revert n. induction s as [|c s IH]; intros n H; simpl in *.
  - assert (n = 0) as -> by lia. by destruct t.
  - destruct n; simpl; [done|]. f_equal. apply IH. lia.
Qed.
Lemma str_drop_drop n m s : str_drop n (str_drop m s) = str_drop (m + n) s.
Proof. revert s; induction m; intros [|c s]; simpl; auto; by destruct n. Qed.
Lemma str_slice_mid s t u a b :
  a = len s -> b = len s + len t -> str_slice (s +:+ (t +:+ u)) a b = t.
Proof.
  intros -> ->. unfold str_slice. rewrite str_drop_app by done. apply str_take_app. lia.
Qed.
Lemma str_slice_chk_some s a b :
  a <= b -> b <= len s -> str_slice_chk s a b = Some (str_slice s a b).
Proof. intros. unfold str_slice_chk. by rewrite decide_True. Qed.
Lemma len_slice s a b : a <= b -> b <= len s -> len (str_slice s a b) = b - a.
Proof. intros. unfold str_slice. rewrite len_take, len_drop. lia. Qed.
#[export] Hint Rewrite len_app len_take len_drop str_app_nil_r : gostr.

Lemma str_split_at n s : n <= len s -> exists t u, s = t +:+ u /\ len t = n.
Proof.
  intros. exists (str_take n s), (str_drop n s).
  split; [by rewrite str_take_drop|]. rewrite len_take. lia.
Qed.

Lemma HasPrefix_spec s p : HasPrefix s p = true <-> exists t, s = p +:+ t.
Proof.
  unfold HasPrefix. rewrite andb_true_iff, Nat.leb_le, String.eqb_eq. split.
  - intros [Hl H]. exists (str_drop (len p) s). by rewrite <- H at 1; rewrite str_take_drop.
  - intros [t ->]. rewrite len_app. split; [lia|]. by apply str_take_app.
Qed.
Lemma HasSuffix_spec s p : HasSuffix s p = true <-> exists t, s = t +:+ p.
Proof.
  unfold HasSuffix. rewrite andb_true_iff, Nat.leb_le, String.eqb_eq. split.
  - intros [Hl H]. exists (str_take (len s - len p) s). rewrite <- H at 2. by rewrite str_take_drop.
  - intros [t ->]. rewrite len_app. split; [lia|]. apply str_drop_app. lia.
Qed.
Lemma HasSuffix_false s p : HasSuffix s p = false <-> ~ exists t, s = t +:+ p.
Proof. rewrite <- HasSuffix_spec. destruct (HasSuffix s p); naive_solver. Qed.
Lemma HasSuffix_app s t p : len p <= len t -> HasSuffix (s +:+ t) p = HasSuffix t p.
Proof.
  intros H. unfold HasSuffix. rewrite len_app.
  rewrite (proj2 (Nat.leb_le (len p) (len t))) by done.
  rewrite (proj2 (Nat.leb_le (len p) (len s + len t))) by lia. simpl.
  replace (len s + len t - len p) with (len s + (len t - len p)) by lia.
  rewrite <- str_drop_drop, str_drop_app by done. done.
Qed.

Lemma ContainsByte_app c s t : ContainsByte c (s +:+ t) = ContainsByte c s || ContainsByte c t.
Proof. induction s; simpl; [done|]. by rewrite IHs, orb_assoc. Qed.
Lemma ContainsByte_false_cons c d s :
  ContainsByte c (String d s) = false <-> c <> d /\ ContainsByte c s = false.
Proof. simpl. rewrite orb_false_iff, Ascii.eqb_neq. done. Qed.

Lemma LastIndexByte_range c s : (-1 <= LastIndexByte c s < Z.of_nat (len s))%Z.
Proof.
  induction s as [|d s IH]; simpl; [lia|].
  destruct (Z.leb_spec 0 (LastIndexByte c s)); [lia|]. case_match; lia.
Qed.
Lemma LastIndexByte_none c s : LastIndexByte c s = (-1)%Z <-> ContainsByte c s = false.
Proof.
  induction s as [|d s IH]; simpl; [done|].
  pose proof (LastIndexByte_range c s) as R.
  destruct (Z.leb_spec 0 (LastIndexByte c s)) as [H|H].
  - assert (ContainsByte c s = true) as ->.
    { destruct (ContainsByte c s); [done|]. exfalso. pose proof (proj2 IH eq_refl). lia. }
    rewrite orb_true_r. split; [lia|done].
  - assert (ContainsByte c s = false) as -> by (apply IH; lia).
    rewrite orb_false_r. destruct (Ascii.eqb c d); split; done.
Qed.
(** The last occurrence splits the string: what follows it has no [c]. *)
Lemma LastIndexByte_some c s i :
  LastIndexByte c s = Z.of_nat i ->
  exists t u, s = t +:+ String c u /\ len t = i /\ ContainsByte c u = false.
Proof.
  revert i. induction s as [|d s IH]; intros i; simpl; [lia|].
  pose proof (LastIndexByte_range c s) as R.
  destruct (Z.leb_spec 0 (LastIndexByte c s)) as [H|H].
  - intros Hi. destruct i as [|i]; [lia|].
    destruct (IH i) as (t & u & -> & <- & Hu); [lia|].
    exists (String d t), u. done.
  - destruct (Ascii.eqb_spec c d) as [->|]; [|lia]. intros Hi.
    exists "", s. split; [done|]. split; [simpl; lia|]. apply LastIndexByte_none. lia.
Qed.
Lemma LastIndexByte_app c s t :
  ContainsByte c t = false -> LastIndexByte c (s +:+ String c t) = Z.of_nat (len s).
Proof.
  intros Ht. induction s as [|d s IH]; simpl.
  - apply LastIndexByte_none in Ht. rewrite Ht. simpl. by rewrite Ascii.eqb_refl.
  - rewrite IH. destruct (Z.leb_spec 0 (Z.of_nat (len s))); lia.
Qed.

(** Go's [<] on strings (bytewise lexicographic). *)
Fixpoint str_ltb (s t : string) : bool :=
  match s, t with
  | _, "" => false
  | "", _ => true
  | String a s', String b t' =>
      (nat_of_ascii a <? nat_of_ascii b) || (Ascii.eqb a b && str_ltb s' t')
  end.

Lemma nat_of_ascii_inj a b : nat_of_ascii a = nat_of_ascii b -> a = b.
Proof. intros H. rewrite <- (ascii_nat_embedding a), <- (ascii_nat_embedding b). by rewrite H. Qed.
Lemma str_ltb_irrefl s : str_ltb s s = false.
Proof.
  induction s as [|c s IH]; [done|]. cbn [str_ltb].
  by rewrite Nat.ltb_irrefl, Ascii.eqb_refl, IH.
Qed.
Lemma str_ltb_cons a s b t :
  str_ltb (String a s) (String b t) = true <->
  nat_of_ascii a < nat_of_ascii b \/ a = b /\ str_ltb s t = true.
Proof. cbn [str_ltb]. by rewrite orb_true_iff, andb_true_iff, Nat.ltb_lt, Ascii.eqb_eq. Qed.
Lemma str_ltb_trans s t u : str_ltb s t = true -> str_ltb t u = true -> str_ltb s u = true.
Proof.
  revert t u. induction s as [|a s IH]; intros [|b t] [|c u]; try done.
  rewrite !str_ltb_cons. intros [H1|[-> H1]] [H2|[-> H2]]; eauto with lia.
Qed.
Lemma str_ltb_total s t : str_ltb s t = false -> str_ltb t s = false -> s = t.
Proof.
  revert t. induction s as [|a s IH]; intros [|b t]; try done. intros H1 H2.
  destruct (decide (nat_of_ascii a < nat_of_ascii b)) as [L|L].
  { rewrite (proj2 (str_ltb_cons _ _ _ _)) in H1 by auto. done. }
  destruct (decide (nat_of_ascii b < nat_of_ascii a)) as [L'|L'].
  { rewrite (proj2 (str_ltb_cons _ _ _ _)) in H2 by auto. done. }
  assert (a = b) as -> by (apply nat_of_ascii_inj; lia). f_equal. apply IH.
  - destruct (str_ltb s t) eqn:E; [|done]. rewrite (proj2 (str_ltb_cons _ _ _ _)) in H1 by auto. done.
  - destruct (str_ltb t s) eqn:E; [|done]. rewrite (proj2 (str_ltb_cons _ _ _ _)) in H2 by auto. done.
Qed.
