(* ===== verification/GoSort.v ===== *)
(** * sort.SliceStable

    [insertionSort] of Go's package sort: each element moves left past its
    predecessor as long as it compares less than it.  [SliceStable] uses it as
    such up to 20 elements; longer inputs are cut in blocks of 20 that are then
    merged, which gives the same list whenever the comparison is a strict weak
    order, since a stable sorted rearrangement is unique. *)
From S2P Require Import Prelude.

Section sort.
Context {A : Type} (less : A -> A -> bool).

(** [racc] is the sorted prefix, last element first. *)
Fixpoint bubble (x : A) (racc : list A) : list A :=
  match racc with
  | [] => [x]
  | y :: r => if less x y then y :: bubble x r else x :: y :: r
  end.
Definition insertionSort_rev (l : list A) : list A :=
  fold_left (fun racc x => bubble x racc) l [].
Definition SliceStable (l : list A) : list A := rev (insertionSort_rev l).

Lemma bubble_perm x l : Permutation (bubble x l) (x :: l).
Proof.
  induction l as [|y l IH]; simpl; [done|]. destruct (less x y); [|done].
  rewrite IH. apply perm_swap.
Qed.
Lemma fold_bubble_perm l acc :
  Permutation (fold_left (fun racc x => bubble x racc) l acc) (l ++ acc).
Proof.
  revert acc. induction l as [|x l IH]; intros acc; simpl; [done|].
  rewrite IH, bubble_perm. by rewrite Permutation_middle.
Qed.
Lemma SliceStable_perm l : Permutation (SliceStable l) l.
Proof.
  unfold SliceStable, insertionSort_rev.
  rewrite <- Permutation_rev, fold_bubble_perm. by rewrite app_nil_r.
Qed.

(** An element never passes one it does not compare less than, so a class of
    mutually incomparable elements keeps its order. *)
Lemma bubble_filter (P : A -> bool) x l :
  (forall y, P x = true -> P y = true -> less x y = false) ->
  List.filter P (bubble x l) = if P x then x :: List.filter P l else List.filter P l.
Proof.
  intros Hstop. induction l as [|y l IH]; simpl; [by destruct (P x)|].
  destruct (less x y) eqn:L; simpl.
  - rewrite IH. destruct (P x) eqn:Px, (P y) eqn:Py; try done.
    rewrite Hstop in L; done.
  - by destruct (P x), (P y).
Qed.
Lemma SliceStable_stable (P : A -> bool) l :
  (forall x y, P x = true -> P y = true -> less x y = false) ->
  List.filter P (SliceStable l) = List.filter P l.
Proof.
  intros HP. unfold SliceStable, insertionSort_rev.
  assert (E : forall acc, List.filter P (fold_left (fun racc x => bubble x racc) l acc) =
              rev (List.filter P l) ++ List.filter P acc).
  { induction l as [|x l IH]; intros acc; simpl; [done|].
    rewrite IH, bubble_filter by auto. destruct (P x); simpl; [|done].
    by rewrite <- app_assoc. }
  rewrite List.filter_rev, E. simpl. by rewrite app_nil_r, rev_involutive.
Qed.

(** Elements that compare less than everything are brought to the front one
    after the other: their order is reversed. *)
Lemma bubble_front x l : (forall y, less x y = true) -> bubble x l = l ++ [x].
Proof. intros Hx. induction l as [|y l IH]; simpl; [done|]. by rewrite Hx, IH. Qed.
Lemma SliceStable_front (P : A -> bool) l :
  (forall x y, P x = true -> less x y = true) ->
  List.filter P (SliceStable l) = rev (List.filter P l).
Proof.
  intros HP. unfold SliceStable, insertionSort_rev.
  assert (E : forall acc, List.filter P (fold_left (fun racc x => bubble x racc) l acc) =
              List.filter P acc ++ List.filter P l).
  { induction l as [|x l IH]; intros acc; simpl; [by rewrite app_nil_r|].
    rewrite IH. destruct (P x) eqn:Px.
    - rewrite bubble_front by auto. rewrite List.filter_app. simpl. rewrite Px.
      by rewrite <- app_assoc.
    - f_equal. clear -Px. induction acc as [|y acc IH]; simpl; [by rewrite Px|].
      destruct (less x y); simpl; rewrite ?Px, ?IH; done. }
  by rewrite List.filter_rev, E.
Qed.

(** Sortedness for a relation that both outcomes of the comparison decide. *)
Lemma SliceStable_sorted (R : A -> A -> Prop) l :
  Transitive R ->
  (forall x y, less x y = true -> R x y) -> (forall x y, less x y = false -> R y x) ->
  StronglySorted R (SliceStable l).
Proof.
  intros HR H1 H2. unfold SliceStable, insertionSort_rev.
  assert (Hb : forall x acc, StronglySorted (flip R) acc -> StronglySorted (flip R) (bubble x acc)).
  { intros x acc HS. induction HS as [|y acc HS IH HF]; simpl; [by repeat constructor|].
    destruct (less x y) eqn:L.
    - constructor; [done|]. rewrite Forall_forall in HF |- *. intros z Hz.
      rewrite bubble_perm in Hz. apply elem_of_cons in Hz as [->|Hz]; [by apply H1|auto].
    - constructor; [by constructor|]. constructor; [by apply H2|].
      eapply Forall_impl; [done|]. intros z Hz. unfold flip in *. eauto. }
  assert (Hs : forall acc, StronglySorted (flip R) acc ->
    StronglySorted (flip R) (fold_left (fun racc x => bubble x racc) l acc)).
  { induction l as [|x l IH]; simpl; auto. }
  specialize (Hs [] (SSorted_nil _)). clear Hb. revert Hs.
  generalize (fold_left (fun racc x => bubble x racc) l []). clear.
  intros acc. induction acc as [|y acc IH]; simpl; intros HS; [constructor|].
  apply StronglySorted_inv in HS as [HS HF]. specialize (IH HS).
  revert HF. rewrite <- (rev_involutive acc) at 1. generalize dependent (rev acc). clear.
  intros l HS HF. induction HS as [|x l HS IH HF']; simpl in *; [by repeat constructor|].
  rewrite Forall_app in HF. destruct HF as [HF HFx]. constructor; [auto|].
  rewrite Forall_app. split; [done|]. constructor; [|done].
  inversion HFx; subst. done.
Qed.
End sort.

Lemma bubble_map {A B} (g : A -> B) (less : B -> B -> bool) x l :
  bubble less (g x) (map g l) = map g (bubble (fun x y => less (g x) (g y)) x l).
Proof. induction l as [|y l IH]; simpl; [done|]. case_match; simpl; by rewrite ?IH. Qed.

Lemma SliceStable_map {A B} (g : A -> B) (less : B -> B -> bool) l :
  SliceStable less (map g l) = map g (SliceStable (fun x y => less (g x) (g y)) l).
Proof.
  unfold SliceStable, insertionSort_rev. rewrite map_rev. f_equal.
  change (@nil B) with (map g []) at 1. generalize (@nil A).
  induction l as [|x l IH]; intros acc; simpl; [done|]. by rewrite bubble_map, IH.
Qed.

(** The result depends only on how the elements of the list compare. *)
Lemma SliceStable_ext {A} (less less' : A -> A -> bool) l :
  (forall x y, x ∈ l -> y ∈ l -> less x y = less' x y) -> SliceStable less l = SliceStable less' l.
Proof.
  intros E. unfold SliceStable, insertionSort_rev. f_equal.
  assert (Hb : forall x acc, (forall y, y ∈ acc -> less x y = less' x y) ->
                bubble less x acc = bubble less' x acc).
  { intros x acc. induction acc as [|y acc IH]; intros H; simpl; [done|].
    rewrite H by (by left). rewrite IH; [done|]. intros z Hz. apply H. by right. }
  assert (Hf : forall k acc, (forall x, x ∈ k -> x ∈ l) -> (forall y, y ∈ acc -> y ∈ l) ->
    fold_left (fun racc x => bubble less x racc) k acc =
    fold_left (fun racc x => bubble less' x racc) k acc).
  { induction k as [|x k IH]; intros acc Hk Ha; simpl; [done|].
    rewrite (Hb x acc) by (intros y Hy; apply E; [apply Hk; by left|auto]).
    apply IH; [intros; apply Hk; by right|]. intros y Hy.
    rewrite bubble_perm in Hy. apply elem_of_cons in Hy as [->|Hy]; [apply Hk; by left|auto]. }
  apply Hf; [done|]. intros y Hy. by apply elem_of_nil in Hy.
Qed.
