(* ===== verification/Interfaces.v ===== *)
(** * Interfaces of the packages outside this repository

    The repository is written against github.com/arcology-network/common-lib,
    go-ethereum and a few other modules whose sources are not part of it.
    Each class below is the part of such a package that the repository calls:
    first the operations, as parameters, then, in a class of its own, the
    documented behaviour the theorems rely on.  Concrete instances, used to
    evaluate the model on examples, are in Reference.v. *)
From S2P Require Import Prelude GoString.

(** ** crdt type identifiers (commutative.PATH, noncommutative.BYTES, ...) *)
Class TypeIDs := {
  PATH : Z;
  UINT64 : Z;
  UINT256 : Z;
  INT64 : Z;              (* commutative.INT64 *)
  STRING : Z;
  BIGINT : Z;
  BYTES : Z;
  INT64_NC : Z;           (* noncommutative.INT64 *)
}.

(** ** exp/slice.  A helper that filters in place through a pointer to a slice
    is given by what the slice holds afterwards and, where the source keeps a
    second slice header on the same array, by what that header then sees. *)
Class SliceLib := {
  slice_RemoveIf : forall {A}, (A -> bool) -> list A -> list A;
  slice_RemoveIf_alias : forall {A}, (A -> bool) -> list A -> list A;
  (* (moved, kept) *)
  slice_MoveIf : forall {A}, (A -> bool) -> list A -> list A * list A;
  slice_MoveIf_alias : forall {A}, (A -> bool) -> list A -> list A;
  (* ((moved keys, moved values), (kept keys, kept values)) *)
  slice_MoveBothIf : forall {A B}, (A -> B -> bool) -> list A -> list B ->
    (list A * list B) * (list A * list B);
  slice_SortBy1st : forall {A B}, (A -> A -> bool) -> list A -> list B -> list A * list B;
  slice_ParallelTransform : forall {S A B}, (A -> Go S B) -> list A -> Go S (list B);
  slice_ConcateDo : forall {A B}, list A -> (A -> Z) -> (A -> list B) -> list B;
}.

Class SliceLaws (SL : SliceLib) : Prop := {
  RemoveIf_spec : forall {A} (p : A -> bool) l,
    slice_RemoveIf p l = List.filter (fun x => negb (p x)) l;
  RemoveIf_alias_id : forall {A} (p : A -> bool) l,
    (forall x, List.In x l -> p x = false) -> slice_RemoveIf_alias p l = l;
  MoveIf_spec : forall {A} (p : A -> bool) l,
    slice_MoveIf p l = (List.filter p l, List.filter (fun x => negb (p x)) l);
  MoveIf_alias_id : forall {A} (p : A -> bool) l,
    (forall x, List.In x l -> p x = false) -> slice_MoveIf_alias p l = l;
  MoveBothIf_spec : forall {A B} (p : A -> B -> bool) ks vs, length ks = length vs ->
    slice_MoveBothIf p ks vs =
      (split (List.filter (fun kv => p kv.1 kv.2) (combine ks vs)),
       split (List.filter (fun kv => negb (p kv.1 kv.2)) (combine ks vs)));
  SortBy1st_perm : forall {A B} (lt : A -> A -> bool) (ks : list A) (vs : list B),
    length ks = length vs ->
    length (slice_SortBy1st lt ks vs).1 = length (slice_SortBy1st lt ks vs).2 /\
    Permutation (combine (slice_SortBy1st lt ks vs).1 (slice_SortBy1st lt ks vs).2)
      (combine ks vs);
  SortBy1st_sorted : forall {A B} (lt : A -> A -> bool) (ks : list A) (vs : list B),
    length ks = length vs ->
    (forall x y z, lt x y = true -> lt y z = true -> lt x z = true) ->
    (forall x, lt x x = false) ->
    (forall x y, lt x y = false -> lt y x = false -> x = y) ->
    StronglySorted (fun x y => lt y x = false) (slice_SortBy1st lt ks vs).1;
  (* for callbacks that only read the shared store *)
  ParallelTransform_map : forall {S A B} (f : A -> Go S B) (g : A -> B) l s,
    (forall x, List.In x l -> f x s = Ret (g x, s)) ->
    slice_ParallelTransform f l s = Ret (map g l, s);
  ConcateDo_concat : forall {A B} (l : list A) (size : A -> Z) (f : A -> list B),
    (forall x, size x = Z.of_nat (length (f x))) -> slice_ConcateDo l size f = List.concat (map f l);
}.

(** ** storage/cache and storage/interface.ReadWriteStore: the stores the
    writers commit to.  [C] is the state of the store. *)
Class CacheLib (V C : Type) := {
  cache_Get : C -> string -> option V;
  cache_DeleteBatch : list string -> C -> C;
  cache_SetBatch : list string -> list V -> C -> C;
  cache_Evict : C -> C;
}.
Class CacheLaws {V C} (CaL : CacheLib V C) : Prop := {
  cache_Get_DeleteBatch : forall ks c k,
    cache_Get (cache_DeleteBatch ks c) k = if decide (k ∈ ks) then None else cache_Get c k;
  cache_Get_SetBatch : forall ks vs c k, length ks = length vs ->
    cache_Get (cache_SetBatch ks vs c) k =
      match List.find (fun kv => bool_decide (kv.1 = k)) (rev (combine ks vs)) with
      | Some kv => Some kv.2
      | None => cache_Get c k
      end;
  (* eviction may drop entries, but changes none *)
  cache_Get_Evict : forall c k v, cache_Get (cache_Evict c) k = Some v -> cache_Get c k = Some v;
}.

Class RWStoreLib (V C : Type) := {
  rw_Get : C -> string -> option V;
  rw_DeleteBatch : list string -> C -> C;
  (* one error per key, None for success *)
  rw_SetBatch : list string -> list V -> C -> list (option string) * C;
}.
Class RWStoreLaws {V C} (RW : RWStoreLib V C) : Prop := {
  rw_Get_DeleteBatch : forall ks c k,
    rw_Get (rw_DeleteBatch ks c) k = if decide (k ∈ ks) then None else rw_Get c k;
  rw_Get_SetBatch : forall ks vs c c' errs k, length ks = length vs ->
    rw_SetBatch ks vs c = (errs, c') -> (forall e, List.In e errs -> e = None) ->
    rw_Get c' k =
      match List.find (fun kv => bool_decide (kv.1 = k)) (rev (combine ks vs)) with
      | Some kv => Some kv.2
      | None => rw_Get c k
      end;
}.

(** ** exp/map.  A Go map is walked in an order the program cannot rely on. *)
Class MapLib := {
  map_KVs : forall {K A} `{Countable K}, gmap K A -> list K * list A;
}.
Definition map_Values `{MapLib} {K A} `{Countable K} (m : gmap K A) : list A := (map_KVs m).2.
Definition map_Keys `{MapLib} {K A} `{Countable K} (m : gmap K A) : list K := (map_KVs m).1.

Class MapLaws (ML : MapLib) : Prop := {
  KVs_length : forall {K A} `{Countable K} (m : gmap K A),
    length (map_KVs m).1 = length (map_KVs m).2;
  KVs_perm : forall {K A} `{Countable K} (m : gmap K A),
    Permutation (combine (map_KVs m).1 (map_KVs m).2) (map_to_list m);
}.

(** ** crdt/common.CRDT and crdt/statecell.StateCell

    [any]: what an interface value of the stores can hold when it is not nil: a
    typed CRDT, or the raw bytes a backend returned. *)
Inductive any (crdt : Type) : Type :=
| IsCRDT (v : crdt)
| IsBytes (b : bytes).
Arguments IsCRDT {crdt} v.
Arguments IsBytes {crdt} b.

(** One operation per method the repository calls.  [cell_Preload get k] is
    [v.Value().(CRDT).Preload(k, store)] for a store read with [get]. *)
Class CellLib (crdt cell : Type) := {
  cell_zero : cell;
  (* Init(tx, path, reads, writes, deltaWrites, value, preexists) *)
  cell_Init : Z -> string -> Z -> Z -> Z -> option (any crdt) -> bool -> cell -> cell;
  (* NewStateCell(tx, path, reads, writes, deltaWrites, value, nil) *)
  NewStateCell : Z -> string -> Z -> Z -> Z -> option crdt -> cell;
  GetPath : cell -> option string;
  SetPath : option string -> cell -> cell;
  GetTx : cell -> Z;
  Value : cell -> option (any crdt);
  SetValue : option (any crdt) -> cell -> cell;
  IncrementWrites : Z -> cell -> cell;
  IsBlockBound : cell -> bool;
  SetBlockBound : bool -> cell -> cell;
  IsCommitted : cell -> bool;
  PathLookupOnly : cell -> bool;
  IfSkipConflictCheck : cell -> bool;
  DebugSetPreexist : bool -> cell -> cell;
  (* the receiver after ApplyDelta, or None for an error *)
  ApplyDelta : cell -> list cell -> option cell;
  crdt_Preload : (string -> option (any crdt)) -> string -> crdt -> crdt;
}.

Class CellLaws {crdt cell : Type} (CL : CellLib crdt cell) : Prop := {
  Init_path : forall tx p r w d v b c, GetPath (cell_Init tx p r w d v b c) = Some p;
  Init_value : forall tx p r w d v b c, Value (cell_Init tx p r w d v b c) = v;
  New_path : forall tx p r w d v, GetPath (NewStateCell tx p r w d v) = Some p;
  SetPath_path : forall p c, GetPath (SetPath p c) = p;
  SetPath_tx : forall p c, GetTx (SetPath p c) = GetTx c;
  SetPath_value : forall p c, Value (SetPath p c) = Value c;
  SetPath_skip : forall p c, IfSkipConflictCheck (SetPath p c) = IfSkipConflictCheck c;
  SetPath_blockbound : forall p c, IsBlockBound (SetPath p c) = IsBlockBound c;
  SetValue_value : forall v c, Value (SetValue v c) = v;
  SetValue_path : forall v c, GetPath (SetValue v c) = GetPath c;
  SetValue_tx : forall v c, GetTx (SetValue v c) = GetTx c;
  SetValue_skip : forall v c, IfSkipConflictCheck (SetValue v c) = IfSkipConflictCheck c;
  IncrementWrites_path : forall n c, GetPath (IncrementWrites n c) = GetPath c;
  IncrementWrites_value : forall n c, Value (IncrementWrites n c) = Value c;
  SetBlockBound_path : forall b c, GetPath (SetBlockBound b c) = GetPath c;
  SetBlockBound_value : forall b c, Value (SetBlockBound b c) = Value c;
  DebugSetPreexist_path : forall b c, GetPath (DebugSetPreexist b c) = GetPath c;
  ApplyDelta_path : forall c ds c', ApplyDelta c ds = Some c' -> GetPath c' = GetPath c;
}.

(** ** storage/indexer.UnorderedIndexer.  The three callbacks are: the key of
    a transition and whether it is indexed at all; the value of a key seen for
    the first time; the value of a known key.  [idx_order] is the order in
    which [ParallelForeachDo] happens to reach the keys. *)
Class IndexerLib := {
  idx_Import : forall {S K V T : Type} `{Countable K},
    (T -> Go S (K * bool)) -> (K -> T -> Go S V) -> (K -> T -> V -> V) ->
    list T -> gmap K V -> Go S (gmap K V);
  idx_order : forall {K V : Type} `{Countable K}, gmap K V -> list K;
}.
Class IndexerLaws (IL : IndexerLib) : Prop := {
  Import_one_by_one : forall {S K V T : Type} `{Countable K}
      (key : T -> Go S (K * bool)) (init : K -> T -> Go S V) (upd : K -> T -> V -> V) ts m s,
    idx_Import key init upd ts m s =
      gfold (fun m v =>
        let! '(k, ok) := key v in
        if ok : bool then
          match m !! k with
          | Some x => gret (<[k := upd k v x]> m)
          | None => let! x := init k v in gret (<[k := x]> m)
          end
        else gret m) m ts s;
  order_perm : forall {K V : Type} `{Countable K} (m : gmap K V),
    Permutation (idx_order m) (map fst (map_to_list m));
}.

(** ** What the execution cache uses of the typed values.  [raw] is what a CRDT
    or a cell returns from [Get]: a Go value of its own kind, among them the
    key set of a container. *)
Class CrdtLib (crdt raw : Type) := {
  TypeID : crdt -> Z;
  MemSize : crdt -> Z;
  IsDeltaApplied : crdt -> bool;
  crdt_Get : crdt -> option raw;
  Limits : crdt -> option raw * option raw;
  crdt_New : crdt -> option raw -> option raw * option raw -> crdt;
  crdt_Clone : crdt -> crdt;
  (* v.( *noncommutative.Bytes ) *)
  as_Bytes : crdt -> option bytes;
  (* v.( *commutative.Path ), and its methods *)
  is_Path : crdt -> bool;
  new_Path : crdt;                      (* new(Path), a type hint *)
  Path_Exists : string -> crdt -> bool;
  Path_IsBlockBound : crdt -> bool;
  Path_View : crdt -> raw;
  (* v.( *softdeltaset.DeltaSet[string] ), and its methods *)
  is_DeltaSet : raw -> bool;
  ds_Length : raw -> Z;
  ds_KeyAt : Z -> raw -> option string;
  ds_Last : raw -> option string;
  ds_IdxOf : string -> raw -> Z;
}.

(** common-lib's test for a container path. *)
Class PathLib := { IsPath : string -> bool }.
Class PathLaws (PaL : PathLib) : Prop := {
  IsPath_suffix : forall p, IsPath p = HasSuffix p "/";
}.

(** The effects of the cells on the store they are in.  [cell_Set] is handed
    the store itself and may call it back. *)
Class CellEffects (S raw crdt : Type) := {
  cell_Set : Z -> string -> option (any crdt) -> nat -> Go S (option string);
  cell_Get : Z -> string -> nat -> Go S (option raw);
  (* the callback receives the cell and returns the accesses to count *)
  cell_Do : forall {A}, Z -> string -> (nat -> (Z * Z * Z) * A) -> nat -> Go S A;
  cell_CopyTo : nat -> Go S unit;
}.

(** exp/mempool: the pool of cells of an execution. *)
Class PoolLib (S : Type) := {
  pool_New : Go S nat;
  pool_Reset : Go S unit;
}.

(** crdt/statecell: operations on batches of cells.  A batch is passed as a
    slice of pointers. *)
Class CellBatchLib (S : Type) := {
  Sorter : list nat -> Go S (list nat);
  To_InterThreadAccess : list nat -> Go S (list nat);
  To_InterThreadTransition : list nat -> Go S (list nat);
}.
