(* ===== verification/Heap.v ===== *)
(** * The object store

    A [StateCell] pointer is a location; several slices, maps
    and indexes hold the same pointer, so a cell is read and written through
    its location.  [HeapLens] says where a component's state keeps them. *)
From S2P Require Import Prelude Interfaces.

Abbreviation loc := nat.

Class HeapLens (S cell : Type) := {
  heap_of : S -> gmap loc cell;
  with_heap : gmap loc cell -> S -> S;
}.
Class HeapLensLaws {S cell} (HL : HeapLens S cell) : Prop := {
  heap_with_heap : forall h s, heap_of (with_heap h s) = h;
  with_heap_heap : forall s, with_heap (heap_of s) s = s;
  with_heap_twice : forall h h' s, with_heap h (with_heap h' s) = with_heap h s;
}.

(** Two kinds of objects kept in the same state do not overlap. *)
Class LensIndep {S A B} (LA : HeapLens S A) (LB : HeapLens S B) : Prop := {
  indep_l : forall h s, heap_of (HeapLens := LA) (with_heap (HeapLens := LB) h s) = heap_of s;
  indep_r : forall h s, heap_of (HeapLens := LB) (with_heap (HeapLens := LA) h s) = heap_of s;
}.

(** A shared object of which there is one: the stores of a node. *)
Class ObjLens (S A : Type) := {
  obj_of : S -> A;
  with_obj : A -> S -> S;
}.
Class ObjLensLaws {S A} (OL : ObjLens S A) : Prop := {
  obj_with_obj : forall a s, obj_of (with_obj a s) = a;
  with_obj_obj : forall s, with_obj (obj_of s) s = s;
  with_obj_twice : forall a a' s, with_obj a (with_obj a' s) = with_obj a s;
}.
Class ObjIndep {S A B} (HA : HeapLens S A) (OB : ObjLens S B) : Prop := {
  heap_with_obj : forall b s, heap_of (with_obj b s) = heap_of s;
  obj_with_heap : forall h s, obj_of (with_heap h s) = obj_of s;
  with_heap_obj : forall h b s, with_heap h (with_obj b s) = with_obj b (with_heap h s);
}.

Section deref.
Context {S cell : Type} `{HeapLens S cell}.

Definition deref (l : loc) : Go S cell :=
  let! s := gget in gsome (heap_of s !! l).
Definition assign (l : loc) (c : cell) : Go S unit :=
  gmodify (fun s => with_heap (<[l := c]> (heap_of s)) s).
Definition update_cell (f : cell -> cell) (l : loc) : Go S unit :=
  let! c := deref l in assign l (f c).
(** [&c]: an object of its own. *)
Definition alloc (c : cell) : Go S loc :=
  let! s := gget in
  let l := fresh (dom (heap_of s)) in
  assign l c ;;; gret l.
(** The cells behind a slice of pointers. *)
Definition deref_all (ls : list loc) : Go S (list (loc * cell)) :=
  gmap_list (fun l => let! c := deref l in gret (l, c)) ls.

Context `{!HeapLensLaws H}.

Lemma deref_ret l s c s' : deref l s = Ret (c, s') <-> heap_of s !! l = Some c /\ s' = s.
Proof.
  unfold deref, gbind, gget, gsome. destruct (heap_of s !! l); simpl;
    unfold gret, gpanic; naive_solver.
Qed.
Lemma deref_eq l s c : heap_of s !! l = Some c -> deref l s = Ret (c, s).
Proof. intros E. by apply deref_ret. Qed.
Lemma assign_ret l c s u s' :
  assign l c s = Ret (u, s') <-> s' = with_heap (<[l := c]> (heap_of s)) s.
Proof. unfold assign, gmodify. destruct u. naive_solver. Qed.
Lemma update_cell_ret f l s u s' :
  update_cell f l s = Ret (u, s') <->
  exists c, heap_of s !! l = Some c /\ s' = with_heap (<[l := f c]> (heap_of s)) s.
Proof.
  unfold update_cell. rewrite gbind_ret. split.
  - intros (c & s1 & [Hc ->]%deref_ret & ->%assign_ret). eauto.
  - intros (c & Hc & ->). exists c, s. split; [by apply deref_ret|by apply assign_ret].
Qed.
Lemma alloc_ret c s l s' :
  alloc c s = Ret (l, s') <->
  l = fresh (dom (heap_of s)) /\ s' = with_heap (<[l := c]> (heap_of s)) s.
Proof. unfold alloc, assign, gmodify, gbind, gget, gret. naive_solver. Qed.
Lemma alloc_fresh c s l s' : alloc c s = Ret (l, s') -> heap_of s !! l = None.
Proof. intros [-> _]%alloc_ret. apply not_elem_of_dom, is_fresh. Qed.

Lemma gfold_deref ls acc s cs s' :
  gfold (fun acc l => let! b := (let! c := deref l in gret (l, c)) in gret (acc ++ [b])) acc ls s
    = Ret (cs, s') <->
  s' = s /\ exists rest, cs = acc ++ rest /\
    Forall2 (fun l lc => lc.1 = l /\ heap_of s !! l = Some lc.2) ls rest.
Proof.
  revert acc. induction ls as [|l ls IH]; intros acc; cbn [gfold].
  - rewrite gret_ret. split.
    + intros [-> ->]. split; [done|]. exists []. rewrite app_nil_r. done.
    + intros [-> (rest & -> & HF)]. inversion HF. by rewrite app_nil_r.
  - rewrite gbind_ret. split.
    + intros (acc' & s1 & E & Hf).
      apply gbind_ret in E as (b & s2 & E1 & [<- <-]%gret_ret).
      apply gbind_ret in E1 as (c & s3 & [Hc ->]%deref_ret & [<- <-]%gret_ret).
      apply IH in Hf as [-> (rest & -> & HF)]. split; [done|].
      exists ((l, c) :: rest). rewrite <- app_assoc. split; [done|]. by constructor.
    + intros [-> (rest & -> & HF)].
      inversion HF as [|? [l' c] ? rest' [Hl Hc] HF']; simpl in Hl, Hc; subst l' rest.
      exists (acc ++ [(l, c)]), s. split.
      * unfold gbind. by rewrite (deref_eq l s c Hc).
      * apply IH. split; [done|]. exists rest'. by rewrite <- app_assoc.
Qed.

Lemma deref_all_ret ls s cs s' :
  deref_all ls s = Ret (cs, s') <->
  s' = s /\ Forall2 (fun l lc => lc.1 = l /\ heap_of s !! l = Some lc.2) ls cs.
Proof.
  unfold deref_all, gmap_list. rewrite gfold_deref. naive_solver.
Qed.
End deref.

(** The cell behind a pointer known to be valid. *)
Definition cell_at {crdt cell} `{CellLib crdt cell} (h : gmap loc cell) (l : loc) : cell :=
  default cell_zero (h !! l).
Definition valid {cell} (h : gmap loc cell) (ls : list loc) : Prop :=
  forall l, l ∈ ls -> is_Some (h !! l).

Section deref_valid.
Context {S crdt cell : Type} `{CellLib crdt cell} `{HeapLensLaws S cell}.

Lemma cell_at_some h l : is_Some (h !! l) -> h !! l = Some (cell_at h l).
Proof. intros [c E]. unfold cell_at. by rewrite E. Qed.
Lemma cell_at_eq h l c : h !! l = Some c -> cell_at h l = c.
Proof. intros E. unfold cell_at. by rewrite E. Qed.

Lemma deref_valid l s :
  is_Some (heap_of s !! l) -> deref l s = Ret (cell_at (heap_of s) l, s).
Proof. intros E. apply deref_eq. by apply cell_at_some. Qed.

Lemma deref_all_valid ls s :
  valid (heap_of s) ls ->
  deref_all ls s = Ret (map (fun l => (l, cell_at (heap_of s) l)) ls, s).
Proof.
  intros Hv. apply deref_all_ret. split; [done|].
  induction ls as [|l ls IH]; simpl; constructor.
  - split; [done|]. apply cell_at_some, Hv. by left.
  - apply IH. intros l' Hl'. apply Hv. by right.
Qed.

(** A loop that replaces each of some distinct cells by its image. *)
Definition alter_all (f : cell -> cell) (ls : list loc) (h : gmap loc cell) : gmap loc cell :=
  fold_left (fun h l => alter f l h) ls h.
Lemma alter_all_lookup f ls h l :
  NoDup ls -> alter_all f ls h !! l = if decide (l ∈ ls) then f <$> h !! l else h !! l.
Proof.
  revert h. unfold alter_all.
  induction ls as [|x ls IH]; intros h Hnd; simpl.
  - done.
  - apply NoDup_cons in Hnd as [Hx Hnd]. rewrite IH by done.
    destruct (decide (l = x)) as [->|Hne].
    + rewrite decide_False, decide_True by (done || by left). by rewrite lookup_alter_eq.
    + rewrite lookup_alter_ne by done.
      destruct (decide (l ∈ ls)); [rewrite decide_True by (by right)|
        rewrite decide_False by (by intros [?|?]%elem_of_cons)]; done.
Qed.
Lemma alter_valid f h l :
  is_Some (h !! l) -> alter f l h = <[l := f (cell_at h l)]> h.
Proof.
  intros Hl. apply map_eq. intros i. destruct (decide (l = i)) as [->|Hne].
  - rewrite lookup_alter_eq, lookup_insert_eq, cell_at_some; done.
  - by rewrite lookup_alter_ne, lookup_insert_ne.
Qed.
Lemma foreach_update_valid f ls s :
  valid (heap_of s) ls ->
  gforeach (update_cell f) ls s = Ret (tt, with_heap (alter_all f ls (heap_of s)) s).
Proof.
  revert s. induction ls as [|l ls IH]; intros s Hv; simpl.
  - unfold gret, alter_all. simpl. by rewrite with_heap_heap.
  - assert (Hl : is_Some (heap_of s !! l)) by (apply Hv; by left).
    assert (E : update_cell f l s =
      Ret (tt, with_heap (<[l := f (cell_at (heap_of s) l)]> (heap_of s)) s))
      by (apply update_cell_ret; eauto using cell_at_some).
    unfold gbind at 1. rewrite E, IH.
    + rewrite heap_with_heap, with_heap_twice. do 3 f_equal.
      unfold alter_all. simpl. f_equal.
      by rewrite alter_valid.
    + intros l' Hl'. rewrite heap_with_heap. destruct (decide (l = l')) as [->|].
      * rewrite lookup_insert_eq. eauto.
      * rewrite lookup_insert_ne by done. apply Hv. by right.
Qed.

(** A loop whose iterations work on disjoint sets of cells.  Each iteration
    leaves [fin] in its own set whatever the others have done; so does the
    loop, in whatever order the keys come. *)
Lemma gforeach_regions {K} (f : K -> Go S unit) (region : K -> list loc)
    (h0 : gmap loc cell) (fin : loc -> option cell) ks s :
  NoDup ks ->
  (forall k k' l, k ∈ ks -> k' ∈ ks -> l ∈ region k -> l ∈ region k' -> k = k') ->
  (forall k s, k ∈ ks -> (forall l, l ∈ region k -> heap_of s !! l = h0 !! l) ->
     exists h', f k s = Ret (tt, with_heap h' s) /\
       forall l, h' !! l = if decide (l ∈ region k) then fin l else heap_of s !! l) ->
  (forall k l, k ∈ ks -> l ∈ region k -> heap_of s !! l = h0 !! l) ->
  exists h', gforeach f ks s = Ret (tt, with_heap h' s) /\
    (forall k l, k ∈ ks -> l ∈ region k -> h' !! l = fin l) /\
    (forall l, (forall k, k ∈ ks -> l ∉ region k) -> h' !! l = heap_of s !! l).
Proof.
  revert s. induction ks as [|k ks IH]; intros s Hnd Hdis Hf Hh0; simpl.
  - exists (heap_of s). unfold gret. rewrite with_heap_heap. split; [done|].
    split; [|done]. intros k l Hk. by apply elem_of_nil in Hk.
  - apply NoDup_cons in Hnd as [Hk Hnd].
    destruct (Hf k s) as (h1 & E1 & H1); [by left|intros; by eapply Hh0; [left|]|].
    destruct (IH (with_heap h1 s)) as (h2 & E2 & Hin & Hout).
    + done.
    + intros k1 k2 l ? ?. apply Hdis; by right.
    + intros k' s' Hk'. apply Hf. by right.
    + intros k' l Hk' Hl. rewrite heap_with_heap, H1. rewrite decide_False.
      * apply (Hh0 k'); [by right|done].
      * intros Hl'. assert (k = k') as ->
          by (by eapply (Hdis k k' l); [left|right| |]). done.
    + exists h2. unfold gbind. rewrite E1, E2, with_heap_twice. split; [done|]. split.
      * intros k' l [->|Hk']%elem_of_cons Hl; [|by eapply Hin].
        destruct (decide (Exists (fun k' => l ∈ region k') ks)) as [He|He].
        -- apply Exists_exists in He as (k'' & Hk'' & Hl'').
           by eapply (Hin k'').
        -- rewrite Hout, heap_with_heap, H1, decide_True; [done|done|].
           intros k'' Hk'' Hl''. apply He, Exists_exists. eauto.
      * intros l Hl. rewrite Hout, heap_with_heap, H1, decide_False; [done| |].
        -- apply Hl. by left.
        -- intros k' Hk'. apply Hl. by right.
Qed.
End deref_valid.

Ltac heap_inv :=
  repeat (go_inv; match goal with
  | H : deref _ _ = Ret _ |- _ => apply deref_ret in H as [? ?]; subst
  | H : assign _ _ _ = Ret _ |- _ => apply assign_ret in H; subst
  | H : update_cell _ _ _ = Ret _ |- _ => apply update_cell_ret in H as (? & ? & ?); subst
  end).
