(* ===== verification/Paths.v ===== *)
(** * common/: the path scheme and the platform's built-in paths

    [constants.go], [path_types.go], [platform.go]: every piece of state has a
    path [blcc://eth1.0/account/0x<40 hex digits>/...].  The module [PathTypes]
    holds the parsers of [path_types.go], [Platform] the table of built-in
    paths and the predicates the execution cache decides with. *)
From S2P Require Import Prelude GoString Interfaces.

(** ** constants.go *)
Module Constants.
Definition MAX_DEPTH : Z := 12.
Definition SYSTEM : Z := MaxInt32.
(** [iota] counts the constants of the block from 0. *)
Definition UNKNOWN : Z := 2.
Definition ARN_PATH : Z := 2.
Definition MIN_READ_SIZE : Z := 32.
Definition MIN_WRITE_SIZE : Z := 32.
Definition EXECUTION_PARALLELISM : Z := 32.
Definition DEFAULT_EXECUTION_PARALLELISM : Z := 0.
Definition ETH : string := "blcc://eth1.0/".
Definition ETH_ACCOUNT_PREFIX : string := ETH +:+ "account/".
Definition ETH_ACCOUNT_PREFIX_LENGTH : nat := len ETH_ACCOUNT_PREFIX.
Definition ETH_ACCOUNT_LENGTH : nat := 42.
Definition ETH_ACCOUNT_FULL_LENGTH : nat := ETH_ACCOUNT_PREFIX_LENGTH + ETH_ACCOUNT_LENGTH.
Definition ETH_NATIVE_PATH : string := "/native/".
Definition ETH_STORAGE_PREFIX : string := ETH_ACCOUNT_PREFIX +:+ "storage/".
Definition ETH_STORAGE_PREFIX_LENGTH : nat := len ETH_STORAGE_PREFIX + ETH_ACCOUNT_LENGTH.
Definition ETH_STORAGE_NATIVE_PREFIX_LENGTH : nat := ETH_STORAGE_PREFIX_LENGTH + len ETH_NATIVE_PATH.
Definition SELECTOR_LENGTH : nat := 4.
Definition SHORT_CONTRACT_ADDRESS_LENGTH : nat := 4.
Definition CALLEE_ID_LENGTH : nat := SHORT_CONTRACT_ADDRESS_LENGTH + SELECTOR_LENGTH.
Definition LATEST_STATE_VERSION : Z := MaxUint64.
Definition PATH_ROOT : string := "/".
Definition PATH_CODE : string := "/code".
Definition PATH_NONCE : string := "/nonce".
Definition PATH_BALANCE : string := "/balance".
Definition PATH_FUNC_PROFILE : string := "/profiles/".
Definition PATH_STORAGE_ROOT : string := "/storage/".
Definition PATH_ARCO_CONTAINER : string := "container/".
Definition PATH_ETH_NATIVE : string := "native/".
Definition PATH_STORAGE_CONTAINER : string := PATH_STORAGE_ROOT +:+ PATH_ARCO_CONTAINER.
Definition PATH_STORAGE_NATIVE : string := PATH_STORAGE_ROOT +:+ PATH_ETH_NATIVE.
Definition PATH_PARALLELISM_DEGREE : string := "parallelism-degree".
Definition PATH_DEFERRED_PAYMENT : string := "prepayment".
Definition PATH_PREPAYERS : string := "prepayers/".
Definition PATH_CONFLICT_INFO : string := "conflicts/".
Definition MAX_NUM_CONFLICTS : Z := 256.
End Constants.
Import Constants.

Abbreviation slash := "/"%char.

(** ** path_types.go *)
Module PathTypes.
Definition ParseAccountAddr (acct : string) : string * string * string :=
  if decide (len acct < ETH_ACCOUNT_PREFIX_LENGTH + ETH_ACCOUNT_LENGTH)
  then (acct, "", "")
  else (str_take ETH_ACCOUNT_PREFIX_LENGTH acct,
        str_slice acct ETH_ACCOUNT_PREFIX_LENGTH (ETH_ACCOUNT_PREFIX_LENGTH + ETH_ACCOUNT_LENGTH),
        str_drop (ETH_ACCOUNT_PREFIX_LENGTH + ETH_ACCOUNT_LENGTH) acct).

Definition GetAccountAddr (path : string) : string :=
  let '(_, addr, _) := ParseAccountAddr path in addr.

Definition GetPathUnder (key prefix : string) : string :=
  if decide (ETH_ACCOUNT_PREFIX_LENGTH + ETH_ACCOUNT_LENGTH < len key) then
    let subKey := str_drop (ETH_ACCOUNT_PREFIX_LENGTH + ETH_ACCOUNT_LENGTH) key in
    if negb (String.eqb subKey prefix) && HasPrefix subKey prefix
    then str_drop (len prefix) subKey
    else ""
  else "".

(** The loop of [GetSegmentAt]: [rest] is [path[i:]]; the iteration with
    [rest = ""] is the one with [i == len(path)]. *)
Fixpoint segment_loop (path : string) (n : Z) (includeLeading includeTrailing : bool)
    (rest : string) (i : nat) (seg start : Z) : string * bool :=
  let end_ := match rest with "" => true | String c _ => Ascii.eqb c slash end in
  let found :=
    let segment := str_slice path (Z.to_nat start) i in
    let segment := if includeLeading then "/" +:+ segment else segment in
    let segment := if includeTrailing then segment +:+ "/" else segment in
    (segment, true) in
  let next seg start :=
    match rest with
    | "" => ("", false)
    | String _ rest' =>
        segment_loop path n includeLeading includeTrailing rest' (S i) seg start
    end in
  if (start =? -1)%Z then
    if negb end_ then next seg (Z.of_nat i) else next seg start
  else
    if end_ then
      let seg := (seg + 1)%Z in
      if (seg =? n)%Z then found else next seg (-1)%Z
    else next seg start.

Definition GetSegmentAt (path : string) (n : Z) (includeLeading includeTrailing : bool)
    : string * bool :=
  segment_loop path n includeLeading includeTrailing path 0 (-1) (-1).

Definition ShouldPersistToEth (path : string) : bool :=
  if decide (len path <= ETH_ACCOUNT_FULL_LENGTH + 1) then false
  else if HasSuffix path PATH_NONCE || HasSuffix path PATH_BALANCE || HasSuffix path PATH_CODE
  then true
  else if HasSuffix path "/" then false
  else let '(sub, ok) := GetSegmentAt path 5 false true in
       ok && String.eqb sub PATH_ETH_NATIVE.

Definition ShouldPersistToArco (path : string) : bool := true.

Definition GetParentPath (key : string) : string * string :=
  if (len key =? 0) || String.eqb key "/" then (key, key)
  else
    let cut := (LastIndexByte slash (str_take (len key - 1) key) + 1)%Z in
    let path := str_take (Z.to_nat cut) key in
    (path, str_drop (len path) key).

Definition IsEthAddress (path : string) : bool :=
  if negb (HasPrefix path "0x") then false
  else (len path =? ETH_ACCOUNT_LENGTH)
       || ((len path =? ETH_ACCOUNT_LENGTH + 1) && HasSuffix path "/").
End PathTypes.
Import PathTypes.

(** ** platform.go *)
Module Platform.
Section platform.
Context `{TypeIDs}.

Definition NewPlatform : gmap string Z :=
  list_to_map [(PATH_ROOT, PATH); (PATH_CODE, BYTES); (PATH_NONCE, UINT64);
    (PATH_BALANCE, UINT256); (PATH_FUNC_PROFILE, PATH); (PATH_STORAGE_ROOT, PATH);
    (PATH_STORAGE_CONTAINER, PATH); (PATH_STORAGE_NATIVE, PATH)].

(** [Hex2int] is common-lib's. *)
Definition ETHAccountShard (Hex2int : ascii -> Z) (numOfShard : Z) (key : string) : option Z :=
  if decide (len key < 24) then None
  else match String.get 22 key, String.get 23 key with
       | Some c0, Some c1 =>
           if (numOfShard =? 0)%Z then None
           else Some (Z.rem (Hex2int c0 * 16 + Hex2int c1) numOfShard)
       | _, _ => None
       end.

Definition GetDefault `{SliceLib} `{MapLib} (defaultPaths : gmap string Z) (acct : string)
    : list string * list Z :=
  let '(paths, typeIds) := map_KVs defaultPaths in
  let '(paths, typeIds) := slice_SortBy1st str_ltb paths typeIds in
  (map (fun path => ETH_ACCOUNT_PREFIX +:+ (acct +:+ path)) paths, typeIds).

Definition IsSysPath (defaultPaths : gmap string Z) (path : string) : bool :=
  if decide (len path <= ETH_ACCOUNT_FULL_LENGTH) then true
  else
    let subPath := str_drop ETH_ACCOUNT_FULL_LENGTH path in
    bool_decide (is_Some (defaultPaths !! subPath)).

Definition IsContainerPath (path : string) : bool := HasSuffix path "/container/".

Definition IsImmediateChildOfSysPath (defaultPaths : gmap string Z) (path : string) : bool :=
  if IsSysPath defaultPaths path then true
  else
    let '(parent, _) := GetParentPath path in
    if IsContainerPath parent then false
    else IsSysPath defaultPaths parent || negb (ContainsByte slash parent).
End platform.
End Platform.
