(* ===== verification/PathsTheory.v ===== *)
(** * Theory of the path scheme (Paths.v)

    A reference splitter [segments], the equivalence of the index loop of
    [GetSegmentAt] with it, the split of a path into parent and child, and the
    consequences for the Ethereum/Arcology routing of a path. *)
From S2P Require Import Prelude GoString Interfaces Paths.
Import Constants PathTypes Platform.

(** ** Segments: the reference definition *)
Fixpoint split_slash (s : string) : list string :=
  match s with
  | "" => [""]
  | String c r =>
      if Ascii.eqb c slash then "" :: split_slash r
      else match split_slash r with
           | h :: t => String c h :: t
           | [] => [String c ""]
           end
  end.
Definition nonempty (s : string) : bool := negb (String.eqb s "").
Definition segments (s : string) : list string := List.filter nonempty (split_slash s).

(** The segment at index [k], with the separators the caller asked for. *)
Definition nth_segment (lead trail : bool) (l : list string) (k : Z) : string * bool :=
  match (if (k <? 0)%Z then None else l !! Z.to_nat k) with
  | Some s =>
      let s := if lead then "/" +:+ s else s in
      (if trail then s +:+ "/" else s, true)
  | None => ("", false)
  end.

(** A key directly below a container: nonempty, with no separator except
    possibly at its end. *)
Definition child_key (c : string) : Prop :=
  c <> "" /\ ContainsByte slash (str_take (len c - 1) c) = false.

(** The root of an account's paths. *)
Definition account_root (acct : string) : string := ETH_ACCOUNT_PREFIX +:+ acct.
Definition account_name (acct : string) : Prop :=
  len acct = ETH_ACCOUNT_LENGTH /\ ContainsByte slash acct = false.

Lemma split_slash_cons s : exists h t, split_slash s = h :: t.
Proof.
  destruct s as [|c r]; simpl; [eauto|]. case_match; [eauto|]. case_match; eauto.
Qed.

Lemma split_slash_app s t : split_slash (s +:+ String slash t) = split_slash s ++ split_slash t.
Proof.
  induction s as [|c s IH]; simpl; [done|]. rewrite IH.
  destruct (Ascii.eqb c slash); [done|].
  destruct (split_slash_cons s) as (h & r & ->). done.
Qed.

Lemma segments_app s t : segments (s +:+ String slash t) = segments s ++ segments t.
Proof. unfold segments. by rewrite split_slash_app, List.filter_app. Qed.

Lemma split_slash_noslash s : ContainsByte slash s = false -> split_slash s = [s].
Proof.
  induction s as [|c s IH]; [done|]. intros [Hc Hs]%ContainsByte_false_cons.
  cbn [split_slash]. rewrite (proj2 (Ascii.eqb_neq c slash)) by congruence. by rewrite IH.
Qed.

Lemma segments_noslash s : s <> "" -> ContainsByte slash s = false -> segments s = [s].
Proof.
  intros Hne Hs. unfold segments. rewrite split_slash_noslash by done. cbn [List.filter].
  unfold nonempty. by rewrite (proj2 (String.eqb_neq s "")).
Qed.

Lemma nth_segment_nil l t k : nth_segment l t [] k = ("", false).
Proof. unfold nth_segment. by case_match; [case_match|]. Qed.
Lemma nth_segment_cons l t x xs k :
  nth_segment l t (x :: xs) k =
    if (k =? 0)%Z then nth_segment l t [x] 0 else nth_segment l t xs (k - 1).
Proof.
  destruct (Z.eqb_spec k 0) as [->|Hk]; [done|]. unfold nth_segment.
  destruct (Z.ltb_spec k 0); destruct (Z.ltb_spec (k - 1) 0); try lia; [done|].
  replace (Z.to_nat k) with (S (Z.to_nat (k - 1))) by lia. done.
Qed.

Lemma str_slice_snoc pre c r k :
  k <= len pre ->
  str_slice (pre +:+ String c r) k (S (len pre)) =
    str_slice (pre +:+ String c r) k (len pre) +:+ String c "".
Proof.
  intros Hk. destruct (str_split_at k pre Hk) as (a & b & -> & <-).
  rewrite <- !str_app_assoc. rewrite (str_slice_mid a b (String c r) (len a) (len (a +:+ b))) by (rewrite ?len_app; lia).
  replace (b +:+ String c r) with ((b +:+ String c "") +:+ r) by (by rewrite <- str_app_assoc).
  rewrite (str_slice_mid a (b +:+ String c "") r); [done|done|].
  rewrite !len_app. simpl. lia.
Qed.

Lemma nonempty_app_r s c : nonempty (s +:+ String c "") = true.
Proof. by destruct s. Qed.

(** The loop, between segments ([start = -1]) and inside one. *)
Lemma segment_loop_spec lead trail n rest : forall pre seg,
  (segment_loop (pre +:+ rest) n lead trail rest (len pre) seg (-1) =
     nth_segment lead trail (segments rest) (n - (seg + 1))) /\
  (forall k, k < len pre ->
   segment_loop (pre +:+ rest) n lead trail rest (len pre) seg (Z.of_nat k) =
     match split_slash rest with
     | h :: t => nth_segment lead trail
                   ((str_slice (pre +:+ rest) k (len pre) +:+ h) :: List.filter nonempty t)
                   (n - (seg + 1))
     | [] => ("", false)
     end).
Proof.
  induction rest as [|c rest IH]; intros pre seg.
  - split.
    + simpl. by rewrite nth_segment_nil.
    + intros k Hk. cbn [segment_loop split_slash List.filter].
      rewrite (proj2 (Z.eqb_neq (Z.of_nat k) (-1))) by lia.
      rewrite nth_segment_cons, nth_segment_nil, Nat2Z.id, !str_app_nil_r.
      destruct (Z.eqb_spec (seg + 1) n); destruct (Z.eqb_spec (n - (seg + 1)) 0); try lia; done.
  - assert (Hp : pre +:+ String c rest = (pre +:+ String c "") +:+ rest)
      by (by rewrite <- str_app_assoc).
    assert (Hl : S (len pre) = len (pre +:+ String c "")) by (rewrite len_app; simpl; lia).
    split.
    + cbn [segment_loop]. rewrite Z.eqb_refl. unfold segments at 1. cbn [split_slash].
      destruct (Ascii.eqb_spec c slash) as [->|Hc]; cbn [negb List.filter].
      * rewrite Hp, Hl. by rewrite (proj1 (IH _ seg)).
      * rewrite Hp, Hl.
        rewrite (proj2 (IH (pre +:+ String c "") seg)) by (rewrite len_app; simpl; lia).
        destruct (split_slash_cons rest) as (h & t & ->). cbn [List.filter].
        replace (nonempty (String c h)) with true by done. do 2 f_equal.
        rewrite <- Hp, <- Hl, str_slice_snoc by lia.
        unfold str_slice at 1. by rewrite Nat.sub_diag, str_take_0.
    + intros k Hk. cbn [segment_loop split_slash].
      rewrite (proj2 (Z.eqb_neq (Z.of_nat k) (-1))) by lia.
      destruct (Ascii.eqb_spec c slash) as [->|Hc]; cbn [List.filter].
      * rewrite nth_segment_cons, Nat2Z.id, !str_app_nil_r.
        destruct (Z.eqb_spec (seg + 1) n); destruct (Z.eqb_spec (n - (seg + 1)) 0); try lia;
          [done|].
        rewrite Hp, Hl, (proj1 (IH _ (seg + 1)%Z)). unfold segments. f_equal. lia.
      * rewrite Hp, Hl.
        rewrite (proj2 (IH (pre +:+ String c "") seg)) by (rewrite len_app; simpl; lia).
        destruct (split_slash_cons rest) as (h & t & ->).
        rewrite <- Hp, <- Hl, str_slice_snoc by lia. by rewrite <- str_app_assoc.
Qed.

(** ** GetSegmentAt *)

Lemma GetSegmentAt_eq path n lead trail :
  GetSegmentAt path n lead trail = nth_segment lead trail (segments path) n.
Proof.
  unfold GetSegmentAt. pose proof (proj1 (segment_loop_spec lead trail n path "" (-1))) as E.
  cbn [String.append String.length] in E. rewrite E. f_equal. lia.
Qed.

(** C36: [GetSegmentAt] returns exactly the [n]-th nonempty component of the
    path split at the separator, decorated as asked, and [("", false)] for
    every index (negative ones included) at which there is none. *)
Theorem GetSegmentAt_spec path n lead trail :
  GetSegmentAt path n lead trail = nth_segment lead trail (segments path) n.
Proof. apply GetSegmentAt_eq. Qed.

(** ** GetParentPath *)

Lemma str_take_pred_app p c : c <> "" ->
  str_take (len (p +:+ c) - 1) (p +:+ c) = p +:+ str_take (len c - 1) c.
Proof.
  intros Hc. assert (len c <> 0) by (by rewrite len_zero).
  rewrite len_app. induction p as [|d p IH]; [done|].
  cbn [String.append String.length]. replace (S (len p) + len c - 1) with (S (len p + len c - 1)) by lia.
  cbn [str_take]. by rewrite IH.
Qed.

Lemma GetParentPath_join p c :
  (p = "" \/ HasSuffix p "/" = true) -> child_key c -> p +:+ c <> "/" ->
  GetParentPath (p +:+ c) = (p, c).
Proof.
  intros Hp [Hc Hno] Hroot. unfold GetParentPath.
  assert (Hl : len c <> 0) by (by rewrite len_zero).
  rewrite (proj2 (Nat.eqb_neq _ _)) by (rewrite len_app; lia).
  rewrite (proj2 (String.eqb_neq _ _)) by done. cbn [orb].
  rewrite str_take_pred_app by done.
  destruct Hp as [->|Hp].
  - cbn [String.append]. rewrite (proj2 (LastIndexByte_none _ _) Hno). cbn.
    by rewrite str_take_0, str_drop_0.
  - apply HasSuffix_spec in Hp as [q ->].
    rewrite <- str_app_assoc. cbn [String.append]. rewrite LastIndexByte_app by done.
    replace (Z.to_nat (Z.of_nat (len q) + 1)) with (len (q +:+ "/")) by (rewrite len_app; simpl; lia).
    by rewrite str_take_app, str_drop_app.
Qed.

(** Every other key is a parent and a child key. *)
Lemma GetParentPath_split key : key <> "" -> key <> "/" ->
  exists p c, key = p +:+ c /\ (p = "" \/ HasSuffix p "/" = true) /\ child_key c /\
    GetParentPath key = (p, c) /\ len p < len key.
Proof.
  intros Hne Hroot. assert (Hl : len key <> 0) by (by rewrite len_zero).
  enough (exists p c, key = p +:+ c /\ (p = "" \/ HasSuffix p "/" = true) /\ child_key c)
    as (p & c & -> & Hp & Hc).
  { exists p, c. split; [done|]. split; [done|]. split; [done|].
    split; [by apply GetParentPath_join|]. destruct Hc as [Hc _].
    rewrite len_app. assert (len c <> 0) by (by rewrite len_zero). lia. }
  set (s := str_take (len key - 1) key).
  assert (Hs : key = s +:+ str_drop (len key - 1) key) by (unfold s; by rewrite str_take_drop).
  assert (Hlast : len (str_drop (len key - 1) key) = 1) by (rewrite len_drop; lia).
  set (e := str_drop (len key - 1) key) in *. clearbody s e.
  pose proof (LastIndexByte_range slash s) as R.
  destruct (decide (LastIndexByte slash s = -1)%Z) as [E|E].
  - exists "", key. split; [done|]. split; [by left|]. split; [done|].
    rewrite Hs at 2. rewrite Hs, len_app, Hlast.
    rewrite str_take_app by lia. by apply LastIndexByte_none.
  - destruct (LastIndexByte_some slash s (Z.to_nat (LastIndexByte slash s))) as (t & u & -> & Ht & Hu);
      [lia|].
    exists (t +:+ "/"), (u +:+ e). split; [|split; [|split]].
    + rewrite Hs, <- !str_app_assoc. done.
    + right. apply HasSuffix_spec. eauto.
    + intros He. apply (f_equal len) in He. rewrite len_app, Hlast in He. simpl in He. lia.
    + rewrite len_app, Hlast, str_take_app by lia. done.
Qed.

Lemma child_key_last c : child_key c -> HasSuffix c "/" = false -> ContainsByte slash c = false.
Proof.
  intros [Hc Hno] Hs. assert (Hl : len c <> 0) by (by rewrite len_zero).
  rewrite <- (str_take_drop (len c - 1) c), ContainsByte_app, Hno. cbn [orb].
  destruct (str_drop (len c - 1) c) as [|a [|b t]] eqn:E; pose proof (f_equal len E) as El;
    rewrite len_drop in El; cbn [String.length] in El; try lia.
  cbn [ContainsByte]. rewrite orb_false_r. destruct (Ascii.eqb_spec slash a) as [<-|Hne]; [|done].
  exfalso. apply not_true_iff_false in Hs. apply Hs, HasSuffix_spec. exists (str_take (len c - 1) c).
  by rewrite <- (str_take_drop (len c - 1) c) at 1; rewrite E.
Qed.

(** C37: every key but the empty one and the root is split by [GetParentPath]
    into a parent that is empty or ends with the separator and a nonempty
    child that contains no separator before its last character; the two parts
    concatenate to the key, so the parent is strictly shorter.  A key that does
    not end with the separator is cut behind its last one, as the comment says;
    a key that does is cut behind the one before, so that the parent of a
    container is not the container itself.  The empty key and the root are
    their own parent and child. *)
Theorem GetParentPath_spec key :
  match GetParentPath key with
  | (parent, child) =>
      if decide (key = "" \/ key = "/") then parent = key /\ child = key
      else parent +:+ child = key /\ (parent = "" \/ HasSuffix parent "/" = true) /\
           child_key child /\ len parent < len key /\
           (if HasSuffix key "/" then HasSuffix child "/" = true else ContainsByte slash child = false)
  end.
Proof.
  case_decide as Hk.
  - destruct Hk as [->| ->]; done.
  - assert (Hne : key <> "" /\ key <> "/") by naive_solver. destruct Hne as [Hne Hroot].
    destruct (GetParentPath_split key) as (p & c & -> & Hp & Hc & E & Hlt); [done|done|].
    rewrite E. do 4 (split; [done|]). rewrite HasSuffix_app by (destruct Hc as [Hc _], c; [done|simpl; lia]).
    destruct (HasSuffix c "/") eqn:Es; [done|by apply child_key_last].
Qed.

(** Building a key from a container path and a child key and taking its
    parent gives the container and the child back. *)
Theorem GetParentPath_child p c :
  HasSuffix p "/" = true -> child_key c -> GetParentPath (p +:+ c) = (p, c).
Proof.
  intros Hp Hc. apply GetParentPath_join; [by right|done|].
  apply HasSuffix_spec in Hp as [q ->]. destruct Hc as [Hc _].
  rewrite <- str_app_assoc. intros E. apply (f_equal len) in E. rewrite !len_app in E.
  assert (len c <> 0) by (by rewrite len_zero). simpl in E. lia.
Qed.

(** ** ParseAccountAddr *)

(** A path long enough to name an account is cut by [ParseAccountAddr] at
    bytes 22 and 64 and nothing is lost; a shorter one is returned whole. *)
Theorem ParseAccountAddr_spec acct :
  let '(prefix, addr, suffix) := ParseAccountAddr acct in
  acct = prefix +:+ (addr +:+ suffix) /\
  if decide (len acct < ETH_ACCOUNT_FULL_LENGTH) then addr = "" /\ suffix = ""
  else len prefix = ETH_ACCOUNT_PREFIX_LENGTH /\ len addr = ETH_ACCOUNT_LENGTH.
Proof.
  unfold ParseAccountAddr. fold ETH_ACCOUNT_FULL_LENGTH. case_decide as Hl.
  - by rewrite !str_app_nil_r.
  - split.
    + unfold str_slice, ETH_ACCOUNT_FULL_LENGTH. rewrite <- str_drop_drop.
      replace (_ + _ - _) with ETH_ACCOUNT_LENGTH by lia. by rewrite !str_take_drop.
    + rewrite len_take, len_slice by (unfold ETH_ACCOUNT_FULL_LENGTH in *; lia).
      unfold ETH_ACCOUNT_FULL_LENGTH in *. split; lia.
Qed.

Lemma ParseAccountAddr_root acct sub : account_name acct ->
  ParseAccountAddr (account_root acct +:+ sub) = (ETH_ACCOUNT_PREFIX, acct, sub).
Proof.
  intros [Hl _]. unfold ParseAccountAddr, account_root.
  rewrite decide_False by (rewrite !len_app, Hl; unfold ETH_ACCOUNT_PREFIX_LENGTH; lia).
  rewrite <- str_app_assoc, str_take_app by done. f_equal; [f_equal|].
  - apply str_slice_mid; [done|]. by rewrite Hl.
  - rewrite str_app_assoc. apply str_drop_app. by rewrite len_app, Hl.
Qed.

(** ** ShouldPersistToEth *)

Lemma len_account_root acct : account_name acct -> len (account_root acct) = ETH_ACCOUNT_FULL_LENGTH.
Proof. intros [Hl _]. unfold account_root. by rewrite len_app, Hl. Qed.

(** The length of the storage prefix is one byte short of the storage directory
    that its comment shows; the length for the native slots is right again. *)
Theorem storage_prefix_lengths acct : account_name acct ->
  len (account_root acct +:+ PATH_STORAGE_ROOT) = ETH_STORAGE_PREFIX_LENGTH + 1 /\
  len (account_root acct +:+ PATH_STORAGE_NATIVE) = ETH_STORAGE_NATIVE_PREFIX_LENGTH.
Proof. intros Ha. rewrite !len_app, len_account_root by done. by split. Qed.
(** The unknown type of a path is the Arcology type. *)
Theorem UNKNOWN_is_ARN_PATH : UNKNOWN = ARN_PATH.
Proof. done. Qed.

Lemma segments_account acct t : account_name acct ->
  segments (account_root acct +:+ String slash t) =
    ["blcc:"; "eth1.0"; "account"; acct] ++ segments t.
Proof.
  intros [Hl Hno]. rewrite segments_app.
  replace (account_root acct) with ("blcc://eth1.0/account" +:+ String slash acct) by done.
  rewrite segments_app, (segments_noslash acct); [done| |done].
  intros ->. done.
Qed.

(** Which storage a path under an account goes to.  A path is persisted to
    Ethereum storage when it ends in /nonce, /balance or /code, or when it is
    not itself a container path and the component after the account's
    sub-namespace (the sixth of the whole path) is [native]. *)
Theorem ShouldPersistToEth_spec acct sub :
  account_name acct -> sub <> "" ->
  let path := account_root acct +:+ String slash sub in
  ShouldPersistToEth path =
    (HasSuffix path PATH_NONCE || HasSuffix path PATH_BALANCE || HasSuffix path PATH_CODE)
    || (negb (HasSuffix path "/") && bool_decide (segments sub !! 1 = Some "native")).
Proof.
  intros Ha Hs path. unfold ShouldPersistToEth. fold path.
  assert (len sub <> 0) by (by rewrite len_zero).
  rewrite decide_False by (unfold path; rewrite len_app, len_account_root by done; simpl; lia).
  destruct (HasSuffix path PATH_NONCE || HasSuffix path PATH_BALANCE || HasSuffix path PATH_CODE);
    [done|].
  destruct (HasSuffix path "/"); [done|]. cbn [negb andb orb].
  rewrite GetSegmentAt_eq. unfold path. rewrite segments_account by done.
  unfold nth_segment. change (Z.to_nat 5) with 5. cbn [Z.ltb Z.compare app].
  rewrite !lookup_cons. destruct (segments sub !! 1) as [s|]; [|done].
  cbn [andb]. change PATH_ETH_NATIVE with ("native" +:+ "/").
  destruct (decide (s = "native")) as [->|Hn]; [done|].
  rewrite bool_decide_false by congruence. apply String.eqb_neq. intros E. apply Hn.
  assert (El : len s = len "native") by (apply (f_equal len) in E; rewrite !len_app in E; lia).
  by apply (str_app_inj_len _ _ _ _ El) in E as [-> _].
Qed.

(** The routing looks only at how a path ends, so an element named
    "balance", "nonce" or "code" inside a concurrent container is sent to
    Ethereum storage like the account's own field, although container data is
    Arcology's. *)
Theorem ShouldPersistToEth_container_field acct c field :
  account_name acct -> field = PATH_NONCE \/ field = PATH_BALANCE \/ field = PATH_CODE ->
  ShouldPersistToEth (account_root acct +:+ (PATH_STORAGE_CONTAINER +:+ (c +:+ field))) = true.
Proof.
  intros Ha Hf.
  replace (PATH_STORAGE_CONTAINER +:+ (c +:+ field))
    with (String slash ("storage/container/" +:+ (c +:+ field))) by done.
  rewrite ShouldPersistToEth_spec; [|done|done].
  set (path := account_root acct +:+ _).
  assert (HasSuffix path field = true) as Hsuf.
  { apply HasSuffix_spec. unfold path. eexists.
    rewrite (str_app_assoc "storage/container/" c field).
    change (String slash (?a +:+ field)) with ((String slash a) +:+ field).
    rewrite str_app_assoc. done. }
  destruct Hf as [->|[->| ->]]; rewrite Hsuf; cbn [orb]; rewrite ?orb_true_r; done.
Qed.

(** ** Platform *)

(** A list of pairs sorted by distinct keys is determined by its contents. *)
Lemma sorted_pairs_unique {A B} (lt : A -> A -> bool) (ks : list A) (vs : list B) es :
  (forall x y, lt x y = false -> lt y x = false -> x = y) ->
  length ks = length vs -> NoDup (map fst es) ->
  StronglySorted (fun x y => lt y x = false) ks ->
  StronglySorted (fun x y => lt y x = false) (map fst es) ->
  Permutation (combine ks vs) es -> combine ks vs = es.
Proof.
  intros Htot Hlen Hnd Hks Hes Hperm.
  assert (Hfst : map fst (combine ks vs) = ks).
  { clear -Hlen. revert vs Hlen. induction ks as [|k ks IH]; intros [|v vs] Hl; simplify_eq/=; [done|].
    by rewrite IH. }
  assert (Hsorted : forall l : list (A * B),
    StronglySorted (fun x y => lt y x = false) (map fst l) ->
    StronglySorted (fun p q => lt q.1 p.1 = false) l).
  { clear. induction l as [|p l IH]; intros H; simpl in *; constructor.
    - apply IH. by apply StronglySorted_inv in H as [H _].
    - apply StronglySorted_inv in H as [_ HF]. by rewrite Forall_map in HF. }
  eapply (StronglySorted_unique_strong (fun p q => lt q.1 p.1 = false));
    [|by apply Hsorted; rewrite Hfst|by apply Hsorted|done].
  intros [k1 v1] [k2 v2] H1 H2 L1 L2; simpl in *.
  assert (k1 = k2) as -> by auto. f_equal.
  rewrite Hperm in H1. clear -Hnd H1 H2.
  induction es as [|[k v] es IH]; [by apply elem_of_nil in H1|].
  simpl in Hnd. apply NoDup_cons in Hnd as [Hn Hnd].
  assert (Hin : forall v', (k, v') ∈ es -> False).
  { intros v' Hv. apply Hn, list_elem_of_In, (in_map fst es (k, v')). by apply list_elem_of_In. }
  apply elem_of_cons in H1 as [H1|H1], H2 as [H2|H2]; simplify_eq; naive_solver.
Qed.

Section platform.
Context `{TypeIDs} `{SliceLaws} `{MapLaws}.

Definition default_table : list (string * Z) :=
  [("/", PATH); ("/balance", UINT256); ("/code", BYTES); ("/nonce", UINT64);
   ("/profiles/", PATH); ("/storage/", PATH); ("/storage/container/", PATH);
   ("/storage/native/", PATH)].

Lemma NewPlatform_table : Permutation (map_to_list NewPlatform) default_table.
Proof.
  unfold NewPlatform. rewrite map_to_list_to_map.
  - unfold default_table. cbn. solve_Permutation.
  - cbn. apply (bool_decide_unpack _). vm_compute. done.
Qed.

(** The built-in paths of an account come out in a fixed order whatever
    order the map is walked in, with their types, each container path before
    the paths inside it. *)
Theorem GetDefault_spec acct :
  GetDefault NewPlatform acct =
    (map (fun e => ETH_ACCOUNT_PREFIX +:+ (acct +:+ e.1)) default_table,
     map snd default_table).
Proof.
  unfold GetDefault. pose proof (KVs_length NewPlatform) as Hl.
  pose proof (KVs_perm NewPlatform) as Hp.
  destruct (map_KVs NewPlatform) as [ks vs]. cbn [fst snd] in Hl, Hp.
  pose proof (SortBy1st_perm str_ltb ks vs Hl) as [Hl' Hp'].
  pose proof (SortBy1st_sorted str_ltb ks vs Hl str_ltb_trans str_ltb_irrefl str_ltb_total) as Hs.
  destruct (slice_SortBy1st str_ltb ks vs) as [ks' vs']. cbn [fst snd] in Hl', Hp', Hs.
  assert (E : combine ks' vs' = default_table).
  { apply (sorted_pairs_unique str_ltb); [apply str_ltb_total|done| |done| |].
    - apply (bool_decide_unpack _). vm_compute. done.
    - repeat constructor.
    - by rewrite Hp', Hp, NewPlatform_table. }
  rewrite <- E. f_equal.
  - rewrite <- (map_map fst (fun p => ETH_ACCOUNT_PREFIX +:+ (acct +:+ p))).
    f_equal. clear -Hl'. revert vs' Hl'.
    induction ks' as [|k ks IH]; intros [|v vs'] Hl; simplify_eq/=; [done|]. by rewrite <- IH.
  - clear -Hl'. revert vs' Hl'.
    induction ks' as [|k ks IH]; intros [|v vs'] Hl; simplify_eq/=; [done|]. by rewrite <- IH.
Qed.

Lemma IsSysPath_account acct sub : account_name acct -> sub <> "" ->
  IsSysPath NewPlatform (account_root acct +:+ sub) =
    bool_decide (is_Some (NewPlatform !! sub)).
Proof.
  intros Ha Hs. unfold IsSysPath. assert (len sub <> 0) by (by rewrite len_zero).
  rewrite decide_False by (rewrite len_app, len_account_root by done; lia).
  by rewrite str_drop_app by (by rewrite len_account_root).
Qed.

(** Below an account, a path escapes parent bookkeeping exactly when it
    is built in, or when its parent is built in and is not a concurrent
    container.  Elements of a container, at any depth, are always tracked. *)
Theorem IsImmediateChildOfSysPath_account acct dir c :
  account_name acct -> HasSuffix dir "/" = true -> child_key c ->
  IsImmediateChildOfSysPath NewPlatform (account_root acct +:+ (dir +:+ c)) =
    bool_decide (is_Some (NewPlatform !! (dir +:+ c))) ||
    (negb (IsContainerPath (account_root acct +:+ dir)) &&
     bool_decide (is_Some (NewPlatform !! dir))).
Proof.
  intros Ha Hd Hc. unfold IsImmediateChildOfSysPath.
  assert (Hne : dir +:+ c <> "").
  { destruct Hc as [Hc _]. rewrite <- len_zero, len_app. rewrite <- len_zero in Hc. lia. }
  rewrite IsSysPath_account by done.
  destruct (bool_decide (is_Some (NewPlatform !! (dir +:+ c)))); [done|]. cbn [orb].
  rewrite str_app_assoc, GetParentPath_join; [|right|done|].
  - destruct (IsContainerPath (account_root acct +:+ dir)); [done|]. cbn [negb andb].
    rewrite IsSysPath_account; [|done|by intros ->].
    apply HasSuffix_spec in Hd as [q ->].
    rewrite (str_app_assoc (account_root acct)), (ContainsByte_app slash _ "/").
    change (ContainsByte slash "/") with true. rewrite orb_true_r. cbn [negb].
    by rewrite orb_false_r.
  - apply HasSuffix_spec in Hd as [q ->]. apply HasSuffix_spec.
    exists (account_root acct +:+ q). by rewrite str_app_assoc.
  - intros E. apply (f_equal len) in E. rewrite !len_app, len_account_root in E by done.
    simpl in E. unfold ETH_ACCOUNT_FULL_LENGTH, ETH_ACCOUNT_LENGTH in E. lia.
Qed.

(** A native slot is never tracked in its parent, a container element always is. *)
Lemma native_slot_untracked acct k : account_name acct -> child_key k ->
  IsImmediateChildOfSysPath NewPlatform
    (account_root acct +:+ (PATH_STORAGE_NATIVE +:+ k)) = true.
Proof.
  intros Ha Hk. rewrite IsImmediateChildOfSysPath_account by done.
  assert (IsContainerPath (account_root acct +:+ PATH_STORAGE_NATIVE) = false) as ->.
  { unfold IsContainerPath. by rewrite HasSuffix_app by (cbn; lia). }
  rewrite (bool_decide_true (is_Some (NewPlatform !! PATH_STORAGE_NATIVE)))
    by (vm_compute; eauto).
  by rewrite orb_true_r.
Qed.
End platform.

(** ** ETHAccountShard *)

(** A shard number is computed only for keys of at least 24 bytes and a
    nonzero shard count, and it is then a valid index. *)
Theorem ETHAccountShard_bounds Hex2int numOfShard key :
  (forall c, 0 <= Hex2int c)%Z -> (0 < numOfShard)%Z -> 24 <= len key ->
  exists i, ETHAccountShard Hex2int numOfShard key = Some i /\ (0 <= i < numOfShard)%Z.
Proof.
  intros Hh Hn Hk. unfold ETHAccountShard. rewrite decide_False by lia.
  assert (Hget : forall i, i < len key -> exists c, String.get i key = Some c).
  { clear. induction key as [|d key IH]; intros i Hi; simpl in *; [lia|].
    destruct i as [|i]; [eauto|]. apply IH. lia. }
  destruct (Hget 22) as [c0 ->]; [lia|]. destruct (Hget 23) as [c1 ->]; [lia|].
  rewrite (proj2 (Z.eqb_neq numOfShard 0)) by lia.
  eexists. split; [done|]. apply Z.rem_bound_pos; [|done].
  pose proof (Hh c0). pose proof (Hh c1). lia.
Qed.

(** The two characters the shard number is computed from are those of the
    0x in front of the address, so every account lands in the same shard. *)
Theorem ETHAccountShard_constant Hex2int numOfShard a1 a2 sub1 sub2 :
  HasPrefix a1 "0x" = true -> HasPrefix a2 "0x" = true ->
  ETHAccountShard Hex2int numOfShard (account_root a1 +:+ sub1) =
  ETHAccountShard Hex2int numOfShard (account_root a2 +:+ sub2).
Proof. intros [t1 ->]%HasPrefix_spec [t2 ->]%HasPrefix_spec. done. Qed.
