(* ===== verification/PathBuilder.v ===== *)
(** * common/path_builder.go and the address parsers of common/utils.go

    Byte arrays are lists of integers in [0, 255].  [hexutil.Encode]
    (go-ethereum) and [codec.Uint64.FromBytes] (common-lib) are parameters. *)
From S2P Require Import Prelude GoString Interfaces Paths.
Import Constants PathTypes.

(** encoding/hex *)
Definition fromHexChar (c : ascii) : option Z :=
  let n := Z.of_nat (nat_of_ascii c) in
  if (48 <=? n)%Z && (n <=? 57)%Z then Some (n - 48)%Z
  else if (97 <=? n)%Z && (n <=? 102)%Z then Some (n - 87)%Z
  else if (65 <=? n)%Z && (n <=? 70)%Z then Some (n - 55)%Z
  else None.
Fixpoint hex_DecodeString (s : string) : option bytes :=
  match s with
  | "" => Some []
  | String a (String b r) =>
      match fromHexChar a, fromHexChar b, hex_DecodeString r with
      | Some x, Some y, Some bs => Some ((x * 16 + y)%Z :: bs)
      | _, _, _ => None
      end
  | String _ "" => None
  end.
(** [copy(dst[:], src)] *)
Definition copy_into (dst src : bytes) : bytes :=
  take (length dst) src ++ drop (length src) dst.

Class HexCodecLib := {
  hexutil_Encode : bytes -> string;
  codec_Uint64_FromBytes : bytes -> Z;
}.
Class HexCodecLaws (HC : HexCodecLib) : Prop := {
  hexutil_Encode_prefix : forall bs, HasPrefix (hexutil_Encode bs) "0x" = true;
  hexutil_Encode_len : forall bs, len (hexutil_Encode bs) = 2 + 2 * length bs;
}.

Record PathBuilder := MkPathBuilder {
  Sender : bytes;
  Address : bytes;
  Selector : bytes;
  PlatformID : Z;
}.

Definition ETH_PATH : Z := 1.
Definition zero_address : bytes := replicate 20 0%Z.
Definition zero_selector : bytes := replicate 4 0%Z.

Definition NewContainerPathBuilder (platform : Z) : PathBuilder :=
  MkPathBuilder zero_address zero_address zero_selector platform.
Definition NewEthPathBuilder : PathBuilder :=
  MkPathBuilder zero_address zero_address zero_selector ETH_PATH.

Definition ParseAddressSubString (path : string) : string :=
  if decide (ETH_ACCOUNT_FULL_LENGTH <= len path)
  then str_slice path ETH_ACCOUNT_PREFIX_LENGTH ETH_ACCOUNT_FULL_LENGTH else "".

Definition ParseAddressAndSelector (path : string) : bytes * bytes * option string :=
  let acct :=
    if decide (ETH_ACCOUNT_FULL_LENGTH <= len path)
    then str_slice path ETH_ACCOUNT_PREFIX_LENGTH ETH_ACCOUNT_FULL_LENGTH else "" in
  let selector :=
    if decide (ETH_ACCOUNT_FULL_LENGTH + len PATH_FUNC_PROFILE + SELECTOR_LENGTH <= len path)
    then str_slice path (ETH_ACCOUNT_FULL_LENGTH + len PATH_FUNC_PROFILE)
           (ETH_ACCOUNT_FULL_LENGTH + len PATH_FUNC_PROFILE + SELECTOR_LENGTH)
    else "" in
  match hex_DecodeString acct with
  | None => (zero_address, zero_selector, Some ("Invalid eth account address: " +:+ acct))
  | Some addrBytes =>
      let address := copy_into zero_address addrBytes in
      match hex_DecodeString selector with
      | None => (address, zero_selector, Some ("Invalid eth account selector: " +:+ selector))
      | Some selectorBytes => (address, copy_into zero_selector selectorBytes, None)
      end
  end.

Definition NewPathBuilderFromPath (path : string) : PathBuilder * option string :=
  let '(addr, selector, err) := ParseAddressAndSelector path in
  (MkPathBuilder zero_address addr selector ETH_PATH, err).

Section hex.
Context `{HexCodecLib}.

Definition DeriveEthCalleeUID (addr selector : bytes) : Z :=
  codec_Uint64_FromBytes (take SHORT_CONTRACT_ADDRESS_LENGTH addr ++ selector).

Definition DeriveUID (this : PathBuilder) : Z :=
  DeriveEthCalleeUID (Address this) (Selector this).

(** The receiver is updated on success. *)
Definition DeriveUIDFromPath (path : string) (this : PathBuilder) : Z * PathBuilder :=
  match ParseAddressAndSelector path with
  | (_, _, Some _) => (0%Z, this)
  | (addr, selector, None) =>
      let this := MkPathBuilder (Sender this) addr selector (PlatformID this) in
      (DeriveUID this, this)
  end.

Definition ProfileField (field : string) (this : PathBuilder) : string :=
  ETH_ACCOUNT_PREFIX +:+ (hexutil_Encode (Address this) +:+
    (PATH_FUNC_PROFILE +:+ (hexutil_Encode (Selector this) +:+ ("/" +:+ field)))).

Definition UnderSenderPath (subpath : string) (this : PathBuilder) : string :=
  ETH_ACCOUNT_PREFIX +:+ (hexutil_Encode (Sender this) +:+ subpath).
End hex.

(** ** Facts *)

Lemma hex_DecodeString_0x s : HasPrefix s "0x" = true -> hex_DecodeString s = None.
Proof. intros [t ->]%HasPrefix_spec. done. Qed.

Lemma length_copy_into dst src : length (copy_into dst src) = length dst.
Proof. unfold copy_into. rewrite length_app, length_take, length_drop. lia. Qed.

Lemma HasPrefix_app s t p : HasPrefix s p = true -> HasPrefix (s +:+ t) p = true.
Proof.
  intros [u ->]%HasPrefix_spec. apply HasPrefix_spec. exists (u +:+ t).
  by rewrite str_app_assoc.
Qed.

Lemma slice_0x_address a b t : len a = ETH_ACCOUNT_PREFIX_LENGTH ->
  HasPrefix b "0x" = true -> len b = ETH_ACCOUNT_LENGTH ->
  str_slice (a +:+ (b +:+ t)) ETH_ACCOUNT_PREFIX_LENGTH ETH_ACCOUNT_FULL_LENGTH = b.
Proof. intros Ha Hb Hl. apply str_slice_mid; [done|]. by rewrite Ha, Hl. Qed.

Lemma ParseAddressAndSelector_rejects a b t :
  len a = ETH_ACCOUNT_PREFIX_LENGTH -> len b = ETH_ACCOUNT_LENGTH -> HasPrefix b "0x" = true ->
  ParseAddressAndSelector (a +:+ (b +:+ t)) =
    (zero_address, zero_selector, Some ("Invalid eth account address: " +:+ b)).
Proof.
  intros Ha Hl Hb. unfold ParseAddressAndSelector.
  rewrite decide_True by (rewrite !len_app; unfold ETH_ACCOUNT_FULL_LENGTH; lia).
  rewrite slice_0x_address by done. by rewrite hex_DecodeString_0x.
Qed.

(** No path of an account written the way the platform writes it (0x and
    forty digits) can be parsed back into an address and a selector: the
    address part keeps its 0x, which is not hexadecimal, so parsing fails, and
    the callee identifier derived from such a path is 0 whatever the account
    and function are. *)
Theorem ParseAddressAndSelector_0x `{HexCodecLib} acct sub this :
  len acct = ETH_ACCOUNT_LENGTH -> HasPrefix acct "0x" = true ->
  let path := ETH_ACCOUNT_PREFIX +:+ (acct +:+ sub) in
  ParseAddressAndSelector path =
    (zero_address, zero_selector, Some ("Invalid eth account address: " +:+ acct)) /\
  DeriveUIDFromPath path this = (0%Z, this).
Proof.
  intros Hl Hb path. pose proof (ParseAddressAndSelector_rejects _ _ sub eq_refl Hl Hb) as E.
  split; [done|]. unfold DeriveUIDFromPath. unfold path. by rewrite E.
Qed.

(** In particular the function-profile paths built by [ProfileField] are
    all rejected by [NewPathBuilderFromPath]: the two are not inverses for any
    builder. *)
Theorem ProfileField_not_parsed `{HexCodecLaws} this field :
  length (Address this) = 20 ->
  (NewPathBuilderFromPath (ProfileField field this)).2 <> None.
Proof.
  intros Hl. unfold NewPathBuilderFromPath, ProfileField.
  rewrite ParseAddressAndSelector_rejects; [done|done| |apply hexutil_Encode_prefix].
  by rewrite hexutil_Encode_len, Hl.
Qed.
