(* ===== verification/DeltaSequence.v ===== *)
(** * state/committer/delta_sequence.go: the deltas of one path

    All the transitions of one path in one generation.  They are ordered by
    transaction and folded into the first one; the others lose their path,
    which is how every later stage recognises a merged transition. *)
From S2P Require Import Prelude GoSort Interfaces Heap Paths.
Import Constants.

Section delta_sequence.
Context {S crdt cell : Type} `{CellLib crdt cell} `{HeapLens S cell} `{SliceLib}.

(** The comparison passed to sort.SliceStable, on the transactions. *)
Definition tx_less (ti tj : Z) : bool :=
  if (ti =? SYSTEM)%Z then true
  else if (tj =? SYSTEM)%Z then false
  else (ti <? tj)%Z.

Definition sort (this : list loc) : Go S (list loc) :=
  if length this <=? 1 then gret this
  else
    let! cs := deref_all this in
    gret (map fst (SliceStable (fun x y => tx_less (GetTx x.2) (GetTx y.2)) cs)).

Definition no_path (c : cell) : bool :=
  match GetPath c with None => true | Some _ => false end.

Definition Finalize (this : list loc) : Go S (option loc) :=
  let! cs := deref_all this in
  (* trans is another header on the array of this *)
  let this := map fst (slice_RemoveIf_alias (fun lc => no_path lc.2) cs) in
  if length this =? 0 then gret None
  else
    let! this := sort this in
    match this with
    | [] => gpanic
    | l0 :: rest =>
        let! c0 := deref l0 in
        let! ds := deref_all rest in
        match ApplyDelta c0 (map snd ds) with
        | None => gpanic
        | Some c0 =>
            assign l0 c0 ;;;
            gforeach (update_cell (SetPath None)) rest ;;;
            gret (Some l0)
        end
    end.

Definition Finalized (this : list loc) : Go S loc := gsome (head this).

(** DeltaSequences: the finalized values and their keys. *)
Definition FinalizedAll (this : list (list loc)) : Go S (list crdt) :=
  gmap_list (fun v =>
    let! l := gsome (head v) in
    let! c := deref l in
    match Value c with Some (IsCRDT x) => gret x | _ => gpanic end) this.
Definition Keys (this : list (list loc)) : Go S (list (option string)) :=
  gmap_list (fun v =>
    let! l := gsome (head v) in
    let! c := deref l in gret (GetPath c)) this.
End delta_sequence.
