(* ===== verification/DeltaSequenceTheory.v ===== *)
(** * Theory of delta sequences (DeltaSequence.v) *)
From S2P Require Import Prelude GoSort Interfaces Heap Paths DeltaSequence.
Import Constants.

Section theory.
Context {S crdt cell : Type} `{CL : CellLib crdt cell} `{HLL : HeapLensLaws S cell}
  `{SLL : SliceLaws}.
Implicit Types (h : gmap loc cell) (s : S) (ls : list loc).

Definition tx_at h (l : loc) : Z := GetTx (cell_at h l).
Definition path_at h (l : loc) : option string := GetPath (cell_at h l).

(** The order of a delta sequence. *)
Definition order_of h ls : list loc :=
  SliceStable (fun x y => tx_less (tx_at h x) (tx_at h y)) ls.

(** SYSTEM first, then by transaction. *)
Definition tx_le (t u : Z) : Prop := t = SYSTEM \/ (u <> SYSTEM /\ (t <= u)%Z).

Lemma tx_le_trans t u v : tx_le t u -> tx_le u v -> tx_le t v.
Proof. unfold tx_le. intros [?|[? ?]] [?|[? ?]]; naive_solver lia. Qed.
Lemma tx_less_true t u : tx_less t u = true -> tx_le t u.
Proof.
  unfold tx_less, tx_le. destruct (Z.eqb_spec t SYSTEM); [by left|].
  destruct (Z.eqb_spec u SYSTEM); [done|]. intros ?%Z.ltb_lt. right. split; [done|lia].
Qed.
Lemma tx_less_false t u : tx_less t u = false -> tx_le u t.
Proof.
  unfold tx_less, tx_le. destruct (Z.eqb_spec t SYSTEM); [done|].
  destruct (Z.eqb_spec u SYSTEM); [by left|]. intros ?%Z.ltb_ge. right. split; [done|lia].
Qed.
Lemma tx_less_same t : t <> SYSTEM -> tx_less t t = false.
Proof.
  unfold tx_less. intros Ht. rewrite (proj2 (Z.eqb_neq t SYSTEM)) by done. apply Z.ltb_irrefl.
Qed.

Lemma order_of_perm h ls : Permutation (order_of h ls) ls.
Proof. apply SliceStable_perm. Qed.
Lemma order_of_sorted h ls : StronglySorted (fun x y => tx_le (tx_at h x) (tx_at h y)) (order_of h ls).
Proof.
  apply SliceStable_sorted.
  - intros x y z. apply tx_le_trans.
  - intros x y. apply tx_less_true.
  - intros x y. apply tx_less_false.
Qed.
Lemma order_of_ext h h' ls :
  (forall l, l ∈ ls -> h !! l = h' !! l) -> order_of h ls = order_of h' ls.
Proof.
  intros E. apply SliceStable_ext. intros x y Hx Hy.
  unfold tx_at, cell_at. by rewrite (E x), (E y).
Qed.

Lemma map_fst_cells h ls : map fst (map (fun l => (l, cell_at h l)) ls) = ls.
Proof. rewrite map_map. apply map_id. Qed.
Lemma map_snd_cells h ls : map snd (map (fun l => (l, cell_at h l)) ls) = map (cell_at h) ls.
Proof. by rewrite map_map. Qed.

Lemma sort_valid ls s : valid (heap_of s) ls -> sort ls s = Ret (order_of (heap_of s) ls, s).
Proof.
  intros Hv. unfold sort. destruct (Nat.leb_spec (length ls) 1) as [Hl|Hl].
  - destruct ls as [|l [|l' ls]]; simpl in Hl; [done|done|lia].
  - unfold gbind. rewrite deref_all_valid by done. unfold gret. do 2 f_equal.
    rewrite SliceStable_map, map_fst_cells. done.
Qed.

(** Sorting the transitions of a path rearranges them so that the
    SYSTEM ones come first and the others follow by transaction number, and
    it keeps the order in which the transitions of one ordinary transaction
    came in. *)
Theorem sort_spec ls s :
  valid (heap_of s) ls ->
  exists q, sort ls s = Ret (q, s) /\ Permutation q ls /\
    StronglySorted (fun x y => tx_le (tx_at (heap_of s) x) (tx_at (heap_of s) y)) q /\
    forall t, t <> SYSTEM ->
      List.filter (fun l => tx_at (heap_of s) l =? t)%Z q =
      List.filter (fun l => tx_at (heap_of s) l =? t)%Z ls.
Proof.
  intros Hv. exists (order_of (heap_of s) ls). split; [by apply sort_valid|].
  split; [apply order_of_perm|]. split; [apply order_of_sorted|].
  intros t Ht. apply SliceStable_stable. intros x y ->%Z.eqb_eq ->%Z.eqb_eq.
  by apply tx_less_same.
Qed.

(** The comparison declares a SYSTEM transition less than any other
    SYSTEM transition as well, so the order of the SYSTEM transitions of a
    path is reversed by the (stable) sort: the last one injected becomes the
    base the others are applied to. *)
Theorem sort_reverses_system ls s :
  valid (heap_of s) ls ->
  exists q, sort ls s = Ret (q, s) /\
    List.filter (fun l => tx_at (heap_of s) l =? SYSTEM)%Z q =
    rev (List.filter (fun l => tx_at (heap_of s) l =? SYSTEM)%Z ls).
Proof.
  intros Hv. exists (order_of (heap_of s) ls). split; [by apply sort_valid|].
  apply SliceStable_front. intros x y Hx. unfold tx_less. by rewrite Hx.
Qed.

(** ** Finalize *)

Definition live h ls : Prop := forall l, l ∈ ls -> exists c p, h !! l = Some c /\ GetPath c = Some p.
Lemma live_valid h ls : live h ls -> valid h ls.
Proof. intros Hl l Hi. destruct (Hl l Hi) as (c & p & -> & _). eauto. Qed.
Lemma live_path h ls l : live h ls -> l ∈ ls -> exists p, path_at h l = Some p.
Proof.
  intros Hl Hi. destruct (Hl l Hi) as (c & p & Hc & Hp). exists p.
  unfold path_at. by rewrite (cell_at_eq h l c).
Qed.

(** What finalizing the sequence [ls] leaves in the store: [None] when the
    deltas do not apply. *)
Definition merge_deltas h ls : option (gmap loc cell) :=
  match order_of h ls with
  | [] => Some h
  | l0 :: rest =>
      (fun c0 => alter_all (SetPath None) rest (<[l0 := c0]> h)) <$>
        ApplyDelta (cell_at h l0) (map (cell_at h) rest)
  end.

Lemma alias_live h ls : live h ls ->
  map fst (slice_RemoveIf_alias (fun lc : loc * cell => no_path lc.2)
             (map (fun l => (l, cell_at h l)) ls)) = ls.
Proof.
  intros Hl. rewrite RemoveIf_alias_id; [apply map_fst_cells|].
  intros lc (l & <- & Hi)%in_map_iff. simpl. apply list_elem_of_In in Hi.
  destruct (live_path h ls l Hl Hi) as [p Hp]. unfold no_path. by fold (path_at h l); rewrite Hp.
Qed.

Lemma length_zero_nil {A} (l : list A) : (length l =? 0) = match l with [] => true | _ => false end.
Proof. by destruct l. Qed.

Lemma Finalize_eq ls s :
  live (heap_of s) ls -> NoDup ls ->
  Finalize ls s =
    match merge_deltas (heap_of s) ls with
    | Some h => Ret (head (order_of (heap_of s) ls), with_heap h s)
    | None => Panic
    end.
Proof.
  intros Hl Hnd. pose proof (live_valid _ _ Hl) as Hv.
  unfold Finalize, merge_deltas, gbind at 1.
  rewrite deref_all_valid, alias_live by done.
  pose proof (order_of_perm (heap_of s) ls) as Hp.
  destruct (Nat.eqb_spec (length ls) 0) as [E|E].
  { destruct ls; [|done]. unfold gret. cbn. by rewrite with_heap_heap. }
  unfold gbind at 1. rewrite sort_valid by done.
  destruct (order_of (heap_of s) ls) as [|l0 rest] eqn:Eo.
  { apply Permutation_length in Hp. simpl in Hp. lia. }
  assert (Hv0 : is_Some (heap_of s !! l0)) by (apply Hv; rewrite <- Hp; by left).
  assert (Hvr : valid (heap_of s) rest) by (intros l Hi; apply Hv; rewrite <- Hp; by right).
  assert (Hndr : NoDup (l0 :: rest)) by (by rewrite Hp).
  apply NoDup_cons in Hndr as [Hl0 Hndr].
  unfold gbind at 1. rewrite deref_valid by done.
  unfold gbind at 1. rewrite deref_all_valid, map_snd_cells by done.
  destruct (ApplyDelta _ _) as [c0|]; [|done]. simpl.
  unfold gbind at 1, assign, gmodify.
  unfold gbind at 1. rewrite foreach_update_valid.
  - unfold gret. by rewrite heap_with_heap, with_heap_twice.
  - intros l Hi. rewrite heap_with_heap, lookup_insert_ne by (by intros ->). by apply Hvr.
Qed.

Lemma merge_deltas_frame h ls m l :
  NoDup ls -> merge_deltas h ls = Some m -> l ∉ ls -> m !! l = h !! l.
Proof.
  intros Hnd Hm Hl. unfold merge_deltas in Hm. pose proof (order_of_perm h ls) as Hp.
  destruct (order_of h ls) as [|l0 rest]; [by injection Hm as <-|].
  rewrite <- Hp in Hl. rewrite <- Hp in Hnd. apply NoDup_cons in Hnd as [_ Hnd].
  destruct (ApplyDelta _ _) as [c0|]; [|done]. injection Hm as <-.
  rewrite alter_all_lookup, decide_False by (done || by intros ?; apply Hl; right).
  rewrite lookup_insert_ne; [done|]. intros ->. apply Hl. by left.
Qed.
Lemma merge_deltas_local h h' ls :
  NoDup ls -> (forall l, l ∈ ls -> h !! l = h' !! l) ->
  match merge_deltas h ls, merge_deltas h' ls with
  | Some m, Some m' => forall l, l ∈ ls -> m !! l = m' !! l
  | None, None => True
  | _, _ => False
  end.
Proof.
  intros Hnd E. unfold merge_deltas. rewrite <- (order_of_ext h h' ls E).
  pose proof (order_of_perm h ls) as Hp.
  destruct (order_of h ls) as [|l0 rest]; [done|].
  assert (Ec : forall l, l ∈ l0 :: rest -> cell_at h l = cell_at h' l).
  { intros l Hl. unfold cell_at. by rewrite (E l) by (by rewrite <- Hp). }
  rewrite <- (Ec l0) by (by left).
  replace (map (cell_at h') rest) with (map (cell_at h) rest)
    by (apply map_ext_in; intros l Hl; apply Ec; right; by apply list_elem_of_In).
  destruct (ApplyDelta _ _) as [c0|]; [|done]. simpl. intros l Hl.
  rewrite <- Hp in Hnd. apply NoDup_cons in Hnd as [Hl0 Hnd].
  rewrite !alter_all_lookup by done. destruct (decide (l = l0)) as [->|Hne].
  - by rewrite !decide_False, !lookup_insert_eq.
  - rewrite !lookup_insert_ne by done. by rewrite (E l).
Qed.

(** C26: finalizing a sequence of distinct live transitions merges them into
    the one that comes first in the order: its content becomes the result of
    applying the others' deltas, in order, it alone keeps a path, and no
    other cell of the store changes.  It fails (panics) exactly when the
    deltas do not apply. *)
Theorem Finalize_spec `{!CellLaws CL} ls s :
  live (heap_of s) ls -> NoDup ls ->
  match order_of (heap_of s) ls with
  | [] => Finalize ls s = Ret (None, s)
  | l0 :: rest =>
      match ApplyDelta (cell_at (heap_of s) l0) (map (cell_at (heap_of s)) rest) with
      | None => Finalize ls s = Panic
      | Some c0 => exists h', Finalize ls s = Ret (Some l0, with_heap h' s) /\
          h' !! l0 = Some c0 /\ GetPath c0 = path_at (heap_of s) l0 /\
          (forall l, l ∈ rest -> exists c, h' !! l = Some c /\ GetPath c = None) /\
          (forall l, l ∉ ls -> h' !! l = heap_of s !! l)
      end
  end.
Proof.
  intros Hl Hnd. pose proof (Finalize_eq ls s Hl Hnd) as E. unfold merge_deltas in E.
  pose proof (order_of_perm (heap_of s) ls) as Hp.
  destruct (order_of (heap_of s) ls) as [|l0 rest] eqn:Eo.
  { by rewrite with_heap_heap in E. }
  assert (Hndr : NoDup (l0 :: rest)) by (by rewrite Hp).
  apply NoDup_cons in Hndr as [Hl0 Hndr].
  destruct (ApplyDelta _ _) as [c0|] eqn:Ea; [|done]. simpl in E.
  eexists. split; [done|]. split; [|split; [|split]].
  - rewrite alter_all_lookup, decide_False by done. apply lookup_insert_eq.
  - by apply ApplyDelta_path in Ea.
  - intros l Hi. rewrite alter_all_lookup, decide_True by done.
    rewrite lookup_insert_ne by (by intros ->).
    destruct (Hl l) as (c & p & Hc & _); [rewrite <- Hp; by right|].
    rewrite Hc. simpl. eexists. split; [done|]. apply SetPath_path.
  - intros l Hi. rewrite alter_all_lookup by done.
    rewrite decide_False by (intros Hr; apply Hi; rewrite <- Hp; by right).
    rewrite lookup_insert_ne; [done|]. intros ->. apply Hi. rewrite <- Hp. by left.
Qed.
End theory.
