(* ===== verification/Committer.v ===== *)
(** * state/committer: committer.go and indexer.go

    A [StateCommitter] receives the transitions of a generation, indexes them
    by path and by transaction, drops the transactions that are not in the
    whitelist, merges what is left path by path, and drives the writers of the
    storage layers through their two precommit phases and the commit.  The
    transitions and the writers are shared objects: the same cells are in both
    indexes and in the buffers of all the writers. *)
From S2P Require Import Prelude Interfaces Heap Paths DeltaSequence.
Import Constants.

(** storage/interface.StoreWriter, with the two dynamic type tests. *)
Class StoreWriter (S W : Type) := {
  w_Import : list loc -> W -> Go S W;
  w_Precommit : bool -> W -> Go S W;
  w_Commit : Z -> W -> Go S W;
  w_IsSync : W -> bool;
  w_is_EthStorageWriter : W -> bool;
  w_is_ExecutionCacheWriter : W -> bool;
}.

Section committer.
Context {S crdt cell W : Type} `{CellLib crdt cell} `{CH : HeapLens S cell}
  `{WH : HeapLens S W} `{StoreWriter S W} `{SliceLib} `{IndexerLib}.

Record StateCommitter := MkStateCommitter {
  readonlyStore : string -> option (any crdt);
  writers : list loc;
  syncWriters : list loc;
  asyncWriters : list loc;
  byPath : gmap string (list loc);
  byTxID : gmap Z (list loc);
  pathStore : string -> option (any crdt);   (* the store the closures of byPath hold *)
}.

(** ** indexer.go *)
Definition PathIndexer_key (l : loc) : Go S (string * bool) :=
  let! c := deref l in let! p := gsome (GetPath c) in gret (p, true).
Definition PathIndexer_init (store : string -> option (any crdt)) (k : string) (l : loc)
    : Go S (list loc) :=
  let! c := deref l in
  match Value c with
  | None => gret [l]
  | Some (IsCRDT v) => assign l (SetValue (Some (IsCRDT (crdt_Preload store k v))) c) ;;; gret [l]
  | Some (IsBytes _) => gpanic
  end.
Definition index_append {K} (_ : K) (l : loc) (vals : list loc) : list loc := vals ++ [l].

Definition TxIndexer_key (l : loc) : Go S (Z * bool) :=
  let! c := deref l in
  if negb (IfSkipConflictCheck c) then gret (GetTx c, true) else gret (MaxUint32, false).
Definition TxIndexer_init (_ : Z) (l : loc) : Go S (list loc) := gret [l].

(** ** committer.go *)
Definition NewStateCommitter (store : string -> option (any crdt)) (ws : list loc)
    : Go S StateCommitter :=
  let! objs := deref_all (H := WH) ws in
  (* committer.writers is another header on the array of writers *)
  let '(sync, rest) := slice_MoveIf (fun w => w_IsSync w.2) objs in
  gret {| readonlyStore := store;
          writers := map fst (slice_MoveIf_alias (fun w => w_IsSync w.2) objs);
          syncWriters := map fst sync;
          asyncWriters := map fst rest; byPath := ∅; byTxID := ∅; pathStore := store |}.

Definition Store (this : StateCommitter) : string -> option (any crdt) := readonlyStore this.
(** The indexers keep the store they were made with. *)
Definition SetStore (store : string -> option (any crdt)) (this : StateCommitter) : StateCommitter :=
  MkStateCommitter store (writers this) (syncWriters this) (asyncWriters this) (byPath this)
    (byTxID this) (pathStore this).
(** The body of [CascadeDelete] is commented out. *)
Definition CascadeDelete (txs : list Z) : Go S unit := gret tt.

(** A method call on a writer object. *)
Definition call_writer (m : W -> Go S W) (w : loc) : Go S unit :=
  let! o := deref (H := WH) w in let! o := m o in assign (H := WH) w o.

Definition Import (transitions : list loc) (this : StateCommitter) : Go S StateCommitter :=
  let! p := idx_Import PathIndexer_key (PathIndexer_init (pathStore this)) index_append
              transitions (byPath this) in
  let! t := idx_Import TxIndexer_key TxIndexer_init index_append transitions (byTxID this) in
  gforeach (call_writer (w_Import transitions)) (writers this) ;;;
  gret {| readonlyStore := readonlyStore this; writers := writers this;
          syncWriters := syncWriters this; asyncWriters := asyncWriters this;
          byPath := p; byTxID := t; pathStore := pathStore this |}.

Definition in_whitelist (txs : list Z) (tx : Z) : bool := bool_decide (tx ∈ txs).

Definition whitelist (txs : list Z) (this : StateCommitter) : Go S unit :=
  if length txs =? 0 then gret tt
  else
    gforeach (fun txid =>
      if in_whitelist txs txid then gret tt
      else gforeach (update_cell (SetPath None)) (default [] (byTxID this !! txid)))
      (idx_order (byTxID this)).

Definition finalize_path (this : StateCommitter) (path : string) : Go S unit :=
  let! v := deref_all (default [] (byPath this !! path)) in
  let v := map fst (slice_RemoveIf (fun lc => no_path lc.2) v) in
  if 0 <? length v then DeltaSequence.Finalize v ;;; gret tt else gret tt.

Definition Finalize (txs : list Z) (this : StateCommitter) : Go S StateCommitter :=
  whitelist txs this ;;;
  gforeach (finalize_path this) (idx_order (byPath this)) ;;;
  gret {| readonlyStore := readonlyStore this; writers := writers this;
          syncWriters := syncWriters this; asyncWriters := asyncWriters this;
          byPath := ∅; byTxID := ∅; pathStore := pathStore this |}.

Definition SyncPrecommit (this : StateCommitter) : Go S unit :=
  gforeach (fun w =>
    let! o := deref (H := WH) w in
    if negb (w_is_EthStorageWriter o) then call_writer (w_Precommit true) w else gret tt)
    (writers this).

Definition AsyncPrecommit (this : StateCommitter) : Go S unit :=
  gforeach (fun w =>
    let! o := deref (H := WH) w in
    if negb (w_is_ExecutionCacheWriter o) then call_writer (w_Precommit false) w else gret tt)
    (writers this).

Definition DebugPrecommit (txs : list Z) (this : StateCommitter) : Go S StateCommitter :=
  let! this := Finalize txs this in
  SyncPrecommit this ;;; AsyncPrecommit this ;;; gret this.

Definition SyncCommit (blockNum : Z) (this : StateCommitter) : Go S unit :=
  gforeach (call_writer (w_Commit blockNum)) (syncWriters this).
Definition AsyncCommit (blockNum : Z) (this : StateCommitter) : Go S unit :=
  gforeach (call_writer (w_Commit blockNum)) (asyncWriters this).
Definition DebugCommit (blockNum : Z) (this : StateCommitter) : Go S StateCommitter :=
  SyncCommit blockNum this ;;; AsyncCommit blockNum this ;;; gret this.
End committer.
Arguments StateCommitter : clear implicits.
