(* ===== verification/CommitterTheory.v ===== *)
(** * Theory of the committer (Committer.v)

    [indexed h ts this] says that the two indexes of the committer hold exactly
    the transitions [ts], grouped by path and by transaction in arrival order.
    [Import] establishes it; [Finalize] turns it into the state in which every
    path has one transition left. *)
From S2P Require Import Prelude GoSort Interfaces Heap Paths DeltaSequence DeltaSequenceTheory Committer.
Import Constants.

(** ** Lists of pointers *)
Section lists.
Context {A : Type} `{EqDecision A}.
Implicit Types (l : list A) (P Q : A -> bool).

Definition nonempty_opt l : option (list A) := match l with [] => None | _ => Some l end.
Lemma nonempty_opt_default l : default [] (nonempty_opt l) = l.
Proof. by destruct l. Qed.
Lemma nonempty_opt_snoc l x : nonempty_opt (l ++ [x]) = Some (l ++ [x]).
Proof. by destruct l. Qed.

Lemma elem_of_filter_b P l x : x ∈ List.filter P l <-> x ∈ l /\ P x = true.
Proof. rewrite !list_elem_of_In. apply filter_In. Qed.
Lemma NoDup_filter_b P l : NoDup l -> NoDup (List.filter P l).
Proof. rewrite !NoDup_ListNoDup. apply List.NoDup_filter. Qed.
Lemma filter_filter_b P Q l : List.filter P (List.filter Q l) = List.filter (fun x => Q x && P x) l.
Proof.
  induction l as [|x l IH]; simpl; [done|]. destruct (Q x); simpl; [|done].
  destruct (P x); by rewrite IH.
Qed.
Lemma filter_ext_in_b P Q l : (forall x, x ∈ l -> P x = Q x) -> List.filter P l = List.filter Q l.
Proof. intros E. apply List.filter_ext_in. intros x Hx. apply E. by apply list_elem_of_In. Qed.
Lemma filter_map_swap {B} (g : B -> A) P (l : list B) :
  map g (List.filter (fun x => P (g x)) l) = List.filter P (map g l).
Proof. induction l as [|x l IH]; simpl; [done|]. destruct (P (g x)); simpl; by rewrite IH. Qed.
Lemma filter_unique P l x :
  NoDup l -> x ∈ l -> (forall y, y ∈ l -> P y = true <-> y = x) -> List.filter P l = [x].
Proof.
  intros Hnd Hx HP. induction l as [|y l IH]; [by apply elem_of_nil in Hx|].
  apply NoDup_cons in Hnd as [Hy Hnd]. simpl. apply elem_of_cons in Hx as [->|Hx].
  - rewrite (proj2 (HP y ltac:(by left)) eq_refl). f_equal.
    destruct (List.filter P l) as [|z r] eqn:E; [done|]. exfalso.
    assert (Hz : z ∈ List.filter P l) by (rewrite E; by left).
    apply elem_of_filter_b in Hz as [Hz Pz]. apply HP in Pz as ->; [done|by right].
  - assert (P y = false) as ->.
    { destruct (P y) eqn:Py; [|done]. apply HP in Py as ->; [done|by left]. }
    apply IH; [done|done|]. intros z Hz. apply HP. by right.
Qed.
Lemma filter_none P l : (forall y, y ∈ l -> P y = false) -> List.filter P l = [].
Proof.
  induction l as [|y l IH]; intros HP; simpl; [done|].
  rewrite HP by (by left). apply IH. intros z Hz. apply HP. by right.
Qed.
End lists.

Section theory.
Context {S crdt cell W : Type} `{CL : CellLib crdt cell} `{CLW : !CellLaws CL}
  `{HLL : HeapLensLaws S cell} `{WHL : HeapLensLaws S W} `{SW : StoreWriter S W}
  `{SLL : SliceLaws} `{ILL : IndexerLaws}.
Implicit Types (h : gmap loc cell) (s : S) (ts : list loc) (this : StateCommitter crdt).

(** What the indexes and the filters look at; the import of a transition may
    load content into its value but leaves this alone. *)
Definition is_raw (c : cell) : bool :=
  match Value c with Some (IsBytes _) => true | _ => false end.
Definition meta (c : cell) : option string * Z * bool * bool :=
  (GetPath c, GetTx c, IfSkipConflictCheck c, is_raw c).
Definition meta_eq h h' : Prop := forall l, meta <$> h !! l = meta <$> h' !! l.

Definition skip_at h (l : loc) : bool := IfSkipConflictCheck (cell_at h l).
Definition group h ts (p : string) : list loc :=
  List.filter (fun l => bool_decide (path_at h l = Some p)) ts.
Definition txgroup h ts (t : Z) : list loc :=
  List.filter (fun l => negb (skip_at h l) && (tx_at h l =? t)%Z) ts.

(** Live transitions whose value is not raw backend bytes. *)
Definition importable h ts : Prop :=
  forall l, l ∈ ts -> exists c p, h !! l = Some c /\ GetPath c = Some p /\ is_raw c = false.

Record indexed h ts this : Prop := {
  ix_live : live h ts;
  ix_nodup : NoDup ts;
  ix_path : forall p, byPath this !! p = nonempty_opt (group h ts p);
  ix_tx : forall t, byTxID this !! t = nonempty_opt (txgroup h ts t);
}.

Lemma meta_at h h' l : meta_eq h h' -> is_Some (h !! l) -> meta (cell_at h l) = meta (cell_at h' l).
Proof.
  intros E [c Hc]. specialize (E l). rewrite Hc in E. simpl in E.
  destruct (h' !! l) as [c'|] eqn:Hc'; [|done]. simpl in E.
  rewrite (cell_at_eq h l c), (cell_at_eq h' l c') by done. congruence.
Qed.
Lemma meta_eq_refl h : meta_eq h h.
Proof. done. Qed.
Lemma meta_eq_trans h1 h2 h3 : meta_eq h1 h2 -> meta_eq h2 h3 -> meta_eq h1 h3.
Proof. intros E1 E2 l. by rewrite (E1 l). Qed.
(** The values of some cells are loaded. *)
Definition loaded (ls : list loc) h h' : Prop :=
  meta_eq h h' /\ forall l, l ∉ ls -> h' !! l = h !! l.
Lemma loaded_refl ls h : loaded ls h h.
Proof. done. Qed.
Lemma loaded_trans ls h1 h2 h3 : loaded ls h1 h2 -> loaded ls h2 h3 -> loaded ls h1 h3.
Proof.
  intros [E1 H1] [E2 H2]. split; [by eapply meta_eq_trans|]. intros l Hl. by rewrite H2, H1.
Qed.
Lemma loaded_mono ls ls' h h' : (forall l, l ∈ ls -> l ∈ ls') -> loaded ls h h' -> loaded ls' h h'.
Proof. intros Hsub [E H]. split; [done|]. intros l Hl. apply H. auto. Qed.
Lemma importable_meta h h' ts : meta_eq h h' -> importable h ts -> importable h' ts.
Proof.
  intros E Hi l Hl. destruct (Hi l Hl) as (c & p & Hc & Hp & Hr).
  specialize (E l). rewrite Hc in E. simpl in E.
  destruct (h' !! l) as [c'|]; [|done]. injection E as E1 E2 E3 E4.
  exists c', p. split; [done|]. split; congruence.
Qed.
Lemma importable_live h ts : importable h ts -> live h ts.
Proof. intros Hi l Hl. destruct (Hi l Hl) as (c & p & ? & ? & _). eauto. Qed.
Lemma live_meta h h' ts : meta_eq h h' -> live h ts -> live h' ts.
Proof.
  intros E Hi l Hl. destruct (Hi l Hl) as (c & p & Hc & Hp).
  specialize (E l). rewrite Hc in E. simpl in E.
  destruct (h' !! l) as [c'|]; [|done]. injection E as E1 E2 E3 E4.
  exists c', p. split; [done|]. congruence.
Qed.
Lemma group_meta h h' ts p : meta_eq h h' -> valid h ts -> group h ts p = group h' ts p.
Proof.
  intros E Hv. apply filter_ext_in_b. intros l Hl.
  pose proof (meta_at h h' l E (Hv l Hl)) as Em. injection Em as E1 E2 E3 E4.
  unfold path_at. by rewrite E1.
Qed.
Lemma txgroup_meta h h' ts t : meta_eq h h' -> valid h ts -> txgroup h ts t = txgroup h' ts t.
Proof.
  intros E Hv. apply filter_ext_in_b. intros l Hl.
  pose proof (meta_at h h' l E (Hv l Hl)) as Em. injection Em as E1 E2 E3 E4.
  unfold skip_at, tx_at. by rewrite E2, E3.
Qed.
Lemma indexed_meta h h' ts this : meta_eq h h' -> indexed h ts this -> indexed h' ts this.
Proof.
  intros E [Hl Hn Hp Ht]. pose proof (live_valid _ _ Hl) as Hv. constructor.
  - by eapply live_meta.
  - done.
  - intros p. by rewrite Hp, (group_meta h h').
  - intros t. by rewrite Ht, (txgroup_meta h h').
Qed.

(** ** Import *)

(** One index: every transition with a key is appended to the key's list. *)
(** One transition of an import. *)
Lemma index_step {K} `{Countable K} (init : K -> loc -> Go S (list loc)) (m : gmap K (list loc))
    (g : K -> list loc) (k : K) (ok : bool) l s :
  (exists h', init k l s = Ret ([l], with_heap h' s) /\ loaded [l] (heap_of s) h') ->
  (forall k, m !! k = nonempty_opt (g k)) ->
  exists m1 h1, gbind (gret (k, ok)) (fun '(k, ok) =>
      if ok : bool then
        match m !! k with
        | Some x => gret (<[k := index_append k l x]> m)
        | None => let! x := init k l in gret (<[k := x]> m)
        end
      else gret m) s = Ret (m1, with_heap h1 s) /\ loaded [l] (heap_of s) h1 /\
    forall k', m1 !! k' =
      nonempty_opt (g k' ++ (if bool_decide ((if ok then Some k else None) = Some k') then [l] else [])).
Proof.
  intros (h' & Ei & Emi) Hm. cbn. destruct ok.
  - assert (Hnew : forall x k', g k ++ [l] = x ->
      <[k := x]> m !! k' =
      nonempty_opt (g k' ++ (if bool_decide (Some k = Some k') then [l] else []))).
    { intros x k' <-. destruct (decide (k = k')) as [->|Hne].
      - rewrite bool_decide_true, nonempty_opt_snoc by done. apply lookup_insert_eq.
      - rewrite bool_decide_false, app_nil_r by congruence.
        by rewrite lookup_insert_ne. }
    destruct (m !! k) as [x|] eqn:Emk.
    + eexists _, (heap_of s). unfold gret. rewrite with_heap_heap. split; [done|].
      split; [done|]. intros k'. apply Hnew. unfold index_append. f_equal.
      rewrite Hm in Emk. destruct (g k); simpl in Emk; congruence.
    + eexists _, h'. unfold gbind. rewrite Ei. unfold gret. split; [done|]. split; [done|].
      intros k'. apply Hnew. rewrite Hm in Emk. by destruct (g k).
  - eexists _, (heap_of s). unfold gret. rewrite with_heap_heap. split; [done|].
    split; [done|]. intros k'. rewrite bool_decide_false by done. by rewrite app_nil_r.
Qed.

Lemma index_fold {K} `{Countable K} (key : loc -> Go S (K * bool)) (init : K -> loc -> Go S (list loc))
    (keyf : gmap loc cell -> loc -> option K) ts :
  (forall s l, importable (heap_of s) [l] -> exists k ok,
     key l s = Ret ((k, ok), s) /\ keyf (heap_of s) l = if ok then Some k else None) ->
  (forall s k l, importable (heap_of s) [l] -> exists h',
     init k l s = Ret ([l], with_heap h' s) /\ loaded [l] (heap_of s) h') ->
  (forall h h' l, meta_eq h h' -> is_Some (h !! l) -> keyf h l = keyf h' l) ->
  forall s (m : gmap K (list loc)) (g : K -> list loc),
  importable (heap_of s) ts -> (forall k, m !! k = nonempty_opt (g k)) ->
  exists m' h', idx_Import key init index_append ts m s = Ret (m', with_heap h' s) /\
    loaded ts (heap_of s) h' /\
    forall k, m' !! k =
      nonempty_opt (g k ++ List.filter (fun l => bool_decide (keyf (heap_of s) l = Some k)) ts).
Proof.
  intros Hkey Hinit Hext s m g Himp Hm. rewrite Import_one_by_one.
  revert s m g Himp Hm. induction ts as [|l ts IH]; intros s m g Himp Hm; cbn [gfold].
  { exists m, (heap_of s). rewrite with_heap_heap. split; [done|]. split; [done|].
    intros k. simpl. by rewrite app_nil_r. }
  assert (Hl : importable (heap_of s) [l]).
  { intros x Hx%list_elem_of_singleton. subst. apply Himp. by left. }
  assert (Hts : importable (heap_of s) ts) by (intros x Hx; apply Himp; by right).
  destruct (Hkey s l Hl) as (k & ok & Ek & Ekf).
  destruct (index_step init m g k ok l s (Hinit s k l Hl) Hm) as (m1 & h1 & E1 & Em1 & Hm1).
  rewrite <- Ekf in Hm1.
  destruct (IH (with_heap h1 s) m1
    (fun k' => g k' ++ (if bool_decide (keyf (heap_of s) l = Some k') then [l] else [])))
    as (m2 & h2 & E2 & Em2 & Hm2).
  { rewrite heap_with_heap. eapply importable_meta; [apply Em1|done]. }
  { done. }
  rewrite heap_with_heap in Em2, Hm2. rewrite with_heap_twice in E2.
  exists m2, h2. split; [|split].
  - apply gbind_ret. exists m1, (with_heap h1 s). split; [|exact E2].
    apply gbind_ret. exists (k, ok), s. split; [exact Ek|exact E1].
  - eapply loaded_trans; [apply (loaded_mono [l])|apply (loaded_mono ts)]; try done.
    + intros x ->%list_elem_of_singleton. by left.
    + intros x Hx. by right.
  - intros k'. rewrite Hm2, <- app_assoc. do 2 f_equal. cbn [List.filter].
    rewrite (filter_ext_in_b _ (fun l => bool_decide (keyf (heap_of s) l = Some k'))).
    + by case_bool_decide.
    + intros x Hx. rewrite (Hext (heap_of s) h1 x); [done|apply Em1|].
      destruct (Hts x Hx) as (c & ? & Hc & _). eauto.
Qed.

(** What a writer promises about [Import]: it accepts any live transitions,
    and touches no more of them than the loading of a value would. *)
Class WriterImports : Prop := {
  writer_import : forall ts o s, importable (heap_of s) ts ->
    exists o' h', w_Import ts o s = Ret (o', with_heap h' s) /\ meta_eq (heap_of s) h';
}.

Lemma PathIndexer_key_spec s l : importable (heap_of s) [l] ->
  exists k ok, PathIndexer_key l s = Ret ((k, ok), s) /\
    path_at (heap_of s) l = if ok then Some k else None.
Proof.
  intros Hi. destruct (Hi l) as (c & p & Hc & Hp & _); [by left|].
  exists p, true. unfold PathIndexer_key, gbind. rewrite (deref_eq l s c), Hp by done.
  split; [done|]. unfold path_at. by rewrite (cell_at_eq _ l c).
Qed.
Lemma PathIndexer_init_spec get s k l : importable (heap_of s) [l] ->
  exists h', PathIndexer_init get k l s = Ret ([l], with_heap h' s) /\ loaded [l] (heap_of s) h'.
Proof.
  intros Hi. destruct (Hi l) as (c & p & Hc & Hp & Hr); [by left|].
  unfold PathIndexer_init, gbind. rewrite (deref_eq l s c) by done.
  destruct (Value c) as [[v|b]|] eqn:Ev.
  - eexists. split; [done|]. split.
    + intros l'. destruct (decide (l = l')) as [<-|Hne].
      * rewrite lookup_insert_eq, Hc. simpl. unfold meta, is_raw.
        by rewrite SetValue_path, SetValue_tx, SetValue_skip, SetValue_value, Ev.
      * by rewrite lookup_insert_ne.
    + intros l' Hl'. rewrite lookup_insert_ne; [done|]. intros <-. apply Hl'. by left.
  - unfold is_raw in Hr. by rewrite Ev in Hr.
  - exists (heap_of s). unfold gret. by rewrite with_heap_heap.
Qed.

Definition txkey h (l : loc) : option Z := if skip_at h l then None else Some (tx_at h l).
Lemma TxIndexer_key_spec s l : importable (heap_of s) [l] ->
  exists k ok, TxIndexer_key l s = Ret ((k, ok), s) /\
    txkey (heap_of s) l = if ok then Some k else None.
Proof.
  intros Hi. destruct (Hi l) as (c & p & Hc & _); [by left|].
  unfold TxIndexer_key, gbind. rewrite (deref_eq l s c) by done.
  unfold txkey, skip_at, tx_at. rewrite (cell_at_eq _ l c) by done.
  destruct (IfSkipConflictCheck c); simpl; [eexists _, false|eexists _, true]; done.
Qed.
Lemma txkey_filter h ts t :
  List.filter (fun l => bool_decide (txkey h l = Some t)) ts = txgroup h ts t.
Proof.
  apply filter_ext_in_b. intros l _. unfold txkey. destruct (skip_at h l); cbn [negb andb].
  - by apply bool_decide_false.
  - destruct (Z.eqb_spec (tx_at h l) t) as [->|]; [by apply bool_decide_true|].
    apply bool_decide_false. congruence.
Qed.

Lemma call_import_spec `{!LensIndep HL HL0} `{!WriterImports} ts ws s :
  importable (heap_of s) ts -> valid (heap_of (HeapLens := HL0) s) ws ->
  exists s', gforeach (call_writer (w_Import ts)) ws s = Ret (tt, s') /\
    meta_eq (heap_of s) (heap_of (HeapLens := HL) s').
Proof.
  revert s. induction ws as [|w ws IH]; intros s Hi Hv; simpl; [by exists s|].
  destruct (Hv w) as [o Ho]; [by left|].
  destruct (writer_import ts o s Hi) as (o' & h' & E & Em).
  destruct (IH (with_heap (HeapLens := HL0) (<[w := o']> (heap_of (with_heap h' s))) (with_heap h' s)))
    as (s' & E' & Em').
  { rewrite indep_l, heap_with_heap. by eapply importable_meta. }
  { intros x Hx. rewrite heap_with_heap, indep_r. destruct (decide (w = x)) as [->|].
    - rewrite lookup_insert_eq. eauto.
    - rewrite lookup_insert_ne by done. apply Hv. by right. }
  rewrite indep_l, heap_with_heap in Em'.
  exists s'. split; [|by eapply meta_eq_trans].
  apply gbind_ret. eexists tt, _. split; [|exact E'].
  unfold call_writer. apply gbind_ret. exists o, s. split; [by apply deref_eq|].
  apply gbind_ret. exists o', (with_heap h' s). split; [done|]. by apply assign_ret.
Qed.

(** The indexes that an import leaves, before the writers are called. *)
Lemma Import_indexes ts ts' this s :
  indexed (heap_of s) ts this -> importable (heap_of s) ts' -> NoDup (ts ++ ts') ->
  exists mp mt h2,
    let this' := MkStateCommitter (readonlyStore this) (writers this) (syncWriters this)
      (asyncWriters this) mp mt (pathStore this) in
    Import ts' this s =
      (gforeach (call_writer (w_Import ts')) (writers this) ;;; gret this') (with_heap h2 s) /\
    indexed h2 (ts ++ ts') this' /\ loaded ts' (heap_of s) h2.
Proof.
  intros [Hl Hn Hp Ht] Hi Hnd.
  destruct (index_fold PathIndexer_key (PathIndexer_init (pathStore this)) path_at ts'
    PathIndexer_key_spec (PathIndexer_init_spec _)) with (s := s) (m := byPath this)
    (g := group (heap_of s) ts) as (mp & h1 & E1 & Em1 & Hmp); [|done|done|].
  { intros h h' l Eh Hs. pose proof (meta_at h h' l Eh Hs) as Em.
    injection Em as Em _ _ _. exact Em. }
  destruct (index_fold TxIndexer_key TxIndexer_init txkey ts' TxIndexer_key_spec)
    with (s := with_heap h1 s) (m := byTxID this) (g := txgroup (heap_of s) ts)
    as (mt & h2 & E2 & Em2 & Hmt).
  { intros s0 k l _. exists (heap_of s0). unfold TxIndexer_init, gret.
    by rewrite with_heap_heap. }
  { intros h h' l Eh Hs. pose proof (meta_at h h' l Eh Hs) as Em.
    injection Em as _ Et Es _. unfold txkey, skip_at, tx_at. by rewrite Et, Es. }
  { rewrite heap_with_heap. eapply importable_meta; [apply Em1|done]. }
  { done. }
  rewrite heap_with_heap in Em2, Hmt. rewrite with_heap_twice in E2.
  assert (Em12 : loaded ts' (heap_of s) h2) by (by eapply loaded_trans).
  exists mp, mt, h2. split; [|split; [|done]].
  - unfold Import. rewrite (gbind_eq _ _ _ _ _ E1). by rewrite (gbind_eq _ _ _ _ _ E2).
  - apply (indexed_meta (heap_of s)); [apply Em12|].
    pose proof (live_valid _ _ (importable_live _ _ Hi)) as Hvi.
    constructor; cbn [byPath byTxID].
    + intros l [Hx|Hx]%elem_of_app; [by apply Hl|by eapply importable_live].
    + done.
    + intros p. unfold group. rewrite List.filter_app. apply Hmp.
    + intros t. unfold txgroup. rewrite List.filter_app, Hmt. fold (txgroup (heap_of s) ts t).
      do 2 f_equal. rewrite txkey_filter. symmetry. by apply txgroup_meta; [apply Em1|].
Qed.

(** C24: importing a batch of live transitions succeeds, and afterwards the
    two indexes hold the old transitions followed by the new ones, grouped by
    path and by transaction in arrival order; no transition's path or
    transaction changes.  Transitions exempt from conflict checking are in
    the path index only. *)
Theorem Import_indexed `{!LensIndep HL HL0} `{!WriterImports} ts ts' this s :
  indexed (heap_of s) ts this -> importable (heap_of s) ts' -> NoDup (ts ++ ts') ->
  valid (heap_of (HeapLens := HL0) s) (writers this) ->
  exists this' s', Import ts' this s = Ret (this', s') /\
    indexed (heap_of s') (ts ++ ts') this' /\ meta_eq (heap_of s) (heap_of s').
Proof.
  intros Hx Hi Hnd Hv. destruct (Import_indexes ts ts' this s Hx Hi Hnd) as (mp & mt & h2 & E & Hx2 & Em2 & _).
  destruct (call_import_spec ts' (writers this) (with_heap h2 s)) as (s' & E3 & Em3).
  { rewrite heap_with_heap. by eapply importable_meta. }
  { intros w Hw. rewrite indep_r. by apply Hv. }
  rewrite heap_with_heap in Em3. eexists _, s'. split; [|split].
  - rewrite E. by rewrite (gbind_eq _ _ _ _ _ E3).
  - by apply (indexed_meta h2).
  - by eapply meta_eq_trans.
Qed.

(** ** The whitelist *)

(** Transitions of a transaction that is not accepted.  An empty whitelist
    accepts everything, and so does the exemption from conflict checking. *)
Definition rejected h (txs : list Z) (l : loc) : bool :=
  negb (length txs =? 0) && (negb (skip_at h l) && negb (in_whitelist txs (tx_at h l))).

Lemma in_txgroup h ts t l :
  l ∈ txgroup h ts t <-> l ∈ ts /\ skip_at h l = false /\ tx_at h l = t.
Proof.
  unfold txgroup. rewrite elem_of_filter_b, andb_true_iff, negb_true_iff, Z.eqb_eq. naive_solver.
Qed.
Lemma in_group h ts p l : l ∈ group h ts p <-> l ∈ ts /\ path_at h l = Some p.
Proof. unfold group. by rewrite elem_of_filter_b, bool_decide_eq_true. Qed.

Lemma order_NoDup {K V} `{Countable K} (m : gmap K V) : NoDup (idx_order m).
Proof. rewrite order_perm. apply NoDup_fst_map_to_list. Qed.
Lemma order_elem {K V} `{Countable K} (m : gmap K V) k : k ∈ idx_order m <-> is_Some (m !! k).
Proof.
  rewrite order_perm. change (map fst (map_to_list m)) with ((map_to_list m).*1).
  rewrite list_elem_of_fmap. split.
  - intros ([k' v] & -> & Hk%elem_of_map_to_list). eauto.
  - intros [v Hv]. exists (k, v). split; [done|]. by apply elem_of_map_to_list.
Qed.

(** The regions of the loops over the two indexes. *)
Definition txregion this (t : Z) : list loc := default [] (byTxID this !! t).
Definition pathregion this (p : string) : list loc := default [] (byPath this !! p).
Lemma txregion_eq h ts this t : indexed h ts this -> txregion this t = txgroup h ts t.
Proof. intros Hx. unfold txregion. by rewrite (ix_tx _ _ _ Hx), nonempty_opt_default. Qed.
Lemma pathregion_eq h ts this p : indexed h ts this -> pathregion this p = group h ts p.
Proof. intros Hx. unfold pathregion. by rewrite (ix_path _ _ _ Hx), nonempty_opt_default. Qed.
Lemma nonempty_is_Some {A} (l : list A) x : x ∈ l -> is_Some (nonempty_opt l).
Proof. destruct l; [by intros ?%elem_of_nil|eauto]. Qed.

Lemma whitelist_eq txs ts this s :
  indexed (heap_of s) ts this ->
  exists h', whitelist txs this s = Ret (tt, with_heap h' s) /\
    forall l, h' !! l = if decide (l ∈ ts /\ rejected (heap_of s) txs l = true)
                        then SetPath None <$> heap_of s !! l else heap_of s !! l.
Proof.
  intros Hx. pose proof (live_valid _ _ (ix_live _ _ _ Hx)) as Hv.
  unfold whitelist, rejected. destruct (Nat.eqb_spec (length txs) 0) as [E|E].
  { exists (heap_of s). unfold gret. rewrite with_heap_heap. split; [done|].
    intros l. rewrite decide_False; [done|]. by intros [_ ?]. }
  cbn [negb andb].
  set (rej := fun l => negb (skip_at (heap_of s) l) && negb (in_whitelist txs (tx_at (heap_of s) l))).
  destruct (gforeach_regions
    (fun txid => if in_whitelist txs txid then gret tt
                 else gforeach (update_cell (SetPath None)) (txregion this txid))
    (txregion this) (heap_of s)
    (fun l => if rej l then SetPath None <$> heap_of s !! l else heap_of s !! l)
    (idx_order (byTxID this)) s) as (h' & Er & Hin & Hout).
  - apply order_NoDup.
  - intros k k' l _ _. rewrite !(txregion_eq _ _ _ _ Hx), !in_txgroup. naive_solver.
  - intros t s1 _ Hag. destruct (in_whitelist txs t) eqn:Ew.
    + exists (heap_of s1). unfold gret. rewrite with_heap_heap. split; [done|].
      intros l. case_decide as Hl; [|done]. rewrite (Hag l Hl).
      rewrite (txregion_eq _ _ _ _ Hx), in_txgroup in Hl. destruct Hl as (_ & Hsk & Ht).
      unfold rej. by rewrite Hsk, Ht, Ew.
    + eexists. split.
      * apply foreach_update_valid. intros l Hl. rewrite (Hag l Hl). apply Hv.
        rewrite (txregion_eq _ _ _ _ Hx), in_txgroup in Hl. by destruct Hl.
      * intros l. rewrite alter_all_lookup.
        -- case_decide as Hl; [|done]. rewrite (Hag l Hl).
           rewrite (txregion_eq _ _ _ _ Hx), in_txgroup in Hl. destruct Hl as (_ & Hsk & Ht).
           unfold rej. by rewrite Hsk, Ht, Ew.
        -- rewrite (txregion_eq _ _ _ _ Hx). apply NoDup_filter_b, (ix_nodup _ _ _ Hx).
  - done.
  - exists h'. split; [exact Er|]. intros l. fold (rej l).
    destruct (decide (l ∈ ts)) as [Hl|Hl].
    + destruct (skip_at (heap_of s) l) eqn:Hsk.
      * rewrite decide_False by (unfold rej; rewrite Hsk; by intros [_ ?]).
        apply Hout. intros t _. rewrite (txregion_eq _ _ _ _ Hx), in_txgroup.
        intros (_ & Hf & _). congruence.
      * assert (Hr : l ∈ txregion this (tx_at (heap_of s) l))
          by (rewrite (txregion_eq _ _ _ _ Hx); by apply in_txgroup).
        rewrite (Hin (tx_at (heap_of s) l) l); [|apply order_elem|done].
        -- destruct (rej l); [by rewrite decide_True|rewrite decide_False; [done|by intros [_ ?]]].
        -- rewrite (ix_tx _ _ _ Hx). rewrite (txregion_eq _ _ _ _ Hx) in Hr.
           by eapply nonempty_is_Some.
    + rewrite decide_False by (by intros [? _]).
      apply Hout. intros t _. rewrite (txregion_eq _ _ _ _ Hx), in_txgroup. by intros [? _].
Qed.

(** C25: the whitelist erases the path of exactly the imported transitions
    whose transaction is not listed and that are subject to conflict
    checking; every other cell is left as it was, and an empty whitelist
    erases nothing. *)
Theorem whitelist_spec txs ts this s :
  indexed (heap_of s) ts this ->
  exists h', whitelist txs this s = Ret (tt, with_heap h' s) /\
    (forall l, l ∈ ts ->
       path_at h' l = None <-> txs <> [] /\ skip_at (heap_of s) l = false /\
                             tx_at (heap_of s) l ∉ txs) /\
    (forall l, l ∉ ts \/ path_at h' l <> None -> h' !! l = heap_of s !! l).
Proof.
  intros Hx. destruct (whitelist_eq txs ts this s Hx) as (h' & E & Hh). exists h'.
  split; [done|].
  assert (Hrej : forall l, rejected (heap_of s) txs l = true <->
    txs <> [] /\ skip_at (heap_of s) l = false /\ tx_at (heap_of s) l ∉ txs).
  { intros l. unfold rejected, in_whitelist.
    rewrite !andb_true_iff, !negb_true_iff, bool_decide_eq_false, length_zero_nil.
    destruct txs; split; intros (? & ? & ?); done. }
  split.
  - intros l Hl. rewrite <- Hrej. destruct (ix_live _ _ _ Hx l Hl) as (c & p & Hc & Hp).
    specialize (Hh l). unfold path_at, cell_at. rewrite Hh, Hc.
    case_decide as Hd; simpl.
    + rewrite SetPath_path. split; [intros _; by apply Hd|done].
    + rewrite Hp. split; [done|]. intros Hr. by destruct Hd.
  - intros l Hl. specialize (Hh l). case_decide as Hd; [|done]. exfalso.
    destruct Hd as [Hi _]. destruct (ix_live _ _ _ Hx l Hi) as (c & p & Hc & Hp).
    rewrite Hc in Hh. destruct Hl as [Hl|Hl]; [done|]. apply Hl.
    unfold path_at. rewrite (cell_at_eq _ _ _ Hh). apply SetPath_path.
Qed.

(** ** Finalize *)

Definition survivors h txs ts (p : string) : list loc :=
  List.filter (fun l => negb (rejected h txs l)) (group h ts p).
(** The transition of a path the others are merged into. *)
Definition winner h txs ts (p : string) : option loc := head (order_of h (survivors h txs ts p)).
(** On every path the deltas of the accepted transactions apply. *)
Definition deltas_apply h txs ts : Prop :=
  forall p, is_Some (merge_deltas h (survivors h txs ts p)).

(** The contents of an imported cell after [Finalize]. *)
Definition finalized_cell h txs ts (l : loc) : option cell :=
  if rejected h txs l then SetPath None <$> h !! l
  else match path_at h l with
       | Some p => match merge_deltas h (survivors h txs ts p) with
                   | Some m => m !! l
                   | None => h !! l
                   end
       | None => h !! l
       end.

Lemma in_survivors h txs ts p l :
  l ∈ survivors h txs ts p <-> (l ∈ ts /\ path_at h l = Some p) /\ rejected h txs l = false.
Proof. unfold survivors. by rewrite elem_of_filter_b, in_group, negb_true_iff. Qed.
Lemma survivors_NoDup h txs ts p : NoDup ts -> NoDup (survivors h txs ts p).
Proof. intros. by apply NoDup_filter_b, NoDup_filter_b. Qed.
Lemma survivors_live h txs ts p : live h ts -> live h (survivors h txs ts p).
Proof. intros Hl l ((Hi & _) & _)%in_survivors. by apply Hl. Qed.

Definition whitelisted h h1 txs ts : Prop := forall l,
  h1 !! l = if decide (l ∈ ts /\ rejected h txs l = true)
            then SetPath None <$> h !! l else h !! l.

(** The cells of a path after the whitelist. *)
Lemma group_after_whitelist h h1 h2 txs ts p :
  whitelisted h h1 txs ts -> (forall l, l ∈ group h ts p -> h2 !! l = h1 !! l) ->
  forall l, l ∈ group h ts p ->
    h2 !! l = if rejected h txs l then SetPath None <$> h !! l else h !! l.
Proof.
  intros Hw Hag l Hl. rewrite (Hag l Hl), (Hw l). apply in_group in Hl as [Hi _].
  destruct (rejected h txs l); [by rewrite decide_True|].
  rewrite decide_False; [done|]. by intros [_ ?].
Qed.
(** The ones that kept the path. *)
Lemma kept_after_whitelist h h2 txs ts p :
  live h ts ->
  (forall l, l ∈ group h ts p ->
    h2 !! l = if rejected h txs l then SetPath None <$> h !! l else h !! l) ->
  valid h2 (group h ts p) /\
  map fst (slice_RemoveIf (fun lc : loc * cell => no_path lc.2)
    (map (fun l => (l, cell_at h2 l)) (group h ts p))) = survivors h txs ts p /\
  forall l, l ∈ survivors h txs ts p -> h2 !! l = h !! l.
Proof.
  intros Hlive Hcell. split; [|split].
  - intros l Hl. rewrite (Hcell l Hl). apply in_group in Hl as [Hi _].
    destruct (Hlive l Hi) as (c & ? & -> & _). destruct (rejected h txs l); simpl; eauto.
  - rewrite RemoveIf_spec. rewrite <- (filter_map_swap _ _ _). rewrite map_map, map_id.
    apply filter_ext_in_b. intros l Hl. cbn [snd]. f_equal. specialize (Hcell l Hl).
    apply in_group in Hl as [Hi Hp]. destruct (Hlive l Hi) as (c & q & Hc & Hq).
    rewrite Hc in Hcell. unfold no_path, cell_at. rewrite Hcell.
    destruct (rejected h txs l); simpl; [by rewrite SetPath_path|by rewrite Hq].
  - intros l Hl. apply in_survivors in Hl as ([Hi Hp] & Hr).
    rewrite (Hcell l) by (by apply in_group). by rewrite Hr.
Qed.

Lemma finalize_path_eq h h1 txs ts this p s :
  indexed h ts this -> whitelisted h h1 txs ts ->
  is_Some (merge_deltas h (survivors h txs ts p)) ->
  (forall l, l ∈ pathregion this p -> heap_of s !! l = h1 !! l) ->
  exists h', finalize_path this p s = Ret (tt, with_heap h' s) /\
    forall l, h' !! l = if decide (l ∈ pathregion this p)
                        then finalized_cell h txs ts l else heap_of s !! l.
Proof.
  intros Hx Hw [m Hm] Hag. rewrite (pathregion_eq _ _ _ _ Hx) in *.
  pose proof (ix_nodup _ _ _ Hx) as Hnd. pose proof (ix_live _ _ _ Hx) as Hlive.
  pose proof (group_after_whitelist _ _ _ _ _ _ Hw Hag) as Hcell.
  destruct (kept_after_whitelist _ _ _ _ _ Hlive Hcell) as (Hv & Hsurv & Hsame).
  assert (Hrun : exists m', finalize_path this p s = Ret (tt, with_heap m' s) /\
    merge_deltas (heap_of s) (survivors h txs ts p) = Some m').
  { unfold finalize_path. fold (pathregion this p). rewrite (pathregion_eq _ _ _ _ Hx).
    unfold gbind at 1. rewrite deref_all_valid, Hsurv by done.
    pose proof (merge_deltas_local (heap_of s) h (survivors h txs ts p)
      (survivors_NoDup _ _ _ _ Hnd) Hsame) as Hloc. rewrite Hm in Hloc.
    destruct (merge_deltas (heap_of s) (survivors h txs ts p)) as [m'|] eqn:Em'; [|done].
    exists m'. split; [|done].
    destruct (Nat.ltb_spec 0 (length (survivors h txs ts p))) as [Hlt|Hlt].
    - unfold gbind. rewrite Finalize_eq, Em'; [done| |by apply survivors_NoDup].
      intros l Hl. destruct (survivors_live h txs ts p Hlive l Hl) as (c & q & Hc & Hq).
      exists c, q. by rewrite (Hsame l Hl).
    - destruct (survivors h txs ts p); simpl in Hlt; [|lia].
      unfold merge_deltas in Em'. cbn in Em'. injection Em' as <-.
      unfold gret. by rewrite with_heap_heap. }
  destruct Hrun as (m' & Hrun & Em'). exists m'. split; [done|]. intros l.
  pose proof (merge_deltas_local (heap_of s) h _ (survivors_NoDup h txs ts p Hnd) Hsame) as Hloc.
  rewrite Hm, Em' in Hloc.
  case_decide as Hl.
  - pose proof Hl as [Hi Hp]%in_group. unfold finalized_cell. rewrite Hp, Hm.
    destruct (rejected h txs l) eqn:Hr.
    + rewrite (merge_deltas_frame (heap_of s) (survivors h txs ts p) m' l); [| |done|].
      * by rewrite (Hcell l Hl), Hr.
      * by apply survivors_NoDup.
      * rewrite in_survivors. intros [_ Hf]. congruence.
    + apply Hloc. by apply in_survivors.
  - apply (merge_deltas_frame (heap_of s) (survivors h txs ts p)); [by apply survivors_NoDup|done|].
    rewrite in_survivors. intros [Hg _]. by apply Hl, in_group.
Qed.

Definition cleared this : StateCommitter crdt :=
  MkStateCommitter (readonlyStore this) (writers this) (syncWriters this)
    (asyncWriters this) ∅ ∅ (pathStore this).

(** The loop over the paths, for any order of the keys of the index. *)
Lemma finalize_paths_eq h h1 txs ts this ks s :
  indexed h ts this -> whitelisted h h1 txs ts -> deltas_apply h txs ts ->
  Permutation ks (map fst (map_to_list (byPath this))) -> heap_of s = h1 ->
  exists h', gforeach (finalize_path this) ks s = Ret (tt, with_heap h' s) /\
    forall l, h' !! l = if decide (l ∈ ts) then finalized_cell h txs ts l else h !! l.
Proof.
  intros Hx Hw Hda Hks Hs.
  assert (Hkeys : forall p, p ∈ ks <-> is_Some (byPath this !! p)).
  { intros p. rewrite Hks, <- (order_elem (byPath this)). by rewrite order_perm. }
  destruct (gforeach_regions (finalize_path this) (pathregion this) h1
    (finalized_cell h txs ts) ks s) as (h' & E & Hin & Hout).
  - rewrite Hks. apply NoDup_fst_map_to_list.
  - intros p q l _ _. rewrite !(pathregion_eq _ _ _ _ Hx), !in_group.
    intros [_ Hp] [_ Hq]. congruence.
  - intros p s1 _ Hag. by apply (finalize_path_eq h h1).
  - intros p l _ _. by rewrite Hs.
  - exists h'. split; [exact E|]. intros l. case_decide as Hl.
    + destruct (ix_live _ _ _ Hx l Hl) as (c & p & Hc & Hp).
      assert (Hr : l ∈ pathregion this p).
      { rewrite (pathregion_eq _ _ _ _ Hx). apply in_group. split; [done|].
        unfold path_at. by rewrite (cell_at_eq _ _ _ Hc). }
      apply (Hin p l); [|done]. apply Hkeys.
      rewrite (ix_path _ _ _ Hx). rewrite (pathregion_eq _ _ _ _ Hx) in Hr.
      by eapply nonempty_is_Some.
    + rewrite Hout, Hs, (Hw l), decide_False; [done|by intros [? _]|].
      intros p _. rewrite (pathregion_eq _ _ _ _ Hx), in_group. by intros [? _].
Qed.

Lemma Committer_Finalize_eq txs ts this s :
  indexed (heap_of s) ts this -> deltas_apply (heap_of s) txs ts ->
  exists h', Finalize txs this s = Ret (cleared this, with_heap h' s) /\
    forall l, h' !! l = if decide (l ∈ ts) then finalized_cell (heap_of s) txs ts l
                        else heap_of s !! l.
Proof.
  intros Hx Hda. destruct (whitelist_eq txs ts this s Hx) as (h1 & E1 & Hw).
  destruct (finalize_paths_eq (heap_of s) h1 txs ts this (idx_order (byPath this))
    (with_heap h1 s)) as (h' & E2 & Hh'); [done|done|done|by rewrite order_perm|
    by rewrite heap_with_heap|].
  exists h'. split; [|done]. rewrite with_heap_twice in E2.
  unfold Finalize. apply gbind_ret. exists tt, (with_heap h1 s). split; [exact E1|].
  apply gbind_ret. exists tt, (with_heap h' s). split; [exact E2|]. done.
Qed.

Lemma winner_in h txs ts p l : winner h txs ts p = Some l -> l ∈ survivors h txs ts p.
Proof. intros Hw%head_Some_elem_of. by rewrite order_of_perm in Hw. Qed.

Definition is_winner h txs ts (l : loc) : bool :=
  bool_decide (path_at h l ≫= winner h txs ts = Some l).

Lemma finalized_path h txs ts l :
  live h ts -> NoDup ts -> deltas_apply h txs ts -> l ∈ ts ->
  (GetPath <$> finalized_cell h txs ts l) =
    Some (if is_winner h txs ts l then path_at h l else None).
Proof.
  intros Hlive Hnd Hda Hi. destruct (Hlive l Hi) as (c & p & Hc & Hp).
  assert (Hpa : path_at h l = Some p) by (unfold path_at; by rewrite (cell_at_eq _ _ _ Hc)).
  unfold finalized_cell, is_winner, winner. rewrite Hpa. cbn [mbind option_bind].
  pose proof (survivors_NoDup h txs ts p Hnd) as Hnds.
  pose proof (order_of_perm h (survivors h txs ts p)) as Hperm.
  destruct (Hda p) as [m Hm]. rewrite Hm.
  destruct (rejected h txs l) eqn:Hr.
  - rewrite Hc, bool_decide_false; [by simpl; rewrite SetPath_path|].
    intros Hw%winner_in. apply in_survivors in Hw as [_ Hf]. congruence.
  - assert (Hin : l ∈ order_of h (survivors h txs ts p))
      by (rewrite Hperm, in_survivors; done).
    unfold merge_deltas in Hm. rewrite <- Hperm in Hnds.
    destruct (order_of h (survivors h txs ts p)) as [|l0 rest] eqn:Eo; [by apply elem_of_nil in Hin|].
    destruct (ApplyDelta _ _) as [c0|] eqn:Ea; [|done]. injection Hm as <-. cbn [head].
    apply NoDup_cons in Hnds as [Hl0 Hnds]. rewrite alter_all_lookup by done.
    apply elem_of_cons in Hin as [->|Hin].
    + rewrite decide_False, lookup_insert_eq by done. rewrite bool_decide_true by done. simpl.
      apply ApplyDelta_path in Ea. rewrite Ea. f_equal. by fold (path_at h l0).
    + rewrite decide_True by done. rewrite bool_decide_false by (intros Heq; by simplify_eq).
      rewrite lookup_insert_ne by (by intros ->). rewrite Hc. simpl. by rewrite SetPath_path.
Qed.

Lemma finalized_group h h' txs ts p :
  live h ts -> NoDup ts -> deltas_apply h txs ts ->
  (forall l, h' !! l = if decide (l ∈ ts) then finalized_cell h txs ts l else h !! l) ->
  group h' ts p = option_list (winner h txs ts p).
Proof.
  intros Hlive Hnd Hda Hh'.
  assert (Hpath : forall l, l ∈ ts -> path_at h' l =
    if is_winner h txs ts l then path_at h l else None).
  { intros l Hl. pose proof (finalized_path _ txs ts l Hlive Hnd Hda Hl) as Hf.
    specialize (Hh' l). rewrite decide_True in Hh' by done. rewrite <- Hh' in Hf.
    destruct (h' !! l) as [c|] eqn:Hc; [|done]. simpl in Hf. injection Hf as Hf.
    rewrite <- Hf. unfold path_at. by rewrite (cell_at_eq _ _ _ Hc). }
  destruct (winner h txs ts p) as [w|] eqn:Hw; simpl.
  - pose proof (winner_in _ _ _ _ _ Hw) as Hin. apply in_survivors in Hin as [[Hin Hp] _].
    apply filter_unique; [done|done|]. intros l Hl. rewrite bool_decide_eq_true, (Hpath l Hl).
    split.
    + unfold is_winner. case_bool_decide as Hd; [|done]. intros Hlp.
      rewrite Hlp in Hd. cbn in Hd. congruence.
    + intros ->. unfold is_winner. rewrite Hp. cbn. by rewrite bool_decide_true.
  - apply filter_none. intros l Hl. apply bool_decide_eq_false. rewrite (Hpath l Hl).
    unfold is_winner. case_bool_decide as Hd; [|done]. intros Hlp.
    rewrite Hlp in Hd. cbn in Hd. congruence.
Qed.

(** C12: after [Finalize] each path keeps exactly one of the imported
    transitions, the first one in the SYSTEM-then-transaction order among
    those the whitelist accepts, and none when all were rejected; the indexes
    are empty again and cells that were not imported are untouched. *)
Theorem Finalize_one_per_path txs ts this s :
  indexed (heap_of s) ts this -> deltas_apply (heap_of s) txs ts ->
  exists h', Finalize txs this s = Ret (cleared this, with_heap h' s) /\
    (forall p, group h' ts p = option_list (winner (heap_of s) txs ts p)) /\
    (forall l, l ∉ ts -> h' !! l = heap_of s !! l).
Proof.
  intros Hx Hda. destruct (Committer_Finalize_eq txs ts this s Hx Hda) as (h' & E & Hh').
  pose proof (ix_live _ _ _ Hx) as Hlive. pose proof (ix_nodup _ _ _ Hx) as Hnd.
  exists h'. split; [done|]. split; [|intros l Hl; by rewrite Hh', decide_False].
  intros p. by apply finalized_group.
Qed.

(** The transition a path ends up with. *)
Definition merged_cell h txs ts (p : string) : option cell :=
  match order_of h (survivors h txs ts p) with
  | [] => None
  | l0 :: rest => ApplyDelta (cell_at h l0) (map (cell_at h) rest)
  end.

(** What each imported cell is after [Finalize]: an erased one keeps its
    content, the first of a path has the merged content. *)
Lemma finalized_cases h h' txs ts l :
  live h ts -> NoDup ts -> deltas_apply h txs ts ->
  (forall l, h' !! l = if decide (l ∈ ts) then finalized_cell h txs ts l else h !! l) ->
  l ∈ ts ->
  h' !! l = SetPath None <$> h !! l \/
  exists p, winner h txs ts p = Some l /\ h' !! l = merged_cell h txs ts p.
Proof.
  intros Hlive Hnd Hda Hh' Hl. rewrite Hh', decide_True by done. unfold finalized_cell.
  destruct (rejected h txs l) eqn:Hr; [by left|].
  destruct (Hlive l Hl) as (c & p & Hc & Hp).
  assert (Hpa : path_at h l = Some p) by (unfold path_at; by rewrite (cell_at_eq _ _ _ Hc)).
  rewrite Hpa. destruct (Hda p) as [m Hm]. rewrite Hm.
  pose proof (order_of_perm h (survivors h txs ts p)) as Hperm.
  assert (Hin : l ∈ order_of h (survivors h txs ts p)) by (rewrite Hperm, in_survivors; done).
  pose proof (survivors_NoDup h txs ts p Hnd) as Hnds. rewrite <- Hperm in Hnds.
  unfold merge_deltas in Hm.
  destruct (order_of h (survivors h txs ts p)) as [|l0 rest] eqn:Ho; [by apply elem_of_nil in Hin|].
  destruct (ApplyDelta _ _) as [c0|] eqn:Ea; [|done]. injection Hm as <-.
  apply NoDup_cons in Hnds as [Hl0 Hnds]. rewrite alter_all_lookup by done.
  apply elem_of_cons in Hin as [->|Hin].
  - right. exists p. unfold winner, merged_cell. rewrite Ho, decide_False by done.
    split; [done|]. by rewrite lookup_insert_eq.
  - left. rewrite decide_True, lookup_insert_ne by (done || (by intros ->)). done.
Qed.

Lemma winner_merged h h' txs ts p l :
  live h ts -> NoDup ts -> deltas_apply h txs ts ->
  (forall l, h' !! l = if decide (l ∈ ts) then finalized_cell h txs ts l else h !! l) ->
  winner h txs ts p = Some l -> h' !! l = merged_cell h txs ts p.
Proof.
  intros Hlive Hnd Hda Hh' Hw. pose proof (winner_in _ _ _ _ _ Hw) as Hin.
  apply in_survivors in Hin as ([Hin Hpath] & Hr).
  rewrite Hh', decide_True by done. unfold finalized_cell. rewrite Hr, Hpath.
  destruct (Hda p) as [m Hm]. rewrite Hm. unfold winner in Hw. unfold merge_deltas in Hm.
  unfold merged_cell. pose proof (order_of_perm h (survivors h txs ts p)) as Hp.
  assert (Hnds : NoDup (order_of h (survivors h txs ts p)))
    by (rewrite Hp; by apply survivors_NoDup).
  destruct (order_of _ _) as [|l0 rest]; [done|]. injection Hw as ->.
  destruct (ApplyDelta _ _) as [c0|]; [|done]. injection Hm as <-.
  apply NoDup_cons in Hnds as [Hl0 Hnd'].
  by rewrite alter_all_lookup, decide_False, lookup_insert_eq.
Qed.

(** C18: what the surviving transition of a path holds: the deltas of the
    other accepted transitions of that path, applied in order to the first
    one; rejected transitions contribute nothing. *)
Theorem Finalize_merges txs ts this s p l0 rest :
  indexed (heap_of s) ts this -> deltas_apply (heap_of s) txs ts ->
  order_of (heap_of s) (survivors (heap_of s) txs ts p) = l0 :: rest ->
  exists h', Finalize txs this s = Ret (cleared this, with_heap h' s) /\
    h' !! l0 = ApplyDelta (cell_at (heap_of s) l0) (map (cell_at (heap_of s)) rest).
Proof.
  intros Hx Hda Ho. destruct (Committer_Finalize_eq txs ts this s Hx Hda) as (h' & E & Hh').
  exists h'. split; [done|].
  rewrite (winner_merged (heap_of s) h' txs ts p l0); [unfold merged_cell; by rewrite Ho| | | | |].
  - apply (ix_live _ _ _ Hx).
  - apply (ix_nodup _ _ _ Hx).
  - done.
  - done.
  - unfold winner. by rewrite Ho.
Qed.

(** C27: the paths are finalized in parallel by the code; whatever the order
    in which they are reached, the resulting store is the same. *)
Theorem finalize_order_irrelevant txs ts this s ks ks' h1 :
  indexed (heap_of s) ts this -> deltas_apply (heap_of s) txs ts ->
  whitelist txs this s = Ret (tt, with_heap h1 s) ->
  Permutation ks (map fst (map_to_list (byPath this))) -> Permutation ks' ks ->
  gforeach (finalize_path this) ks (with_heap h1 s) =
  gforeach (finalize_path this) ks' (with_heap h1 s).
Proof.
  intros Hx Hda Hw Hks Hks'.
  destruct (whitelist_eq txs ts this s Hx) as (h2 & E2 & Hw2).
  assert (h2 = h1) as ->.
  { rewrite E2 in Hw. injection Hw as Hw. apply (f_equal (heap_of (HeapLens := HL))) in Hw.
    by rewrite !heap_with_heap in Hw. }
  destruct (finalize_paths_eq (heap_of s) h1 txs ts this ks (with_heap h1 s))
    as (ha & Ea & Ha); [done|done|done|done|by rewrite heap_with_heap|].
  destruct (finalize_paths_eq (heap_of s) h1 txs ts this ks' (with_heap h1 s))
    as (hb & Eb & Hb); [done|done|done|by rewrite Hks'|by rewrite heap_with_heap|].
  rewrite Ea, Eb. do 3 f_equal. apply map_eq. intros l. by rewrite Ha, Hb.
Qed.
End theory.
