(* ===== verification/LiveCache.v ===== *)
(** * storage/execstorage/livecache: the writer of the live cache

    The live cache keeps typed values.  Its writer collects the transitions of
    the generations of a block, one indexer per generation, and applies them
    together when the block is committed.  An indexer keeps pointers to the
    transitions, so what is committed is what the cells hold at that time. *)
From S2P Require Import Prelude Interfaces Heap DeltaSequence.

Module LiveCache.
Section livecache.
Context {S crdt cell C : Type} `{CL : CellLib crdt cell} `{CH : HeapLens S cell}
  `{SL : SliceLib} `{CaL : CacheLib crdt C} `{CO : ObjLens S C}.

(** ** live_cache_indexer.go *)
Record LiveCacheIndexer := MkLiveCacheIndexer {
  Version : Z;
  buffer : list loc;
  importBuffer : list loc;
  keys : list string;
  values : list (option crdt);
  filter : cell -> bool;
}.

Definition NewLiveCacheIndexer (version : Z) (filter : cell -> bool) : LiveCacheIndexer :=
  MkLiveCacheIndexer version [] [] [] [] filter.

Definition Indexer_Import (transitions : list loc) (this : LiveCacheIndexer)
    : Go S LiveCacheIndexer :=
  gfold (fun this l =>
    let! c := deref l in
    gret (if filter this c
          then MkLiveCacheIndexer (Version this) (buffer this) (importBuffer this ++ [l])
                 (keys this) (values this) (filter this)
          else this)) this transitions.

Definition Indexer_Reset (this : LiveCacheIndexer) : LiveCacheIndexer :=
  MkLiveCacheIndexer (Version this) (importBuffer this) [] (keys this) (values this)
    (filter this).

(** [*v.GetPath()] and [v.Value().(CRDT)] of a transition, nil for a deletion. *)
Definition path_and_value (l : loc) : Go S (string * option crdt) :=
  let! c := deref l in
  let! k := gsome (GetPath c) in
  match Value c with
  | None => gret (k, None)
  | Some (IsCRDT v) => gret (k, Some v)
  | Some (IsBytes _) => gpanic
  end.

Definition Indexer_Finalize (this : LiveCacheIndexer) : Go S LiveCacheIndexer :=
  let! cs := deref_all (buffer this) in
  let buf := map fst (slice_RemoveIf (fun lc => no_path lc.2) cs) in
  let! kvs := slice_ParallelTransform path_and_value buf in
  gret (MkLiveCacheIndexer (Version this) buf (importBuffer this) (map fst kvs) (map snd kvs)
          (filter this)).

(** The receiver is replaced by the concatenation of the indexers' buffers. *)
Definition Indexer_Merge (idxers : list LiveCacheIndexer) : list loc :=
  slice_ConcateDo idxers (fun idxer => Z.of_nat (length (buffer idxer))) buffer.

(** ** live_cache_writer.go *)
Record LiveCacheWriter := MkLiveCacheWriter {
  Indexer : LiveCacheIndexer;
  buffers : list LiveCacheIndexer;
  version : Z;
  wfilter : cell -> bool;
}.

Definition NewLiveCacheWriter (version : Z) (filter : cell -> bool) : LiveCacheWriter :=
  MkLiveCacheWriter (NewLiveCacheIndexer version filter) [] version filter.

Definition Import (transitions : list loc) (this : LiveCacheWriter) : Go S LiveCacheWriter :=
  let! idx := Indexer_Import transitions (Indexer this) in
  gret (MkLiveCacheWriter idx (buffers this) (version this) (wfilter this)).

Definition Precommit (isSync : bool) (this : LiveCacheWriter) : Go S LiveCacheWriter :=
  if isSync then
    gret (MkLiveCacheWriter (Indexer_Reset (Indexer this)) (buffers this) (version this)
            (wfilter this))
  else
    let! idx := Indexer_Finalize (Indexer this) in
    gret (MkLiveCacheWriter (NewLiveCacheIndexer (-1) (wfilter this)) (buffers this ++ [idx])
            (version this) (wfilter this)).

Definition Reset (this : LiveCacheWriter) : LiveCacheWriter :=
  MkLiveCacheWriter (Indexer_Reset (Indexer this)) (buffers this) (version this) (wfilter this).

Definition Commit (block : Z) (this : LiveCacheWriter) : Go S LiveCacheWriter :=
  let! kvs := gmap_list path_and_value (Indexer_Merge (buffers this)) in
  let '((keyToDel, _), (keys, values)) :=
    slice_MoveBothIf (fun _ v => match v with None => true | Some _ => false end)
      (map fst kvs) (map snd kvs) in
  (* the values that stayed are the non-nil ones *)
  gmodify (fun s => with_obj (cache_Evict
    (cache_SetBatch keys (omap id values) (cache_DeleteBatch keyToDel (obj_of s)))) s) ;;;
  gret (MkLiveCacheWriter (Indexer this) [] (version this) (wfilter this)).

Definition IsSync (this : LiveCacheWriter) : bool := true.
End livecache.
Arguments LiveCacheIndexer : clear implicits.
Arguments LiveCacheWriter : clear implicits.
End LiveCache.
