(* ===== verification/LiveStorage.v ===== *)
(** * storage/execstorage/livebackend: the writer of the live storage

    Like the live-cache writer, but the values are encoded when a generation is
    finalized and the encodings are what the block commit writes. *)
From S2P Require Import Prelude Interfaces Heap DeltaSequence LiveCache.

Module LiveStorage.
Section livestorage.
Context {S crdt cell V1 C : Type} `{CL : CellLib crdt cell} `{CH : HeapLens S cell}
  `{SL : SliceLib} `{RW : RWStoreLib V1 C} `{CO : ObjLens S C}.

(** codec.ForwardConvert: (key, encoded, error) *)
Abbreviation Codec := (string -> crdt -> string * V1 * option string).

(** ** live_storage_indexer.go *)
Record LiveStgIndexer := MkLiveStgIndexer {
  buffer : list loc;
  importBuffer : list loc;
  partitionIDs : list Z;
  keyBuffer : list string;
  valueBuffer : list (option crdt);
  encodedBuffer : list (option V1);
  filter : cell -> bool;
  codec : Codec;
}.

Definition NewLiveStgIndexer (codec : Codec) (filter : cell -> bool) : LiveStgIndexer :=
  MkLiveStgIndexer [] [] [] [] [] [] filter codec.

Definition Indexer_Import (trans : list loc) (this : LiveStgIndexer) : Go S LiveStgIndexer :=
  gfold (fun this l =>
    let! c := deref l in
    gret (if negb (no_path c) && filter this c
          then MkLiveStgIndexer (buffer this) (importBuffer this ++ [l]) (partitionIDs this)
                 (keyBuffer this) (valueBuffer this) (encodedBuffer this) (filter this) (codec this)
          else this)) this trans.

Definition Indexer_Reset (this : LiveStgIndexer) : LiveStgIndexer :=
  MkLiveStgIndexer (importBuffer this) [] (partitionIDs this) (keyBuffer this)
    (valueBuffer this) (encodedBuffer this) (filter this) (codec this).

Definition encode (codec : Codec) (k : string) (v : option crdt) : option V1 :=
  match v with
  | Some v => let '(_, e, _) := codec k v in Some e
  | None => None
  end.

Definition Indexer_Finalize (this : LiveStgIndexer) : Go S LiveStgIndexer :=
  let! cs := deref_all (buffer this) in
  let buf := map fst (slice_RemoveIf (fun lc => no_path lc.2) cs) in
  let! kvs := slice_ParallelTransform LiveCache.path_and_value buf in
  gret (MkLiveStgIndexer buf (importBuffer this) (partitionIDs this) (map fst kvs) (map snd kvs)
          (map (fun kv => encode (codec this) kv.1 kv.2) kvs) (filter this) (codec this)).

(** The key and encoding buffers of the merged indexer. *)
Definition Indexer_Merge (idxers : list LiveStgIndexer) : list string * list (option V1) :=
  (slice_ConcateDo idxers (fun i => Z.of_nat (length (keyBuffer i))) keyBuffer,
   slice_ConcateDo idxers (fun i => Z.of_nat (length (encodedBuffer i))) encodedBuffer).

(** ** live_storage_writer.go *)
Record LiveStorageWriter := MkLiveStorageWriter {
  Indexer : LiveStgIndexer;
  buffers : list LiveStgIndexer;
  version : Z;
  wfilter : cell -> bool;
}.

Definition NewLiveStorageWriter (version : Z) (filter : cell -> bool) (codec : Codec)
    : LiveStorageWriter :=
  MkLiveStorageWriter (NewLiveStgIndexer codec filter) [] version filter.

Definition Import (trans : list loc) (this : LiveStorageWriter) : Go S LiveStorageWriter :=
  let! idx := Indexer_Import trans (Indexer this) in
  gret (MkLiveStorageWriter idx (buffers this) (version this) (wfilter this)).

Definition Precommit (isSync : bool) (this : LiveStorageWriter) : Go S LiveStorageWriter :=
  if isSync then
    gret (MkLiveStorageWriter (Indexer_Reset (Indexer this)) (buffers this) (version this)
            (wfilter this))
  else
    let! idx := Indexer_Finalize (Indexer this) in
    gret (MkLiveStorageWriter (NewLiveStgIndexer (codec (Indexer this)) (wfilter this))
            (buffers this ++ [idx]) (version this) (wfilter this)).

(** The errors of the batch are joined: an error is returned when one of them
    is one. *)
Definition Commit (block : Z) (this : LiveStorageWriter)
    : Go S (LiveStorageWriter * list string) :=
  let '(keyBuffer, encodedBuffer) := Indexer_Merge (buffers this) in
  let '((keyToDel, _), (keys, kept)) :=
    slice_MoveBothIf (fun _ v => match v with None => true | Some _ => false end)
      keyBuffer encodedBuffer in
  gmodify (fun s => with_obj (rw_DeleteBatch keyToDel (obj_of s)) s) ;;;
  let! encoded := gmap_list gsome kept in
  let! s := gget in
  let '(errs, c) := rw_SetBatch keys encoded (obj_of s) in
  gput (with_obj c s) ;;;
  gret (MkLiveStorageWriter (Indexer this) [] (version this) (wfilter this), omap id errs).

Definition IsSync (this : LiveStorageWriter) : bool := false.
End livestorage.
Arguments LiveStgIndexer : clear implicits.
Arguments LiveStorageWriter : clear implicits.
End LiveStorage.
