(* ===== verification/LiveTheory.v ===== *)
(** * Theory of the live-cache and live-storage writers

    [entries h ls] is what the transitions [ls] ask for: a value for a key, or
    its deletion.  A block commit is compared with applying them in order. *)
From S2P Require Import Prelude Interfaces Heap DeltaSequence DeltaSequenceTheory Committer CommitterTheory LiveCache LiveStorage.

(** ** Batches *)
Section batch.
Context {V : Type}.
Implicit Types (es : list (string * option V)) (g : string -> option V).

(** One by one. *)
Definition apply_in_order es g (k : string) : option V :=
  match List.find (fun e => bool_decide (e.1 = k)) (rev es) with
  | Some e => e.2
  | None => g k
  end.
(** All the deletions first, then all the values. *)
Definition sets es : list (string * V) :=
  omap (fun e => v ← e.2; Some (e.1, v)) es.
Definition dels es : list string :=
  omap (fun e => match e.2 with None => Some e.1 | Some _ => None end) es.
Definition last_set es (k : string) : option V :=
  match List.find (fun kv => bool_decide (kv.1 = k)) (rev (sets es)) with
  | Some kv => Some kv.2
  | None => None
  end.
Definition apply_batch es g (k : string) : option V :=
  match last_set es k with
  | Some v => Some v
  | None => if decide (k ∈ dels es) then None else g k
  end.

Lemma find_app {A} (P : A -> bool) l1 l2 :
  List.find P (l1 ++ l2) =
    match List.find P l1 with Some x => Some x | None => List.find P l2 end.
Proof. induction l1 as [|x l IH]; simpl; [done|]. by destruct (P x). Qed.
Lemma sets_app es es' : sets (es ++ es') = sets es ++ sets es'.
Proof. apply omap_app. Qed.
Lemma dels_app es es' : dels (es ++ es') = dels es ++ dels es'.
Proof. apply omap_app. Qed.

Lemma apply_in_order_snoc es e g k :
  apply_in_order (es ++ [e]) g k = if bool_decide (e.1 = k) then e.2 else apply_in_order es g k.
Proof.
  unfold apply_in_order. rewrite rev_app_distr. cbn [rev app List.find].
  by case_bool_decide.
Qed.
Lemma apply_batch_snoc es k0 o g k :
  apply_batch (es ++ [(k0, o)]) g k =
    match o with
    | Some v => if bool_decide (k0 = k) then Some v else apply_batch es g k
    | None => match last_set es k with
              | Some v => Some v
              | None => if bool_decide (k0 = k) then None else apply_batch es g k
              end
    end.
Proof.
  unfold apply_batch, last_set. rewrite sets_app, dels_app, rev_app_distr.
  destruct o as [v|]; cbn -[decide].
  - rewrite app_nil_r. case_bool_decide; done.
  - destruct (List.find _ (rev (sets es))); [done|].
    case_bool_decide as Hk.
    + rewrite decide_True; [done|]. rewrite elem_of_app, list_elem_of_singleton. by right.
    + assert (Hd : k ∈ dels es ++ [k0] <-> k ∈ dels es)
        by (rewrite elem_of_app, list_elem_of_singleton; naive_solver).
      by rewrite (decide_ext _ _ _ _ Hd).
Qed.

Lemma last_set_elem es k v : last_set es k = Some v -> (k, Some v) ∈ es.
Proof.
  unfold last_set. destruct (List.find _ _) as [[k' v']|] eqn:E; [|done].
  intros [= <-]. apply List.find_some in E as [Hin Hk]. apply bool_decide_eq_true in Hk.
  simpl in *. subst. rewrite <- in_rev, <- list_elem_of_In in Hin.
  apply list_elem_of_omap in Hin as ([k' [v|]] & Hin & Ho); simpl in Ho; by simplify_eq.
Qed.
Lemma last_set_some es k v : (k, Some v) ∈ es -> is_Some (last_set es k).
Proof.
  intros Hin. unfold last_set.
  destruct (List.find _ (rev (sets es))) as [kv|] eqn:E; [eauto|]. exfalso.
  pose proof (List.find_none _ _ E (k, v)) as Hn. cbn in Hn.
  rewrite bool_decide_true in Hn by done. discriminate Hn.
  rewrite <- in_rev, <- list_elem_of_In. apply list_elem_of_omap. by exists (k, Some v).
Qed.
(** Without a repeated key the two agree. *)
Lemma apply_batch_in_order es g k :
  NoDup (map fst es) -> apply_batch es g k = apply_in_order es g k.
Proof.
  induction es as [|[k0 o] es IH] using rev_ind; intros Hnd.
  - unfold apply_batch, last_set, apply_in_order. simpl. done.
  - rewrite map_app, NoDup_app in Hnd. destruct Hnd as (Hnd & Hne & _).
    rewrite apply_batch_snoc, apply_in_order_snoc, IH by done. cbn [fst snd].
    destruct o as [v|]; [done|].
    destruct (last_set es k) as [v|] eqn:E.
    + pose proof (last_set_elem _ _ _ E) as Hin.
      rewrite bool_decide_false; [|intros ->; eapply Hne; [|by left];
        apply list_elem_of_In, (in_map fst es (k, Some v)), list_elem_of_In, Hin].
      rewrite <- IH by done. unfold apply_batch. by rewrite E.
    + done.
Qed.

(** Only the transitions of a key decide about it. *)
Lemma last_set_snoc es k0 o k :
  last_set (es ++ [(k0, o)]) k =
    match o with Some v => if bool_decide (k0 = k) then Some v else last_set es k
               | None => last_set es k end.
Proof.
  unfold last_set. rewrite sets_app, rev_app_distr. destruct o as [v|]; simpl; [|done].
  by case_bool_decide.
Qed.
Definition of_key (k : string) es := List.filter (fun e => bool_decide (e.1 = k)) es.
Lemma last_set_of_key es k : last_set (of_key k es) k = last_set es k.
Proof.
  unfold of_key. induction es as [|[k0 o] es IH] using rev_ind; [done|].
  rewrite List.filter_app. cbn [List.filter fst]. rewrite last_set_snoc.
  case_bool_decide; [rewrite last_set_snoc, IH; destruct o; by rewrite ?bool_decide_true|].
  rewrite app_nil_r, IH. by destruct o.
Qed.
Lemma apply_batch_of_key es g k : apply_batch (of_key k es) g k = apply_batch es g k.
Proof.
  induction es as [|[k0 o] es IH] using rev_ind; [done|].
  unfold of_key in *. rewrite List.filter_app. cbn [List.filter fst].
  rewrite apply_batch_snoc. case_bool_decide.
  - rewrite apply_batch_snoc, IH. fold (of_key k es). by rewrite last_set_of_key, bool_decide_true.
  - rewrite app_nil_r, IH. destruct o; [done|]. unfold apply_batch. by destruct (last_set es k).
Qed.

Lemma filter_nil_sets es :
  map fst (List.filter (fun e => match e.2 with None => true | Some _ => false end) es) = dels es.
Proof. induction es as [|[k [v|]] es IH]; simpl; [done|apply IH|by f_equal]. Qed.
Lemma filter_set_sets es :
  map fst (List.filter (fun e => negb match e.2 with None => true | Some _ => false end) es)
    = map fst (sets es) /\
  map snd (List.filter (fun e => negb match e.2 with None => true | Some _ => false end) es)
    = map Some (map snd (sets es)).
Proof.
  induction es as [|[k [v|]] es [IH1 IH2]]; simpl; [done| |done].
  split; simpl; by f_equal.
Qed.
Lemma combine_fst_snd {A B} (l : list (A * B)) : combine (map fst l) (map snd l) = l.
Proof. induction l as [|[a b] l IH]; simpl; by f_equal. Qed.
Lemma split_fst_snd {A B} (l : list (A * B)) : split l = (map fst l, map snd l).
Proof. induction l as [|[a b] l IH]; simpl; [done|]. by rewrite IH. Qed.

(** How both writers separate the deletions from the values. *)
Lemma MoveBothIf_entries `{SliceLaws} es :
  slice_MoveBothIf (fun (_ : string) (v : option V) => match v with None => true | Some _ => false end)
    (map fst es) (map snd es) =
  ((dels es, map snd (List.filter (fun e => match e.2 with None => true | Some _ => false end) es)),
   (map fst (sets es), map Some (map snd (sets es)))).
Proof.
  rewrite MoveBothIf_spec by (by rewrite !length_map). rewrite combine_fst_snd, !split_fst_snd.
  rewrite filter_nil_sets. destruct (filter_set_sets es) as [E1 E2]. by rewrite E1, E2.
Qed.
Lemma omap_id_Some {A} (l : list A) : omap id (map Some l) = l.
Proof. induction l as [|x l IH]; simpl; [done|]. by f_equal. Qed.
End batch.

(** ** The transitions *)
Section entries.
Context {S crdt cell : Type} `{CL : CellLib crdt cell} `{HLL : HeapLensLaws S cell}.
Implicit Types (h : gmap loc cell) (ls : list loc) (s : S).

Definition entry_of (c : cell) : string * option crdt :=
  (default "" (GetPath c), match Value c with Some (IsCRDT v) => Some v | _ => None end).
Definition entries h ls : list (string * option crdt) := map (fun l => entry_of (cell_at h l)) ls.

Lemma path_and_value_eq l s :
  importable (heap_of s) [l] ->
  LiveCache.path_and_value l s = Ret (entry_of (cell_at (heap_of s) l), s).
Proof.
  intros Hi. destruct (Hi l) as (c & p & Hc & Hp & Hr); [by left|].
  unfold LiveCache.path_and_value, gbind. rewrite (deref_eq l s c), (cell_at_eq _ _ _ Hc) by done.
  rewrite Hp. unfold entry_of, is_raw in *. rewrite Hp.
  by destruct (Value c) as [[v|b]|].
Qed.
Lemma importable_elem h ls l : importable h ls -> l ∈ ls -> importable h [l].
Proof. intros Hi Hl x Hx%list_elem_of_singleton. subst. by apply Hi. Qed.
Lemma importable_sub h ls ls' : importable h ls -> (forall l, l ∈ ls' -> l ∈ ls) -> importable h ls'.
Proof. intros Hi Hs l Hl. by apply Hi, Hs. Qed.
Lemma importable_valid h ls : importable h ls -> valid h ls.
Proof. intros Hi l Hl. destruct (Hi l Hl) as (c & p & -> & _). eauto. Qed.

Lemma gmap_list_pure {A B} (f : A -> Go S B) (g : A -> B) l s :
  (forall x, x ∈ l -> f x s = Ret (g x, s)) -> gmap_list f l s = Ret (map g l, s).
Proof.
  unfold gmap_list. intros Hf.
  assert (H : forall acc, gfold (fun acc x => let! b := f x in gret (acc ++ [b])) acc l s
                = Ret (acc ++ map g l, s)).
  { induction l as [|x l IH]; intros acc; cbn [gfold map]; [by rewrite app_nil_r|].
    unfold gbind at 1 2. rewrite Hf by (by left). unfold gret at 1. rewrite IH.
    - by rewrite <- app_assoc.
    - intros y Hy. apply Hf. by right. }
  apply H.
Qed.

(** The transitions a writer keeps at import: the filter is asked once, then. *)
Definition kept (filter : cell -> bool) h ls : list loc :=
  List.filter (fun l => filter (cell_at h l)) ls.
Definition with_path h ls : list loc :=
  List.filter (fun l => negb (no_path (cell_at h l))) ls.

Lemma RemoveIf_cells `{SliceLaws} (p : cell -> bool) h ls :
  map fst (slice_RemoveIf (fun lc : loc * cell => p lc.2) (map (fun l => (l, cell_at h l)) ls)) =
    List.filter (fun l => negb (p (cell_at h l))) ls.
Proof.
  rewrite RemoveIf_spec. induction ls as [|l ls IH]; simpl; [done|].
  destruct (p (cell_at h l)); simpl; by rewrite ?IH.
Qed.
(** Values are still typed when the paths are gone. *)
Definition typed h ls : Prop :=
  forall l, l ∈ ls -> exists c, h !! l = Some c /\ is_raw c = false.
Lemma typed_valid h ls : typed h ls -> valid h ls.
Proof. intros Ht l Hl. destruct (Ht l Hl) as (c & -> & _). eauto. Qed.
Lemma typed_with_path h ls : typed h ls -> importable h (with_path h ls).
Proof.
  intros Ht l [Hl Hp]%elem_of_filter_b. destruct (Ht l Hl) as (c & Hc & Hr).
  rewrite (cell_at_eq _ _ _ Hc) in Hp. unfold no_path in Hp.
  destruct (GetPath c) as [p|] eqn:E; [|done]. eauto.
Qed.
End entries.

(** ** Live cache *)
Section live_cache.
Context {S crdt cell C : Type} `{CL : CellLib crdt cell}
  `{HLL : HeapLensLaws S cell} `{SLL : SliceLaws} `{CaLL : CacheLaws crdt C}
  `{COL : ObjLensLaws S C}.
Import LiveCache.
Implicit Types (this : LiveCacheWriter crdt cell) (idx : LiveCacheIndexer crdt cell) (s : S).

Lemma Merge_eq (idxers : list (LiveCacheIndexer crdt cell)) :
  Indexer_Merge idxers = List.concat (map buffer idxers).
Proof. by apply ConcateDo_concat. Qed.

Abbreviation committed this :=
  (MkLiveCacheWriter (Indexer this) [] (version this) (wfilter this)).

Lemma LiveCache_Commit_eq block this s :
  importable (heap_of s) (Indexer_Merge (buffers this)) ->
  exists c', Commit block this s = Ret (committed this, with_obj (cache_Evict c') s) /\
    forall k, cache_Get c' k =
      apply_batch (entries (heap_of s) (Indexer_Merge (buffers this)))
        (cache_Get (obj_of s)) k.
Proof.
  intros Hi. set (ls := Indexer_Merge (buffers this)) in *.
  set (es := entries (heap_of s) ls).
  exists (cache_SetBatch (map fst (sets es)) (map snd (sets es)) (cache_DeleteBatch (dels es) (obj_of s))).
  split.
  - unfold Commit, gbind at 1. fold ls.
    rewrite (gmap_list_pure _ (fun l => entry_of (cell_at (heap_of s) l))).
    + fold (entries (heap_of s) ls). fold es. rewrite MoveBothIf_entries, omap_id_Some. done.
    + intros l Hl. apply path_and_value_eq. by eapply importable_elem.
  - intros k. rewrite cache_Get_SetBatch by (by rewrite !length_map).
    rewrite combine_fst_snd. unfold apply_batch, last_set.
    destruct (List.find _ _); [done|]. apply cache_Get_DeleteBatch.
Qed.

(** Committing a block to the live cache empties the writer and leaves,
    but for evictions, exactly the cache in which every path written by some
    generation of the block has the last value written to it, every path that
    was only deleted is gone, and every other path is as before; when no path
    occurs twice this is the result of the transitions one after the other. *)
Theorem LiveCache_Commit_spec block this s :
  let es := entries (heap_of s) (Indexer_Merge (buffers this)) in
  importable (heap_of s) (Indexer_Merge (buffers this)) ->
  exists c', Commit block this s = Ret (committed this, with_obj (cache_Evict c') s) /\
    (forall k, cache_Get c' k = apply_batch es (cache_Get (obj_of s)) k) /\
    (NoDup (map fst es) -> forall k, cache_Get c' k = apply_in_order es (cache_Get (obj_of s)) k).
Proof.
  intros es Hi. destruct (LiveCache_Commit_eq block this s Hi) as (c' & E & Hc').
  exists c'. split; [exact E|]. split; [exact Hc'|]. intros Hnd k.
  by rewrite Hc', apply_batch_in_order.
Qed.

(** The order of the generations is lost between values and deletions:
    a path set in one generation of a block and deleted in a later one is in
    the cache after the commit. *)
Theorem LiveCache_Commit_resurrects block this s ls1 l1 ls2 l2 k v :
  let h := heap_of s in
  importable h (Indexer_Merge (buffers this)) ->
  Indexer_Merge (buffers this) = ls1 ++ l1 :: ls2 ++ [l2] ->
  entry_of (cell_at h l1) = (k, Some v) -> entry_of (cell_at h l2) = (k, None) ->
  apply_in_order (entries h (Indexer_Merge (buffers this))) (cache_Get (obj_of s)) k = None /\
  exists c', Commit block this s = Ret (committed this, with_obj (cache_Evict c') s) /\
    is_Some (cache_Get c' k).
Proof.
  intros h Hi Hls H1 H2. destruct (LiveCache_Commit_eq block this s Hi) as (c' & E & Hc').
  fold h in Hc'. split.
  - rewrite Hls, app_comm_cons, app_assoc. unfold entries. rewrite map_app. cbn [map].
    rewrite H2, apply_in_order_snoc. by rewrite bool_decide_true.
  - exists c'. split; [exact E|]. rewrite Hc'. unfold apply_batch.
    destruct (last_set_some (entries h (Indexer_Merge (buffers this))) k v) as [x ->]; [|eauto].
    apply list_elem_of_In. unfold entries. rewrite <- H1, Hls.
    apply (in_map (fun l => entry_of (cell_at h l))). apply in_elt.
Qed.

(** One generation: what is appended to the buffer of the block. *)
Lemma Indexer_Import_eq ls idx s :
  valid (heap_of s) ls ->
  Indexer_Import ls idx s =
    Ret (MkLiveCacheIndexer (Version idx) (buffer idx)
           (importBuffer idx ++ kept (filter idx) (heap_of s) ls) (keys idx) (values idx)
           (filter idx), s).
Proof.
  revert idx. induction ls as [|l ls IH]; intros idx Hv; unfold Indexer_Import; cbn [gfold].
  - unfold gret, kept. rewrite app_nil_r. by destruct idx.
  - unfold gbind. rewrite (deref_valid l s) by (apply Hv; by left).
    unfold gret at 1. cbn beta iota. unfold Indexer_Import in IH. rewrite IH by (intros x Hx; apply Hv; by right).
    unfold kept. cbn [List.filter].
    destruct (filter idx (cell_at (heap_of s) l)); destruct idx; cbn; [by rewrite <- app_assoc|done].
Qed.

Lemma Indexer_Finalize_eq idx s :
  typed (heap_of s) (buffer idx) ->
  Indexer_Finalize idx s =
    Ret (MkLiveCacheIndexer (Version idx) (with_path (heap_of s) (buffer idx)) (importBuffer idx)
           (map fst (entries (heap_of s) (with_path (heap_of s) (buffer idx))))
           (map snd (entries (heap_of s) (with_path (heap_of s) (buffer idx))))
           (filter idx), s).
Proof.
  intros Ht. unfold Indexer_Finalize, gbind at 1.
  rewrite deref_all_valid by (by apply typed_valid). rewrite RemoveIf_cells.
  fold (with_path (heap_of s) (buffer idx)). unfold gbind.
  rewrite (ParallelTransform_map _ (fun l => entry_of (cell_at (heap_of s) l))); [done|].
  intros l Hl. apply path_and_value_eq. apply list_elem_of_In in Hl.
  by eapply importable_elem; [apply typed_with_path|].
Qed.

(** A generation that is imported, passes conflict resolution and goes
    through the two precommit phases adds to the block exactly its filtered
    transitions that still have a path then, in import order; the next
    generation starts from an empty indexer. *)
Theorem LiveCache_generation ls this s s' :
  valid (heap_of s) ls -> typed (heap_of s') (kept (filter (Indexer this)) (heap_of s) ls) ->
  importBuffer (Indexer this) = [] ->
  exists this1 this2 idx,
    Import ls this s = Ret (this1, s) /\
    (let! w := Precommit true this1 in Precommit false w) s' = Ret (this2, s') /\
    buffers this2 = buffers this ++ [idx] /\
    buffer idx = with_path (heap_of s') (kept (filter (Indexer this)) (heap_of s) ls) /\
    combine (keys idx) (values idx) = entries (heap_of s') (buffer idx) /\
    Indexer this2 = NewLiveCacheIndexer (-1) (wfilter this).
Proof.
  intros Hv Ht Hib. unfold Import, Precommit, gbind. rewrite Indexer_Import_eq by done.
  unfold gret. rewrite Hib. cbn [app]. eexists _, _, _. split; [done|].
  cbn -[Indexer_Finalize]. rewrite Indexer_Finalize_eq; cbn; [|done].
  split; [done|]. split; [done|]. split; [done|]. split; [|done]. apply combine_fst_snd.
Qed.
End live_cache.

(** ** Live storage *)
Section live_storage.
Context {S crdt cell V1 C : Type} `{CL : CellLib crdt cell}
  `{HLL : HeapLensLaws S cell} `{SLL : SliceLaws} `{RWL : RWStoreLaws V1 C}
  `{COL : ObjLensLaws S C}.
Import LiveStorage.
Implicit Types (this : LiveStorageWriter crdt cell V1) (idx : LiveStgIndexer crdt cell V1) (s : S).

(** The keys and the encodings of an indexer go together. *)
Definition paired idx : Prop := length (keyBuffer idx) = length (encodedBuffer idx).
Definition encoded_entries (idxers : list (LiveStgIndexer crdt cell V1))
    : list (string * option V1) :=
  List.concat (map (fun idx => combine (keyBuffer idx) (encodedBuffer idx)) idxers).

Lemma map_combine {A B} (l : list A) (l' : list B) : length l = length l' ->
  map fst (combine l l') = l /\ map snd (combine l l') = l'.
Proof.
  revert l'. induction l as [|a l IH]; intros [|b l'] Hl; simplify_eq/=; [done|].
  destruct (IH l' Hl) as [E1 E2]. by rewrite E1, E2.
Qed.
Lemma concat_combine {X A B} (f : X -> list A) (g : X -> list B) (l : list X) :
  (forall x, x ∈ l -> length (f x) = length (g x)) ->
  List.concat (map f l) = map fst (List.concat (map (fun x => combine (f x) (g x)) l)) /\
  List.concat (map g l) = map snd (List.concat (map (fun x => combine (f x) (g x)) l)).
Proof.
  induction l as [|x l IH]; intros Hl; simpl; [done|].
  destruct IH as [IH1 IH2]; [intros y Hy; apply Hl; by right|].
  rewrite !map_app, <- IH1, <- IH2.
  destruct (map_combine (f x) (g x)) as [-> ->]; [|done]. apply Hl. by left.
Qed.
Lemma gmap_list_gsome {A} (l : list A) s : gmap_list gsome (map Some l) s = Ret (l, s).
Proof.
  unfold gmap_list.
  assert (H : forall acc, gfold (fun acc x => let! b := gsome x in gret (acc ++ [b])) acc (map Some l) s
    = Ret (acc ++ l, s)).
  { induction l as [|x l IH]; intros acc; cbn [gfold map]; [by rewrite app_nil_r|].
    unfold gbind, gsome, gret at 1. cbn. unfold gbind, gsome in IH.
    rewrite IH. by rewrite <- app_assoc. }
  apply H.
Qed.

Lemma omap_id_nil {A} (l : list (option A)) : omap id l = [] -> forall e, e ∈ l -> e = None.
Proof.
  intros Hl [e|] Hin; [|done]. assert (He : e ∈ omap id l)
    by (apply list_elem_of_omap; by exists (Some e)).
  rewrite Hl in He. by apply elem_of_nil in He.
Qed.

Abbreviation stored this := (MkLiveStorageWriter (Indexer this) [] (version this) (wfilter this)).

(** A database after the deletions and the values of a batch, and what it
    answered to the values. *)
Definition written_batch (es : list (string * option V1)) (c : C) errs c' : Prop :=
  rw_SetBatch (map fst (sets es)) (map snd (sets es)) (rw_DeleteBatch (dels es) c) = (errs, c').

Lemma LiveStorage_Commit_eq block this s :
  (forall idx, idx ∈ buffers this -> paired idx) ->
  exists errs c', Commit block this s = Ret ((stored this, omap id errs), with_obj c' s) /\
    written_batch (encoded_entries (buffers this)) (obj_of s) errs c' /\
    ((forall e, e ∈ errs -> e = None) -> forall k,
       rw_Get c' k = apply_batch (encoded_entries (buffers this)) (rw_Get (obj_of s)) k).
Proof.
  intros Hp. set (es := encoded_entries (buffers this)).
  destruct (rw_SetBatch (map fst (sets es)) (map snd (sets es)) (rw_DeleteBatch (dels es) (obj_of s)))
    as [errs c'] eqn:E.
  exists errs, c'. split; [|split; [exact E|]].
  - unfold Commit, Indexer_Merge.
    rewrite !ConcateDo_concat by done.
    destruct (concat_combine keyBuffer encodedBuffer (buffers this) Hp) as [-> ->].
    fold (encoded_entries (buffers this)). fold es. rewrite MoveBothIf_entries.
    unfold gbind at 1, gmodify. unfold gbind at 1. rewrite gmap_list_gsome.
    unfold gbind at 1, gget. rewrite obj_with_obj, E.
    unfold gbind, gput, gret. by rewrite with_obj_twice.
  - intros He k.
    assert (Hlen : length (map fst (sets es)) = length (map snd (sets es)))
      by (by rewrite !length_map).
    rewrite (rw_Get_SetBatch _ _ _ _ _ k Hlen E)
      by (intros e Hin; by apply He, list_elem_of_In).
    rewrite combine_fst_snd. unfold apply_batch, last_set.
    destruct (List.find _ _); [done|]. apply rw_Get_DeleteBatch.
Qed.

(** A block commit to the live storage writes, for every path of every
    generation, the encoding taken when the generation was finalized (later
    changes of the cell do not matter): when the store reports no error, each
    path holds the last encoding written to it, a path that was only deleted
    is gone, the others are unchanged.  Reported errors are all returned and
    the buffered generations are dropped even so. *)
Theorem LiveStorage_Commit_spec block this s :
  (forall idx, idx ∈ buffers this -> paired idx) ->
  exists errs c', Commit block this s = Ret ((stored this, errs), with_obj c' s) /\
    (errs = [] -> forall k,
       rw_Get c' k = apply_batch (encoded_entries (buffers this)) (rw_Get (obj_of s)) k).
Proof.
  intros Hp. destruct (LiveStorage_Commit_eq block this s Hp) as (errs & c' & E & _ & Hk).
  exists (omap id errs), c'. split; [exact E|]. intros He. by apply Hk, omap_id_nil.
Qed.

Lemma Stg_Indexer_Import_eq ls idx s :
  valid (heap_of s) ls ->
  Indexer_Import ls idx s =
    Ret (MkLiveStgIndexer (buffer idx)
           (importBuffer idx ++
              kept (fun c => negb (no_path c) && filter idx c) (heap_of s) ls)
           (partitionIDs idx) (keyBuffer idx) (valueBuffer idx) (encodedBuffer idx)
           (filter idx) (codec idx), s).
Proof.
  revert idx. induction ls as [|l ls IH]; intros idx Hv; unfold Indexer_Import; cbn [gfold].
  - unfold gret, kept. rewrite app_nil_r. by destruct idx.
  - unfold gbind. rewrite (deref_valid l s) by (apply Hv; by left).
    unfold gret at 1. cbn beta iota. unfold Indexer_Import in IH.
    rewrite IH by (intros x Hx; apply Hv; by right).
    unfold kept. cbn [List.filter].
    destruct (negb (no_path (cell_at (heap_of s) l)) && filter idx (cell_at (heap_of s) l));
      destruct idx; cbn; [by rewrite <- app_assoc|done].
Qed.

Definition encoded_entry (codec : string -> crdt -> string * V1 * option string)
    (e : string * option crdt) : string * option V1 := (e.1, encode codec e.1 e.2).

Lemma Stg_Indexer_Finalize_eq idx s :
  typed (heap_of s) (buffer idx) ->
  Indexer_Finalize idx s =
    Ret (let es := entries (heap_of s) (with_path (heap_of s) (buffer idx)) in
         MkLiveStgIndexer (with_path (heap_of s) (buffer idx)) (importBuffer idx)
           (partitionIDs idx) (map fst es) (map snd es)
           (map (fun e => encode (codec idx) e.1 e.2) es) (filter idx) (codec idx), s).
Proof.
  intros Ht. unfold Indexer_Finalize, gbind at 1.
  rewrite deref_all_valid by (by apply typed_valid). rewrite RemoveIf_cells.
  fold (with_path (heap_of s) (buffer idx)). unfold gbind.
  rewrite (ParallelTransform_map _ (fun l => entry_of (cell_at (heap_of s) l))); [done|].
  intros l Hl. apply path_and_value_eq. apply list_elem_of_In in Hl.
  by eapply importable_elem; [apply typed_with_path|].
Qed.

(** The whole life of a generation in the live storage: imported, put
    through conflict resolution, finalized, and committed in whatever state
    the cells are by then.  The store ends up with the encodings of the
    transitions that passed the filter at import and kept a path, in order. *)
Theorem LiveStorage_generation block ls this s s' s'' :
  buffers this = [] -> importBuffer (Indexer this) = [] ->
  valid (heap_of s) ls ->
  let ts := kept (fun c => negb (no_path c) && filter (Indexer this) c) (heap_of s) ls in
  typed (heap_of s') ts ->
  exists this1 this2 this3 errs c',
    Import ls this s = Ret (this1, s) /\
    (let! w := Precommit true this1 in Precommit false w) s' = Ret (this2, s') /\
    Commit block this2 s'' = Ret ((this3, errs), with_obj c' s'') /\ buffers this3 = [] /\
    (errs = [] -> forall k, rw_Get c' k =
       apply_batch (map (encoded_entry (codec (Indexer this)))
                      (entries (heap_of s') (with_path (heap_of s') ts)))
         (rw_Get (obj_of s'')) k).
Proof.
  intros Hb Hib Hv ts Ht.
  set (es := entries (heap_of s') (with_path (heap_of s') ts)).
  set (idx := MkLiveStgIndexer (with_path (heap_of s') ts) [] (partitionIDs (Indexer this))
    (map fst es) (map snd es) (map (fun e => encode (codec (Indexer this)) e.1 e.2) es)
    (filter (Indexer this)) (codec (Indexer this))).
  set (this2 := MkLiveStorageWriter (NewLiveStgIndexer (codec (Indexer this)) (wfilter this))
    [idx] (version this) (wfilter this)).
  destruct (LiveStorage_Commit_eq block this2 s'') as (errs & c' & E & _ & Hk).
  { intros i ->%list_elem_of_singleton. unfold paired. simpl. by rewrite !length_map. }
  eexists _, this2, _, (omap id errs), c'. split; [|split; [|split; [exact E|split; [done|]]]].
  - unfold Import, gbind. by rewrite Stg_Indexer_Import_eq.
  - unfold Precommit, gbind, gret. cbn -[Indexer_Finalize kept].
    rewrite Hib. cbn [app]. fold ts. rewrite Stg_Indexer_Finalize_eq by done. by rewrite Hb.
  - intros He k. rewrite Hk.
    + f_equal. unfold encoded_entries. simpl. rewrite app_nil_r. clear.
      induction es as [|e es IH]; simpl; [done|]. by f_equal.
    + by apply omap_id_nil.
Qed.
End live_storage.
