(* ===== verification/Pipeline.v ===== *)
(** * A generation from the committer to the live cache

    The live-cache writer implements what the committer asks of a writer; a
    committer that drives it takes a generation all the way to the cache. *)
From S2P Require Import Prelude Interfaces Heap DeltaSequence DeltaSequenceTheory Committer CommitterTheory LiveCache LiveTheory.

Section pipeline.
Context {S crdt cell C : Type} `{CL : CellLib crdt cell} `{CLW : !CellLaws CL}
  `{HLL : HeapLensLaws S cell} `{HWL : HeapLensLaws S (LiveCache.LiveCacheWriter crdt cell)}
  `{SLL : SliceLaws} `{ILL : IndexerLaws} `{CaLL : CacheLaws crdt C} `{COL : ObjLensLaws S C}
  `{!LensIndep HL HL0} `{!ObjIndep HL OL} `{!ObjIndep HL0 OL}.
Abbreviation Writer := (LiveCache.LiveCacheWriter crdt cell).
Implicit Types (h : gmap loc cell) (s : S) (ts : list loc) (this : StateCommitter crdt).

#[export] Instance LiveCache_StoreWriter : StoreWriter S Writer := {|
  w_Import := LiveCache.Import;
  w_Precommit := LiveCache.Precommit;
  w_Commit := LiveCache.Commit;
  w_IsSync := LiveCache.IsSync;
  w_is_EthStorageWriter _ := false;
  w_is_ExecutionCacheWriter _ := false |}.

(** The promise of [Import] that the committer relies on. *)
#[export] Instance LiveCache_WriterImports : WriterImports (HL := HL) (SW := LiveCache_StoreWriter).
Proof.
  constructor. intros ts o s Hi. eexists _, (heap_of s). split; [|apply meta_eq_refl].
  cbn. unfold LiveCache.Import, gbind. rewrite Indexer_Import_eq by (by eapply importable_valid).
  unfold gret. by rewrite with_heap_heap.
Qed.

(** ** One generation, from the committer's indexes to the cache *)

Lemma of_key_entries h L p :
  of_key p (entries h (with_path h L)) = entries h (group h L p).
Proof.
  unfold of_key, entries, group, with_path.
  induction L as [|l L IH]; cbn [List.filter map]; [done|].
  assert (Hn : no_path (cell_at h l) = match path_at h l with None => true | Some _ => false end)
    by done. rewrite Hn.
  destruct (path_at h l) as [q|] eqn:E; cbn [negb].
  - cbn [map List.filter]. assert (Hfst : (entry_of (cell_at h l)).1 = q)
      by (unfold entry_of; unfold path_at in E; by rewrite E).
    rewrite Hfst. destruct (decide (q = p)) as [->|Hq].
    + rewrite !bool_decide_true by done. cbn [map]. by rewrite IH.
    + rewrite !bool_decide_false by congruence. exact IH.
  - rewrite bool_decide_false by done. exact IH.
Qed.

Lemma group_kept (f : cell -> bool) h h' ts p :
  group h' (kept f h ts) p = kept f h (group h' ts p).
Proof.
  unfold group, kept. rewrite !filter_filter_b. apply filter_ext_in_b. intros l _.
  apply andb_comm.
Qed.

(** The cache the block should leave: where a path was written by an accepted
    transaction and its first accepted transition passed the filter, the
    merged value, or nothing for a deletion. *)
Definition block_spec (f : cell -> bool) h txs ts (get : string -> option crdt) (p : string)
    : option crdt :=
  match winner h txs ts p, merged_cell h txs ts p with
  | Some l0, Some c => if f (cell_at h l0) then (entry_of c).2 else get p
  | _, _ => get p
  end.

Definition merged_typed h txs ts : Prop :=
  forall p c, merged_cell h txs ts p = Some c -> is_raw c = false.

Lemma finalized_typed h h' txs ts :
  importable h ts -> NoDup ts -> deltas_apply h txs ts -> merged_typed h txs ts ->
  (forall l, h' !! l = if decide (l ∈ ts) then finalized_cell h txs ts l else h !! l) ->
  typed h' ts.
Proof.
  intros Hi Hnd Hda Hmt Hh' l Hl. destruct (Hi l Hl) as (c & q & Hc & Hq & Hr).
  destruct (finalized_cases h h' txs ts l (importable_live _ _ Hi) Hnd Hda Hh' Hl)
    as [E|(p & Hw & E)].
  - rewrite E, Hc. simpl. eexists. split; [done|]. unfold is_raw. by rewrite SetPath_value.
  - rewrite E. destruct (merged_cell h txs ts p) as [c0|] eqn:Em; [by eauto|].
    exfalso. specialize (Hda p) as [m Hm].
    unfold merge_deltas, merged_cell, winner in *.
    destruct (order_of _ _); [done|]. by rewrite Em in Hm.
Qed.

(** What a generation asks of a path, once finalized: at most one entry. *)
Definition block_entry (f : cell -> bool) h txs ts (p : string) : list (string * option crdt) :=
  match winner h txs ts p, merged_cell h txs ts p with
  | Some l0, Some c => if f (cell_at h l0) then [(p, (entry_of c).2)] else []
  | _, _ => []
  end.
Lemma block_entries_of_key (f : cell -> bool) h h' txs ts p :
  live h ts -> NoDup ts -> deltas_apply h txs ts ->
  (forall l, h' !! l = if decide (l ∈ ts) then finalized_cell h txs ts l else h !! l) ->
  of_key p (entries h' (with_path h' (kept f h ts))) = block_entry f h txs ts p.
Proof.
  intros Hl Hnd Hda Hh'.
  rewrite of_key_entries, group_kept.
  rewrite (finalized_group h h' txs ts p) by done. unfold block_entry.
  destruct (winner h txs ts p) as [l0|] eqn:Hw; [|done]. change (option_list (Some l0)) with [l0].
  pose proof (winner_merged h h' txs ts p l0 Hl Hnd Hda Hh' Hw) as Hm.
  destruct (Hl l0) as (c & q & Hc & Hq).
  { by apply winner_in, in_survivors in Hw as [[? _] _]. }
  assert (exists c0, merged_cell h txs ts p = Some c0) as [c0 Hc0].
  { specialize (Hda p) as [m Hmm]. unfold merge_deltas, merged_cell, winner in *.
    destruct (order_of _ _); [discriminate Hw|]. destruct (ApplyDelta _ _); [eauto|done]. }
  rewrite Hc0 in *. unfold kept, entries. cbn [List.filter].
  destruct (f (cell_at h l0)); [|done]. cbn [map].
  rewrite (cell_at_eq _ _ _ Hm).
  assert (Hk : (entry_of c0).1 = p).
  { unfold entry_of. cbn. unfold merged_cell in Hc0.
    pose proof (winner_in _ _ _ _ _ Hw) as Hin. apply in_survivors in Hin as [[_ Hpath] _].
    unfold winner in Hw. destruct (order_of _ _) as [|l1 rest]; [discriminate Hw|]. injection Hw as ->.
    apply ApplyDelta_path in Hc0. rewrite Hc0. unfold path_at in Hpath. by rewrite Hpath. }
  by rewrite (surjective_pairing (entry_of c0)), Hk.
Qed.
Lemma apply_one {V} p (o : option V) (g : string -> option V) : apply_batch [(p, o)] g p = o.
Proof.
  rewrite <- (app_nil_l [_]), apply_batch_snoc. rewrite !bool_decide_true by done. by destruct o.
Qed.
Lemma committed_value (f : cell -> bool) h h' txs ts (get : string -> option crdt) p :
  live h ts -> NoDup ts -> deltas_apply h txs ts ->
  (forall l, h' !! l = if decide (l ∈ ts) then finalized_cell h txs ts l else h !! l) ->
  apply_batch (entries h' (with_path h' (kept f h ts))) get p = block_spec f h txs ts get p.
Proof.
  intros Hl Hnd Hda Hh'.
  rewrite <- apply_batch_of_key, (block_entries_of_key f h h' txs ts p) by done.
  unfold block_entry, block_spec. destruct (winner h txs ts p), (merged_cell h txs ts p); [|done..].
  destruct (f _); [apply apply_one|done].
Qed.

(** Driving one writer. *)
Abbreviation objs s := (heap_of (HeapLens := HL0) s).
Definition set_writer (w : loc) (o : Writer) s : S := with_heap (<[w := o]> (objs s)) s.

Lemma call_writer_eq (m : Writer -> Go S Writer) w o o' s s1 :
  objs s !! w = Some o -> m o s = Ret (o', s1) ->
  call_writer m w s = Ret (tt, set_writer w o' s1).
Proof.
  intros Ho Hm. unfold call_writer. apply gbind_ret. exists o, s.
  split; [by apply deref_eq|]. apply gbind_ret. exists o', s1. split; [done|].
  by apply assign_ret.
Qed.
Lemma set_writer_lookup w o s : objs (set_writer w o s) !! w = Some o.
Proof. unfold set_writer. rewrite heap_with_heap. apply lookup_insert_eq. Qed.
Lemma set_writer_cells w o s : heap_of (HeapLens := HL) (set_writer w o s) = heap_of s.
Proof. apply indep_l. Qed.
Lemma set_writer_obj w o s : obj_of (set_writer w o s) = obj_of s.
Proof. apply obj_with_heap. Qed.

Lemma writer_phases (this : StateCommitter crdt) w o s :
  writers this = [w] -> objs s !! w = Some o -> LiveCache.buffers o = [] ->
  typed (heap_of s) (LiveCache.importBuffer (LiveCache.Indexer o)) ->
  exists s' o', (SyncPrecommit this ;;; AsyncPrecommit this) s = Ret (tt, s') /\
    objs s' !! w = Some o' /\ heap_of (HeapLens := HL) s' = heap_of s /\
    obj_of s' = obj_of s /\
    LiveCache.Indexer_Merge (LiveCache.buffers o') =
      with_path (heap_of s) (LiveCache.importBuffer (LiveCache.Indexer o)).
Proof.
  intros Hws Ho Hb Ht.
  assert (E1 : SyncPrecommit this s = Ret (tt, set_writer w (LiveCache.MkLiveCacheWriter
    (LiveCache.Indexer_Reset (LiveCache.Indexer o)) (LiveCache.buffers o)
    (LiveCache.version o) (LiveCache.wfilter o)) s)).
  { unfold SyncPrecommit. rewrite Hws. cbn [gforeach].
    apply gbind_ret. exists tt. eexists. split; [|done].
    apply gbind_ret. exists o, s. split; [by apply deref_eq|]. by apply (call_writer_eq _ w o). }
  set (o1 := LiveCache.MkLiveCacheWriter _ _ _ _) in E1. set (s1 := set_writer w o1 s) in *.
  assert (Ho1 : objs s1 !! w = Some o1) by apply set_writer_lookup.
  assert (Hh1 : heap_of (HeapLens := HL) s1 = heap_of s) by apply set_writer_cells.
  pose proof (Indexer_Finalize_eq (LiveCache.Indexer o1) s1) as Hfin.
  rewrite Hh1 in Hfin. specialize (Hfin Ht).
  assert (E2 : exists o2, AsyncPrecommit this s1 = Ret (tt, set_writer w o2 s1) /\
    LiveCache.Indexer_Merge (LiveCache.buffers o2) =
      with_path (heap_of s) (LiveCache.importBuffer (LiveCache.Indexer o))).
  { eexists. split.
    - unfold AsyncPrecommit. rewrite Hws. cbn [gforeach].
      apply gbind_ret. exists tt. eexists. split; [|done].
      apply gbind_ret. exists o1, s1. split; [by apply deref_eq|].
      apply (call_writer_eq _ w o1); [done|].
      change (w_Precommit false o1 s1) with (LiveCache.Precommit false o1 s1).
      unfold LiveCache.Precommit, gbind. by rewrite Hfin.
    - cbn. rewrite Hb, Merge_eq. cbn. apply app_nil_r. }
  destruct E2 as (o2 & E2 & Hm). exists (set_writer w o2 s1), o2.
  split; [unfold gbind; by rewrite E1|]. split; [apply set_writer_lookup|].
  split; [by rewrite set_writer_cells|]. split; [|done].
  unfold s1. by rewrite !set_writer_obj.
Qed.

(** A whole block of one generation: after conflict resolution with the
    whitelist [txs], the two precommit phases and the commit, the live cache
    holds for every path what the specification says - the merge, in
    transaction order, of the accepted transitions of that path, or what it
    held before when there is none - up to evictions. *)
Theorem Block_to_live_cache n txs ts this s w o f :
  let h := heap_of s in
  indexed h ts this -> importable h ts -> deltas_apply h txs ts -> merged_typed h txs ts ->
  writers this = [w] -> syncWriters this = [w] -> asyncWriters this = [] ->
  objs s !! w = Some o -> LiveCache.buffers o = [] ->
  LiveCache.importBuffer (LiveCache.Indexer o) = kept f h ts ->
  exists this' s' c',
    (let! t := DebugPrecommit txs this in DebugCommit n t) s = Ret (this', s') /\
    obj_of s' = cache_Evict c' /\
    forall p, cache_Get c' p = block_spec f h txs ts (cache_Get (obj_of s)) p.
Proof.
  intros h Hx Hi Hda Hmt Hw Hsw Haw Ho Hb Hib.
  destruct (Committer_Finalize_eq txs ts this s Hx Hda) as (h' & E1 & Hh').
  set (s1 := with_heap h' s) in *.
  assert (Hh1 : heap_of (HeapLens := HL) s1 = h') by apply heap_with_heap.
  destruct (writer_phases (cleared this) w o s1) as (s2 & o2 & E2 & Ho2 & Hh2 & Hobj2 & Hm2).
  { done. } { unfold s1. by rewrite indep_r. } { done. }
  { rewrite Hh1, Hib. intros l [Hl _]%elem_of_filter_b.
    by apply (finalized_typed h h' txs ts Hi (ix_nodup _ _ _ Hx) Hda Hmt Hh'). }
  rewrite Hh1 in Hh2, Hm2.
  destruct (LiveCache_Commit_eq n o2 s2) as (c' & E3 & Hc').
  { rewrite Hm2, Hib, Hh2. apply typed_with_path. intros l [Hl _]%elem_of_filter_b.
    by apply (finalized_typed h h' txs ts Hi (ix_nodup _ _ _ Hx) Hda Hmt Hh'). }
  eexists (cleared this), _, c'. split; [|split].
  - apply gbind_ret. exists (cleared this), s2. split.
    + unfold DebugPrecommit. apply gbind_ret. exists (cleared this), s1. split; [exact E1|].
      apply gbind_ret in E2 as ([] & s3 & E2a & E2b).
      apply gbind_ret. exists tt, s3. split; [exact E2a|].
      apply gbind_ret. exists tt, s2. split; [exact E2b|]. done.
    + unfold DebugCommit, SyncCommit, AsyncCommit. cbn [cleared syncWriters asyncWriters].
      rewrite Hsw, Haw. apply gbind_ret. exists tt. eexists. split; [|done]. cbn [gforeach].
      apply gbind_ret. exists tt. eexists. split; [|done].
      by apply (call_writer_eq _ w o2 _ s2 _ Ho2 E3).
  - rewrite set_writer_obj. apply obj_with_obj.
  - intros p. rewrite Hc', Hh2, Hm2, Hib, Hobj2.
    unfold s1. rewrite obj_with_heap. fold h.
    apply committed_value; [by apply importable_live|apply (ix_nodup _ _ _ Hx)|done|done].
Qed.
End pipeline.
