(* ===== verification/ExecStore.v ===== *)
(** * state/cache: the execution state store

    The working set of one execution: cells materialised from a committed store
    on access, writes that keep the parents' key sets up to date, the
    inheritance of wildcard deletions.  The store is an object of its own in
    the shared state; the cells it indexes are shared with everyone it hands
    them to. *)
From S2P Require Import Prelude GoString GoSort Interfaces Heap Paths.
Import Constants PathTypes Platform.

(** storage/interface.ReadOnlyStore.  [GetAs path T] is (value, error); the
    hint [T] is a typed value or nil. *)
Record ROStore (crdt : Type) := MkROStore {
  ro_Has : string -> bool;
  ro_Get : string -> option (any crdt);
  ro_GetAs : string -> option crdt -> option (any crdt) * option string;
}.
Arguments MkROStore {crdt}. Arguments ro_Has {crdt}. Arguments ro_Get {crdt}.
Arguments ro_GetAs {crdt}.

Record ExecutionStateStore (crdt : Type) := MkExecutionStateStore {
  committedStore : option (ROStore crdt);
  localCells : gmap string loc;
  pendingWildcardDeletes : list (Z * string);
  platform : gmap string Z;
  stateVersion : Z;
  id : Z;
}.
Arguments MkExecutionStateStore {crdt}. Arguments committedStore {crdt}.
Arguments localCells {crdt}. Arguments pendingWildcardDeletes {crdt}.
Arguments platform {crdt}. Arguments stateVersion {crdt}. Arguments id {crdt}.

Definition ErrNotInParent : string := "ErrNotInParent".

Section store.
Context {S crdt cell raw : Type} `{TypeIDs} `{CL : CellLib crdt cell} `{CrdtLib crdt raw}
  `{CE : !CellEffects S raw crdt} `{PoolLib S} `{PathLib} `{SL : SliceLib} `{ML : MapLib}
  `{CH : HeapLens S cell} `{SO : ObjLens S (ExecutionStateStore crdt)}
  (RlpCodec_Decode : bytes -> crdt -> option (any crdt)).
Abbreviation Store := (ExecutionStateStore crdt).

Definition NewExecutionStateStore (store : option (ROStore crdt)) : Store :=
  MkExecutionStateStore store ∅ [] NewPlatform LATEST_STATE_VERSION 0.
(** The sizes of the pool and the hash of the keys are the pool's. *)
Definition NewDefaultExecutionStateStore (backend : option (ROStore crdt)) : Store :=
  NewExecutionStateStore backend.

Definition this : Go S Store := let! s := gget in gret (obj_of s).
Definition CommittedStore : Go S (option (ROStore crdt)) := let! st := this in gret (committedStore st).
Definition Cache : Go S (gmap string loc) := let! st := this in gret (localCells st).
Definition set_local (f : gmap string loc -> gmap string loc) : Go S unit :=
  gmodify (fun s =>
    let st := obj_of s in
    with_obj (MkExecutionStateStore (committedStore st) (f (localCells st))
      (pendingWildcardDeletes st) (platform st) (stateVersion st) (id st)) s).

Definition SetCommittedStore (backend : option (ROStore crdt)) : Go S unit :=
  gmodify (fun s =>
    let st := obj_of s in
    with_obj (MkExecutionStateStore backend (localCells st) (pendingWildcardDeletes st)
      (platform st) (stateVersion st) (id st)) s).
Definition GetID : Go S Z := let! st := this in gret (id st).
Definition SetID (v : Z) : Go S unit :=
  gmodify (fun s =>
    let st := obj_of s in
    with_obj (MkExecutionStateStore (committedStore st) (localCells st)
      (pendingWildcardDeletes st) (platform st) (stateVersion st) v) s).
Definition GetVersion : Go S Z := let! st := this in gret (stateVersion st).
Definition SetVersion (v : Z) : Go S unit :=
  gmodify (fun s =>
    let st := obj_of s in
    with_obj (MkExecutionStateStore (committedStore st) (localCells st)
      (pendingWildcardDeletes st) (platform st) v (id st)) s).

Definition addToLocalCache (l : loc) : Go S unit :=
  let! c := deref l in
  let! p := gsome (GetPath c) in
  set_local (fun m => <[p := l]> m).

Definition Store_NewStateCell : Go S loc := pool_New.
Definition new_cell (tx : Z) (path : string) (v : option (any crdt)) (pre : bool) : Go S loc :=
  let! l := Store_NewStateCell in
  update_cell (cell_Init tx path 0 0 0 v pre) l ;;; gret l.

Definition getFromCommitted (tx : Z) (path : string) (T : option crdt) : Go S (loc * option string) :=
  let! st := this in
  let '(typedv, err) :=
    match committedStore st with
    | Some store => ro_GetAs store path T
    | None => (None, None)
    end in
  let! l := new_cell tx path typedv (bool_decide (is_Some typedv)) in
  gret (l, err).

(** state_cache_wildcard.go *)
Fixpoint wildcard_loop (path : string) (T : option crdt) (pending : list (Z * string))
    : Go S (bool * option loc * option string) :=
  match pending with
  | [] => gret (false, None, None)
  | (_, w) :: rest =>
      if decide (len path < len w) then wildcard_loop path T rest
      else if String.eqb (str_take (len w) path) w then
        let! '(l, err) := getFromCommitted 0 path T in
        update_cell (SetValue None) l ;;;
        update_cell (IncrementWrites 1) l ;;;
        gret (true, Some l, err)
      else wildcard_loop path T rest
  end.
Definition ResolveWildcardDeletion (path : string) (T : option crdt)
    : Go S (bool * option loc * option string) :=
  let! st := this in wildcard_loop path T (pendingWildcardDeletes st).

Definition ResolveCellForRead (tx : Z) (path : string) (T : option crdt)
    (do : option (loc -> Go S unit)) (cached : bool)
    : Go S (option (any crdt) * loc * option string) :=
  let! st := this in
  match localCells st !! path with
  | Some l => let! c := deref l in gret (Value c, l, None)
  | None =>
      let! '(ok, cell, err) := ResolveWildcardDeletion path T in
      if ok && cached then
        let! l := gsome cell in
        set_local (fun m => <[path := l]> m) ;;;
        let! c := deref l in gret (Value c, l, err)
      else
        let! '(l, err) := getFromCommitted tx path T in
        match do with Some f => f l | None => gret tt end ;;;
        let! c := deref l in gret (Value c, l, err)
  end.

(** [v.(CRDT)]: raw bytes do not implement it. *)
Definition as_crdt (v : any crdt) : Go S crdt :=
  match v with IsCRDT c => gret c | IsBytes _ => gpanic end.

Definition ExistsInParent (tx : Z) (path : string) (do : option (loc -> Go S unit)) : Go S bool :=
  let! st := this in
  if IsImmediateChildOfSysPath (platform st) path then gret true
  else
    let '(parentPath, _) := GetParentPath path in
    let! '(meta, _, _) := ResolveCellForRead tx parentPath (Some new_Path) do true in
    match meta with
    | None => gret false
    | Some m =>
        let! m :=
          match m with
          | IsCRDT v => match as_Bytes v with
                        | Some b => gsome (RlpCodec_Decode b new_Path)
                        | None => gret m
                        end
          | IsBytes _ => gret m
          end in
        let! v := as_crdt m in
        if is_Path v then gret (Path_Exists (str_drop (len parentPath) path) v) else gpanic
    end.

Definition ReadCell (tx : Z) (path : string) (T : option crdt) (do : option (loc -> Go S unit))
    : Go S (option (any crdt) * loc * option string) :=
  let! ok := ExistsInParent tx path do in
  if ok then ResolveCellForRead tx path T do true
  else
    let! l := new_cell tx path None false in
    gret (None, l, Some ErrNotInParent).

(** The size of a value, when there is one: [v.(CRDT).MemSize()]. *)
Definition value_size (v : option (any crdt)) : Go S Z :=
  match v with
  | None => gret 0%Z
  | Some a => let! c := as_crdt a in gret (MemSize c)
  end.

Definition ReadCommitted (tx : Z) (path : string) (T : option crdt) : Go S (option raw * Z) :=
  let! '(l, err) := getFromCommitted tx path T in
  match err with
  | Some _ => gret (None, MIN_READ_SIZE)
  | None =>
      let! c := deref l in
      let! sz := value_size (Value c) in
      let! v := cell_Get tx path l in
      gret (v, u64 (MIN_READ_SIZE + sz))
  end.

Definition DiffSize (tx : Z) (path : string) (newVal : option crdt) : Go S Z :=
  let! '(oldVal, _, _) := ReadCell tx path newVal None in
  let! oldSize := value_size oldVal in
  let newSize := match newVal with Some v => MemSize v | None => 0%Z end in
  gret (i64 (i64 newSize - i64 oldSize)).

Definition GetIfCached (path : string) : Go S (option loc * bool) :=
  let! st := this in
  gret (localCells st !! path, bool_decide (is_Some (localCells st !! path))).

Definition Has (path : string) : Go S bool :=
  if decide (len path <= ETH_ACCOUNT_PREFIX_LENGTH) then gret true
  else
    let! st := this in
    match localCells st !! path with
    | Some l => let! c := deref l in gret (bool_decide (is_Some (Value c)))
    | None => match committedStore st with
              | None => gret false
              | Some store => gret (ro_Has store path)
              end
    end.

(** The guard of the parent's key set. *)
Definition tracks_children (pf : gmap string Z) (parentPath : string) (tx : Z) : bool :=
  IsContainerPath parentPath || (negb (IsSysPath pf parentPath) && negb (tx =? SYSTEM)%Z).

Definition write (tx : Z) (path : string) (value : option crdt) : Go S (loc * option string) :=
  let '(parentPath, _) := GetParentPath path in
  let! l0 := alloc (NewStateCell tx path 0 1 0 value) in
  let! parent := Has parentPath in
  if parent || (tx =? SYSTEM)%Z then
    let! '(l, err) :=
      if negb (HasSuffix path "*") && negb (HasSuffix path "[:]") then
        let! '(_, l, _) := ResolveCellForRead tx path value (Some addToLocalCache) true in
        let! err := cell_Set tx path (IsCRDT <$> value) l in
        gret (l, err)
      else gret (l0, None) in
    match err with
    | Some e => gret (l, Some e)
    | None =>
        let! st := this in
        let! err :=
          if tracks_children (platform st) parentPath tx then
            let! '(_, pm, _) :=
              ResolveCellForRead tx parentPath (Some new_Path) (Some addToLocalCache) true in
            let! c := deref l in
            cell_Set tx path (Value c) pm
          else gret None in
        if IsContainerPath parentPath then
          let! '(pathMeta, _, err) := ReadCell tx parentPath (Some new_Path) None in
          match pathMeta with
          | Some a =>
              let! v := as_crdt a in
              if is_Path v then
                update_cell (SetBlockBound (Path_IsBlockBound v)) l ;;; gret (l, err)
              else gpanic
          | None => gret (l, err)
          end
        else gret (l, err)
    end
  else
    gret (l0, Some ("Error: The parent path " +:+ (parentPath +:+ (" doesn't exist for " +:+ path)))).

(** [setter] is called with the cell and the size difference. *)
Definition Write (tx : Z) (path : string) (newVal : option crdt)
    (setter : option (loc -> Z -> Go S unit)) : Go S (Z * option string) :=
  let invalid := match newVal with Some v => (TypeID v =? 0)%Z | None => false end in
  if invalid then gret (0%Z, Some "Error: Unknown data type !")
  else
    let! '(cell, err) := write tx path newVal in
    let! sizeDif := DiffSize tx path newVal in
    match setter with Some f => f cell sizeDif | None => gret tt end ;;;
    gret (sizeDif, err).

Definition Inject (tx : Z) (path : string) (v : option crdt) : Go S (loc * option string) :=
  let! '(_, l, _) := ResolveCellForRead tx path v (Some addToLocalCache) true in
  let! err := cell_Set tx path (IsCRDT <$> v) l in
  gret (l, err).

(** What [Get] and [GetAs] hand out: values with a pending delta are copied. *)
Definition detach (typedv : option (any crdt)) : option (any crdt) :=
  match typedv with
  | Some (IsCRDT v) =>
      if IsDeltaApplied v then typedv
      else if is_Path v then Some (IsCRDT (crdt_Clone v))
      else Some (IsCRDT (crdt_New v (crdt_Get v) (Limits v)))
  | _ => typedv
  end.
Definition Get (path : string) : Go S (option (any crdt)) :=
  let! '(typedv, _, _) := ReadCell SYSTEM path None None in gret (detach typedv).
Definition GetAs (path : string) (typeHint : option crdt) : Go S (option (any crdt)) :=
  let! '(typedv, _, _) := ReadCell SYSTEM path typeHint None in gret (detach typedv).

Definition Read (tx : Z) (path : string) (T : option crdt) : Go S (option raw * loc * Z) :=
  let! '(_, l, _) := ReadCell tx path T (Some addToLocalCache) in
  let! c := deref l in
  let! sz := value_size (Value c) in
  let! v := cell_Get tx path l in
  gret (v, l, u64 (MIN_READ_SIZE + sz)).
End store.
