(* ===== verification/ExecStoreOps.v ===== *)
(** * state/cache: batches, containers, filters and the cache writer

    The operations of the execution state store that work on many cells
    (Insert, Export, Clear, the filter), the ones that address the elements of
    a container, and the writer that feeds a generation back into the store. *)
From S2P Require Import Prelude GoString GoSort Interfaces Heap Paths DeltaSequence ExecStore.
Import Constants PathTypes Platform.

Section ops.
Context {S crdt cell raw : Type} `{TypeIDs} `{CL : CellLib crdt cell} `{CrdtLib crdt raw}
  `{CE : !CellEffects S raw crdt} `{PoolLib S} `{PathLib} `{SL : SliceLib} `{ML : MapLib}
  `{CB : CellBatchLib S}
  `{CH : HeapLens S cell} `{SO : ObjLens S (ExecutionStateStore crdt)}
  (RlpCodec_Decode : bytes -> crdt -> option (any crdt)).
Abbreviation Read := (ExecStore.Read RlpCodec_Decode).
Abbreviation ReadCell := (ExecStore.ReadCell RlpCodec_Decode).
Abbreviation Write := (ExecStore.Write RlpCodec_Decode).

(** ** execution_state_store.go, batches *)

(** The cells of a slice with their paths; a nil path panics. *)
Definition with_paths (ls : list loc) : Go S (list (loc * (string * cell))) :=
  gmap_list (fun l => let! c := deref l in let! p := gsome (GetPath c) in gret (l, (p, c))) ls.

Definition set (v : option loc) : Go S unit :=
  match v with
  | None => gret tt
  | Some l =>
      let! c := deref l in
      let! p := gsome (GetPath c) in
      if IsPath p && IsCommitted c then gret tt else cell_CopyTo l
  end.

Definition Insert (transitions : list loc) : Go S unit :=
  if length transitions =? 0 then gret tt
  else
    let! cs := with_paths transitions in
    let '(creations, rest) := slice_MoveIf (fun x => IsPath x.2.1 && negb (IsCommitted x.2.2)) cs in
    let! creations := Sorter (map fst creations) in
    gforeach cell_CopyTo creations ;;;
    let! rest := with_paths (map fst rest) in
    gforeach cell_CopyTo (map fst (slice_RemoveIf (fun x => IsPath x.2.1) rest)).

Definition Clear : Go S unit :=
  pool_Reset ;;; set_local (fun _ => ∅).

Definition WildcardsToStateCell : Go S (list loc) :=
  let! st := this in
  gmap_list (fun w =>
    let '(tx, path) := (w : Z * string) in
    let! l := alloc (NewStateCell tx (path +:+ "*") 0 1 0 None) in
    update_cell (DebugSetPreexist true) l ;;; gret l) (pendingWildcardDeletes st).

Definition Export (preprocs : list (option (list loc -> Go S (list loc)))) : Go S (list loc) :=
  let! st := this in
  let! buffer := gfold (fun buffer proc =>
      match proc with Some f => f buffer | None => gret buffer end)
    (map_Values (localCells st)) preprocs in
  let! cs := deref_all buffer in
  let buffer := map fst (slice_RemoveIf (fun lc => PathLookupOnly lc.2) cs) in
  let! ws := WildcardsToStateCell in
  gret (buffer ++ ws).

Definition ExportAll : Go S (list loc * list loc) :=
  let! all := Export [] in
  let! accesses := To_InterThreadAccess all in
  let! transitions := To_InterThreadTransition all in
  gret (accesses, transitions).

Definition KVs : Go S (list string * list crdt) :=
  let! all := Export [Some Sorter] in
  let! transitions := To_InterThreadTransition all in
  let! kvs := slice_ParallelTransform (fun l =>
      let! c := deref l in
      let! a := gsome (Value c) in
      let! v := as_crdt a in
      let! k := gsome (GetPath c) in gret (k, v)) transitions in
  gret (map fst kvs, map snd kvs).

(** ** state_cache_path.go *)
Definition DoReadOnly {A} (tx : Z) (path : string) (doer : loc -> (Z * Z * Z) * A) (T : option crdt)
    : Go S A :=
  let! '(_, l, _) := ReadCell tx path T (Some addToLocalCache) in
  cell_Do tx path doer l.
Definition readAdder (v : loc) : (Z * Z * Z) * loc := ((1, 0, 0)%Z, v).

(** The key is any value; only a string is looked up. *)
Definition IndexOf (tx : Z) (path : string) (key : option string) (T : option crdt) : Go S (Z * Z) :=
  if negb (IsPath path) then gret (MaxUint64, 0%Z)
  else
    let! l := DoReadOnly tx path readAdder T in
    let! c := deref l in
    gret (match Value c, key with
          | Some (IsCRDT v), Some k =>
              if is_Path v then (ds_IdxOf k (Path_View v), MIN_READ_SIZE) else (MaxUint64, MIN_READ_SIZE)
          | _, _ => (MaxUint64, MIN_READ_SIZE)
          end).

Definition KeyAt (tx : Z) (path : string) (index : option Z) (T : option crdt) : Go S (string * Z) :=
  if negb (IsPath path) then gret ("", MIN_READ_SIZE)
  else
    let! l := DoReadOnly tx path readAdder T in
    let! c := deref l in
    gret (match Value c, index with
          | Some (IsCRDT v), Some i =>
              if is_Path v then
                match ds_KeyAt i (Path_View v) with
                | Some k => (k, MIN_READ_SIZE)
                | None => ("", MIN_READ_SIZE)
                end
              else ("", MIN_READ_SIZE)
          | _, _ => ("", MIN_READ_SIZE)
          end).

Definition Peek (path : string) (T : option crdt) : Go S (option raw * option crdt * Z) :=
  let! '(v, _, _) := ReadCell SYSTEM path T None in
  match v with
  | Some a => let! c := as_crdt a in gret (crdt_Get c, Some c, MemSize c)
  | None => gret (None, None, MIN_READ_SIZE)
  end.

Definition PeekCommitted (path : string) : Go S (option (any crdt) * Z) :=
  let! st := this in
  let! store := gsome (committedStore st) in
  gret (ro_Get store path, 0%Z).

(** [meta.( *softdeltaset.DeltaSet[string] )] panics on nil and other types. *)
Definition as_DeltaSet (meta : option raw) : Go S raw :=
  match meta with
  | Some r => if is_DeltaSet r then gret r else gpanic
  | None => gpanic
  end.

Definition getKeyByIdx (tx : Z) (path : string) (idx : Z) : Go S (option string * Z * option string) :=
  if negb (IsPath path) then gret (None, MIN_READ_SIZE, Some "Error: Not a path!!!")
  else
    let! '(meta, _, dataSize) := Read tx path (Some new_Path) in
    let! ds := as_DeltaSet meta in
    (* meta is not nil from here on *)
    match ds_KeyAt idx ds with
    | Some subKey =>
        if 0 <? len subKey then gret (Some (path +:+ subKey), dataSize, None)
        else gret (None, dataSize, Some "Error: Exceeded the length of the path !!!")
    | None => gret (None, dataSize, Some "Error: Exceeded the length of the path !!!")
    end.

Definition Min (tx : Z) (path : string) (idx : Z) : Go S (option string * Z * option string) :=
  if negb (IsPath path) then gret (None, MIN_READ_SIZE, Some "Error: Not a path!!!")
  else
    let! '(meta, _, dataSize) := Read tx path (Some new_Path) in
    let missing := (Some "", dataSize, Some "Error: Key not found in the path!!!") in
    match meta with
    | Some _ =>
        let! ds := as_DeltaSet meta in
        match ds_KeyAt idx ds with
        | Some subKey => gret (Some (path +:+ subKey), dataSize, None)
        | None => gret missing
        end
    | None => gret missing
    end.

Definition Max (tx : Z) (path : string) (idx : Z) : Go S (option string * Z * option string) :=
  if negb (IsPath path) then gret (None, MIN_READ_SIZE, Some "Error: Not a path!!!")
  else
    let! '(meta, _, dataSize) := Read tx path (Some new_Path) in
    let missing := (Some "", dataSize, Some "Error: Key not found in the path!!!") in
    match meta with
    | Some _ =>
        let! ds := as_DeltaSet meta in
        match ds_KeyAt idx ds with
        | Some subkey => gret (Some (path +:+ subkey), dataSize, None)
        | None => gret missing
        end
    | None => gret missing
    end.

(** A read value, or the key that could not be read. *)
Definition ReadAt (tx : Z) (path : string) (idx : Z) (T : option crdt)
    : Go S ((option raw + option string) * Z * option string) :=
  let! '(key, dataSize, err) := getKeyByIdx tx path idx in
  match err, key with
  | None, Some k =>
      let! '(v, _, readGas) := Read tx k T in
      gret (inl v, u64 (dataSize + readGas), None)
  | _, _ => gret (inr key, dataSize, err)
  end.

Definition PopBack (tx : Z) (path : string) (T : option crdt)
    : Go S (option raw * Z * option string) :=
  if negb (IsPath path) then gret (None, i64 MIN_READ_SIZE, Some "Error: Not a path!!!")
  else
    let! '(meta, _, size1) := Read tx path T in
    let! ds := as_DeltaSet meta in
    match ds_Last ds with
    | None => gret (None, i64 size1, Some "Error: The path is either empty or doesn't exist")
    | Some subkey =>
        let key := path +:+ subkey in
        let! '(value, _, size2) := Read tx key T in
        match value with
        | None => gret (None, i64 (u64 (size1 + size2)), Some "Error: Empty container!")
        | Some _ =>
            let! '(writeDataSize, err) := Write tx key None None in
            gret (value, i64 (i64 (u64 (size1 + size2)) + writeDataSize), err)
        end
    end.

Definition WriteAt (tx : Z) (path : string) (idx : Z) (T : option crdt) : Go S (Z * option string) :=
  if negb (IsPath path) then gret (i64 MIN_WRITE_SIZE, Some "Error: Not a path!!!")
  else
    let! '(key, readDataSize, err) := getKeyByIdx tx path idx in
    match err with
    | None =>
        let! k := gsome key in
        let! '(writeDataSize, err) := Write tx k T None in
        gret (i64 (i64 readDataSize + writeDataSize), err)
    | Some _ => gret (i64 readDataSize, err)
    end.

(** ** state_cache_filter.go *)

(** [path[a:a+b]] panics when the path is shorter. *)
Definition account_slice (path : string) : Go S string :=
  gsome (str_slice_chk path ETH_ACCOUNT_PREFIX_LENGTH (ETH_ACCOUNT_PREFIX_LENGTH + ETH_ACCOUNT_LENGTH)).

(** The filter shares the store; its own state is the set of ignored addresses. *)
Definition NewStateCacheFilter : gset string := ∅.

Definition ToBuffer : Go S (list loc) := let! st := this in gret (map_Values (localCells st)).

Definition RemoveByAddress (addr : string) : Go S unit :=
  let! st := this in
  gforeach (fun kv =>
    let! a := account_slice kv.1 in
    if String.eqb a addr then set_local (delete kv.1) else gret tt) (map_to_list (localCells st)).

Definition AddToAutoReversion (addr : string) (ignored : gset string) : gset string :=
  if bool_decide (addr ∈ ignored) then ignored else {[addr]} ∪ ignored.

Definition filterByAddress (ignored : gset string) (transitions : list loc) : Go S (list loc) :=
  if bool_decide (ignored = ∅) then gret transitions
  else
    let! cs := gmap_list (fun l =>
        let! c := deref l in
        let! p := gsome (GetPath c) in
        let! a := account_slice p in gret (l, a)) transitions in
    gret (map fst (slice_RemoveIf (fun la => bool_decide (la.2 ∈ ignored)) cs)).

Definition ByType (ignored : gset string) : Go S (list loc * list loc) :=
  let! '(accesses, transitions) := ExportAll in
  let! a := filterByAddress ignored accesses in
  let! t := filterByAddress ignored transitions in
  gret (a, t).

(** ** execution_store_indexer.go and execution_store_writer.go *)
Record ExecutionCacheIndexer := MkExecutionCacheIndexer {
  version : Z;
  buffer : list loc;
  filter : cell -> bool;
}.
Definition NewExecutionCacheIndexer (version : Z) (filter : option (cell -> bool))
    : ExecutionCacheIndexer :=
  MkExecutionCacheIndexer version [] (default (fun _ => true) filter).

Definition Indexer_SetVersion (v : Z) (idx : ExecutionCacheIndexer) : ExecutionCacheIndexer :=
  MkExecutionCacheIndexer v (buffer idx) (filter idx).

Definition Indexer_Import (transitions : list loc) (idx : ExecutionCacheIndexer)
    : Go S ExecutionCacheIndexer :=
  gret (MkExecutionCacheIndexer (version idx) (buffer idx ++ transitions) (filter idx)).

Definition Indexer_Finalize (idx : ExecutionCacheIndexer) : Go S ExecutionCacheIndexer :=
  let! cs := deref_all (buffer idx) in
  gret (MkExecutionCacheIndexer (version idx)
    (map fst (slice_RemoveIf (fun lc => no_path lc.2) cs)) (filter idx)).

(** The writer is its indexer and the store it belongs to. *)
Definition NewExecutionCacheWriter (version : Z) : ExecutionCacheIndexer :=
  NewExecutionCacheIndexer version None.

Definition Writer_Precommit (isSync : bool) (idx : ExecutionCacheIndexer)
    : Go S ExecutionCacheIndexer :=
  let! idx := Indexer_Finalize idx in
  gforeach addToLocalCache (buffer idx) ;;; gret idx.

Definition Writer_Commit (version : Z) (idx : ExecutionCacheIndexer) : Go S ExecutionCacheIndexer :=
  Clear ;;; gret (NewExecutionCacheIndexer version None).

Definition Writer_IsSync (idx : ExecutionCacheIndexer) : bool := true.
End ops.
