(* ===== verification/ExecStoreTheory.v ===== *)
(** * Theory of the execution state store: what it keeps

    [ext s s'] says that a step only adds: cells that were indexed stay
    indexed under the same path, no object disappears, and the fields of the
    store that no method of its own writes are the same.  Every method but
    [Clear], the filter and the cache writer is such a step. *)
From S2P Require Import Prelude GoString Interfaces Heap Paths PathsTheory ExecStore.
Import Constants PathTypes Platform.

(** The pool hands out an object that nobody holds. *)
Class PoolLaws {S cell : Type} (PoL : PoolLib S) (HL : HeapLens S cell) : Prop := {
  pool_New_fresh : forall s, exists l c,
    heap_of s !! l = None /\ pool_New s = Ret (l, with_heap (<[l := c]> (heap_of s)) s);
  pool_Reset_heap : forall s, exists h, pool_Reset s = Ret (tt, with_heap h s);
}.

Section store.
Context {S crdt cell raw : Type} `{TI : TypeIDs} `{CL : CellLib crdt cell} `{CLW : !CellLaws CL}
  `{CrdtLib crdt raw} `{CE : !CellEffects S raw crdt} `{PoL : PoolLib S} `{PathLib}
  `{HLL : HeapLensLaws S cell} `{SOL : ObjLensLaws S (ExecutionStateStore crdt)}
  `{OI : !ObjIndep HL OL} `{PL : !PoolLaws PoL HL}
  (RlpCodec_Decode : bytes -> crdt -> option (any crdt)).
Implicit Types (s : S) (l : loc).
Abbreviation store s := (obj_of s : ExecutionStateStore crdt).
Abbreviation locals s := (localCells (store s)).
Abbreviation cells s := (heap_of s : gmap loc cell).

(** Every indexed pointer is one of a live cell. *)
Definition wf s : Prop := forall p l, locals s !! p = Some l -> is_Some (cells s !! l).

(** The fields of the store other than the index. *)
Definition fields (st : ExecutionStateStore crdt) :=
  (committedStore st, pendingWildcardDeletes st, platform st, stateVersion st, id st).

Record ext s s' : Prop := {
  ext_fields : fields (store s') = fields (store s);
  ext_locals : forall p l, locals s !! p = Some l -> locals s' !! p = Some l;
  ext_cells : forall l, is_Some (cells s !! l) -> is_Some (cells s' !! l);
  ext_wf : wf s -> wf s';
}.
#[export] Instance ext_preorder : PreOrder ext.
Proof.
  split; [by constructor|].
  intros s1 s2 s3 [F1 L1 C1 W1] [F2 L2 C2 W2]. constructor; [congruence|auto..].
Qed.

(** Adding an object. *)
Lemma ext_with_heap h s :
  (forall l, is_Some (cells s !! l) -> is_Some (h !! l)) -> ext s (with_heap h s).
Proof.
  intros Hh. constructor.
  - by rewrite obj_with_heap.
  - intros p l. by rewrite obj_with_heap.
  - intros l. rewrite heap_with_heap. apply Hh.
  - intros Hwf p l. rewrite obj_with_heap, heap_with_heap. intros Hp. eapply Hh, Hwf, Hp.
Qed.
Lemma ext_insert l c s : ext s (with_heap (<[l := c]> (cells s)) s).
Proof.
  apply ext_with_heap. intros l' Hl'. destruct (decide (l = l')) as [->|Hne].
  - rewrite lookup_insert_eq. eauto.
  - by rewrite lookup_insert_ne.
Qed.

(** A new entry of the index. *)
Definition index_at (p : string) l s : S :=
  with_obj (MkExecutionStateStore (committedStore (store s)) (<[p := l]> (locals s))
    (pendingWildcardDeletes (store s)) (platform (store s)) (stateVersion (store s))
    (id (store s))) s.
Lemma set_local_index p l s :
  set_local (fun m => <[p := l]> m) s = Ret (tt, index_at p l s).
Proof. done. Qed.
Lemma locals_index p l s : locals (index_at p l s) = <[p := l]> (locals s).
Proof. unfold index_at. by rewrite obj_with_obj. Qed.
Lemma cells_index p l s : cells (index_at p l s) = cells s.
Proof. unfold index_at. by rewrite heap_with_obj. Qed.
Lemma ext_index p l s :
  locals s !! p = None -> is_Some (cells s !! l) -> ext s (index_at p l s).
Proof.
  intros Hp Hl. constructor.
  - unfold index_at. by rewrite obj_with_obj.
  - intros q l' Hq. rewrite locals_index, lookup_insert_ne; [done|]. intros ->. congruence.
  - intros l' Hl'. by rewrite cells_index.
  - intros Hwf q l'. rewrite locals_index, cells_index. intros Hq.
    destruct (decide (p = q)) as [->|Hne].
    + rewrite lookup_insert_eq in Hq. by injection Hq as <-.
    + rewrite lookup_insert_ne in Hq by done. by eapply Hwf.
Qed.

(** ** Reads, exactly *)

(** A new cell: the state after it, with the cell's contents. *)
Definition put_cell l (c : cell) s : S := with_heap (<[l := c]> (cells s)) s.

Lemma new_cell_eq tx path v pre s :
  exists l c, cells s !! l = None /\ new_cell tx path v pre s = Ret (l, put_cell l c s) /\
    GetPath c = Some path /\ Value c = v.
Proof.
  destruct (pool_New_fresh s) as (l & c & Hl & E).
  exists l, (cell_Init tx path 0 0 0 v pre c). split; [done|]. split; [|split].
  - unfold new_cell, Store_NewStateCell. apply gbind_ret. eexists _, _. split; [exact E|].
    apply gbind_ret. exists tt, (put_cell l (cell_Init tx path 0 0 0 v pre c) s). split; [|done].
    apply update_cell_ret. exists c. rewrite heap_with_heap, lookup_insert_eq.
    split; [done|]. unfold put_cell. by rewrite with_heap_twice, insert_insert_eq.
  - apply Init_path.
  - apply Init_value.
Qed.

(** What the committed store has for a path. *)
Definition fetch s (path : string) (T : option crdt) : option (any crdt) * option string :=
  match committedStore (store s) with
  | Some st => ro_GetAs st path T
  | None => (None, None)
  end.
Lemma getFromCommitted_eq tx path T s :
  exists l c, cells s !! l = None /\
    getFromCommitted tx path T s = Ret ((l, (fetch s path T).2), put_cell l c s) /\
    GetPath c = Some path /\ Value c = (fetch s path T).1.
Proof.
  destruct (new_cell_eq tx path (fetch s path T).1 (bool_decide (is_Some (fetch s path T).1)) s)
    as (l & c & Hl & E & Hp & Hv).
  exists l, c. split; [done|]. split; [|done].
  unfold getFromCommitted, this, gbind at 1, gbind at 1, gget, gret at 1.
  fold (fetch s path T). destruct (fetch s path T) as [v err]. cbn [fst snd] in *.
  unfold gbind. by rewrite E.
Qed.

(** The path lies under a pending wildcard deletion. *)
Definition wildcarded s (path : string) : bool :=
  existsb (fun w => HasPrefix path w.2) (pendingWildcardDeletes (store s)).

Lemma wildcard_loop_eq path T pending s :
  if existsb (fun w => HasPrefix path w.2) pending then
    exists l c, cells s !! l = None /\ GetPath c = Some path /\ Value c = None /\
      wildcard_loop path T pending s = Ret ((true, Some l, (fetch s path T).2), put_cell l c s)
  else wildcard_loop path T pending s = Ret ((false, None, None), s).
Proof.
  induction pending as [|[g w] pending IH]; cbn [existsb wildcard_loop snd]; [done|].
  unfold HasPrefix at 1. case_decide as Hl.
  - rewrite (proj2 (Nat.leb_gt _ _)) by lia. exact IH.
  - rewrite (proj2 (Nat.leb_le _ _)) by lia. cbn [andb].
    destruct (String.eqb (str_take (len w) path) w); [|exact IH]. cbn [orb].
    destruct (getFromCommitted_eq 0 path T s) as (l & c & Hl0 & E & Hp & Hv).
    set (c' := IncrementWrites 1 (SetValue None c)). exists l, c'.
    split; [done|]. split; [by unfold c'; rewrite IncrementWrites_path, SetValue_path|].
    split; [by unfold c'; rewrite IncrementWrites_value, SetValue_value|].
    apply gbind_ret. eexists _, _. split; [exact E|]. cbn beta iota.
    assert (Hput : forall d, cells (put_cell l d s) !! l = Some d)
      by (intros d; unfold put_cell; by rewrite heap_with_heap, lookup_insert_eq).
    assert (Hupd : forall f d, update_cell f l (put_cell l d s) = Ret (tt, put_cell l (f d) s)).
    { intros f d. apply update_cell_ret. exists d. split; [done|].
      unfold put_cell. by rewrite heap_with_heap, with_heap_twice, insert_insert_eq. }
    apply gbind_ret. eexists tt, _. split; [apply Hupd|].
    apply gbind_ret. eexists tt, _. split; [apply Hupd|]. done.
Qed.

(** What the store shows of a path, with a type hint: the local cell, else
    nothing under a pending wildcard deletion, else the committed value. *)
Definition view s (path : string) (T : option crdt) : option (any crdt) :=
  match locals s !! path with
  | Some l => cells s !! l ≫= Value
  | None => if wildcarded s path then None else (fetch s path T).1
  end.

(** A step that adds objects and entries, and changes no object. *)
Record keeps s s' : Prop := {
  keeps_ext : ext s s';
  keeps_cells : forall l c, cells s !! l = Some c -> cells s' !! l = Some c;
}.
#[export] Instance keeps_preorder : PreOrder keeps.
Proof.
  split; [by constructor|].
  intros s1 s2 s3 [E1 C1] [E2 C2]. constructor; [by etrans|auto].
Qed.
Lemma keeps_put l c s : cells s !! l = None -> keeps s (put_cell l c s).
Proof.
  intros Hl. constructor; [apply ext_insert|]. intros l' c' Hc. unfold put_cell.
  rewrite heap_with_heap, lookup_insert_ne; [done|]. intros ->. congruence.
Qed.
Lemma keeps_index p l s :
  locals s !! p = None -> is_Some (cells s !! l) -> keeps s (index_at p l s).
Proof.
  intros Hp Hl. constructor; [by apply ext_index|]. intros l' c. by rewrite cells_index.
Qed.
Lemma keeps_fetch s s' path T : keeps s s' -> fetch s' path T = fetch s path T.
Proof.
  intros [[Hf _ _ _] _]. unfold fields in Hf. injection Hf as Hc _ _ _ _.
  unfold fetch. by rewrite Hc.
Qed.
Lemma keeps_wildcarded s s' path : keeps s s' -> wildcarded s' path = wildcarded s path.
Proof.
  intros [[Hf _ _ _] _]. unfold fields in Hf. injection Hf as _ Hw _ _ _.
  unfold wildcarded. by rewrite Hw.
Qed.
(** Such a step changes the view of no path it does not index. *)
Lemma keeps_view s s' q T :
  wf s -> keeps s s' -> (locals s !! q = None -> locals s' !! q = None) ->
  view s' q T = view s q T.
Proof.
  intros Hwf Hk Hq. unfold view. destruct (locals s !! q) as [l|] eqn:E.
  - rewrite (ext_locals _ _ (keeps_ext _ _ Hk) _ _ E).
    destruct (Hwf _ _ E) as [c Hc]. by rewrite Hc, (keeps_cells _ _ Hk _ _ Hc).
  - by rewrite Hq, (keeps_wildcarded _ _ _ Hk), (keeps_fetch _ _ _ _ Hk).
Qed.

(** The callbacks the code passes. *)
Definition do_ok (do : option (loc -> Go S unit)) : Prop :=
  do = None \/ do = Some addToLocalCache.

(** The outcome of resolving a path: its view, in a cell that is indexed when
    the caller asked for it, or was already. *)
Record resolved s s' (path : string) (T : option crdt) (l : loc)
    (do : option (loc -> Go S unit)) : Prop := {
  rs_keeps : keeps s s';
  rs_value : exists c, cells s' !! l = Some c /\ Value c = view s path T;
  rs_other : forall q, q <> path -> locals s' !! q = locals s !! q;
  rs_local : locals s' !! path = Some l \/
             (locals s' !! path = None /\ do = None);
  rs_fresh : locals s !! path = None -> cells s !! l = None;
}.

Lemma addToLocalCache_eq l c p s :
  cells s !! l = Some c -> GetPath c = Some p ->
  addToLocalCache l s = Ret (tt, index_at p l s).
Proof.
  intros Hc Hp. unfold addToLocalCache. apply gbind_ret. exists c, s.
  split; [by apply deref_eq|]. apply gbind_ret. exists p, s. split; [|apply set_local_index].
  by rewrite Hp.
Qed.

(** A new cell with what the path shows, indexed or not. *)
Lemma resolved_put l c s path T :
  cells s !! l = None -> locals s !! path = None -> Value c = view s path T ->
  resolved s (put_cell l c s) path T l None.
Proof.
  intros Hl Hn Hv. assert (Hloc : locals (put_cell l c s) = locals s)
    by (unfold put_cell; by rewrite obj_with_heap).
  constructor; [by apply keeps_put| |intros; by rewrite Hloc|right; by rewrite Hloc|done].
  exists c. unfold put_cell. by rewrite heap_with_heap, lookup_insert_eq.
Qed.
Lemma resolved_indexed l c s path T do :
  cells s !! l = None -> locals s !! path = None -> Value c = view s path T ->
  resolved s (index_at path l (put_cell l c s)) path T l do.
Proof.
  intros Hl Hn Hv. destruct (resolved_put l c s path T Hl Hn Hv) as [Hk (c' & Hc & Hv') Ho [Hs|[Hn' _]] _].
  { unfold put_cell in Hs. rewrite obj_with_heap in Hs. congruence. }
  constructor; [| | |left|done].
  - etrans; [exact Hk|]. apply keeps_index; [done|by rewrite Hc].
  - exists c'. by rewrite cells_index.
  - intros q Hq. rewrite locals_index, lookup_insert_ne by done. by apply Ho.
  - rewrite locals_index. apply lookup_insert_eq.
Qed.

Lemma ResolveCellForRead_eq tx path T do s :
  wf s -> do_ok do ->
  exists l s' err, ResolveCellForRead tx path T do true s = Ret ((view s path T, l, err), s') /\
    resolved s s' path T l do.
Proof.
  intros Hwf Hdo. unfold ResolveCellForRead, this.
  unfold gbind at 1, gbind at 1, gget, gret at 1.
  destruct (locals s !! path) as [l|] eqn:El.
  { destruct (Hwf _ _ El) as [c Hc]. exists l, s, None.
    assert (Hv : view s path T = Value c) by (unfold view; by rewrite El, Hc).
    unfold gbind. rewrite (deref_eq l s c Hc). split; [by rewrite Hv|].
    constructor; [done|by exists c|done|by left|congruence]. }
  assert (Hput : forall l c, cells (put_cell l c s) !! l = Some c)
    by (intros; unfold put_cell; by rewrite heap_with_heap, lookup_insert_eq).
  unfold ResolveWildcardDeletion, this, gget, gret.
  pose proof (wildcard_loop_eq path T (pendingWildcardDeletes (store s)) s) as Hw.
  fold (wildcarded s path) in Hw. destruct (wildcarded s path) eqn:Ew.
  - destruct Hw as (l & c & Hl & Hp & Hv & E).
    assert (Hvw : Value c = view s path T) by (unfold view; by rewrite El, Ew).
    exists l, (index_at path l (put_cell l c s)), (fetch s path T).2.
    split; [|by apply resolved_indexed].
    erewrite gbind_eq by (apply gbind_ret; eexists _, s; split; [done|exact E]).
    cbn beta iota delta [andb gsome]. rewrite (gbind_eq _ _ _ _ _ (gret_eq l _)).
    rewrite (gbind_eq _ _ _ _ _ (set_local_index path l _)).
    by rewrite (gbind_eq _ _ _ c _ (deref_eq _ _ _ ltac:(by rewrite cells_index))), Hvw.
  - destruct (getFromCommitted_eq tx path T s) as (l & c & Hl & E & Hp & Hv).
    assert (Hvw : Value c = view s path T) by (unfold view; by rewrite El, Ew, Hv).
    set (s' := match do with Some _ => index_at path l (put_cell l c s) | None => put_cell l c s end).
    assert (Hdo' : match do with Some f => f l | None => gret tt end (put_cell l c s) = Ret (tt, s')).
    { destruct Hdo as [->| ->]; [done|]. by apply (addToLocalCache_eq l c). }
    exists l, s', (fetch s path T).2. split.
    + erewrite gbind_eq by (apply gbind_ret; eexists _, s; split; [done|exact Hw]).
      cbn beta iota delta [andb]. rewrite (gbind_eq _ _ _ _ _ E). cbn beta iota.
      rewrite (gbind_eq _ _ _ _ _ Hdo').
      assert (Hc : cells s' !! l = Some c) by (unfold s'; case_match; by rewrite ?cells_index).
      by rewrite (gbind_eq _ _ _ _ _ (deref_eq _ _ _ Hc)), Hvw.
    + destruct Hdo as [->| ->]; [by apply resolved_put|by apply resolved_indexed].
Qed.

(** ** Membership in the parent *)

Definition listed_in (meta : option (any crdt)) (child : string) : outcome bool :=
  match meta with
  | None => Ret false
  | Some (IsBytes _) => Panic
  | Some (IsCRDT v) =>
      match (match as_Bytes v with
             | Some b => match RlpCodec_Decode b new_Path with
                         | Some (IsCRDT v) => Some v
                         | _ => None
                         end
             | None => Some v
             end) with
      | Some v => if is_Path v then Ret (Path_Exists child v) else Panic
      | None => Panic
      end
  end.
Definition exists_spec s (path : string) : outcome bool :=
  if IsImmediateChildOfSysPath (platform (store s)) path then Ret true
  else let parent := (GetParentPath path).1 in
       listed_in (view s parent (Some new_Path)) (str_drop (len parent) path).

Lemma parent_ne pf path :
  IsImmediateChildOfSysPath pf path = false -> (GetParentPath path).1 <> path.
Proof.
  unfold IsImmediateChildOfSysPath, IsSysPath. intros Hi.
  destruct (decide (path = "")) as [->|H1]; [done|].
  destruct (decide (path = "/")) as [->|H2]; [done|].
  destruct (GetParentPath_split path H1 H2) as (p & c & -> & _ & _ & -> & Hl).
  cbn. intros E. apply (f_equal len) in E. lia.
Qed.

(** What a step may have indexed: nothing but these paths. *)
Definition indexes_only (ps : list string) s s' : Prop :=
  forall q, q ∉ ps -> locals s' !! q = locals s !! q.

(** The body, in the store it reads. *)
Lemma ExistsInParent_at tx path do s :
  ExistsInParent RlpCodec_Decode tx path do s =
    (if IsImmediateChildOfSysPath (platform (store s)) path then gret true
     else
       let '(parentPath, _) := GetParentPath path in
       let! '(meta, _, _) := ResolveCellForRead tx parentPath (Some new_Path) do true in
       match meta with
       | None => gret false
       | Some m =>
           let! m :=
             match m with
             | IsCRDT v => match as_Bytes v with
                           | Some b => gsome (RlpCodec_Decode b new_Path)
                           | None => gret m
                           end
             | IsBytes _ => gret m
             end in
           let! v := as_crdt m in
           if is_Path v then gret (Path_Exists (str_drop (len parentPath) path) v) else gpanic
       end) s.
Proof. done. Qed.

Lemma ExistsInParent_eq tx path do s :
  wf s -> do_ok do ->
  match exists_spec s path with
  | Panic => ExistsInParent RlpCodec_Decode tx path do s = Panic
  | Ret b => exists s', ExistsInParent RlpCodec_Decode tx path do s = Ret (b, s') /\
      keeps s s' /\ indexes_only [(GetParentPath path).1] s s' /\
      view s' (GetParentPath path).1 (Some new_Path) = view s (GetParentPath path).1 (Some new_Path) /\
      (forall T, view s' path T = view s path T) /\ locals s' !! path = locals s !! path
  end.
Proof.
  intros Hwf Hdo. rewrite ExistsInParent_at. unfold exists_spec.
  destruct (IsImmediateChildOfSysPath (platform (store s)) path) eqn:Ei.
  { exists s. split; [done|]. split; [done|]. done. }
  pose proof (parent_ne _ _ Ei) as Hne.
  destruct (GetParentPath path) as [parent child0] eqn:Ep. cbn [fst] in *.
  destruct (ResolveCellForRead_eq tx parent (Some new_Path) do s Hwf Hdo)
    as (l & s1 & err & E & Hr).
  assert (Hv : view s1 parent (Some new_Path) = view s parent (Some new_Path)).
  { destruct (rs_local _ _ _ _ _ _ Hr) as [Hl|[Hl _]].
    - destruct (rs_value _ _ _ _ _ _ Hr) as (c & Hc & Hvc). unfold view at 1. by rewrite Hl, Hc.
    - apply keeps_view; [done|apply (rs_keeps _ _ _ _ _ _ Hr)|done]. }
  assert (Hpath : locals s1 !! path = locals s !! path)
    by (apply (rs_other _ _ _ _ _ _ Hr); congruence).
  assert (Hrest : keeps s s1 /\ indexes_only [parent] s s1 /\
    view s1 parent (Some new_Path) = view s parent (Some new_Path) /\
    (forall T, view s1 path T = view s path T) /\ locals s1 !! path = locals s !! path).
  { split; [apply (rs_keeps _ _ _ _ _ _ Hr)|]. split; [|split; [done|split; [|done]]].
    - intros q Hq. apply (rs_other _ _ _ _ _ _ Hr). intros ->. apply Hq. by left.
    - intros T. apply keeps_view; [done|apply (rs_keeps _ _ _ _ _ _ Hr)|by rewrite Hpath]. }
  rewrite !(gbind_eq _ _ _ _ _ E). cbn beta iota.
  destruct (view s parent (Some new_Path)) as [[v|b]|]; cbn [listed_in];
    [|done|by exists s1; split; [done|exact Hrest]].
  unfold gbind. destruct (as_Bytes v) as [b|].
  - destruct (RlpCodec_Decode b new_Path) as [[v'|b']|]; [|done|done].
    cbn. destruct (is_Path v'); [exists s1; split; [done|exact Hrest]|done].
  - cbn. destruct (is_Path v); [exists s1; split; [done|exact Hrest]|done].
Qed.

Lemma exists_spec_keeps s s' path :
  wf s -> keeps s s' ->
  view s' (GetParentPath path).1 (Some new_Path) = view s (GetParentPath path).1 (Some new_Path) ->
  exists_spec s' path = exists_spec s path.
Proof.
  intros Hwf [[Hf _ _ _] _] Hv. unfold exists_spec. unfold fields in Hf.
  injection Hf as _ _ Hp _ _. by rewrite Hp, Hv.
Qed.

(** What the parent shows when it is asked as a container, unless it is the path
    itself. *)
Definition parent_kept s s' (path : string) : Prop := (GetParentPath path).1 <> path ->
  view s' (GetParentPath path).1 (Some new_Path) = view s (GetParentPath path).1 (Some new_Path).
Lemma ReadCell_eq tx path T do s :
  wf s -> do_ok do ->
  match exists_spec s path with
  | Panic => ReadCell RlpCodec_Decode tx path T do s = Panic
  | Ret false => exists l s', ReadCell RlpCodec_Decode tx path T do s =
        Ret ((None, l, Some ErrNotInParent), s') /\ keeps s s' /\
      indexes_only [(GetParentPath path).1] s s' /\ parent_kept s s' path /\
      locals s' !! path = locals s !! path /\ exists c, cells s' !! l = Some c /\ Value c = None
  | Ret true => exists l s' err, ReadCell RlpCodec_Decode tx path T do s =
        Ret ((view s path T, l, err), s') /\ keeps s s' /\
      indexes_only [(GetParentPath path).1; path] s s' /\ parent_kept s s' path /\
      (locals s' !! path = Some l \/ (locals s' !! path = None /\ do = None)) /\
      exists c, cells s' !! l = Some c /\ Value c = view s path T
  end.
Proof.
  intros Hwf Hdo. pose proof (ExistsInParent_eq tx path do s Hwf Hdo) as He. unfold ReadCell.
  destruct (exists_spec s path) as [b|].
  - destruct He as (s1 & E1 & Hk1 & Hi1 & Hp1 & Hv1 & Hl1).
    assert (Hwf1 : wf s1) by (by apply (ext_wf _ _ (keeps_ext _ _ Hk1))).
    rewrite !(gbind_eq _ _ _ _ _ E1). destruct b.
    + destruct (ResolveCellForRead_eq tx path T do s1) as (l & s2 & err & E2 & Hr);
        [done|done|].
      rewrite Hv1 in E2. exists l, s2, err. split; [exact E2|].
      destruct Hr as [Hk2 Hc2 Ho2 Hloc2 _]. rewrite Hv1 in Hc2.
      split; [by etrans|]. split; [|split; [|by split]].
      * intros q Hq. rewrite Ho2, Hi1; [done| |]; intros Hq'; apply Hq.
        -- apply list_elem_of_singleton in Hq' as ->. by left.
        -- rewrite Hq'. right. by left.
      * intros Hne. rewrite <- Hp1. apply keeps_view; [done|done|by rewrite Ho2].
    + destruct (new_cell_eq tx path None false s1) as (l & c & Hl & E2 & _ & Hv).
      exists l, (put_cell l c s1). split; [by rewrite (gbind_eq _ _ _ _ _ E2)|].
      assert (Hloc : locals (put_cell l c s1) = locals s1)
        by (unfold put_cell; by rewrite obj_with_heap).
      split; [etrans; [done|by apply keeps_put]|].
      split; [intros q Hq; by rewrite Hloc, Hi1|].
      split; [intros _; rewrite <- Hp1; apply keeps_view; [done|by apply keeps_put|by rewrite Hloc]|].
      split; [by rewrite Hloc|]. exists c. unfold put_cell. by rewrite heap_with_heap, lookup_insert_eq.
  - unfold gbind. by rewrite He.
Qed.

(** An indexed path shows the same whatever it is asked for. *)
Lemma view_local s q l T T' : locals s !! q = Some l -> view s q T = view s q T'.
Proof. unfold view. by intros ->. Qed.
(** What a read does to the views: a path shows what it did, or it was not
    indexed and shows from now on, whatever it is asked for, what the read found
    there: the path itself, read as [T], or its parent, read as a container. *)
Definition views_after_read s s' (path : string) (T : option crdt) : Prop := forall q,
  (forall T', view s' q T' = view s q T') \/
  (locals s !! q = None /\ q = path /\ forall T', view s' q T' = view s q T) \/
  (locals s !! q = None /\ q = (GetParentPath path).1 /\ forall T', view s' q T' = view s q (Some new_Path)).
Lemma views_read s s' path T : wf s -> keeps s s' -> indexes_only [(GetParentPath path).1; path] s s' ->
  parent_kept s s' path -> view s' path T = view s path T -> views_after_read s s' path T.
Proof.
  intros Hwf Hk Hi Hp Hv q. destruct (locals s !! q) as [l|] eqn:E.
  { left. intros T'. by apply keeps_view; [| |congruence]. }
  destruct (locals s' !! q) as [l|] eqn:E'; [|left; intros T'; by apply keeps_view].
  right. destruct (decide (q = path)) as [->|Hq].
  - left. do 2 (split; [done|]). intros T'. by rewrite (view_local _ _ _ T' T E').
  - destruct (decide (q = (GetParentPath path).1)) as [->|Hq'].
    + right. do 2 (split; [done|]). intros T'. rewrite (view_local _ _ _ T' (Some new_Path) E'). by apply Hp.
    + rewrite Hi, E in E'; [done|]. rewrite !elem_of_cons, elem_of_nil. tauto.
Qed.

(** C13: a read returns exactly what the store shows of the path, provided the
    path is built in or listed by its parent, and otherwise nothing with an
    error; it panics only when the parent is not a container.  It changes no
    cell and removes no entry, but may index the path and its parent; every path
    shows afterwards what it did, or, when it was indexed by the read, what the
    read found there. *)
Theorem ReadCell_spec tx path T do s :
  wf s -> do_ok do ->
  match exists_spec s path with
  | Panic => ReadCell RlpCodec_Decode tx path T do s = Panic
  | Ret listed => exists l s' err,
      ReadCell RlpCodec_Decode tx path T do s =
        Ret ((if listed then view s path T else None, l, err), s') /\
      (listed = false -> err = Some ErrNotInParent /\ locals s' !! path = locals s !! path) /\
      (listed = true -> do = Some addToLocalCache -> locals s' !! path = Some l) /\
      keeps s s' /\ indexes_only [(GetParentPath path).1; path] s s' /\
      views_after_read s s' path T /\ view s' path T = view s path T
  end.
Proof.
  intros Hwf Hdo. pose proof (ReadCell_eq tx path T do s Hwf Hdo) as E.
  destruct (exists_spec s path) as [[]|]; [| |exact E].
  - destruct E as (l & s' & err & E & Hk & Hi & Hp & Hloc & c & Hc & Hv). exists l, s', err.
    assert (Hpath : view s' path T = view s path T).
    { destruct Hloc as [Hloc|[Hloc _]]; [unfold view at 1; by rewrite Hloc, Hc|by apply keeps_view]. }
    split; [exact E|]. split; [done|]. split; [intros _ ->; by destruct Hloc as [?|[_ ?]]|].
    do 2 (split; [done|]). split; [by apply views_read|done].
  - destruct E as (l & s' & E & Hk & Hi & Hp & Hloc & _). exists l, s', (Some ErrNotInParent).
    assert (Hi' : indexes_only [(GetParentPath path).1; path] s s')
      by (intros q Hq; apply Hi; rewrite elem_of_cons in Hq |- *; rewrite elem_of_nil; tauto).
    assert (Hpath : view s' path T = view s path T) by (apply keeps_view; [done|done|by rewrite Hloc]).
    split; [exact E|]. do 2 (split; [done|]). do 2 (split; [done|]). split; [by apply views_read|done].
Qed.

(** ** Has *)
Definition has_spec s (path : string) : bool :=
  (len path <=? ETH_ACCOUNT_PREFIX_LENGTH) ||
  match locals s !! path with
  | Some l => bool_decide (is_Some (cells s !! l ≫= Value))
  | None => match committedStore (store s) with Some st => ro_Has st path | None => false end
  end.
Lemma Has_eq path s : wf s -> Has path s = Ret (has_spec s path, s).
Proof.
  intros Hwf. unfold Has, has_spec. case_decide as Hl.
  - by rewrite (proj2 (Nat.leb_le _ _)).
  - rewrite (proj2 (Nat.leb_gt _ _)) by lia. cbn [orb].
    unfold this. unfold gbind at 1, gbind at 1, gget, gret at 1.
    destruct (locals s !! path) as [l|] eqn:El.
    + destruct (Hwf _ _ El) as [c Hc]. unfold gbind. by rewrite (deref_eq l s c Hc), Hc.
    + by destruct (committedStore (store s)).
Qed.

(** The existence test looks at the local cell first, so a value deleted
    in this execution does not exist even if it is committed, and one that was
    only written locally does; other paths exist when the committed store has
    them; the platform's prefix paths always exist.  Nothing changes. *)
Theorem Has_spec path s :
  wf s ->
  Has path s = Ret (if decide (len path <= ETH_ACCOUNT_PREFIX_LENGTH) then true
    else match locals s !! path with
         | Some _ => bool_decide (is_Some (view s path None))
         | None => match committedStore (store s) with Some st => ro_Has st path | None => false end
         end, s).
Proof.
  intros Hwf. rewrite (Has_eq path s Hwf). do 2 f_equal. unfold has_spec, view.
  case_decide as Hl; [by rewrite (proj2 (Nat.leb_le _ _))|].
  rewrite (proj2 (Nat.leb_gt _ _)) by lia. cbn [orb]. by destruct (locals s !! path).
Qed.

(** ** Writes *)

(** What a cell does to the store when it is handed one: it uses the methods
    of the store, which only add to it. *)
Class EffectLaws : Prop := {
  Set_ext : forall tx p v l s e s', cell_Set tx p v l s = Ret (e, s') -> ext s s';
  Get_ext : forall tx p l s r s', cell_Get tx p l s = Ret (r, s') -> ext s s';
  Do_ext : forall A tx p (f : loc -> (Z * Z * Z) * A) l s r s',
    cell_Do tx p f l s = Ret (r, s') -> ext s s';
  CopyTo_ext : forall l s u s', cell_CopyTo l s = Ret (u, s') -> ext s s';
}.

Lemma alloc_put c s : exists l, cells s !! l = None /\ alloc c s = Ret (l, put_cell l c s).
Proof.
  exists (fresh (dom (cells s))). split; [|done]. apply not_elem_of_dom, is_fresh.
Qed.
Lemma has_keeps s s' p :
  wf s -> keeps s s' -> locals s' !! p = locals s !! p -> has_spec s' p = has_spec s p.
Proof.
  intros Hwf [[Hf _ _ _] Hc] Hp. unfold has_spec, fields in *. injection Hf as Hcs _ _ _ _.
  rewrite Hp, Hcs. f_equal. destruct (locals s !! p) as [l|] eqn:El; [|done].
  destruct (Hwf _ _ El) as [c E]. by rewrite E, (Hc _ _ E).
Qed.

Abbreviation parent_of path := (GetParentPath path).1.

(** The part every write starts with: the detached cell and the parent's test. *)
Lemma write_start tx path v s :
  wf s -> exists l0 s0, alloc (NewStateCell tx path 0 1 0 v) s = Ret (l0, s0) /\
    keeps s s0 /\ wf s0 /\ locals s0 = locals s /\ is_Some (cells s0 !! l0) /\
    Has (parent_of path) s0 = Ret (has_spec s (parent_of path), s0).
Proof.
  intros Hwf. destruct (alloc_put (NewStateCell tx path 0 1 0 v) s) as (l0 & Hl & E).
  exists l0, (put_cell l0 (NewStateCell tx path 0 1 0 v) s).
  pose proof (keeps_put l0 (NewStateCell tx path 0 1 0 v) s Hl) as Hk.
  assert (Hwf0 : wf (put_cell l0 (NewStateCell tx path 0 1 0 v) s))
    by (by apply (ext_wf _ _ (keeps_ext _ _ Hk))).
  assert (Hloc : locals (put_cell l0 (NewStateCell tx path 0 1 0 v) s) = locals s)
    by (unfold put_cell; by rewrite obj_with_heap).
  split; [done|]. split; [done|]. split; [done|]. split; [done|]. split.
  - unfold put_cell. rewrite heap_with_heap, lookup_insert_eq. eauto.
  - rewrite Has_eq by done. rewrite (has_keeps s) by (done || by rewrite Hloc). done.
Qed.

Definition parent_error (path : string) : string :=
  "Error: The parent path " +:+ (parent_of path +:+ (" doesn't exist for " +:+ path)).

(** C31: a transaction cannot write below a path that does not exist: the write
    fails, and the store shows the same for every path. *)
Theorem write_refused tx path v s :
  wf s -> tx <> SYSTEM -> Has (parent_of path) s = Ret (false, s) ->
  exists l s', write RlpCodec_Decode tx path v s = Ret ((l, Some (parent_error path)), s') /\
    locals s' = locals s /\ keeps s s' /\ forall q T, view s' q T = view s q T.
Proof.
  intros Hwf Htx Hh. rewrite (Has_eq _ _ Hwf) in Hh. injection Hh as Hh.
  destruct (write_start tx path v s Hwf) as (l0 & s0 & Ea & Hk & Hwf0 & Hloc & _ & Ehas).
  rewrite Hh in Ehas. exists l0, s0. split.
  - unfold write, parent_error. destruct (GetParentPath path) as [parent child]. cbn [fst] in *.
    rewrite (gbind_eq _ _ _ _ _ Ea), (gbind_eq _ _ _ _ _ Ehas).
    by rewrite (proj2 (Z.eqb_neq tx SYSTEM)).
  - split; [done|]. split; [done|]. intros q T. apply keeps_view; [done|done|by rewrite Hloc].
Qed.

Definition plain (path : string) : bool := negb (HasSuffix path "*") && negb (HasSuffix path "[:]").

Lemma platform_ext s s' : ext s s' -> platform (store s') = platform (store s).
Proof. intros [Hf _ _ _]. unfold fields in Hf. by injection Hf. Qed.

(** The element part of an accepted write of a plain path. *)
Lemma write_element tx path v s :
  wf s -> has_spec s (parent_of path) = true \/ tx = SYSTEM -> plain path = true ->
  exists l s1, keeps s s1 /\ wf s1 /\ locals s1 !! path = Some l /\
    (cells s1 !! l ≫= Value) = view s path v /\
    (forall q, q <> path -> locals s1 !! q = locals s !! q) /\
    (locals s !! path = None -> cells s !! l = None) /\
    write RlpCodec_Decode tx path v s =
      (let! err := cell_Set tx path (IsCRDT <$> v) l in
       match err with
       | Some e => gret (l, Some e)
       | None =>
           let! st := this in
           let! err :=
             if tracks_children (platform st) (parent_of path) tx then
               let! '(_, pm, _) := ResolveCellForRead tx (parent_of path) (Some new_Path)
                 (Some addToLocalCache) true in
               let! c := deref l in
               cell_Set tx path (Value c) pm
             else gret None in
           if IsContainerPath (parent_of path) then
             let! '(pathMeta, _, err) :=
               ReadCell RlpCodec_Decode tx (parent_of path) (Some new_Path) None in
             match pathMeta with
             | Some a =>
                 let! v := as_crdt a in
                 if is_Path v then
                   update_cell (SetBlockBound (Path_IsBlockBound v)) l ;;; gret (l, err)
                 else gpanic
             | None => gret (l, err)
             end
           else gret (l, err)
       end) s1.
Proof.
  intros Hwf Hp Hpl.
  destruct (write_start tx path v s Hwf) as (l0 & s0 & Ea & Hk & Hwf0 & Hloc & _ & Ehas).
  destruct (ResolveCellForRead_eq tx path v (Some addToLocalCache) s0 Hwf0) as (l & s1 & err & E & Hr);
    [by right|].
  assert (Hv : view s0 path v = view s path v)
    by (apply keeps_view; [done|done|by rewrite Hloc]).
  destruct Hr as [Hk1 (c & Hc & Hvc) Ho Hl Hfr]. exists l, s1.
  split; [by etrans|]. split; [by apply (ext_wf _ _ (keeps_ext _ _ Hk1))|].
  split; [by destruct Hl as [?|[_ ?]]|]. split; [by rewrite Hc, <- Hv|].
  split; [intros q Hq; by rewrite Ho, Hloc|].
  split; [intros Hn; apply eq_None_not_Some; intros Hs; rewrite <- Hloc in Hn;
          apply (ext_cells _ _ (keeps_ext _ _ Hk)) in Hs; rewrite Hfr in Hs; [by destruct Hs|done]|].
  unfold write. destruct (GetParentPath path) as [parent child]. cbn [fst] in *.
  rewrite (gbind_eq _ _ _ _ _ Ea), (gbind_eq _ _ _ _ _ Ehas).
  replace (has_spec s parent || (tx =? SYSTEM)%Z) with true
    by (symmetry; destruct Hp as [-> | ->]; [done|apply orb_true_r]).
  unfold plain in Hpl. rewrite Hpl.
  rewrite gbind_assoc, (gbind_eq _ _ _ _ _ E), gbind_assoc.
  apply gbind_ext. by intros [e|] s2.
Qed.

Section effects.
Context (EL : EffectLaws).

Lemma as_has b path s : wf s -> Has path s = Ret (b, s) -> has_spec s path = b.
Proof. intros Hwf E. rewrite (Has_eq _ _ Hwf) in E. by injection E. Qed.

(** C32: an accepted write of a plain path whose parent keeps no key set (an
    account field, a native slot) sets exactly one cell, the one the store then
    shows for that path, and reports what setting it reported. *)
Theorem write_slot tx path v s :
  wf s -> Has (parent_of path) s = Ret (true, s) \/ tx = SYSTEM -> plain path = true ->
  tracks_children (platform (store s)) (parent_of path) tx = false ->
  exists l s1, keeps s s1 /\ locals s1 !! path = Some l /\
    (cells s1 !! l ≫= Value) = view s path v /\
    write RlpCodec_Decode tx path v s =
      (let! err := cell_Set tx path (IsCRDT <$> v) l in gret (l, err)) s1.
Proof.
  intros Hwf Hp Hpl Ht.
  destruct (write_element tx path v s Hwf) as (l & s1 & Hk & Hwf1 & Hl & Hv & _ & _ & E); [|done|].
  { destruct Hp as [Hp|Hp]; [left; by apply as_has|by right]. }
  exists l, s1. split; [done|]. split; [done|]. split; [done|].
  rewrite E. destruct (cell_Set tx path (IsCRDT <$> v) l s1) as [[[e|] s2]|] eqn:Es;
    [by rewrite !(gbind_eq _ _ _ _ _ Es)| |by rewrite !gbind_panic].
  rewrite !(gbind_eq _ _ _ _ _ Es).
  assert (Hpf : platform (store s2) = platform (store s)).
  { rewrite (platform_ext s1 s2) by (by eapply Set_ext). by apply platform_ext, keeps_ext. }
  unfold this. unfold gbind at 1, gbind at 1, gget, gret at 1. rewrite Hpf, Ht.
  unfold tracks_children in Ht. apply orb_false_iff in Ht as [Ht _]. unfold gbind at 1, gret at 1.
  by rewrite Ht.
Qed.

Lemma ResolveCellForRead_local tx path T do s l c :
  locals s !! path = Some l -> cells s !! l = Some c ->
  ResolveCellForRead tx path T do true s = Ret ((Value c, l, None), s).
Proof.
  intros Hl Hc. unfold ResolveCellForRead, this. unfold gbind at 1, gbind at 1, gget, gret at 1.
  rewrite Hl. unfold gbind. by rewrite (deref_eq l s c Hc).
Qed.
Lemma ReadCell_local tx path T do s l c :
  IsImmediateChildOfSysPath (platform (store s)) path = true ->
  locals s !! path = Some l -> cells s !! l = Some c ->
  ReadCell RlpCodec_Decode tx path T do s = Ret ((Value c, l, None), s).
Proof.
  intros Hi Hl Hc. unfold ReadCell.
  assert (E : ExistsInParent RlpCodec_Decode tx path do s = Ret (true, s))
    by (rewrite ExistsInParent_at, Hi; done).
  rewrite (gbind_eq _ _ _ _ _ E). by apply ResolveCellForRead_local.
Qed.

(** A write of a built-in or native path, up to what setting the cell does. *)
Lemma Write_slot_run tx path v s :
  wf s -> has_spec s (parent_of path) = true \/ tx = SYSTEM -> plain path = true ->
  tracks_children (platform (store s)) (parent_of path) tx = false ->
  IsImmediateChildOfSysPath (platform (store s)) path = true -> TypeID v <> 0%Z ->
  exists l s1, keeps s s1 /\ wf s1 /\ locals s1 !! path = Some l /\
    (cells s1 !! l ≫= Value) = view s path (Some v) /\
    (forall q, q <> path -> locals s1 !! q = locals s !! q) /\
    (locals s !! path = None -> cells s !! l = None) /\
    forall s2 c, cell_Set tx path (Some (IsCRDT v)) l s1 = Ret (None, s2) ->
      cells s2 !! l = Some c -> Value c = Some (IsCRDT v) ->
      Write RlpCodec_Decode tx path (Some v) None s = Ret ((0%Z, None), s2).
Proof.
  intros Hwf Hp Hpl Ht Hi Hid.
  destruct (write_element tx path (Some v) s Hwf Hp Hpl) as (l & s1 & Hk & Hwf1 & Hl & Hv & Ho & Hfr & E).
  exists l, s1. do 6 (split; [done|]). intros s2 c Es Hc Hvc.
  pose proof (Set_ext _ _ _ _ _ _ _ Es) as Hx.
  assert (Hpf : platform (store s2) = platform (store s)).
  { rewrite (platform_ext s1 s2) by done. by apply platform_ext, keeps_ext. }
  assert (Ew : write RlpCodec_Decode tx path (Some v) s = Ret ((l, None), s2)).
  { rewrite E. cbn [fmap option_fmap option_map]. rewrite (gbind_eq _ _ _ _ _ Es).
    unfold this. unfold gbind at 1, gbind at 1, gget, gret at 1. rewrite Hpf, Ht.
    unfold tracks_children in Ht. apply orb_false_iff in Ht as [Ht _].
    unfold gbind at 1, gret at 1. by rewrite Ht. }
  unfold Write. rewrite (proj2 (Z.eqb_neq _ _)) by done.
  rewrite (gbind_eq _ _ _ _ _ Ew). unfold DiffSize. rewrite gbind_assoc.
  assert (Er : ReadCell RlpCodec_Decode tx path (Some v) None s2 = Ret ((Value c, l, None), s2)).
  { apply ReadCell_local; [by rewrite Hpf|by apply (ext_locals _ _ Hx)|done]. }
  rewrite (gbind_eq _ _ _ _ _ Er), Hvc. cbn.
  unfold gbind, gret. do 3 f_equal. rewrite Z.sub_diag. done.
Qed.

(** The size difference that [Write] returns, and fees are computed from,
    is measured after the write: replacing or creating a slot of any size
    reports 0. *)
Theorem Write_size_after_write tx path v s :
  wf s -> Has (parent_of path) s = Ret (true, s) \/ tx = SYSTEM -> plain path = true ->
  tracks_children (platform (store s)) (parent_of path) tx = false ->
  IsImmediateChildOfSysPath (platform (store s)) path = true -> TypeID v <> 0%Z ->
  (forall l s1 c0, locals s1 !! path = Some l -> cells s1 !! l = Some c0 -> exists s2 c,
     cell_Set tx path (Some (IsCRDT v)) l s1 = Ret (None, s2) /\
     cells s2 !! l = Some c /\ Value c = Some (IsCRDT v)) ->
  exists s', Write RlpCodec_Decode tx path (Some v) None s = Ret ((0%Z, None), s').
Proof.
  intros Hwf Hp Hpl Ht Hi Hid Hset.
  destruct (Write_slot_run tx path v s Hwf) as (l & s1 & _ & Hwf1 & Hl & _ & _ & _ & E); try done.
  { destruct Hp as [Hp|Hp]; [left; by apply as_has|by right]. }
  destruct (Hwf1 _ _ Hl) as [c0 Hc0].
  destruct (Hset l s1 c0 Hl Hc0) as (s2 & c & Es & Hc & Hvc). exists s2. by apply (E s2 c).
Qed.

(** The container root of an account: the parent of its elements, a concurrent
    container, and a built-in path. *)
Lemma container_root_parent acct k :
  account_name acct -> child_key k ->
  let parent := account_root acct +:+ PATH_STORAGE_CONTAINER in
  parent_of (account_root acct +:+ (PATH_STORAGE_CONTAINER +:+ k)) = parent /\
  IsContainerPath parent = true /\ IsImmediateChildOfSysPath NewPlatform parent = true.
Proof.
  intros Ha Hk parent.
  assert (Hsl : parent = (account_root acct +:+ "/storage/container") +:+ "/")
    by (unfold parent; by rewrite <- str_app_assoc).
  split; [|split].
  - rewrite str_app_assoc, GetParentPath_child; [done| |done].
    apply HasSuffix_spec. by exists (account_root acct +:+ "/storage/container").
  - unfold IsContainerPath. apply HasSuffix_spec. exists (account_root acct +:+ "/storage").
    unfold parent. by rewrite <- str_app_assoc.
  - unfold IsImmediateChildOfSysPath, parent. rewrite IsSysPath_account by done.
    rewrite bool_decide_true by (vm_compute; eauto). done.
Qed.

(** Directly below the container root of an account the error of the
    parent's key set is lost: once the element itself is set, [write] reports
    success whatever the parent answered. *)
Theorem write_container_root tx acct k v s :
  let path := account_root acct +:+ (PATH_STORAGE_CONTAINER +:+ k) in
  account_name acct -> child_key k -> platform (store s) = NewPlatform -> wf s ->
  Has (parent_of path) s = Ret (true, s) \/ tx = SYSTEM -> plain path = true ->
  exists l s1 c, locals s1 !! path = Some l /\ cells s1 !! l = Some c /\ forall s2,
    cell_Set tx path (IsCRDT <$> v) l s1 = Ret (None, s2) ->
    forall l' e s', write RlpCodec_Decode tx path v s = Ret ((l', e), s') -> e = None.
Proof.
  intros path Ha Hk Hpf Hwf Hp Hpl.
  set (parent := account_root acct +:+ PATH_STORAGE_CONTAINER).
  destruct (container_root_parent acct k Ha Hk) as (Hpar & Hcont & Hsys). fold path parent in Hpar, Hcont, Hsys.
  destruct (write_element tx path v s Hwf) as (l & s1 & Hk1 & Hwf1 & Hl & Hv & _ & _ & E); [|done|].
  { destruct Hp as [Hp|Hp]; [left; by apply as_has|by right]. }
  destruct (Hwf1 _ _ Hl) as [c1 Hc1].
  exists l, s1, c1. split; [done|]. split; [done|]. intros s2 Es l' e s' Ew.
  rewrite E, (gbind_eq _ _ _ _ _ Es), Hpar in Ew. clear E.
  pose proof (Set_ext _ _ _ _ _ _ _ Es) as Hx2.
  assert (Hpf2 : platform (store s2) = NewPlatform)
    by (rewrite (platform_ext s1 s2 Hx2), (platform_ext s s1 (keeps_ext _ _ Hk1)); done).
  unfold tracks_children in Ew. rewrite Hcont in Ew. cbn [orb] in Ew.
  apply gbind_ret in Ew as (st & s2' & Est & Ew).
  assert (s2' = s2) as -> by (unfold this in Est; go_inv; done).
  destruct (ResolveCellForRead_eq tx parent (Some new_Path) (Some addToLocalCache) s2)
    as (pm & s3 & err3 & E3 & Hr3); [by apply (ext_wf _ _ Hx2)|by right|].
  apply gbind_ret in Ew as (e4 & s4 & E4 & Ew).
  rewrite (gbind_eq _ _ _ _ _ E3) in E4.
  apply gbind_ret in E4 as (c4 & s3' & Ed & Es4). apply deref_ret in Ed as [_ ->].
  pose proof (Set_ext _ _ _ _ _ _ _ Es4) as Hx4.
  assert (Hlp : locals s4 !! parent = Some pm).
  { apply (ext_locals _ _ Hx4). by destruct (rs_local _ _ _ _ _ _ Hr3) as [?|[_ ?]]. }
  destruct (rs_value _ _ _ _ _ _ Hr3) as (cp & Hcp & _).
  destruct (ext_cells _ _ Hx4 pm) as [cp4 Hcp4]; [eauto|].
  assert (Hpf4 : platform (store s4) = NewPlatform).
  { rewrite (platform_ext s3 s4 Hx4), (platform_ext s2 s3); [done|].
    apply keeps_ext, (rs_keeps _ _ _ _ _ _ Hr3). }
  assert (Er : ReadCell RlpCodec_Decode tx parent (Some new_Path) None s4
    = Ret ((Value cp4, pm, None), s4))
    by (apply ReadCell_local; [by rewrite Hpf4|done|done]).
  rewrite (gbind_eq _ _ _ _ _ Er) in Ew.
  destruct (Value cp4) as [a|]; [|go_inv; by simplify_eq].
  apply gbind_ret in Ew as (w & s5 & _ & Ew). destruct (is_Path w); [|done].
  apply gbind_ret in Ew as (? & ? & _ & Ew). go_inv. by simplify_eq.
Qed.
End effects.
End store.
