(* ===== verification/ExecStoreOpsTheory.v ===== *)
(** * Theory of the execution state store: every operation, and the cache writer

    [api m] says that [m] is an operation of the store.  Whatever the
    operations and their order, the index never holds a dangling pointer, and
    the queue of wildcard deletions never changes. *)
From S2P Require Import Prelude GoString Interfaces Heap Paths DeltaSequence DeltaSequenceTheory CommitterTheory LiveTheory ExecStore ExecStoreOps ExecStoreTheory.
Import Constants PathTypes Platform.

Section ops.
Context {S crdt cell raw : Type} `{TI : TypeIDs} `{CL : CellLib crdt cell} `{CLW : !CellLaws CL}
  `{CR : CrdtLib crdt raw} `{CE : !CellEffects S raw crdt} `{PoL : PoolLib S} `{PaL : PathLib}
  `{SLL : SliceLaws} `{MLL : MapLaws} `{CB : CellBatchLib S}
  `{HLL : HeapLensLaws S cell} `{SOL : ObjLensLaws S (ExecutionStateStore crdt)}
  `{OI : !ObjIndep HL OL} `{PL : !PoolLaws PoL HL}
  (RlpCodec_Decode : bytes -> crdt -> option (any crdt)) (EL : EffectLaws).
Implicit Types (s : S) (l : loc).
Abbreviation store s := (obj_of s : ExecutionStateStore crdt).
Abbreviation locals s := (localCells (store s)).
Abbreviation cells s := (heap_of s : gmap loc cell).

(** Sorting and filtering a batch of cells only adds to the store. *)
Class BatchLaws : Prop := {
  Sorter_ext : forall ls s r s', Sorter ls s = Ret (r, s') -> ext s s';
  To_Access_ext : forall ls s r s', To_InterThreadAccess ls s = Ret (r, s') -> ext s s';
  To_Transition_ext : forall ls s r s', To_InterThreadTransition ls s = Ret (r, s') -> ext s s';
  Transform_ext : forall A B (f : A -> Go S B) ls s r s',
    (forall x s1 y s2, f x s1 = Ret (y, s2) -> ext s1 s2) ->
    slice_ParallelTransform f ls s = Ret (r, s') -> ext s s';
}.
Context (BL : BatchLaws).

(** ** Operations that only add *)
Definition grows {A} (m : Go S A) : Prop :=
  forall s a s', wf s -> m s = Ret (a, s') -> ext s s'.

Lemma grows_bind {A B} (m : Go S A) (f : A -> Go S B) :
  grows m -> (forall a, grows (f a)) -> grows (gbind m f).
Proof.
  intros Hm Hf s b s' Hwf E. apply gbind_ret in E as (a & s1 & E1 & E2).
  pose proof (Hm _ _ _ Hwf E1) as X1. etrans; [exact X1|].
  eapply Hf; [|exact E2]. by apply (ext_wf _ _ X1).
Qed.
Lemma grows_ret {A} (a : A) : grows (gret a).
Proof. intros s b s' _ [_ <-]%gret_ret. done. Qed.
Lemma grows_panic {A} : grows (@gpanic S A).
Proof. done. Qed.
Lemma grows_some {A} (o : option A) : grows (gsome o).
Proof. intros s b s' _ [_ <-]%gsome_ret. done. Qed.
Lemma grows_this : grows this.
Proof. intros s b s' _ E. unfold this in E. by go_inv. Qed.
Lemma grows_deref l : grows (deref (cell := cell) l).
Proof. intros s b s' _ [_ ->]%deref_ret. done. Qed.
Lemma grows_update f l : grows (update_cell (cell := cell) f l).
Proof. intros s b s' _ (c & _ & ->)%update_cell_ret. apply ext_insert. Qed.
Lemma grows_alloc (c : cell) : grows (alloc c).
Proof. intros s b s' _ [_ ->]%alloc_ret. apply ext_insert. Qed.
Lemma grows_foreach {A} (f : A -> Go S unit) xs : (forall x, grows (f x)) -> grows (gforeach f xs).
Proof.
  intros Hf. induction xs as [|x xs IH]; simpl; [apply grows_ret|].
  by apply grows_bind.
Qed.
Lemma grows_fold {A B} (f : B -> A -> Go S B) b xs :
  (forall b x, grows (f b x)) -> grows (gfold f b xs).
Proof.
  intros Hf. revert b. induction xs as [|x xs IH]; intros b; simpl; [apply grows_ret|].
  apply grows_bind; [apply Hf|done].
Qed.
Lemma grows_map {A B} (f : A -> Go S B) xs : (forall x, grows (f x)) -> grows (gmap_list f xs).
Proof.
  intros Hf. apply grows_fold. intros b x. apply grows_bind; [apply Hf|intros; apply grows_ret].
Qed.
Lemma grows_deref_all ls : grows (deref_all (cell := cell) ls).
Proof. apply grows_map. intros l. apply grows_bind; [apply grows_deref|intros; apply grows_ret]. Qed.
Lemma grows_Set tx p v l : grows (cell_Set tx p v l).
Proof. intros s b s' _. apply Set_ext. Qed.
Lemma grows_Get tx p l : grows (cell_Get tx p l).
Proof. intros s b s' _. apply Get_ext. Qed.
Lemma grows_Do {A} tx p (f : loc -> (Z * Z * Z) * A) l : grows (cell_Do tx p f l).
Proof. intros s b s' _. apply Do_ext. Qed.
Lemma grows_CopyTo l : grows (cell_CopyTo l).
Proof. intros s b s' _. apply CopyTo_ext. Qed.
Lemma grows_as_crdt (v : any crdt) : grows (as_crdt v).
Proof. destruct v; [apply grows_ret|apply grows_panic]. Qed.
Lemma grows_value_size (v : option (any crdt)) : grows (value_size v).
Proof.
  destruct v; [|apply grows_ret]. apply grows_bind; [apply grows_as_crdt|intros; apply grows_ret].
Qed.
Lemma grows_Has path : grows (Has path).
Proof. intros s b s' Hwf E. rewrite Has_eq in E by done. by injection E as _ <-. Qed.
Lemma grows_getFromCommitted tx path T : grows (getFromCommitted tx path T).
Proof.
  intros s b s' _ E. destruct (getFromCommitted_eq tx path T s) as (l & c & _ & E' & _).
  rewrite E' in E. injection E as _ <-. apply ext_insert.
Qed.
Lemma grows_Resolve tx path T do : do_ok do -> grows (ResolveCellForRead tx path T do true).
Proof.
  intros Hdo s b s' Hwf E.
  destruct (ResolveCellForRead_eq tx path T do s Hwf Hdo) as (l & s1 & err & E' & Hr).
  rewrite E' in E. injection E as _ <-. apply keeps_ext, (rs_keeps _ _ _ _ _ _ Hr).
Qed.
Lemma grows_ReadCell tx path T do : do_ok do -> grows (ReadCell RlpCodec_Decode tx path T do).
Proof.
  intros Hdo s b s' Hwf E. pose proof (ReadCell_eq RlpCodec_Decode tx path T do s Hwf Hdo) as Hr.
  destruct (exists_spec RlpCodec_Decode s path) as [[]|].
  - destruct Hr as (l & s1 & err & E' & Hk & _). rewrite E' in E. injection E as _ <-.
    by apply keeps_ext.
  - destruct Hr as (l & s1 & E' & Hk & _). rewrite E' in E. injection E as _ <-. by apply keeps_ext.
  - congruence.
Qed.
Lemma grows_Sorter ls : grows (Sorter ls).
Proof. intros s b s' _. apply Sorter_ext. Qed.
Lemma grows_To_Access ls : grows (To_InterThreadAccess ls).
Proof. intros s b s' _. apply To_Access_ext. Qed.
Lemma grows_To_Transition ls : grows (To_InterThreadTransition ls).
Proof. intros s b s' _. apply To_Transition_ext. Qed.

(** Follow the structure of an operation. *)
Ltac go_grows :=
  repeat first
    [ apply grows_ret | apply grows_panic | apply grows_some | apply grows_this
    | apply grows_deref | apply grows_update | apply grows_alloc | apply grows_deref_all
    | apply grows_Set | apply grows_Get | apply grows_Do | apply grows_CopyTo
    | apply grows_as_crdt | apply grows_value_size | apply grows_Has
    | apply grows_getFromCommitted | apply grows_Sorter | apply grows_To_Access
    | apply grows_To_Transition
    | apply grows_Resolve; first [by left|by right] | apply grows_ReadCell; first [by left|by right]
    | apply grows_bind; [|intros ?] | apply grows_foreach; intros ?
    | apply grows_fold; intros ? ? | apply grows_map; intros ?
    | progress case_match | progress case_decide | done ].

Lemma grows_ReadCommitted tx path T : grows (ReadCommitted tx path T).
Proof. unfold ReadCommitted. go_grows. Qed.
Lemma grows_Read tx path T : grows (Read RlpCodec_Decode tx path T).
Proof. unfold Read. go_grows. Qed.
Lemma grows_DiffSize tx path v : grows (DiffSize RlpCodec_Decode tx path v).
Proof. unfold DiffSize. go_grows. Qed.
Lemma grows_write tx path v : grows (write RlpCodec_Decode tx path v).
Proof. unfold write. go_grows. Qed.
Lemma grows_Write tx path v setter :
  (forall f l z, setter = Some f -> grows (f l z)) -> grows (Write RlpCodec_Decode tx path v setter).
Proof.
  intros Hs. unfold Write. case_match; [apply grows_ret|].
  apply grows_bind; [apply grows_write|intros [l err]].
  apply grows_bind; [apply grows_DiffSize|intros z].
  apply grows_bind; [|intros; apply grows_ret].
  destruct setter as [f|]; [by apply Hs|apply grows_ret].
Qed.
Lemma grows_Inject tx path v : grows (Inject tx path v).
Proof. unfold Inject. go_grows. Qed.
Lemma grows_Insert ls : grows (Insert ls).
Proof. unfold Insert, with_paths. go_grows. Qed.
Lemma grows_set v : grows (set v).
Proof. unfold set. go_grows. Qed.
Lemma grows_Wildcards : grows WildcardsToStateCell.
Proof. unfold WildcardsToStateCell. go_grows. Qed.
Lemma grows_Export procs :
  (forall f ls, Some f ∈ procs -> grows (f ls)) -> grows (Export procs).
Proof.
  intros Hp. unfold Export. apply grows_bind; [apply grows_this|intros st].
  apply grows_bind.
  - generalize (map_Values (localCells st)). induction procs as [|p procs IH]; intros b; simpl.
    + apply grows_ret.
    + apply grows_bind; [|intros; apply IH; intros f ls Hf; apply Hp; by right].
      destruct p as [f|]; [apply Hp; by left|apply grows_ret].
  - intros b. apply grows_bind; [apply grows_deref_all|intros cs].
    apply grows_bind; [apply grows_Wildcards|intros; apply grows_ret].
Qed.
Lemma grows_ExportAll : grows ExportAll.
Proof.
  unfold ExportAll. apply grows_bind; [apply grows_Export; by intros f ls ?%elem_of_nil|intros].
  go_grows.
Qed.
Lemma grows_KVs : grows KVs.
Proof.
  unfold KVs. apply grows_bind.
  { apply grows_Export. intros f ls Hf%list_elem_of_singleton. injection Hf as ->. apply grows_Sorter. }
  intros all. apply grows_bind; [go_grows|intros ts].
  apply grows_bind; [|intros; apply grows_ret].
  intros s a s' Hwf E. eapply Transform_ext; [|exact E].
  intros l s1 y s2 Ey. apply gbind_ret in Ey as (c & ? & [_ ->]%deref_ret & Ey).
  apply gbind_ret in Ey as (x & ? & [_ <-]%gsome_ret & Ey).
  apply gbind_ret in Ey as (v & ? & Ev & Ey). destruct x; [|done].
  apply gret_ret in Ev as [_ <-]. apply gbind_ret in Ey as (k & ? & [_ <-]%gsome_ret & [_ <-]%gret_ret).
  done.
Qed.

(** The operations on containers. *)
Lemma grows_DoReadOnly {A} tx path (f : loc -> (Z * Z * Z) * A) T :
  grows (DoReadOnly RlpCodec_Decode tx path f T).
Proof. unfold DoReadOnly. go_grows. Qed.
Lemma grows_IndexOf tx path key T : grows (IndexOf RlpCodec_Decode tx path key T).
Proof.
  unfold IndexOf. case_match; [go_grows|].
  apply grows_bind; [apply grows_DoReadOnly|intros; go_grows].
Qed.
Lemma grows_KeyAt tx path key T : grows (KeyAt RlpCodec_Decode tx path key T).
Proof.
  unfold KeyAt. case_match; [go_grows|].
  apply grows_bind; [apply grows_DoReadOnly|intros; go_grows].
Qed.
Lemma grows_Peek path T : grows (Peek RlpCodec_Decode path T).
Proof. unfold Peek. go_grows. Qed.
Lemma grows_as_DeltaSet m : grows (as_DeltaSet m).
Proof. unfold as_DeltaSet. go_grows. Qed.
Lemma grows_getKeyByIdx tx path i : grows (getKeyByIdx RlpCodec_Decode tx path i).
Proof.
  unfold getKeyByIdx. case_match; [go_grows|].
  apply grows_bind; [apply grows_Read|intros [[meta l] sz]].
  apply grows_bind; [apply grows_as_DeltaSet|intros ds; go_grows].
Qed.
Lemma grows_Min tx path i : grows (Min RlpCodec_Decode tx path i).
Proof.
  unfold Min. case_match; [go_grows|].
  apply grows_bind; [apply grows_Read|intros [[[r|] l] sz]]; [|go_grows].
  apply grows_bind; [apply grows_as_DeltaSet|intros ds; go_grows].
Qed.
Lemma grows_ReadAt tx path i T : grows (ReadAt RlpCodec_Decode tx path i T).
Proof.
  unfold ReadAt. apply grows_bind; [apply grows_getKeyByIdx|intros [[key sz] err]].
  repeat case_match; try apply grows_ret.
  apply grows_bind; [apply grows_Read|intros [[? ?] ?]; apply grows_ret].
Qed.
Lemma grows_PopBack tx path T : grows (PopBack RlpCodec_Decode tx path T).
Proof.
  unfold PopBack. case_match; [go_grows|].
  apply grows_bind; [apply grows_Read|intros [[meta l] sz]].
  apply grows_bind; [apply grows_as_DeltaSet|intros ds]. case_match; [|go_grows].
  apply grows_bind; [apply grows_Read|intros [[value ?] ?]]. case_match; [|go_grows].
  apply grows_bind; [by apply grows_Write|intros [? ?]; apply grows_ret].
Qed.
Lemma grows_WriteAt tx path i T : grows (WriteAt RlpCodec_Decode tx path i T).
Proof.
  unfold WriteAt. case_match; [go_grows|].
  apply grows_bind; [apply grows_getKeyByIdx|intros [[key sz] err]].
  case_match; [go_grows|]. apply grows_bind; [apply grows_some|intros k].
  apply grows_bind; [by apply grows_Write|intros [? ?]; apply grows_ret].
Qed.

(** ** All operations *)

(** The methods of the store, with the arguments the program passes. *)
Inductive api : forall A : Type, Go S A -> Prop :=
| api_Read tx path T : api _ (Read RlpCodec_Decode tx path T)
| api_ReadCell tx path T do : do_ok do -> api _ (ReadCell RlpCodec_Decode tx path T do)
| api_ReadCommitted tx path T : api _ (ReadCommitted tx path T)
| api_Write tx path v setter :
    (forall f l z, setter = Some f -> grows (f l z)) ->
    api _ (Write RlpCodec_Decode tx path v setter)
| api_Inject tx path v : api _ (Inject tx path v)
| api_Get path : api _ (Get RlpCodec_Decode path)
| api_GetAs path T : api _ (GetAs RlpCodec_Decode path T)
| api_Has path : api _ (Has path)
| api_set v : api _ (set v)
| api_Insert ls : api _ (Insert ls)
| api_Export procs : (forall f ls, Some f ∈ procs -> grows (f ls)) -> api _ (Export procs)
| api_ExportAll : api _ ExportAll
| api_KVs : api _ KVs
| api_IndexOf tx path k T : api _ (IndexOf RlpCodec_Decode tx path k T)
| api_KeyAt tx path k T : api _ (KeyAt RlpCodec_Decode tx path k T)
| api_Peek path T : api _ (Peek RlpCodec_Decode path T)
| api_Min tx path i : api _ (Min RlpCodec_Decode tx path i)
| api_Max tx path i : api _ (Max RlpCodec_Decode tx path i)
| api_ReadAt tx path i T : api _ (ReadAt RlpCodec_Decode tx path i T)
| api_PopBack tx path T : api _ (PopBack RlpCodec_Decode tx path T)
| api_WriteAt tx path i T : api _ (WriteAt RlpCodec_Decode tx path i T)
| api_Clear : api _ Clear
| api_RemoveByAddress a : api _ (RemoveByAddress a)
| api_Precommit b idx : api _ (Writer_Precommit (cell := cell) b idx)
| api_Commit n idx : api _ (Writer_Commit (cell := cell) n idx)
| api_SetCommittedStore b : api _ (SetCommittedStore b)
| api_SetID n : api _ (SetID n)
| api_SetVersion n : api _ (SetVersion n).

(** What every operation keeps. *)
Definition pending s := pendingWildcardDeletes (store s).
Definition keeps_inv {A} (m : Go S A) : Prop :=
  forall s a s', wf s -> m s = Ret (a, s') -> wf s' /\ pending s' = pending s.

Lemma grows_keeps_inv {A} (m : Go S A) : grows m -> keeps_inv m.
Proof.
  intros Hm s a s' Hwf E. pose proof (Hm _ _ _ Hwf E) as X. split; [by apply (ext_wf _ _ X)|].
  pose proof (ext_fields _ _ X) as Hf. unfold fields, pending in *. by injection Hf.
Qed.
Lemma keeps_inv_bind {A B} (m : Go S A) (f : A -> Go S B) :
  keeps_inv m -> (forall a, keeps_inv (f a)) -> keeps_inv (gbind m f).
Proof.
  intros Hm Hf s b s' Hwf E. apply gbind_ret in E as (a & s1 & E1 & E2).
  destruct (Hm _ _ _ Hwf E1) as [Hwf1 Hp1]. destruct (Hf a _ _ _ Hwf1 E2) as [Hwf2 Hp2].
  split; [done|congruence].
Qed.
Lemma keeps_inv_foreach {A} (f : A -> Go S unit) xs :
  (forall x, keeps_inv (f x)) -> keeps_inv (gforeach f xs).
Proof.
  intros Hf. induction xs as [|x xs IH]; simpl; [apply grows_keeps_inv, grows_ret|].
  by apply keeps_inv_bind.
Qed.
Lemma keeps_inv_set_local f :
  (forall s, wf s -> forall p l, f (locals s) !! p = Some l -> is_Some (cells s !! l)) ->
  keeps_inv (set_local f).
Proof.
  intros Hf s u s' Hwf E. unfold set_local, gmodify in E. injection E as _ <-.
  unfold pending, wf. rewrite obj_with_obj, heap_with_obj. split; [|done].
  intros p l Hp. by apply (Hf s Hwf p).
Qed.
Lemma keeps_inv_add l : keeps_inv (addToLocalCache l).
Proof.
  intros s u s' Hwf E. apply gbind_ret in E as (c & s1 & Ed & E).
  apply deref_ret in Ed as [Hc ->]. apply gbind_ret in E as (p & s1 & [_ <-]%gsome_ret & E).
  unfold set_local, gmodify in E. injection E as _ <-.
  unfold pending, wf. rewrite obj_with_obj, heap_with_obj. split; [|done].
  cbn. intros q l' Hq. destruct (decide (p = q)) as [->|Hne].
  - rewrite lookup_insert_eq in Hq. injection Hq as <-. eauto.
  - rewrite lookup_insert_ne in Hq by done. by eapply Hwf.
Qed.
Lemma keeps_inv_Clear : keeps_inv Clear.
Proof.
  intros s u s' Hwf E. apply gbind_ret in E as ([] & s1 & E1 & E).
  destruct (pool_Reset_heap s) as [h Eh]. rewrite Eh in E1. injection E1 as <-.
  unfold set_local, gmodify in E. injection E as _ <-.
  unfold pending, wf. rewrite obj_with_obj, obj_with_heap. split; [|done].
  intros p l Hp. cbn in Hp. by rewrite lookup_empty in Hp.
Qed.

Lemma api_keeps_inv A (m : Go S A) : api A m -> keeps_inv m.
Proof.
  destruct 1; try (apply grows_keeps_inv;
    first [apply grows_Read|by apply grows_ReadCell|apply grows_ReadCommitted|by apply grows_Write
          |apply grows_Inject|apply grows_Has|apply grows_set|apply grows_Insert
          |by apply grows_Export|apply grows_ExportAll|apply grows_KVs|apply grows_IndexOf
          |apply grows_KeyAt|apply grows_Peek|apply grows_Min|apply grows_ReadAt
          |apply grows_PopBack|apply grows_WriteAt]; fail).
  - apply grows_keeps_inv. unfold Get. go_grows.
  - apply grows_keeps_inv. unfold GetAs. go_grows.
  - apply keeps_inv_Clear.
  - unfold RemoveByAddress. apply keeps_inv_bind; [apply grows_keeps_inv, grows_this|intros st].
    apply keeps_inv_foreach. intros kv.
    apply keeps_inv_bind; [apply grows_keeps_inv, grows_some|intros x].
    case_match; [|apply grows_keeps_inv, grows_ret]. apply keeps_inv_set_local.
    intros s Hwf p l [_ Hp]%lookup_delete_Some. by apply (Hwf p).
  - unfold Writer_Precommit, Indexer_Finalize.
    apply keeps_inv_bind; [apply grows_keeps_inv; go_grows|intros i].
    apply keeps_inv_bind; [apply keeps_inv_foreach; intros l; apply keeps_inv_add|].
    intros _. apply grows_keeps_inv, grows_ret.
  - unfold Writer_Commit. apply keeps_inv_bind; [apply keeps_inv_Clear|].
    intros _. apply grows_keeps_inv, grows_ret.
  - intros s u s' Hwf E. unfold SetCommittedStore, gmodify in E. injection E as _ <-.
    unfold pending, wf. by rewrite obj_with_obj, heap_with_obj.
  - intros s u s' Hwf E. unfold SetID, gmodify in E. injection E as _ <-.
    unfold pending, wf. by rewrite obj_with_obj, heap_with_obj.
  - intros s u s' Hwf E. unfold SetVersion, gmodify in E. injection E as _ <-.
    unfold pending, wf. by rewrite obj_with_obj, heap_with_obj.
Qed.

(** A run of the store: any operations in any order. *)
Inductive step s s' : Prop :=
| step_api A (m : Go S A) a : api A m -> m s = Ret (a, s') -> step s s'.

(** C14: from a new store, whatever operations are performed in whatever
    order, every entry of the index points to a live cell, and no wildcard
    deletion is ever pending: nothing in the package records one, so the whole
    wildcard machinery is unreachable. *)
Theorem store_reachable b s s' :
  store s = NewExecutionStateStore b -> rtc step s s' ->
  wf s' /\ pendingWildcardDeletes (store s') = [].
Proof.
  intros Hnew Hrtc. assert (Hwf : wf s) by (intros p l; rewrite Hnew; cbn; by rewrite lookup_empty).
  assert (Hp : pending s = []) by (unfold pending; by rewrite Hnew).
  clear Hnew. fold (pending s'). induction Hrtc as [s|s s1 s2 [A m a Ha E] _ IH]; [done|].
  destruct (api_keeps_inv A m Ha s a s1 Hwf E) as [Hwf1 Hp1]. apply IH; [done|congruence].
Qed.

(** ** The cache writer *)

(** The cell a batch leaves for a path: the last one with that path. *)
Definition last_at (h : gmap loc cell) (ls : list loc) (p : string) : option loc :=
  List.find (fun l => bool_decide (path_at h l = Some p)) (rev ls).

Lemma add_all_eq ls s :
  live (cells s) ls ->
  exists s', gforeach addToLocalCache ls s = Ret (tt, s') /\ cells s' = cells s /\
    fields (store s') = fields (store s) /\
    forall p, locals s' !! p = match last_at (cells s) ls p with
                               | Some l => Some l | None => locals s !! p end.
Proof.
  revert s. induction ls as [|l ls IH]; intros s Hl; cbn [gforeach]; [by exists s|].
  destruct (Hl l) as (c & p & Hc & Hp); [by left|].
  destruct (IH (index_at p l s)) as (s' & E & Hcs & Hf & Hloc).
  { rewrite cells_index. intros x Hx. apply Hl. by right. }
  rewrite cells_index in Hcs, Hloc. exists s'. split; [|split; [done|split]].
  - by rewrite (gbind_eq _ _ _ _ _ (addToLocalCache_eq l c p s Hc Hp)).
  - rewrite Hf. unfold index_at. by rewrite obj_with_obj.
  - intros q. rewrite Hloc, locals_index. unfold last_at. cbn [rev]. rewrite find_app.
    destruct (List.find _ (rev ls)); [done|]. cbn [List.find].
    assert (Hpl : path_at (cells s) l = Some p) by (unfold path_at; by rewrite (cell_at_eq _ _ _ Hc)).
    destruct (decide (p = q)) as [->|Hne].
    + rewrite bool_decide_true by done. apply lookup_insert_eq.
    + rewrite bool_decide_false by congruence. by rewrite lookup_insert_ne.
Qed.

Lemma last_at_with_path h ls p : last_at h (with_path h ls) p = last_at h ls p.
Proof.
  unfold last_at, with_path. rewrite <- List.filter_rev.
  induction (rev ls) as [|l r IH]; [done|]. cbn [List.filter List.find].
  assert (Hn : no_path (cell_at h l) = match path_at h l with None => true | Some _ => false end)
    by done. rewrite Hn.
  destruct (path_at h l) as [q|] eqn:E; cbn [negb List.find].
  - destruct (decide (q = p)) as [->|Hne]; [by rewrite !bool_decide_true by congruence|].
    rewrite !bool_decide_false by congruence. exact IH.
  - rewrite IH. rewrite bool_decide_false; congruence.
Qed.

Lemma add_all_obj ls s s' : gforeach addToLocalCache ls s = Ret (tt, s') -> s' = with_obj (store s') s.
Proof.
  revert s. induction ls as [|l ls IH]; intros s; cbn [gforeach].
  - intros [= <-]. by rewrite with_obj_obj.
  - intros (u & s1 & E1 & E2)%gbind_ret. rewrite (IH _ E2) at 1.
    apply gbind_ret in E1 as (c & s2 & [_ ->]%deref_ret & E1). apply gbind_ret in E1 as (q & s3 & E1 & E3).
    destruct (GetPath c); [|done]. injection E1 as -> ->. rewrite set_local_index in E3. injection E3 as _ <-.
    unfold index_at. by rewrite with_obj_twice.
Qed.
(** What a precommit does to the store, and to nothing else. *)
Lemma Writer_Precommit_eq b idx s : valid (cells s) (buffer idx) ->
  exists st', Writer_Precommit b idx s =
      Ret (MkExecutionCacheIndexer (version idx) (with_path (cells s) (buffer idx)) (filter idx), with_obj st' s) /\
    fields st' = fields (store s) /\
    forall p, localCells st' !! p = match last_at (cells s) (buffer idx) p with
                                   | Some l => Some l | None => locals s !! p end.
Proof.
  intros Hv. set (ls := with_path (cells s) (buffer idx)).
  assert (Hlive : live (cells s) ls).
  { intros l [Hl Hp]%elem_of_filter_b. destruct (Hv l Hl) as [c Hc].
    rewrite (cell_at_eq _ _ _ Hc) in Hp. unfold no_path in Hp.
    destruct (GetPath c) as [p|] eqn:E; [|done]. eauto. }
  destruct (add_all_eq ls s Hlive) as (s' & E & Hcs & Hf & Hloc). pose proof (add_all_obj _ _ _ E) as Es.
  exists (store s'). split; [|split; [done|]].
  - unfold Writer_Precommit, Indexer_Finalize. rewrite gbind_assoc.
    rewrite (gbind_eq _ _ _ _ _ (deref_all_valid (buffer idx) s Hv)).
    rewrite RemoveIf_cells. fold (with_path (cells s) (buffer idx)). fold ls.
    rewrite (gbind_eq _ _ _ _ _ (gret_eq _ _)). cbn [buffer]. rewrite (gbind_eq _ _ _ _ _ E). by rewrite <- Es.
  - intros p. rewrite Hloc. unfold ls. by rewrite last_at_with_path.
Qed.

(** C30: a generation becomes visible: once its transitions are imported and
    precommitted, the store shows for every path the last of them that still
    has that path, and for the other paths what it showed before. *)
Theorem ExecutionCache_generation b ts idx s :
  valid (cells s) ts -> buffer idx = [] -> wf s ->
  exists idx' s', (let! i := Indexer_Import ts idx in Writer_Precommit b i) s = Ret (idx', s') /\
    buffer idx' = with_path (cells s) ts /\ cells s' = cells s /\
    forall p T, view s' p T =
      match last_at (cells s) ts p with
      | Some l => Value (cell_at (cells s) l)
      | None => view s p T
      end.
Proof.
  intros Hv Hb Hwf. set (i := MkExecutionCacheIndexer (version idx) (buffer idx ++ ts) (filter idx)).
  assert (Hi : buffer i = ts) by (cbn; by rewrite Hb).
  destruct (Writer_Precommit_eq b i s) as (st & E & Hf & Hloc); [by rewrite Hi|]. rewrite Hi in E, Hloc.
  eexists _, _. split; [|split; [|split]].
  - unfold Indexer_Import. rewrite (gbind_eq _ _ _ _ _ (gret_eq _ _)). exact E.
  - done.
  - by rewrite heap_with_obj.
  - intros p T. unfold view. rewrite heap_with_obj, obj_with_obj, Hloc.
    destruct (last_at (cells s) ts p) as [l|] eqn:El.
    + unfold last_at in El. apply List.find_some in El as [Hin _].
      rewrite <- in_rev, <- list_elem_of_In in Hin. destruct (Hv l Hin) as [c Hc].
      by rewrite (cell_at_eq _ _ _ Hc), Hc.
    + unfold wildcarded, fetch. rewrite obj_with_obj. unfold fields in Hf. injection Hf as Hf1 Hf2 _ _ _.
      by rewrite Hf1, Hf2.
Qed.

Lemma Writer_Commit_eq n idx s : exists h st,
  pool_Reset s = Ret (tt, with_heap h s) /\
  Writer_Commit n idx s = Ret (NewExecutionCacheWriter (cell := cell) n, with_obj st (with_heap h s)) /\
  localCells st = ∅ /\ fields st = fields (store s).
Proof.
  destruct (pool_Reset_heap s) as [h Eh]. eexists h, _. split; [done|].
  split; [unfold Writer_Commit, Clear; rewrite gbind_assoc, (gbind_eq _ _ _ _ _ Eh); reflexivity|].
  split; [done|]. cbn. by rewrite obj_with_heap.
Qed.

(** Committing the block forgets the execution: the index is empty, the
    writer has no transitions left, and every path shows what the committed
    store has, unless a wildcard deletion is pending, which is not forgotten. *)
Theorem ExecutionCache_Commit n idx s :
  exists s', Writer_Commit n idx s = Ret (NewExecutionCacheWriter (cell := cell) n, s') /\
    locals s' = ∅ /\
    forall p T, view s' p T = if wildcarded s p then None else (fetch s p T).1.
Proof.
  destruct (Writer_Commit_eq n idx s) as (h & st & _ & E & Hl & Hf). eexists. split; [exact E|].
  rewrite obj_with_obj. split; [done|]. intros p T. unfold view, wildcarded, fetch.
  rewrite obj_with_obj, Hl, lookup_empty. unfold fields in Hf. injection Hf as -> -> _ _ _. done.
Qed.

(** ** Export *)
Definition wildcard_cell s (w : Z * string) (l : loc) : Prop :=
  exists c, cells s !! l = Some c /\ GetPath c = Some (w.2 +:+ "*").

Lemma Wildcards_eq s :
  exists ls s', WildcardsToStateCell s = Ret (ls, s') /\ keeps s s' /\ locals s' = locals s /\
    Forall2 (wildcard_cell s') (pending s) ls.
Proof.
  unfold WildcardsToStateCell, this. unfold gbind at 1, gbind at 1, gget, gret at 1.
  fold (pending s). unfold gmap_list.
  enough (Hgen : forall ws0 ws acc s0, keeps s s0 -> locals s0 = locals s ->
    Forall2 (wildcard_cell s0) ws0 acc -> exists ls s',
    gfold (fun acc w => let! b := (let '(tx, path) := (w : Z * string) in
        let! l := alloc (NewStateCell tx (path +:+ "*") 0 1 0 None) in
        update_cell (DebugSetPreexist true) l ;;; gret l) in gret (acc ++ [b])) acc ws s0
      = Ret (ls, s') /\ keeps s s' /\ locals s' = locals s /\
    Forall2 (wildcard_cell s') (ws0 ++ ws) ls).
  { by destruct (Hgen [] (pending s) [] s) as (ls & s' & Hr); [done|done|constructor|exists ls, s']. }
  intros ws0 ws. revert ws0. induction ws as [|[tx w] ws IH]; intros ws0 acc s0 Hk Hloc HF; cbn [gfold].
  { exists acc, s0. by rewrite app_nil_r. }
  destruct (alloc_put (NewStateCell tx (w +:+ "*") 0 1 0 None) s0) as (l & Hl & Ea).
  set (c := DebugSetPreexist true (NewStateCell tx (w +:+ "*") 0 1 0 None)).
  assert (Ec : (let! l := alloc (NewStateCell tx (w +:+ "*") 0 1 0 None) in
    update_cell (DebugSetPreexist true) l ;;; gret l) s0 = Ret (l, put_cell l c s0)).
  { rewrite (gbind_eq _ _ _ _ _ Ea). apply gbind_ret. exists tt, (put_cell l c s0).
    split; [|done]. apply update_cell_ret. eexists. unfold put_cell.
    rewrite heap_with_heap, lookup_insert_eq. split; [done|].
    by rewrite with_heap_twice, insert_insert_eq. }
  rewrite gbind_assoc, (gbind_eq _ _ _ _ _ Ec), (gbind_eq _ _ _ _ _ (gret_eq _ _)).
  pose proof (keeps_put l c s0 Hl) as Hk1.
  destruct (IH (ws0 ++ [(tx, w)]) (acc ++ [l]) (put_cell l c s0)) as (ls & s' & E & Hr).
  - by etrans.
  - unfold put_cell. by rewrite obj_with_heap.
  - apply Forall2_app; [|constructor; [|constructor]].
    + eapply Forall2_impl; [exact HF|]. intros w' l' (c' & Hc' & Hp). exists c'.
      split; [by apply (keeps_cells _ _ Hk1)|done].
    + exists c. unfold put_cell. rewrite heap_with_heap, lookup_insert_eq. split; [done|].
      unfold c. by rewrite DebugSetPreexist_path, New_path.
  - exists ls, s'. split; [exact E|]. by rewrite <- app_assoc in Hr.
Qed.

Lemma map_Values_perm (m : gmap string loc) : Permutation (map_Values m) (map snd (map_to_list m)).
Proof.
  unfold map_Values. pose proof (KVs_length m) as Hl. rewrite <- (KVs_perm m).
  destruct (map_combine (map_KVs m).1 (map_KVs m).2 Hl) as [_ E]. by rewrite E.
Qed.

(** C33: an export consists of the indexed cells that were really accessed
    (pure lookups are left out), each once and in some order, followed by one
    deletion record per pending wildcard; exporting changes nothing. *)
Theorem Export_spec s :
  wf s -> exists ls ws s', Export [] s = Ret (ls ++ ws, s') /\
    Permutation ls (List.filter (fun l => negb (PathLookupOnly (cell_at (cells s) l)))
                      (map snd (map_to_list (locals s)))) /\
    Forall2 (wildcard_cell s') (pending s) ws /\ keeps s s' /\ locals s' = locals s.
Proof.
  intros Hwf. set (buf := map_Values (locals s)).
  assert (Hv : valid (cells s) buf).
  { intros l Hl. unfold buf in Hl. rewrite map_Values_perm in Hl.
    apply list_elem_of_In, in_map_iff in Hl as ([p l'] & <- & Hin).
    apply list_elem_of_In, elem_of_map_to_list in Hin. by apply (Hwf p). }
  destruct (Wildcards_eq s) as (ws & s' & E & Hk & Hloc & HF).
  eexists _, ws, s'. split; [|split; [|split; [exact HF|split; [done|done]]]].
  - unfold Export, this. unfold gbind at 1, gbind at 1, gget, gret at 1. cbn [gfold].
    rewrite (gbind_eq _ _ _ _ _ (gret_eq _ _)). fold buf.
    rewrite (gbind_eq _ _ _ _ _ (deref_all_valid buf s Hv)), RemoveIf_cells.
    by rewrite (gbind_eq _ _ _ _ _ E).
  - unfold buf. generalize (map_Values_perm (locals s)).
    generalize (map_Values (locals s)) (map snd (map_to_list (locals s))).
    intros l1 l2 Hperm. induction Hperm as [|x l1 l2 _ IH|x y l|l1 l2 l3 _ IH1 _ IH2]; cbn [List.filter].
    + done.
    + case_match; [by constructor|done].
    + repeat case_match; try done. constructor.
    + by etrans.
Qed.

(** statecell.Sorter rearranges the batch it is given. *)
Class SorterLaws : Prop := Sorter_perm : forall ls s, valid (cells s) ls ->
  exists ls', Sorter ls s = Ret (ls', s) /\ Permutation ls' ls.
(** The exports of the repository are in the order of the index, or sorted. *)
Definition export_order (procs : list (option (list loc -> Go S (list loc)))) : Prop :=
  procs = [] \/ procs = [Some Sorter].
(** Every cell is under its own path. *)
Definition by_path s : Prop := forall p l, locals s !! p = Some l ->
  exists c, cells s !! l = Some c /\ GetPath c = Some p.

Lemma by_path_values s l : l ∈ map_Values (locals s) <-> exists p, locals s !! p = Some l.
Proof.
  rewrite map_Values_perm. change (map snd (map_to_list (locals s))) with ((map_to_list (locals s)).*2).
  rewrite list_elem_of_fmap. split.
  - intros ([p l'] & -> & Hin%elem_of_map_to_list). by exists p.
  - intros [p Hp]. exists (p, l). split; [done|]. by apply elem_of_map_to_list.
Qed.
Lemma by_path_NoDup s : by_path s -> NoDup (map_Values (locals s)).
Proof.
  intros Hb. rewrite map_Values_perm.
  apply (NoDup_fmap_2_strong snd); [|apply NoDup_map_to_list].
  intros [p l] [q l'] Hp%elem_of_map_to_list Hq%elem_of_map_to_list. cbn. intros ->. f_equal.
  destruct (Hb p l' Hp) as (c & Hc & Ep), (Hb q l' Hq) as (c' & Hc' & Eq). congruence.
Qed.
(** Without pending wildcards an export is the accessed cells, and leaves the
    state as it is. *)
Lemma Export_run `{!SorterLaws} procs s : by_path s -> pending s = [] -> export_order procs ->
  exists ls, Export procs s = Ret (ls, s) /\ NoDup ls /\
    forall l, l ∈ ls <-> (exists p, locals s !! p = Some l) /\ PathLookupOnly (cell_at (cells s) l) = false.
Proof.
  intros Hb Hp Hprocs. pose proof (by_path_NoDup s Hb) as Hnd. pose proof (by_path_values s) as Hin.
  assert (Hbuf : exists buf, gfold (fun buffer proc => match proc with Some f => f buffer | None => gret buffer end)
    (map_Values (locals s)) procs s = Ret (buf, s) /\ Permutation buf (map_Values (locals s))).
  { destruct Hprocs as [-> | ->]; [by eexists|]. cbn [gfold].
    destruct (Sorter_perm (map_Values (locals s)) s) as (buf & E & HP).
    { intros l [p Hl]%Hin. destruct (Hb p l Hl) as (c & Hc & _). by exists c. }
    exists buf. split; [|done]. by rewrite (gbind_eq _ _ _ _ _ E). }
  destruct Hbuf as (buf & E & HP).
  assert (Hv : valid (cells s) buf).
  { intros l Hl. rewrite HP in Hl. apply Hin in Hl as [p Hl]. destruct (Hb p l Hl) as (c & Hc & _). by exists c. }
  assert (Hw : WildcardsToStateCell s = Ret ([], s)).
  { unfold WildcardsToStateCell, this. unfold gbind at 1, gbind at 1, gget, gret at 1.
    unfold pending in Hp. rewrite Hp. done. }
  eexists. split; [|split].
  - unfold Export, this. unfold gbind at 1, gbind at 1, gget, gret at 1.
    rewrite (gbind_eq _ _ _ _ _ E), (gbind_eq _ _ _ _ _ (deref_all_valid buf s Hv)), RemoveIf_cells.
    rewrite (gbind_eq _ _ _ _ _ Hw), app_nil_r. done.
  - apply NoDup_filter_b. by rewrite HP.
  - intros l. rewrite elem_of_filter_b, HP, Hin, negb_true_iff. done.
Qed.

(** ** Containers by position *)

(** Addressing an element by its position in a container that is not
    there panics, instead of returning the error that [Min] and [Max] return
    for it: the type assertion on the key set comes before the nil check. *)
Theorem container_missing_panics tx path idx T s l n s' :
  IsPath path = true -> Read RlpCodec_Decode tx path (Some new_Path) s = Ret ((None, l, n), s') ->
  getKeyByIdx RlpCodec_Decode tx path idx s = Panic /\
  ReadAt RlpCodec_Decode tx path idx T s = Panic /\
  WriteAt RlpCodec_Decode tx path idx T s = Panic /\
  PopBack RlpCodec_Decode tx path (Some new_Path) s = Panic /\
  Min RlpCodec_Decode tx path idx s =
    Ret ((Some "", n, Some "Error: Key not found in the path!!!"), s').
Proof.
  intros Hp E.
  assert (Hg : getKeyByIdx RlpCodec_Decode tx path idx s = Panic)
    by (unfold getKeyByIdx; rewrite Hp; cbn [negb]; by rewrite (gbind_eq _ _ _ _ _ E)).
  split; [done|]. split; [by unfold ReadAt; rewrite gbind_panic|]. split; [|split].
  - unfold WriteAt. rewrite Hp. cbn [negb]. by rewrite gbind_panic.
  - unfold PopBack. rewrite Hp. cbn [negb]. by rewrite (gbind_eq _ _ _ _ _ E).
  - unfold Min. rewrite Hp. cbn [negb]. by rewrite (gbind_eq _ _ _ _ _ E).
Qed.
End ops.
