(* ===== verification/Accounts.v ===== *)
(** * common/utils.go: the built-in paths of an account

    [CreateDefaultPaths] writes the built-in paths that an account does not
    have yet into an execution state store. *)
From S2P Require Import Prelude GoString Interfaces Heap Paths ExecStore.
Import Constants PathTypes Platform.

(** The empty values of the CRDT package. *)
Class DefaultValues (crdt : Type) := {
  NewPath : crdt;                     (* the empty container *)
  NewString_empty : crdt;
  NewUnboundedU256 : crdt;
  NewUnboundedUint64 : crdt;
  new_NInt64 : crdt;
  NewBytes_empty : crdt;
}.

Section accounts.
Context {S crdt cell raw : Type} `{TI : TypeIDs} `{CL : CellLib crdt cell} `{CR : CrdtLib crdt raw}
  `{CE : !CellEffects S raw crdt} `{PoL : PoolLib S} `{PaL : PathLib} `{SL : SliceLib} `{ML : MapLib}
  `{HL : HeapLens S cell} `{OL : ObjLens S (ExecutionStateStore crdt)} `{DV : DefaultValues crdt}
  (RlpCodec_Decode : bytes -> crdt -> option (any crdt)).

(** The switch over the type identifiers; another type leaves the value nil. *)
Definition default_value (typeid : Z) : option crdt :=
  if (typeid =? PATH)%Z then Some NewPath
  else if (typeid =? STRING)%Z then Some NewString_empty
  else if (typeid =? UINT256)%Z then Some NewUnboundedU256
  else if (typeid =? UINT64)%Z then Some NewUnboundedUint64
  else if (typeid =? INT64_NC)%Z then Some new_NInt64
  else if (typeid =? BYTES)%Z then Some NewBytes_empty
  else None.

(** The loop over the paths; it returns at the first error. *)
Fixpoint create_paths (tx : Z) (paths : list (string * Z)) (transitions : list loc)
    : Go S (list loc * option string) :=
  match paths with
  | [] => gret (transitions, None)
  | (path, typeid) :: rest =>
      let v := default_value typeid in
      let! ok := Has path in
      if ok then create_paths tx rest transitions
      else
        let! l := alloc (NewStateCell tx path 0 1 0 v) in
        let! '(_, err) := Write RlpCodec_Decode tx path v None in
        match err with
        | Some e => gret ([], Some e)
        | None => create_paths tx rest (transitions ++ [l])
        end
  end.

Definition CreateDefaultPaths (tx : Z) (acct : string) : Go S (list loc * option string) :=
  let '(paths, typeids) := GetDefault NewPlatform acct in
  create_paths tx (combine paths typeids) [].
End accounts.
