(* ===== verification/AccountsTheory.v ===== *)
(** * Theory of account creation *)
From S2P Require Import Prelude GoString Interfaces Heap Paths PathsTheory ExecStore ExecStoreTheory Accounts.
Import Constants PathTypes Platform.

(** The empty values are of known types. *)
Class DefaultLaws {crdt raw} (CR : CrdtLib crdt raw) (DV : DefaultValues crdt) : Prop := {
  default_typed : Forall (fun v => TypeID v <> 0%Z) [NewPath; NewString_empty; NewUnboundedU256;
    NewUnboundedUint64; new_NInt64; NewBytes_empty];
}.

Section accounts.
Context {S crdt cell raw : Type} `{TI : TypeIDs} `{CL : CellLib crdt cell} `{CLW : !CellLaws CL}
  `{CR : CrdtLib crdt raw} `{CE : !CellEffects S raw crdt} `{PoL : PoolLib S} `{PaL : PathLib}
  `{SLL : SliceLaws} `{MLL : MapLaws}
  `{HLL : HeapLensLaws S cell} `{SOL : ObjLensLaws S (ExecutionStateStore crdt)}
  `{OI : !ObjIndep HL OL} `{PL : !PoolLaws PoL HL} `{DV : DefaultValues crdt}
  `{DL : !DefaultLaws CR DV}
  (RlpCodec_Decode : bytes -> crdt -> option (any crdt)) (EL : EffectLaws).
Implicit Types (s : S) (l : loc).
Abbreviation store s := (obj_of s : ExecutionStateStore crdt).
Abbreviation locals s := (localCells (store s)).
Abbreviation cells s := (heap_of s : gmap loc cell).

(** Setting the cell of an absent path under that path gives it the value and
    touches nothing else. *)
Class FreshSet : Prop := fresh_set : forall tx p v l c s,
  locals s !! p = Some l -> cells s !! l = Some c -> Value c = None ->
  exists c', cell_Set tx p (Some (IsCRDT v)) l s = Ret (None, put_cell l c' s) /\
    Value c' = Some (IsCRDT v).
Context (FS : FreshSet).

Lemma default_value_some t :
  t ∈ [PATH; UINT256; BYTES; UINT64] -> exists v, default_value t = Some v /\ TypeID v <> 0%Z.
Proof.
  intros Ht. pose proof default_typed as Hn. rewrite !Forall_cons in Hn.
  destruct Hn as (H1 & H2 & H3 & H4 & H5 & H6 & _). unfold default_value.
  repeat (case_match; [by eauto|]). exfalso.
  repeat match goal with H : (_ =? _)%Z = false |- _ => apply Z.eqb_neq in H end.
  rewrite !elem_of_cons, elem_of_nil in Ht. naive_solver.
Qed.

(** One built-in path: created, and nothing else changes. *)
Lemma create_slot tx path v s :
  wf s -> platform (store s) = NewPlatform -> has_spec s (GetParentPath path).1 = true ->
  plain path = true -> tracks_children NewPlatform (GetParentPath path).1 tx = false ->
  IsSysPath NewPlatform path = true -> TypeID v <> 0%Z ->
  locals s !! path = None -> view s path (Some v) = None ->
  exists s', Write RlpCodec_Decode tx path (Some v) None s = Ret ((0%Z, None), s') /\
    wf s' /\ fields (store s') = fields (store s) /\
    (forall T, view s' path T = Some (IsCRDT v)) /\ has_spec s' path = true /\
    forall q, q <> path -> locals s' !! q = locals s !! q /\ has_spec s' q = has_spec s q /\
      forall T, view s' q T = view s q T.
Proof.
  intros Hwf Hpf Hp Hpl Ht Hs Hid Hn Hv.
  destruct (Write_slot_run RlpCodec_Decode EL tx path v s Hwf) as
    (l & s1 & Hk & Hwf1 & Hl & Hvw & Ho & Hfr & E); try done; try (by rewrite Hpf).
  { by left. }
  { rewrite Hpf. unfold IsImmediateChildOfSysPath. by rewrite Hs. }
  destruct (Hwf1 _ _ Hl) as [c0 Hc0]. rewrite Hc0, Hv in Hvw. cbn in Hvw.
  destruct (FS tx path v l c0 s1 Hl Hc0 Hvw) as (c & Es & Hvc).
  set (s2 := put_cell l c s1) in *.
  assert (Hc : cells s2 !! l = Some c)
    by (unfold s2, put_cell; by rewrite heap_with_heap, lookup_insert_eq).
  assert (Hst : store s2 = store s1) by (unfold s2, put_cell; by rewrite obj_with_heap).
  assert (Hx : ext s1 s2) by (apply ext_insert).
  assert (Hf : fields (store s2) = fields (store s)).
  { rewrite Hst. apply (ext_fields _ _ (keeps_ext _ _ Hk)). }
  exists s2. split; [by apply (E s2 c)|]. split; [by apply (ext_wf _ _ Hx)|]. split; [done|].
  assert (Hother : forall q, q <> path -> forall l', locals s1 !! q = Some l' ->
    cells s2 !! l' = cells s !! l' /\ is_Some (cells s !! l')).
  { intros q Hq l' Hl'. rewrite (Ho q Hq) in Hl'. destruct (Hwf _ _ Hl') as [c' Hc'].
    assert (l' <> l) by (intros ->; rewrite (Hfr Hn) in Hc'; done).
    unfold s2, put_cell. rewrite heap_with_heap, lookup_insert_ne by done.
    rewrite (keeps_cells _ _ Hk _ _ Hc'), Hc'. by split. }
  split; [intros T; unfold view; by rewrite Hst, Hl, Hc|].
  split; [unfold has_spec; rewrite Hst, Hl, Hc; cbn; rewrite Hvc, bool_decide_true by eauto;
    apply orb_true_r|].
  intros q Hq. rewrite Hst, (Ho q Hq). split; [done|]. unfold fields in Hf.
  injection Hf as Hcs Hw _ _ _. rewrite Hst in Hcs, Hw. split.
  - unfold has_spec. rewrite Hst, Hcs, (Ho q Hq). f_equal.
    destruct (locals s !! q) as [l'|] eqn:El; [|done].
    by rewrite (proj1 (Hother q Hq l' ltac:(by rewrite Ho))).
  - intros T. unfold view, wildcarded, fetch. rewrite Hst, Hcs, Hw, (Ho q Hq).
    destruct (locals s !! q) as [l'|] eqn:El; [|done].
    by rewrite (proj1 (Hother q Hq l' ltac:(by rewrite Ho))).
Qed.

(** ** A list of paths, each after its parent *)
Definition buildable (tx : Z) (e : string * Z) : Prop :=
  plain e.1 = true /\ tracks_children NewPlatform (GetParentPath e.1).1 tx = false /\
  IsSysPath NewPlatform e.1 = true /\ e.2 ∈ [PATH; UINT256; BYTES; UINT64].
Definition absent s (e : string * Z) : Prop :=
  locals s !! e.1 = None /\ has_spec s e.1 = false /\ forall T, view s e.1 T = None.
Fixpoint ordered (known : string -> bool) (es : list (string * Z)) : Prop :=
  match es with
  | [] => True
  | e :: es => known (GetParentPath e.1).1 = true /\
               ordered (fun q => known q || bool_decide (q = e.1)) es
  end.
Lemma ordered_mono known known' es :
  (forall q, known q = true -> known' q = true) -> ordered known es -> ordered known' es.
Proof.
  revert known known'. induction es as [|e es IH]; intros k k' Hk; [done|].
  intros [Hp Ho]. split; [by apply Hk|]. eapply IH; [|exact Ho]. intros q Hq. cbn in *.
  apply orb_true_iff in Hq as [Hq|Hq]; apply orb_true_iff; [left; by apply Hk|by right].
Qed.

Lemma create_paths_eq tx es : forall s acc,
  wf s -> platform (store s) = NewPlatform -> NoDup (map fst es) -> Forall (buildable tx) es ->
  Forall (absent s) es -> ordered (has_spec s) es ->
  exists ls s', create_paths RlpCodec_Decode tx es acc s = Ret ((acc ++ ls, None), s') /\
    length ls = length es /\ wf s' /\ fields (store s') = fields (store s) /\
    (forall e, e ∈ es -> has_spec s' e.1 = true /\
       forall T, view s' e.1 T = IsCRDT <$> default_value e.2) /\
    forall q, q ∉ map fst es -> locals s' !! q = locals s !! q /\ has_spec s' q = has_spec s q /\
      forall T, view s' q T = view s q T.
Proof.
  induction es as [|[p t] es IH]; intros s acc Hwf Hpf Hnd Hb Ha Ho; cbn [create_paths].
  { exists [], s. rewrite app_nil_r. split; [done|]. split; [done|]. split; [done|].
    split; [done|]. split; [by intros e He%elem_of_nil|done]. }
  cbn [map] in Hnd. apply NoDup_cons in Hnd as [Hp Hnd]. rewrite Forall_cons in Hb, Ha.
  destruct Hb as [(Hpl & Ht & Hs & Hty) Hb], Ha as [(Hn & Hh & Hv) Ha], Ho as [Hpar Ho].
  cbn [fst snd] in *. destruct (default_value_some t Hty) as (v & Ed & Hid).
  rewrite (gbind_eq _ _ _ _ _ (Has_eq p s Hwf)), Hh.
  destruct (alloc_put (NewStateCell tx p 0 1 0 (default_value t)) s) as (l & Hl & Ea).
  rewrite (gbind_eq _ _ _ _ _ Ea). set (s0 := put_cell l _ s).
  assert (Hk0 : keeps s s0) by (by apply keeps_put).
  assert (Hst0 : store s0 = store s) by (unfold s0, put_cell; by rewrite obj_with_heap).
  assert (Hwf0 : wf s0) by (by apply (ext_wf _ _ (keeps_ext _ _ Hk0))).
  assert (Hh0 : forall q, has_spec s0 q = has_spec s q)
    by (intros q; apply has_keeps; [done|done|by rewrite Hst0]).
  assert (Hv0 : forall q T, view s0 q T = view s q T)
    by (intros q T; apply keeps_view; [done|done|by rewrite Hst0]).
  destruct (create_slot tx p v s0) as (s1 & E1 & Hwf1 & Hf1 & Hv1 & Hh1 & Ho1);
    [done|by rewrite Hst0|by rewrite Hh0|done|done|done|done|by rewrite Hst0|by rewrite Hv0|].
  rewrite Ed, (gbind_eq _ _ _ _ _ E1).
  destruct (IH s1 (acc ++ [l])) as (ls & s' & E & Hlen & Hwf' & Hf' & Hin & Hout); [done| |done|done| | |].
  - unfold fields in Hf1. injection Hf1 as _ _ Hp1 _ _. by rewrite Hp1, Hst0.
  - apply Forall_forall. intros e He. rewrite Forall_forall in Ha.
    destruct (Ha e He) as (Hne & Hhe & Hve).
    assert (Hq : e.1 <> p).
    { intros <-. apply Hp, list_elem_of_In, in_map_iff. exists e. split; [done|].
      by apply list_elem_of_In. }
    destruct (Ho1 _ Hq) as (H1 & H2 & H3). unfold absent.
    split; [by rewrite H1, Hst0|]. split; [by rewrite H2, Hh0|]. intros T. by rewrite H3, Hv0.
  - eapply ordered_mono; [|exact Ho]. intros q Hq. cbn in Hq.
    destruct (decide (q = p)) as [->|Hne]; [done|]. rewrite (proj1 (proj2 (Ho1 q Hne))), Hh0.
    rewrite bool_decide_false in Hq by done. by rewrite orb_false_r in Hq.
  - exists (l :: ls), s'. rewrite <- app_assoc in E. split; [exact E|]. split; [by cbn; rewrite Hlen|].
    split; [done|]. split; [by rewrite Hf', Hf1, Hst0|]. split.
    + intros e He. apply elem_of_cons in He as [->|He]; [|by apply Hin].
      cbn [fst snd]. destruct (Hout p Hp) as (_ & H1 & H2). split; [by rewrite H1|].
      intros T. by rewrite H2, Hv1, Ed.
    + intros q Hq. cbn [map] in Hq. apply not_elem_of_cons in Hq as [Hne Hq].
      destruct (Hout q Hq) as (H0 & H1 & H2). destruct (Ho1 q Hne) as (H5 & H3 & H4).
      split; [by rewrite H0, H5, Hst0|]. split; [by rewrite H1, H3, Hh0|]. intros T. by rewrite H2, H4, Hv0.
Qed.

(** On an account that has all the paths there is nothing to do. *)
Lemma create_paths_done tx es : forall s acc,
  wf s -> (forall e, e ∈ es -> has_spec s e.1 = true) ->
  create_paths RlpCodec_Decode tx es acc s = Ret ((acc, None), s).
Proof.
  induction es as [|[p t] es IH]; intros s acc Hwf Hh; cbn [create_paths]; [done|].
  pose proof (Hh (p, t) ltac:(by left)) as Hp. cbn in Hp.
  rewrite (gbind_eq _ _ _ _ _ (Has_eq p s Hwf)), Hp.
  apply IH; [done|]. intros e He. apply Hh. by right.
Qed.

(** ** The built-in paths *)
Definition parent_dir (acct sub : string) : string :=
  if String.eqb sub "/" then ETH_ACCOUNT_PREFIX
  else if HasPrefix sub "/storage/" && negb (String.eqb sub "/storage/")
       then account_root acct +:+ "/storage/" else account_root acct +:+ "/".

Lemma str_app_snoc_inj a b x y : len x = len y -> a +:+ x = b +:+ y -> a = b /\ x = y.
Proof.
  intros Hl E. apply str_app_inj_len; [|done].
  apply (f_equal len) in E. rewrite !len_app in E. lia.
Qed.
Lemma GetParentPath_under acct d c :
  child_key c -> (GetParentPath (account_root acct +:+ ((d +:+ "/") +:+ c))).1
    = account_root acct +:+ (d +:+ "/").
Proof.
  intros Hc. rewrite str_app_assoc, GetParentPath_child; [done| |done].
  apply HasSuffix_spec. exists (account_root acct +:+ d). by rewrite str_app_assoc.
Qed.
Lemma GetParentPath_default acct e :
  account_name acct -> e ∈ default_table ->
  (GetParentPath (account_root acct +:+ e.1)).1 = parent_dir acct e.1.
Proof.
  intros Ha He. unfold default_table in He.
  repeat (apply elem_of_cons in He as [->|He]); [..|by apply elem_of_nil in He];
    cbn [fst]; cbn -[account_root GetParentPath String.append].
  - unfold account_root. rewrite <- str_app_assoc. rewrite GetParentPath_child; [done|done|].
    destruct Ha as [Hl Hc]. split; [by destruct acct|].
    replace (len (acct +:+ "/") - 1) with (len acct) by (rewrite len_app; simpl; lia).
    by rewrite str_take_app.
  - by apply (GetParentPath_under acct "" "balance").
  - by apply (GetParentPath_under acct "" "code").
  - by apply (GetParentPath_under acct "" "nonce").
  - by apply (GetParentPath_under acct "" "profiles/").
  - by apply (GetParentPath_under acct "" "storage/").
  - by apply (GetParentPath_under acct "/storage" "container/").
  - by apply (GetParentPath_under acct "/storage" "native/").
Qed.

(** No directory above a built-in path is a concurrent container. *)
Lemma parent_dir_plain acct sub :
  account_name acct -> IsContainerPath (parent_dir acct sub) = false.
Proof.
  intros [Hl Hc]. unfold parent_dir, IsContainerPath. case_match; [done|].
  apply HasSuffix_false. case_match; intros [t E].
  - change "/container/" with ("/c" +:+ "ontainer/") in E. rewrite str_app_assoc in E.
    apply str_app_snoc_inj in E as [_ E]; done.
  - change "/container/" with ("/container" +:+ "/") in E. rewrite str_app_assoc in E.
    apply str_app_snoc_inj in E as [E _]; [|done].
    assert (Hs : HasSuffix acct "/container" = true).
    { rewrite <- (HasSuffix_app ETH_ACCOUNT_PREFIX) by (rewrite Hl; unfold ETH_ACCOUNT_LENGTH; simpl; lia).
      apply HasSuffix_spec. by exists t. }
    apply HasSuffix_spec in Hs as [u ->]. rewrite ContainsByte_app, orb_true_r in Hc. done.
Qed.
Lemma parent_dir_sys acct sub :
  account_name acct -> IsSysPath NewPlatform (parent_dir acct sub) = true.
Proof.
  intros Ha. unfold parent_dir. case_match; [done|].
  case_match; rewrite IsSysPath_account by done; vm_compute; done.
Qed.

Definition at_account (acct : string) (e : string * Z) : string * Z := (account_root acct +:+ e.1, e.2).
Lemma default_buildable tx acct e :
  account_name acct -> e ∈ default_table -> buildable tx (at_account acct e).
Proof.
  intros Ha He. unfold buildable. cbn [fst snd at_account].
  rewrite (GetParentPath_default acct e Ha He). unfold tracks_children.
  rewrite parent_dir_plain, parent_dir_sys by done.
  assert (Hsuf : forall x, (forall t, x <> t +:+ "*") -> (forall t, x <> t +:+ "[:]") -> plain x = true).
  { intros x H1 H2. unfold plain.
    rewrite (proj2 (HasSuffix_false x "*")), (proj2 (HasSuffix_false x "[:]")); naive_solver. }
  assert (Hlast : forall x y c d t, String c "" <> String d "" ->
    x +:+ (y +:+ String c "") <> t +:+ String d "").
  { intros x y c d t Hne E. rewrite str_app_assoc in E. apply str_app_snoc_inj in E as [_ E]; done. }
  assert (Hlast' : forall x y c t, String c "" <> "]" -> x +:+ (y +:+ String c "") <> t +:+ "[:]").
  { intros x y c t Hne E. change "[:]" with ("[:" +:+ "]") in E. rewrite (str_app_assoc t) in E.
    by apply (Hlast x y c "]"%char (t +:+ "[:")) in E. }
  unfold default_table in He.
  repeat (apply elem_of_cons in He as [->|He]); [..|by apply elem_of_nil in He]; cbn [fst snd];
    (split; [apply Hsuf; intros t|split; [done|split; [rewrite IsSysPath_account by done; vm_compute; done|]]]);
    try (rewrite !elem_of_cons; naive_solver).
  all: match goal with
    | |- _ +:+ "/" <> _ => first [by apply (Hlast _ "" "/"%char)|by apply (Hlast' _ "" "/"%char)]
    | |- _ +:+ ?p <> _ =>
        let c := eval cbv in (match String.get (len p - 1) p with Some c => c | None => "x"%char end) in
        let y := eval cbv in (str_take (len p - 1) p) in
        first [by apply (Hlast _ y c)|by apply (Hlast' _ y c)]
    end.
Qed.
Lemma default_ordered acct known :
  account_name acct -> known ETH_ACCOUNT_PREFIX = true ->
  ordered known (map (at_account acct) default_table).
Proof.
  intros Ha Hk.
  assert (Hp : Forall (fun e => (GetParentPath (at_account acct e).1).1 = parent_dir acct e.1)
    default_table) by (apply Forall_forall; intros e He; by apply GetParentPath_default).
  unfold default_table in *. rewrite !Forall_cons in Hp. cbn [map ordered].
  destruct Hp as (-> & -> & -> & -> & -> & -> & -> & -> & _).
  cbn -[account_root String.append]. rewrite Hk.
  repeat split; rewrite ?orb_true_iff, ?bool_decide_eq_true; naive_solver.
Qed.
Lemma NoDup_default acct : NoDup (map fst (map (at_account acct) default_table)).
Proof.
  rewrite map_map. unfold at_account. cbn [fst].
  change (NoDup ((fun p => account_root acct +:+ p) <$>
    ["/"; "/balance"; "/code"; "/nonce"; "/profiles/"; "/storage/"; "/storage/container/"; "/storage/native/"])).
  apply NoDup_fmap_2; [intros x y E; by apply str_app_inj_l in E|].
  apply (bool_decide_unpack _). vm_compute. done.
Qed.

(** All the built-in paths of an account are there, with the empty values of
    their types. *)
Definition account_made s (acct : string) : Prop := forall e, e ∈ default_table ->
  Has (account_root acct +:+ e.1) s = Ret (true, s) /\
  exists v, default_value e.2 = Some v /\ forall T, view s (account_root acct +:+ e.1) T = Some (IsCRDT v).
Definition account_absent s (acct : string) : Prop := forall e, e ∈ default_table -> absent s (at_account acct e).
Definition under_account (acct q : string) : Prop := exists e, e ∈ default_table /\ q = account_root acct +:+ e.1.

Lemma CreateDefaultPaths_eq tx acct s : CreateDefaultPaths RlpCodec_Decode tx acct s =
  create_paths RlpCodec_Decode tx (map (at_account acct) default_table) [] s.
Proof. unfold CreateDefaultPaths. rewrite GetDefault_spec. f_equal. Qed.
Lemma account_made_has s acct e : wf s -> account_made s acct -> e ∈ default_table ->
  has_spec s (account_root acct +:+ e.1) = true.
Proof. intros Hwf Hm He. destruct (Hm e He) as [E _]. rewrite Has_eq in E by done. by injection E. Qed.
Lemma CreateDefaultPaths_done tx acct s : wf s -> account_made s acct ->
  CreateDefaultPaths RlpCodec_Decode tx acct s = Ret (([], None), s).
Proof.
  intros Hwf Hm. rewrite CreateDefaultPaths_eq. apply create_paths_done; [done|].
  intros e (d & -> & Hd)%list_elem_of_fmap. by apply account_made_has.
Qed.
Lemma CreateDefaultPaths_run tx acct s :
  account_name acct -> wf s -> platform (store s) = NewPlatform -> account_absent s acct ->
  exists ls s', CreateDefaultPaths RlpCodec_Decode tx acct s = Ret ((ls, None), s') /\
    length ls = 8 /\ wf s' /\ fields (store s') = fields (store s) /\ account_made s' acct /\
    forall q, ~ under_account acct q -> locals s' !! q = locals s !! q /\ has_spec s' q = has_spec s q /\
      forall T, view s' q T = view s q T.
Proof.
  intros Ha Hwf Hpf Habs. set (es := map (at_account acct) default_table).
  assert (Hin : forall e, e ∈ es -> exists d, e = at_account acct d /\ d ∈ default_table)
    by (intros e He; by apply list_elem_of_fmap in He).
  destruct (create_paths_eq tx es s []) as (ls & s' & E & Hlen & Hwf' & Hf & Hall & Hout);
    [done|done|apply NoDup_default|..].
  { apply Forall_forall. intros e (d & -> & Hd)%Hin. by apply default_buildable. }
  { apply Forall_forall. intros e (d & -> & Hd)%Hin. by apply Habs. }
  { by apply default_ordered. }
  exists ls, s'. rewrite CreateDefaultPaths_eq. split; [exact E|]. split; [by rewrite Hlen|].
  split; [done|]. split; [done|]. split.
  - intros e He. destruct (Hall (at_account acct e)) as [Hh Hv]; [by apply list_elem_of_fmap_2|].
    cbn [at_account fst snd] in *. split; [by rewrite Has_eq, Hh by done|].
    destruct (default_buildable tx acct e Ha He) as (_ & _ & _ & Ht).
    destruct (default_value_some _ Ht) as (v & Ev & _). cbn in Ev. exists v.
    split; [done|]. intros T. by rewrite Hv, Ev.
  - intros q Hq. apply Hout. intros Hqin. unfold es in Hqin. rewrite map_map in Hqin.
    apply list_elem_of_fmap in Hqin as (e & -> & He). apply Hq. by exists e.
Qed.

(** C23: on an account none of whose built-in paths is there,
    [CreateDefaultPaths] creates all eight, every path after its parent and
    each with the empty value of its type, changes what the store shows of no
    other path, and has nothing left to do when it is called again. *)
Theorem CreateDefaultPaths_creates tx acct s :
  account_name acct -> wf s -> platform (store s) = NewPlatform ->
  (forall e, e ∈ default_table -> absent s (at_account acct e)) ->
  exists ls s', CreateDefaultPaths RlpCodec_Decode tx acct s = Ret ((ls, None), s') /\
    length ls = 8 /\ wf s' /\
    (forall e, e ∈ default_table -> Has (account_root acct +:+ e.1) s' = Ret (true, s') /\
       exists v, default_value e.2 = Some v /\
         forall T, view s' (account_root acct +:+ e.1) T = Some (IsCRDT v)) /\
    (forall q, (forall e, e ∈ default_table -> q <> account_root acct +:+ e.1) ->
       forall T, view s' q T = view s q T) /\
    CreateDefaultPaths RlpCodec_Decode tx acct s' = Ret (([], None), s').
Proof.
  intros Ha Hwf Hpf Habs. destruct (CreateDefaultPaths_run tx acct s Ha Hwf Hpf Habs)
    as (ls & s' & E & Hlen & Hwf' & _ & Hm & Hout).
  exists ls, s'. split; [exact E|]. do 2 (split; [done|]). split; [exact Hm|]. split.
  - intros q Hq. apply Hout. intros (e & He & ->). by apply (Hq e).
  - by apply CreateDefaultPaths_done.
Qed.

(** ** Several accounts *)
Lemma under_other a b q : account_name a -> account_name b -> a <> b -> under_account a q -> ~ under_account b q.
Proof.
  intros [Ha _] [Hb _] Hne (e & _ & ->) (e' & _ & E). unfold account_root in E. rewrite <- !str_app_assoc in E.
  apply str_app_inj_l in E. apply str_app_inj_len in E as [E _]; [done|by rewrite Ha, Hb].
Qed.
Lemma account_made_kept s s' a b : account_name a -> account_name b -> a <> b -> wf s -> wf s' ->
  (forall q, ~ under_account b q -> locals s' !! q = locals s !! q /\ has_spec s' q = has_spec s q /\
     forall T, view s' q T = view s q T) ->
  (account_made s a -> account_made s' a) /\ (account_absent s a -> account_absent s' a).
Proof.
  intros Ha Hb Hne Hwf Hwf' Hout.
  assert (Hk : forall e, e ∈ default_table -> ~ under_account b (account_root a +:+ e.1)).
  { intros e He. apply (under_other a); [done|done|done|]. by exists e. }
  split; intros Hs e He; destruct (Hout _ (Hk e He)) as (Hl & Hh & Hv).
  - split; [by rewrite Has_eq, Hh, (account_made_has s) by done|].
    destruct (Hs e He) as (_ & v & Ev & Hvw). exists v. split; [done|]. intros T. by rewrite Hv.
  - destruct (Hs e He) as (Hl' & Hh' & Hv'). unfold absent. cbn [at_account fst] in *.
    split; [by rewrite Hl|]. split; [by rewrite Hh|]. intros T. by rewrite Hv.
Qed.
End accounts.
