(* ===== verification/Codec.v ===== *)
(** * storage/codec: encoding the typed values for the stores

    Two codecs and a selector.  The RLP codec wraps every typed value in a
    small type of its own (uint64_rlp_codec.go and its siblings); the native
    codec appends the type identifier to the value's own encoding; the storage
    codec picks one of them by the path.  go-ethereum's rlp, uint256 and the
    CRDT package are parameters; math/big is modelled here. *)
From S2P Require Import Prelude GoString Interfaces Paths.
Import PathTypes.

(** ** math/big: non-negative integers and their big-endian bytes *)
Fixpoint le_bytes (n : nat) (z : Z) : bytes :=
  match n with
  | O => []
  | S n => if (z =? 0)%Z then [] else (z mod 256)%Z :: le_bytes n (z / 256)
  end.
Definition big_Bytes (z : Z) : bytes := rev (le_bytes (S (Z.to_nat (Z.log2 z))) z).
Definition big_SetBytes (b : bytes) : Z := fold_left (fun a d => a * 256 + d)%Z b 0%Z.

(** ** github.com/ethereum/go-ethereum/rlp, at the types the codecs use it.
    The second summand is an error. *)
Inductive rlp_any := RlpBytes (b : bytes) | RlpList.   (* an element of []any *)
Inductive rlp_item := Str (b : bytes) | Lst (l : list bytes).
Class RlpLib := {
  rlp : rlp_item -> bytes;                          (* the encoding of an item *)
  Encode_uint64 : Z -> bytes + string;
  Encode_big : Z -> bytes + string;                 (* *big.Int *)
  Encode_bytes : bytes -> bytes + string;           (* []byte *)
  Encode_string : string -> bytes + string;
  Encode_bigs : list Z -> bytes + string;           (* []*big.Int *)
  Encode_anys_bytes : list bytes -> bytes + string; (* []any of []byte *)
  Encode_anys_u256 : list Z -> bytes + string;      (* []any of uint256.Int *)
  Encode_struct : Z -> bytes + string;              (* a struct of one unsigned field *)
  Decode_big : bytes -> Z + string;
  Decode_bytes : bytes -> bytes + string;
  Decode_string : bytes -> string + string;
  Decode_bigs : bytes -> list Z + string;
  Decode_anys : bytes -> list rlp_any + string;
  Decode_struct : Z -> bytes -> Z + string;         (* of a field of that width *)
}.

(** ** common-lib/codec, holiman/uint256 *)
Class FixedInt := { Int64_Encode : Z -> bytes; Int64_Decode : bytes -> outcome Z }.
Class Uint256 := {
  u256_ToBig : Z -> Z; u256_SetFromBig : Z -> Z; u256_SetBytes : bytes -> Z; u256_AllOne : Z }.

(** ** The typed values.  The bounded integers have a value and, optionally,
    limits; creating one with impossible limits gives nil. *)
Class Bounded (T : Type) := {
  bValue : T -> Z;
  HasLimits : T -> bool;
  bLimits : T -> Z * Z;
  NewUnbounded : T;
  NewBounded : Z -> Z -> option T;
  bSetValue : Z -> T -> T;
  bSetLimits : Z -> Z -> T -> T;
}.
Class CrdtTypes := {
  Uint64 : Type; #[global] Uint64_ops :: Bounded Uint64;
  U256 : Type; #[global] U256_ops :: Bounded U256;
  Int64 : Type; #[global] Int64_ops :: Bounded Int64;
  Path : Type; Path_Encode : Path -> bytes; Path_Decode : bytes -> Path;
  Bytes : Type; Bytes_Value : Bytes -> bytes; NewBytes : bytes -> Bytes;
}.

(** The cases of the type switches, and what an interface value can hold: a
    typed value, raw bytes, or the wrapper the Bigint codec returns. *)
Inductive crdt `{CrdtTypes} :=
| CUint64 (v : Uint64) | CU256 (v : U256) | CInt64 (v : Int64) | CPath (v : Path)
| NInt64 (v : Z) | NUint64 (v : Z) | NUint32 (v : Z) | NBigint (v : Z) | NBytes (v : Bytes)
| NString (v : string).
Inductive gval `{CrdtTypes} := VCrdt (v : crdt) | VRaw (b : bytes) | VBigintRLP (z : Z).
Inductive Kind := KUint64 | KU256 | KInt64 | KPath | KNInt64 | KNUint64 | KNUint32 | KNBigint
  | KNBytes | KNString.
Definition kind `{CrdtTypes} (v : crdt) : Kind :=
  match v with
  | CUint64 _ => KUint64 | CU256 _ => KU256 | CInt64 _ => KInt64 | CPath _ => KPath
  | NInt64 _ => KNInt64 | NUint64 _ => KNUint64 | NUint32 _ => KNUint32
  | NBigint _ => KNBigint | NBytes _ => KNBytes | NString _ => KNString
  end.
Class CrdtCodec `{CrdtTypes} := {
  CRDT_Encode : crdt -> bytes;
  CRDT_Decode : Kind -> bytes -> crdt;
  kind_id : Kind -> Z;                             (* TypeID() *)
}.

Section codecs.
Context `{TypeIDs} `{CT : CrdtTypes} `{!CrdtCodec} `{RlpLib} `{FixedInt} `{Uint256}.
(** (value, error) *)
Abbreviation Decoded := (outcome (option gval * option string)).
Definition ok (v : crdt) : Decoded := Ret (Some (VCrdt v), None).
Definition failed (e : string) : Decoded := Ret (None, Some e).

(** ** commutative *)
Definition Uint64RLP_Encode (this : Uint64) : bytes + string :=
  if HasLimits this then
    let '(min, max) := bLimits this in Encode_bigs [bValue this; min; max]
  else Encode_uint64 (bValue this).
Definition Uint64RLP_Decode (buffer : bytes) : Decoded :=
  match Decode_bigs buffer with
  | inr _ =>
      match Decode_big buffer with
      | inl value => ok (CUint64 (bSetValue (u64 value) NewUnbounded))
      | inr err => Ret (Some (VCrdt (CUint64 NewUnbounded)), Some err)
      end
  | inl (v :: min :: max :: _) =>
      match NewBounded (u64 min) (u64 max) with
      | Some this => ok (CUint64 (bSetValue (u64 v) this))
      | None => Panic
      end
  | inl _ => Panic
  end.

Definition U256RLP_Encode (this : U256) : bytes + string :=
  if HasLimits this then
    let '(min, max) := bLimits this in Encode_anys_u256 [bValue this; min; max]
  else Encode_big (u256_ToBig (bValue this)).
Definition U256RLP_Decode (buffer : bytes) : Decoded :=
  match Decode_anys buffer with
  | inr _ =>
      match Decode_big buffer with
      | inl v2 =>
          ok (CU256 (bSetLimits 0 u256_AllOne (bSetValue (u256_SetFromBig v2) NewUnbounded)))
      | inr err => Ret (Some (VCrdt (CU256 NewUnbounded)), Some err)
      end
  | inl (RlpBytes v :: RlpBytes min :: RlpBytes max :: _) =>
      ok (CU256 (bSetValue (u256_SetBytes v)
        (bSetLimits (u256_SetBytes min) (u256_SetBytes max) NewUnbounded)))
  | inl _ => Panic
  end.

Definition Int64RLP_Encode (i : Int64) : bytes + string :=
  let v := Int64_Encode (bValue i) in
  if HasLimits i then
    let '(min, max) := bLimits i in Encode_anys_bytes [v; Int64_Encode min; Int64_Encode max]
  else Encode_bytes v.
Definition Int64RLP_Decode (buffer : bytes) : Decoded :=
  if length buffer =? 9 then
    match Decode_bytes buffer with
    | inr err => failed err
    | inl vBuf =>
        match Int64_Decode vBuf with
        | Ret v => ok (CInt64 (bSetValue v NewUnbounded))
        | Panic => Panic
        end
    end
  else
    match Decode_anys buffer with
    | inr err => failed err
    | inl (RlpBytes v :: RlpBytes min :: RlpBytes max :: _) =>
        match Int64_Decode v, Int64_Decode min, Int64_Decode max with
        | Ret v, Ret min, Ret max =>
            match NewBounded min max with
            | Some this => ok (CInt64 (bSetValue v this))
            | None => Panic
            end
        | _, _, _ => Panic
        end
    | inl _ => Panic
    end.

Definition PathRLP_Encode (this : Path) : bytes + string := Encode_bytes (Path_Encode this).
Definition PathRLP_Decode (buffer : bytes) : Decoded :=
  match Decode_bytes buffer with
  | inr err => failed err
  | inl decoded => ok (CPath (Path_Decode decoded))
  end.

(** ** noncommutative *)
Definition BigintRLP_Encode (this : Z) : bytes + string := Encode_big this.
Definition BigintRLP_Decode (buffer : bytes) : Decoded :=
  match Decode_big buffer with
  | inr err => failed err
  | inl z => Ret (Some (VBigintRLP z), None)
  end.

Definition BytesRLP_Encode (this : Bytes) : bytes + string :=
  Encode_big (big_SetBytes (Bytes_Value this)).
Definition BytesRLP_Decode (buffer : bytes) : Decoded :=
  match Decode_bytes buffer with
  | inr err => failed err
  | inl out => ok (NBytes (NewBytes out))
  end.

Definition NInt64RLP_Encode (this : Z) : bytes + string := Encode_big this.
Definition NInt64RLP_Decode (buffer : bytes) : Decoded :=
  match Decode_big buffer with
  | inr err => failed err
  | inl v => ok (NInt64 (i64 v))
  end.

Definition StringRLP_Encode (this : string) : bytes + string := Encode_string this.
Definition StringRLP_Decode (buffer : bytes) : Decoded :=
  match Decode_string buffer with
  | inr err => failed err
  | inl v => ok (NString v)
  end.

Definition Uint32RLP_Encode (this : Z) : bytes + string := Encode_struct this.
Definition Uint32RLP_Decode (buffer : bytes) : Decoded :=
  match Decode_struct 32 buffer with
  | inr err => failed err
  | inl v => ok (NUint32 v)
  end.
Definition Uint64RLP_nc_Encode (this : Z) : bytes + string := Encode_struct this.
Definition Uint64RLP_nc_Decode (buffer : bytes) : Decoded :=
  match Decode_struct 64 buffer with
  | inr err => failed err
  | inl v => ok (NUint64 v)
  end.

(** ** rlp_codec.go *)
Definition RlpCodec_Encode (key : string) (v : option gval) : outcome (bytes + string) :=
  match v with
  | None => Ret (inl [])
  | Some (VCrdt v) =>
      Ret match v with
          | CUint64 v => Uint64RLP_Encode v
          | CU256 v => U256RLP_Encode v
          | CInt64 v => Int64RLP_Encode v
          | CPath v => PathRLP_Encode v
          | NInt64 v => NInt64RLP_Encode v
          | NUint64 v => Uint64RLP_nc_Encode v
          | NUint32 v => Uint32RLP_Encode v
          | NBigint v => BigintRLP_Encode v
          | NBytes v => BytesRLP_Encode v
          | NString v => StringRLP_Encode v
          end
  | Some _ => Panic
  end.
Definition RlpCodec_Decode (key : string) (buffer : bytes) (T : option gval) : Decoded :=
  match T with
  | None => Ret (Some (VRaw buffer), None)
  | Some (VCrdt T) =>
      match T with
      | CUint64 _ => Uint64RLP_Decode buffer
      | CU256 _ => U256RLP_Decode buffer
      | CInt64 _ => Int64RLP_Decode buffer
      | CPath _ => PathRLP_Decode buffer
      | NInt64 _ => NInt64RLP_Decode buffer
      | NUint64 _ => Uint64RLP_nc_Decode buffer
      | NUint32 _ => Uint32RLP_Decode buffer
      | NBigint _ => BigintRLP_Decode buffer
      | NBytes _ => BytesRLP_Decode buffer
      | NString _ => StringRLP_Decode buffer
      end
  | Some _ => Panic
  end.

(** ** arcocodec/codec.go.  [ID] is the field of the receiver, 0 when unset. *)
Definition Codec_Encode (key : string) (value : option gval) : outcome (bytes + string) :=
  match value with
  | None => Ret (inl [])
  | Some (VCrdt v) => Ret (inl (CRDT_Encode v ++ [kind_id (kind v)]))
  | Some _ => Panic
  end.
Definition Codec_Decode (ID : Z) (key : string) (buffer : bytes) : outcome (option gval) :=
  match last buffer with
  | None => Ret None
  | Some lastb =>
      let '(ID, buffer) := if (ID =? 0)%Z then (lastb, removelast buffer) else (ID, buffer) in
      let decode k := Ret (Some (VCrdt (CRDT_Decode k buffer))) in
      if (ID =? STRING)%Z then decode KNString
      else if (ID =? BIGINT)%Z then decode KNBigint
      else if (ID =? BYTES)%Z then decode KNBytes
      else if (ID =? PATH)%Z then decode KPath
      else if (ID =? INT64)%Z then decode KInt64
      else if (ID =? UINT64)%Z then decode KUint64
      else if (ID =? UINT256)%Z then decode KU256
      else if (ID =? INT64_NC)%Z then decode KNInt64
      else Panic
  end.

(** ** storage_codec.go *)
Definition StorageCodec_Encode (key : string) (v : option gval) : outcome (bytes + string) :=
  if ShouldPersistToEth key then RlpCodec_Encode key v else Codec_Encode key v.
Definition StorageCodec_Decode (key : string) (buffer : bytes) (T : option gval) : Decoded :=
  if ShouldPersistToEth key then RlpCodec_Decode key buffer T
  else match Codec_Decode 0 key buffer with
       | Ret v => Ret (v, None)
       | Panic => Panic
       end.
End codecs.
