(* ===== verification/CodecTheory.v ===== *)
(** * Theory of the codecs

    What comes back when a value is encoded and decoded again, with the same
    type: the same value for most types, and where it does not. *)
From S2P Require Import Prelude GoString Interfaces Paths Codec.
Import PathTypes.

(** ** math/big *)
Definition byte_range (b : bytes) : Prop := Forall (fun d => 0 <= d < 256)%Z b.
(** No leading zero. *)
Definition canonical (b : bytes) : Prop := head b <> Some 0%Z.
Fixpoint drop_zeros (b : bytes) : bytes :=
  match b with
  | d :: b' => if (d =? 0)%Z then drop_zeros b' else b
  | [] => []
  end.
Definition le_value (l : bytes) : Z := fold_right (fun d a => d + 256 * a)%Z 0%Z l.

Lemma SetBytes_le b : big_SetBytes b = le_value (rev b).
Proof.
  unfold big_SetBytes, le_value. rewrite fold_left_rev_right.
  revert b. enough (forall b a, fold_left (fun a d => a * 256 + d)%Z b a
    = fold_left (fun a d => d + 256 * a)%Z b a) by auto.
  induction b as [|d b IH]; intros a; cbn; [done|]. rewrite IH. f_equal. lia.
Qed.
Lemma le_value_bytes n z : (0 <= z < 256 ^ Z.of_nat n)%Z -> le_value (le_bytes n z) = z.
Proof.
  revert z. induction n as [|n IH]; intros z Hz; [simpl in *; lia|].
  cbn [le_bytes]. destruct (Z.eqb_spec z 0) as [->|Hn]; [done|]. cbn.
  rewrite Nat2Z.inj_succ, Z.pow_succ_r in Hz by lia.
  fold (le_value (le_bytes n (z / 256))).
  rewrite IH by (split; [apply Z.div_pos; lia|apply Z.div_lt_upper_bound; lia]).
  pose proof (Z.div_mod z 256). lia.
Qed.
Lemma le_bytes_value n l :
  byte_range l -> last l <> Some 0%Z -> (le_value l < 256 ^ Z.of_nat n)%Z ->
  le_bytes n (le_value l) = l.
Proof.
  revert n. induction l as [|d l IH]; intros n Hr Hl Hn; [by destruct n|].
  inversion Hr as [|? ? Hd Hr']; subst.
  assert (Hpos : (0 <= le_value l)%Z).
  { clear -Hr'. induction Hr' as [|e l He _ IH]; cbn; [lia|]. fold (le_value l). lia. }
  assert (Hz : le_value (d :: l) <> 0%Z).
  { cbn. fold (le_value l). destruct l as [|e l]; [cbn in *; intros E; apply Hl; f_equal; lia|].
    intros E. assert (He : le_value (e :: l) = 0%Z) by lia.
    assert (Hl' : last (e :: l) <> Some 0%Z) by done.
    specialize (IH 0 Hr' Hl'). rewrite He in IH. discriminate IH. simpl. lia. }
  assert (Hl' : last l <> Some 0%Z) by (destruct l; [done|exact Hl]).
  destruct n as [|n]; [cbn in *; fold (le_value l) in *; lia|].
  cbn [le_bytes]. rewrite (proj2 (Z.eqb_neq _ _)) by done. cbn. fold (le_value l).
  rewrite Nat2Z.inj_succ, Z.pow_succ_r in Hn by lia. cbn in Hn. fold (le_value l) in Hn.
  rewrite (Z.mul_comm 256), Z_mod_plus_full, Z.mod_small, Z_div_plus_full, Z.div_small by lia.
  f_equal. rewrite Z.add_0_l. apply IH; [done|done|nia].
Qed.
Lemma fuel_enough z : (0 <= z)%Z -> (z < 256 ^ Z.of_nat (S (Z.to_nat (Z.log2 z))))%Z.
Proof.
  intros Hz. rewrite Nat2Z.inj_succ, Z2Nat.id by apply Z.log2_nonneg.
  destruct (Z.eq_dec z 0) as [->|Hn]; [done|].
  eapply Z.lt_le_trans; [apply Z.log2_spec; lia|].
  change 256%Z with (2 ^ 8)%Z. rewrite <- Z.pow_mul_r; [|lia|pose proof (Z.log2_nonneg z); lia].
  apply Z.pow_le_mono_r; [lia|]. pose proof (Z.log2_nonneg z). lia.
Qed.

Lemma SetBytes_Bytes z : (0 <= z)%Z -> big_SetBytes (big_Bytes z) = z.
Proof.
  intros Hz. rewrite SetBytes_le. unfold big_Bytes. rewrite rev_involutive.
  apply le_value_bytes. split; [done|]. by apply fuel_enough.
Qed.
Lemma head_rev {A} (l : list A) : head (rev l) = last l.
Proof.
  induction l as [|x l IH] using rev_ind; [done|]. rewrite rev_unit, last_snoc. done.
Qed.
Lemma le_bytes_last n z : (0 <= z)%Z -> (z < 256 ^ Z.of_nat n)%Z -> last (le_bytes n z) <> Some 0%Z.
Proof.
  revert z. induction n as [|n IH]; intros z H0 Hz; [done|]. cbn [le_bytes].
  destruct (Z.eqb_spec z 0) as [->|Hn]; [done|].
  rewrite Nat2Z.inj_succ, Z.pow_succ_r in Hz by lia.
  assert (IHz := IH (z / 256)%Z ltac:(by apply Z.div_pos) ltac:(apply Z.div_lt_upper_bound; lia)).
  destruct (le_bytes n (z / 256)) as [|e l] eqn:E; [|exact IHz].
  cbn. intros [= Hm]. destruct n as [|n]; [simpl in Hz; rewrite Z.mod_small in Hm; lia|].
  cbn [le_bytes] in E. destruct (Z.eqb_spec (z / 256) 0) as [Hd|]; [|done].
  pose proof (Z.div_mod z 256). lia.
Qed.
Lemma Bytes_canonical z : (0 <= z)%Z -> canonical (big_Bytes z).
Proof.
  intros Hz. unfold canonical, big_Bytes. rewrite head_rev.
  apply le_bytes_last; [done|]. by apply fuel_enough.
Qed.
Lemma drop_zeros_canonical b : canonical (drop_zeros b).
Proof.
  induction b as [|d b IH]; cbn; [done|]. destruct (Z.eqb_spec d 0); [done|].
  unfold canonical. cbn. congruence.
Qed.
Lemma drop_zeros_value b : big_SetBytes (drop_zeros b) = big_SetBytes b.
Proof.
  induction b as [|d b IH]; cbn; [done|]. destruct (Z.eqb_spec d 0) as [->|]; [exact IH|done].
Qed.
Lemma drop_zeros_range b : byte_range b -> byte_range (drop_zeros b).
Proof.
  induction 1 as [|d b Hd Hb IH]; cbn; [constructor|]. case_match; [done|by constructor].
Qed.
Lemma SetBytes_nonneg b : byte_range b -> (0 <= big_SetBytes b)%Z.
Proof.
  intros Hb. rewrite SetBytes_le. apply Forall_rev in Hb. revert Hb. generalize (rev b).
  induction 1 as [|d l Hd Hl IH]; cbn; [lia|]. fold (le_value l). lia.
Qed.
Lemma Bytes_SetBytes b : byte_range b -> big_Bytes (big_SetBytes b) = drop_zeros b.
Proof.
  intros Hb. rewrite <- drop_zeros_value. apply drop_zeros_range in Hb.
  pose proof (drop_zeros_canonical b) as Hc. revert Hb Hc. generalize (drop_zeros b). clear b.
  intros b Hb Hc. pose proof (SetBytes_nonneg b Hb) as Hn. apply fuel_enough in Hn.
  unfold big_Bytes. set (n := S _) in *. rewrite SetBytes_le in *.
  rewrite le_bytes_value; [apply rev_involutive|by apply Forall_rev| |done].
  by rewrite <- head_rev, rev_involutive.
Qed.

(** ** What the packages promise *)

(** rlp: integers are encoded as strings of their big-endian bytes without
    leading zeros, negative ones are refused; a decoder accepts the encoding of
    an item of its kind and refuses the other kind. *)
Class RlpLaws (R : RlpLib) : Prop := {
  E_uint64 : forall n, (0 <= n)%Z -> Encode_uint64 n = inl (rlp (Str (big_Bytes n)));
  E_big : forall z, (0 <= z)%Z -> Encode_big z = inl (rlp (Str (big_Bytes z)));
  E_big_negative : forall z, (z < 0)%Z -> exists e, Encode_big z = inr e;
  E_bytes : forall b, Encode_bytes b = inl (rlp (Str b));
  E_bigs : forall l, Forall (fun z => 0 <= z)%Z l ->
    Encode_bigs l = inl (rlp (Lst (map big_Bytes l)));
  E_anys_bytes : forall l, Encode_anys_bytes l = inl (rlp (Lst l));
  E_anys_u256 : forall l, Forall (fun z => 0 <= z < 2 ^ 256)%Z l ->
    Encode_anys_u256 l = inl (rlp (Lst (map big_Bytes l)));
  D_bytes : forall b, Decode_bytes (rlp (Str b)) = inl b;
  D_big : forall b, canonical b -> Decode_big (rlp (Str b)) = inl (big_SetBytes b);
  D_bigs_str : forall b, exists e, Decode_bigs (rlp (Str b)) = inr e;
  D_bigs : forall l, Forall canonical l -> Decode_bigs (rlp (Lst l)) = inl (map big_SetBytes l);
  D_anys_str : forall b, exists e, Decode_anys (rlp (Str b)) = inr e;
  D_anys : forall l, Decode_anys (rlp (Lst l)) = inl (map RlpBytes l);
  ED_string : forall s, exists b, Encode_string s = inl b /\ Decode_string b = inl s;
  ED_struct : forall w n, (0 <= n < 2 ^ w)%Z ->
    exists b, Encode_struct n = inl b /\ Decode_struct w b = inl n;
  (* one byte of header up to 55 bytes of payload *)
  len_str : forall b, 2 <= length b <= 55 -> length (rlp (Str b)) = S (length b);
  len_lst : forall l, Forall (fun b => 2 <= length b) l -> length l + list_sum (map length l) <= 55 ->
    length (rlp (Lst l)) = S (length l + list_sum (map length l));
}.
Class FixedIntLaws (F : FixedInt) : Prop := {
  Int64_length : forall z, length (Int64_Encode z) = 8;
  Int64_roundtrip : forall z, (- 2 ^ 63 <= z < 2 ^ 63)%Z -> Int64_Decode (Int64_Encode z) = Ret z;
}.
Class Uint256Laws (U : Uint256) : Prop := {
  ToBig_id : forall z, u256_ToBig z = z;
  SetFromBig_small : forall z, (0 <= z < 2 ^ 256)%Z -> u256_SetFromBig z = z;
  u256_SetBytes_Bytes : forall z, (0 <= z < 2 ^ 256)%Z -> u256_SetBytes (big_Bytes z) = z;
  AllOne_max : u256_AllOne = (2 ^ 256 - 1)%Z;
}.
(** A bounded integer keeps a value within its limits and the limits it is given. *)
Class BoundedLaws {T} (B : Bounded T) : Prop := {
  NewBounded_limits : forall min max t, NewBounded min max = Some t -> bLimits t = (min, max);
  SetLimits_limits : forall min max t, bLimits (bSetLimits min max t) = (min, max);
  SetLimits_value : forall min max t, (min <= bValue t <= max)%Z ->
    bValue (bSetLimits min max t) = bValue t;
  SetValue_limits_same : forall v t, bLimits (bSetValue v t) = bLimits t;
  SetValue_same : forall v t, (fst (bLimits t) <= v <= snd (bLimits t))%Z -> bValue (bSetValue v t) = v;
}.

(** The identifiers of the types are different. *)
Class KindLaws `{TI : TypeIDs} `{CC : CrdtCodec} : Prop := {
  kind_ids : map kind_id [KNString; KNBigint; KNBytes; KPath; KInt64; KUint64; KU256; KNInt64] =
    [STRING; BIGINT; BYTES; PATH; INT64; UINT64; UINT256; INT64_NC];
  kind_id_inj : forall k k', kind_id k = kind_id k' -> k = k';
}.

(** An unlimited integer has the limits of its type. *)
Definition in_type {T} `{Bounded T} (lo hi : Z) (t : T) : Prop :=
  (lo <= bValue t <= hi)%Z /\ bLimits (NewUnbounded (T := T)) = (lo, hi) /\
  (HasLimits t = true -> (lo <= fst (bLimits t) <= bValue t)%Z /\ (bValue t <= snd (bLimits t) <= hi)%Z /\
     is_Some (NewBounded (T := T) (fst (bLimits t)) (snd (bLimits t)))).
Definition same_bounded {T} `{Bounded T} (t t' : T) : Prop :=
  bValue t' = bValue t /\ (HasLimits t = true -> bLimits t' = bLimits t).

Section theory.
Context `{TI : TypeIDs} `{CT : CrdtTypes} `{CC : !CrdtCodec} `{RL : RlpLaws} `{FL : FixedIntLaws}
  `{UL : Uint256Laws}
  `{B1 : !BoundedLaws Uint64_ops} `{B2 : !BoundedLaws U256_ops} `{B3 : !BoundedLaws Int64_ops}.

(** Values the RLP codec can encode: integers of their type. *)
Definition encodable (v : crdt) : Prop :=
  match v with
  | CUint64 t => in_type 0 (2 ^ 64 - 1) t
  | CU256 t => in_type 0 (2 ^ 256 - 1) t
  | CInt64 t => in_type (- 2 ^ 63) (2 ^ 63 - 1) t
  | NInt64 z => (0 <= z < 2 ^ 63)%Z
  | NUint64 z => (0 <= z < 2 ^ 64)%Z
  | NUint32 z => (0 <= z < 2 ^ 32)%Z
  | NBigint z => (0 <= z)%Z
  | NBytes b => byte_range (Bytes_Value b)
  | CPath _ | NString _ => True
  end.
(** What is decoded for it. *)
Definition decoded_as (v : crdt) (r : gval) : Prop :=
  match v, r with
  | CUint64 t, VCrdt (CUint64 t') => same_bounded t t'
  | CU256 t, VCrdt (CU256 t') => same_bounded t t'
  | CInt64 t, VCrdt (CInt64 t') => same_bounded t t'
  | CPath p, VCrdt (CPath p') => p' = Path_Decode (Path_Encode p)
  | NBytes b, VCrdt (NBytes b') => b' = NewBytes (drop_zeros (Bytes_Value b))
  | NBigint z, VBigintRLP z' => z' = z
  | (NInt64 _ | NUint64 _ | NUint32 _ | NString _), VCrdt v' => v' = v
  | _, _ => False
  end.

Lemma Uint64_roundtrip t :
  in_type 0 (2 ^ 64 - 1) t -> exists b t', Uint64RLP_Encode t = inl b /\
    Uint64RLP_Decode b = ok (CUint64 t') /\ same_bounded t t'.
Proof.
  intros (Hv & Hu & Hl). unfold Uint64RLP_Encode, Uint64RLP_Decode, same_bounded.
  destruct (HasLimits t) eqn:E.
  - destruct (Hl eq_refl) as (H1 & H2 & [t' Ht']). destruct (bLimits t) as [mn mx] eqn:El. cbn in *.
    rewrite E_bigs by (repeat constructor; lia). eexists _, (bSetValue (bValue t) t').
    split; [done|]. rewrite D_bigs by (repeat constructor; apply Bytes_canonical; lia).
    cbn [map]. rewrite !SetBytes_Bytes by lia. rewrite !u64_small by lia. rewrite Ht'.
    split; [done|]. pose proof (NewBounded_limits _ _ _ Ht') as Hlt. split.
    + apply SetValue_same. rewrite Hlt. cbn. lia.
    + intros _. by rewrite SetValue_limits_same.
  - rewrite E_uint64 by lia. eexists _, (bSetValue (bValue t) NewUnbounded). split; [done|].
    destruct (D_bigs_str (big_Bytes (bValue t))) as [e ->].
    rewrite D_big by (apply Bytes_canonical; lia). rewrite SetBytes_Bytes, u64_small by lia.
    split; [done|]. split; [|done]. apply SetValue_same. by rewrite Hu.
Qed.

Lemma U256_roundtrip t :
  in_type 0 (2 ^ 256 - 1) t -> exists b t', U256RLP_Encode t = inl b /\
    U256RLP_Decode b = ok (CU256 t') /\ same_bounded t t'.
Proof.
  intros (Hv & Hu & Hl). unfold U256RLP_Encode, U256RLP_Decode, same_bounded.
  destruct (HasLimits t) eqn:E.
  - destruct (Hl eq_refl) as (H1 & H2 & _). destruct (bLimits t) as [mn mx] eqn:El. cbn in H1, H2.
    rewrite E_anys_u256 by (repeat constructor; lia).
    eexists _, (bSetValue (bValue t) (bSetLimits mn mx NewUnbounded)).
    split; [done|]. rewrite D_anys. cbn [map]. rewrite !u256_SetBytes_Bytes by lia.
    split; [done|]. split.
    + apply SetValue_same. rewrite SetLimits_limits. cbn. lia.
    + intros _. by rewrite SetValue_limits_same, SetLimits_limits.
  - rewrite ToBig_id, E_big by lia.
    eexists _, (bSetLimits 0 u256_AllOne (bSetValue (bValue t) NewUnbounded)). split; [done|].
    destruct (D_anys_str (big_Bytes (bValue t))) as [e ->].
    rewrite D_big by (apply Bytes_canonical; lia). rewrite SetBytes_Bytes, SetFromBig_small by lia.
    split; [done|]. split; [|done].
    assert (Hs : bValue (bSetValue (bValue t) (NewUnbounded (T := U256))) = bValue t)
      by (apply SetValue_same; by rewrite Hu).
    rewrite SetLimits_value; [done|]. rewrite Hs, AllOne_max. lia.
Qed.

Lemma Int64_roundtrip' t :
  in_type (- 2 ^ 63) (2 ^ 63 - 1) t -> exists b t', Int64RLP_Encode t = inl b /\
    Int64RLP_Decode b = ok (CInt64 t') /\ same_bounded t t'.
Proof.
  intros (Hv & Hu & Hl). unfold Int64RLP_Encode, Int64RLP_Decode, same_bounded.
  destruct (HasLimits t) eqn:E.
  - destruct (Hl eq_refl) as (H1 & H2 & [t' Ht']). destruct (bLimits t) as [mn mx] eqn:El. cbn in *.
    rewrite E_anys_bytes. eexists _, (bSetValue (bValue t) t'). split; [done|].
    rewrite len_lst; [|repeat (apply Forall_cons; split; [rewrite Int64_length; lia|]); by apply Forall_nil
      |cbn; rewrite !Int64_length; lia].
    cbn [map list_sum length]. rewrite !Int64_length. cbn. rewrite D_anys. cbn [map].
    rewrite !Int64_roundtrip, Ht' by lia.
    split; [done|]. pose proof (NewBounded_limits _ _ _ Ht') as Hlt. split.
    + apply SetValue_same. rewrite Hlt. cbn. lia.
    + intros _. by rewrite SetValue_limits_same.
  - rewrite E_bytes. eexists _, (bSetValue (bValue t) NewUnbounded). split; [done|].
    rewrite len_str by (rewrite Int64_length; lia). rewrite Int64_length. cbn.
    rewrite D_bytes, Int64_roundtrip by lia. split; [done|]. split; [|done].
    apply SetValue_same. by rewrite Hu.
Qed.

Lemma RlpCodec_roundtrip_at key v T :
  encodable v -> kind T = kind v ->
  exists b r, RlpCodec_Encode key (Some (VCrdt v)) = Ret (inl b) /\
    RlpCodec_Decode key b (Some (VCrdt T)) = Ret (Some r, None) /\ decoded_as v r.
Proof.
  intros He Hk. destruct v; destruct T; try discriminate Hk; cbn [RlpCodec_Encode RlpCodec_Decode].
  - destruct (Uint64_roundtrip v He) as (b & t' & -> & E & Hs). by eexists b, _.
  - destruct (U256_roundtrip v He) as (b & t' & -> & E & Hs). by eexists b, _.
  - destruct (Int64_roundtrip' v He) as (b & t' & -> & E & Hs). by eexists b, _.
  - unfold PathRLP_Encode, PathRLP_Decode. rewrite E_bytes. eexists _, _. split; [done|].
    by rewrite D_bytes.
  - cbn in He. unfold NInt64RLP_Encode, NInt64RLP_Decode. rewrite E_big by lia.
    eexists _, _. split; [done|]. rewrite D_big by (apply Bytes_canonical; lia).
    by rewrite SetBytes_Bytes, i64_small by lia.
  - unfold Uint64RLP_nc_Encode, Uint64RLP_nc_Decode. destruct (ED_struct 64 v He) as (b & -> & E).
    eexists b, _. split; [done|]. by rewrite E.
  - unfold Uint32RLP_Encode, Uint32RLP_Decode. destruct (ED_struct 32 v He) as (b & -> & E).
    eexists b, _. split; [done|]. by rewrite E.
  - cbn in He. unfold BigintRLP_Encode, BigintRLP_Decode. rewrite E_big by lia.
    eexists _, _. split; [done|]. rewrite D_big by (apply Bytes_canonical; lia).
    by rewrite SetBytes_Bytes by lia.
  - unfold BytesRLP_Encode, BytesRLP_Decode. rewrite E_big by by apply SetBytes_nonneg.
    eexists _, _. split; [done|]. rewrite D_bytes, Bytes_SetBytes by done. done.
  - unfold StringRLP_Encode, StringRLP_Decode. destruct (ED_string v) as (b & -> & E).
    eexists b, _. split; [done|]. by rewrite E.
Qed.

(** C22: decoding an RLP encoding with a value of the same type gives the value
    back: the same integer with the same limits, the same string, the key set
    as its own codec restores it.  Two types do not come back as they were: a
    byte string has lost its leading zeros, and a big integer is returned in
    the codec's wrapper type. *)
Theorem RlpCodec_roundtrip key v T :
  encodable v -> kind T = kind v ->
  exists b r, RlpCodec_Encode key (Some (VCrdt v)) = Ret (inl b) /\
    RlpCodec_Decode key b (Some (VCrdt T)) = Ret (Some r, None) /\ decoded_as v r.
Proof. apply RlpCodec_roundtrip_at. Qed.

(** Byte strings that differ only in leading zeros have the same RLP
    encoding, and [0x00], or any run of zeros, comes back empty: the length the
    comment asks to encode is not encoded. *)
Theorem BytesRLP_collision n b b' :
  byte_range (Bytes_Value b) -> Bytes_Value b' = repeat 0%Z n ++ Bytes_Value b ->
  BytesRLP_Encode b' = BytesRLP_Encode b /\
  exists e, BytesRLP_Encode b' = inl e /\
    BytesRLP_Decode e = ok (NBytes (NewBytes (drop_zeros (Bytes_Value b)))).
Proof.
  intros Hr Hb. unfold BytesRLP_Encode.
  assert (Hd : big_SetBytes (Bytes_Value b') = big_SetBytes (Bytes_Value b)).
  { rewrite Hb. clear. by induction n. }
  rewrite Hd. split; [done|]. rewrite E_big by by apply SetBytes_nonneg. eexists. split; [done|].
  unfold BytesRLP_Decode. by rewrite D_bytes, Bytes_SetBytes.
Qed.

(** The two signed types without limits have no encoding of a negative
    value, and the value decoded for a big integer cannot be encoded again. *)
Theorem RlpCodec_refuses key z T :
  (z < 0)%Z ->
  (exists e, RlpCodec_Encode key (Some (VCrdt (NInt64 z))) = Ret (inr e)) /\
  (exists e, RlpCodec_Encode key (Some (VCrdt (NBigint z))) = Ret (inr e)) /\
  forall n, (0 <= n)%Z -> exists b r,
    RlpCodec_Encode key (Some (VCrdt (NBigint n))) = Ret (inl b) /\
    RlpCodec_Decode key b (Some (VCrdt (NBigint T))) = Ret (Some r, None) /\
    RlpCodec_Encode key (Some r) = Panic.
Proof.
  intros Hz. cbn. unfold NInt64RLP_Encode, BigintRLP_Encode, BigintRLP_Decode.
  destruct (E_big_negative z Hz) as [e ->].
  split; [by exists e|]. split; [by exists e|]. intros n Hn. rewrite E_big by done.
  eexists _, _. split; [done|]. rewrite D_big by by apply Bytes_canonical. done.
Qed.

(** ** The native codec and the selector *)
Context `{KL : !KindLaws}.

(** The types the native codec decodes. *)
Definition native_decodes (k : Kind) : bool :=
  match k with KNUint64 | KNUint32 => false | _ => true end.

Lemma Codec_Decode_kind key b k :
  Codec_Decode 0 key (b ++ [kind_id k]) =
    if native_decodes k then Ret (Some (VCrdt (CRDT_Decode k b))) else Panic.
Proof.
  unfold Codec_Decode. rewrite last_snoc, removelast_last. cbn [Z.eqb].
  pose proof kind_ids as Hids. cbn in Hids. injection Hids as <- <- <- <- <- <- <- <-.
  assert (Heq : forall k k', (kind_id k =? kind_id k')%Z = true <-> k = k').
  { intros k1 k2. rewrite Z.eqb_eq. split; [apply kind_id_inj|by intros ->]. }
  destruct k; cbn [native_decodes];
    repeat match goal with
    | |- context [(kind_id ?a =? kind_id ?a)%Z] => rewrite Z.eqb_refl
    | |- context [(kind_id ?a =? kind_id ?b)%Z] =>
        replace (kind_id a =? kind_id b)%Z with false
          by (symmetry; apply not_true_is_false; intros E; by apply Heq in E)
    end; done.
Qed.

(** The native codec gives every value to the decoder of its own type,
    with the bytes its own encoder made; the unsigned integers without deltas,
    which it does encode, make it panic.  A deletion is the empty encoding and
    comes back as one. *)
Theorem Codec_roundtrip key v :
  (exists b, Codec_Encode key (Some (VCrdt v)) = Ret (inl b) /\
    Codec_Decode 0 key b =
      if native_decodes (kind v) then Ret (Some (VCrdt (CRDT_Decode (kind v) (CRDT_Encode v))))
      else Panic) /\
  Codec_Encode key None = Ret (inl []) /\ Codec_Decode 0 key [] = Ret None.
Proof. split; [|done]. eexists. split; [done|]. apply Codec_Decode_kind. Qed.

(** C21: what the storage codec makes of its own encodings, whatever type is
    expected under a path that is not of the Ethereum state.  Under the paths of
    the Ethereum state a value that has an RLP encoding comes back as it does
    from the RLP codec; under every other path the value's own decoder is given
    the bytes its own encoder made, except for the unsigned integers without
    deltas: those two types are encoded, and decoding them panics. *)
Theorem StorageCodec_roundtrip key v T :
  (ShouldPersistToEth key = true -> encodable v /\ kind T = kind v) ->
  exists b, StorageCodec_Encode key (Some (VCrdt v)) = Ret (inl b) /\
    if ShouldPersistToEth key then
      exists r, StorageCodec_Decode key b (Some (VCrdt T)) = Ret (Some r, None) /\ decoded_as v r
    else StorageCodec_Decode key b (Some (VCrdt T)) =
      match kind v with
      | KNUint32 | KNUint64 => Panic
      | k => Ret (Some (VCrdt (CRDT_Decode k (CRDT_Encode v))), None)
      end.
Proof.
  intros He. unfold StorageCodec_Encode, StorageCodec_Decode. destruct (ShouldPersistToEth key).
  - destruct (He eq_refl) as [Hv Hk]. destruct (RlpCodec_roundtrip_at key v T Hv Hk) as (b & r & E & D & Hr).
    exists b. split; [exact E|]. by exists r.
  - eexists. split; [done|]. rewrite Codec_Decode_kind. by destruct (kind v).
Qed.

(** The dynamic type of a decoded value is that of the value it is asked with;
    the Bigint codec answers with its own wrapper. *)
Definition typed_like (T : crdt) (r : gval) : Prop :=
  match T, r with
  | NBigint _, VBigintRLP _ => True
  | NBigint _, _ => False
  | _, VCrdt v => kind v = kind T
  | _, _ => False
  end.

(** The inputs on which the decoders of the types with limits panic: a list of
    too few or of other elements, limits that [NewBounded] refuses, and bytes
    that the fixed-width codec cannot take. *)
Definition impossible {A} `{!Bounded A} (min max : Z) : bool :=
  match NewBounded (T := A) min max with Some _ => false | None => true end.
Definition unreadable (b : bytes) : bool := match Int64_Decode b with Ret _ => false | Panic => true end.
Definition read_int (b : bytes) : Z := match Int64_Decode b with Ret z => z | Panic => 0 end.
Definition decode_panics (T : crdt) (b : bytes) : bool :=
  match T with
  | CUint64 _ =>
      match Decode_bigs b with
      | inl (_ :: min :: max :: _) => impossible (A := Uint64) (u64 min) (u64 max)
      | inl _ => true
      | inr _ => false
      end
  | CU256 _ =>
      match Decode_anys b with
      | inl (RlpBytes _ :: RlpBytes _ :: RlpBytes _ :: _) | inr _ => false
      | inl _ => true
      end
  | CInt64 _ =>
      if length b =? 9 then match Decode_bytes b with inl v => unreadable v | inr _ => false end
      else match Decode_anys b with
           | inl (RlpBytes v :: RlpBytes min :: RlpBytes max :: _) =>
               unreadable v || unreadable min || unreadable max ||
               impossible (A := Int64) (read_int min) (read_int max)
           | inl _ => true
           | inr _ => false
           end
  | _ => false
  end.
(** Whether the rlp library accepts the bytes, in the form the decoder asks for:
    the first it tries or the one it falls back to. *)
Definition accepts {A} (r : A + string) : bool := match r with inl _ => true | inr _ => false end.
Definition decode_accepts (T : crdt) (b : bytes) : bool :=
  match T with
  | CUint64 _ => accepts (Decode_bigs b) || accepts (Decode_big b)
  | CU256 _ => accepts (Decode_anys b) || accepts (Decode_big b)
  | CInt64 _ => if length b =? 9 then accepts (Decode_bytes b) else accepts (Decode_anys b)
  | CPath _ | NBytes _ => accepts (Decode_bytes b)
  | NInt64 _ | NBigint _ => accepts (Decode_big b)
  | NUint64 _ => accepts (Decode_struct 64 b)
  | NUint32 _ => accepts (Decode_struct 32 b)
  | NString _ => accepts (Decode_string b)
  end.

Ltac decoded_type :=
  unfold impossible, unreadable, read_int, accepts, ok, failed in *;
  repeat case_match; simplify_eq; cbn in *; try done; repeat split; intros; simplify_eq; try done; congruence.

(** C34: what the RLP codec does with any bytes, asked with a value of some type.
    It panics exactly on the inputs of [decode_panics]; on those the rlp library
    accepts otherwise, it returns a value of that type (the wrapper of the
    Bigint codec for a big integer) and no error; on all others it returns an
    error, with no value or one of that type that nothing has been decoded
    into. *)
Theorem RlpCodec_Decode_typed key b T :
  match RlpCodec_Decode key b (Some (VCrdt T)) with
  | Panic => decode_panics T b = true
  | Ret (Some r, None) => decode_panics T b = false /\ decode_accepts T b = true /\ typed_like T r
  | Ret (o, Some _) => decode_panics T b = false /\ decode_accepts T b = false /\
      forall r, o = Some r -> typed_like T r
  | Ret (None, None) => False
  end.
Proof.
  destruct T; cbn [RlpCodec_Decode decode_panics decode_accepts].
  - unfold Uint64RLP_Decode. decoded_type.
  - unfold U256RLP_Decode. decoded_type.
  - unfold Int64RLP_Decode. decoded_type.
  - unfold PathRLP_Decode. decoded_type.
  - unfold NInt64RLP_Decode. decoded_type.
  - unfold Uint64RLP_nc_Decode. decoded_type.
  - unfold Uint32RLP_Decode. decoded_type.
  - unfold BigintRLP_Decode. decoded_type.
  - unfold BytesRLP_Decode. decoded_type.
  - unfold StringRLP_Decode. decoded_type.
Qed.
End theory.
