(* ===== verification/EthLib.v ===== *)
(** * The packages under the Ethereum storage

    go-ethereum's tries, databases and encodings, and the helpers of common-lib
    that storage/ethstorage calls besides those of Interfaces.v.  Each class of
    operations is followed by the class of what the packages document. *)
From S2P Require Import Prelude GoString Interfaces Heap Codec CodecTheory.

(** ** Go's own: [[]byte(s)], comparison of byte slices as strings,
    [errors.Join] *)
Definition go_bytes (s : string) : bytes :=
  map (fun c => Z.of_N (N_of_ascii c)) (list_ascii_of_string s).
Fixpoint bytes_ltb (a b : bytes) : bool :=
  match a, b with
  | _, [] => false
  | [], _ :: _ => true
  | x :: a, y :: b => if (x =? y)%Z then bytes_ltb a b else (x <? y)%Z
  end.
Definition newline : string := String "010"%char "".
Definition errors_Join (e e' : option string) : option string :=
  match e, e' with
  | None, e => e
  | e, None => e
  | Some a, Some b => Some (a +:+ (newline +:+ b))
  end.
Definition errors_Joins (es : list (option string)) : option string :=
  fold_left errors_Join es None.

Lemma errors_Join_None e e' : errors_Join e e' = None <-> e = None /\ e' = None.
Proof. destruct e, e'; naive_solver. Qed.
Lemma errors_Joins_None es : Forall (eq None) es -> errors_Joins es = None.
Proof. unfold errors_Joins. induction 1 as [|e es <- _ IH]; [done|exact IH]. Qed.
(** The result of a function that has no effects but may panic. *)
Definition gof {S A} (o : outcome A) : Go S A :=
  fun s => match o with Ret a => Ret (a, s) | Panic => Panic end.
Lemma gof_ret {S A} (o : outcome A) (a : A) (s s' : S) :
  gof o s = Ret (a, s') <-> o = Ret a /\ s = s'.
Proof. unfold gof. destruct o; naive_solver. Qed.

(** Running one step of a composed effect. *)
Lemma gsome_eq {S A} (o : option A) (a : A) (s : S) : o = Some a -> gsome o s = Ret (a, s).
Proof. by intros ->. Qed.
Lemma gof_eq {S A} (o : outcome A) (a : A) (s : S) : o = Ret a -> gof o s = Ret (a, s).
Proof. by intros ->. Qed.
Lemma gget_eq {S} (s : S) : gget s = Ret (s, s).
Proof. done. Qed.
Lemma gput_eq {S} (s s' : S) : gput s' s = Ret (tt, s').
Proof. done. Qed.
Lemma gmodify_eq {S} (f : S -> S) (s : S) : gmodify f s = Ret (tt, f s).
Proof. done. Qed.
Ltac gstep H := rewrite (gbind_eq _ _ _ _ _ H); cbv beta iota.
Tactic Notation "gby" tactic3(tac) := erewrite gbind_eq by tac; cbv beta iota.
Ltac gsteps :=
  repeat first
    [ rewrite gbind_assoc
    | rewrite (gbind_eq _ _ _ _ _ (gget_eq _)); cbv beta iota
    | rewrite (gbind_eq _ _ _ _ _ (gput_eq _ _)); cbv beta iota
    | rewrite (gbind_eq _ _ _ _ _ (gmodify_eq _ _)); cbv beta iota
    | rewrite (gbind_eq _ _ _ _ _ (gret_eq _ _)); cbv beta iota ].

Lemma gmap_list_Forall2 {S A B} (f : A -> Go S B) s xs ys :
  Forall2 (fun x y => f x s = Ret (y, s)) xs ys -> gmap_list f xs s = Ret (ys, s).
Proof.
  intros H. unfold gmap_list.
  enough (G : forall acc, gfold (fun acc x => let! b := f x in gret (acc ++ [b])) acc xs s
    = Ret (acc ++ ys, s)) by apply G.
  induction H as [|x y xs ys E _ IH]; intros acc; cbn [gfold]; [by rewrite app_nil_r|].
  rewrite gbind_assoc. gstep E. gsteps. rewrite IH. by rewrite <- app_assoc.
Qed.

(** The keys and the values of a map. *)
Lemma combine_fst {A B} (xs : list A) (ys : list B) : length xs = length ys -> map fst (combine xs ys) = xs.
Proof.
  revert ys. induction xs as [|x xs IH]; intros [|y ys] Hl; try done. cbn in *. f_equal. apply IH. lia.
Qed.
Lemma combine_snd {A B} (xs : list A) (ys : list B) : length xs = length ys -> map snd (combine xs ys) = ys.
Proof.
  revert ys. induction xs as [|x xs IH]; intros [|y ys] Hl; try done. cbn in *. f_equal. apply IH. lia.
Qed.
Lemma elem_of_Keys `{ML : MapLib} `{!MapLaws ML} {K A} `{Countable K} (m : gmap K A) k :
  k ∈ map_Keys m <-> is_Some (m !! k).
Proof.
  unfold map_Keys. rewrite <- (combine_fst _ _ (KVs_length m)) at 1.
  rewrite (Permutation_map fst (KVs_perm m)), list_elem_of_fmap. split.
  - intros ([k' v] & -> & Hk). apply elem_of_map_to_list in Hk. by exists v.
  - intros [v Hk]. exists (k, v). split; [done|]. by apply elem_of_map_to_list.
Qed.
Lemma elem_of_Values `{ML : MapLib} `{!MapLaws ML} {K A} `{Countable K} (m : gmap K A) v :
  v ∈ map_Values m <-> exists k, m !! k = Some v.
Proof.
  unfold map_Values. rewrite <- (combine_snd _ _ (KVs_length m)) at 1.
  rewrite (Permutation_map snd (KVs_perm m)), list_elem_of_fmap. split.
  - intros ([k v'] & -> & Hk). apply elem_of_map_to_list in Hk. by exists k.
  - intros [k Hk]. exists (k, v). split; [done|]. by apply elem_of_map_to_list.
Qed.

(** ** exp/slice and exp/map, the helpers used here only *)
Class EthSliceLib := {
  slice_FindFirstIf : forall {A}, list A -> (A -> bool) -> Z * option A;
  slice_RemoveAt : forall {A}, list A -> nat -> list A;
  slice_CopyIf : forall {A}, list A -> (A -> bool) -> list A;
  slice_Min : list Z -> Z * Z;                            (* (index, value) *)
  slice_MaxIf : forall {A}, list A -> (A -> Z) -> Z * option A;
  slice_ParallelForeach : forall {S A}, (nat -> A -> Go S unit) -> list A -> Go S unit;
  idx_Values : forall {K V} `{Countable K}, gmap K V -> list V;
}.
Class EthSliceLaws (ES : EthSliceLib) : Prop := {
  FindFirstIf_none : forall {A} (l : list A) p,
    (forall x, List.In x l -> p x = false) -> slice_FindFirstIf l p = ((-1)%Z, None);
  FindFirstIf_some : forall {A} (l1 l2 : list A) x p,
    (forall y, List.In y l1 -> p y = false) -> p x = true ->
    slice_FindFirstIf (l1 ++ x :: l2) p = (Z.of_nat (length l1), Some x);
  RemoveAt_spec : forall {A} (l1 l2 : list A) x,
    slice_RemoveAt (l1 ++ x :: l2) (length l1) = l1 ++ l2;
  CopyIf_spec : forall {A} (l : list A) p, slice_CopyIf l p = List.filter p l;
  Min_spec : forall l, l <> [] ->
    (slice_Min l).2 ∈ l /\ forall z, z ∈ l -> ((slice_Min l).2 <= z)%Z;
  MaxIf_spec : forall {A} (l : list A) f, l <> [] ->
    exists x, (slice_MaxIf l f).2 = Some x /\ x ∈ l /\ forall y, y ∈ l -> (f y <= f x)%Z;
  (* the elements in some order, for callbacks whose effects do not interfere *)
  ParallelForeach_perm : forall {S A} (f : nat -> A -> Go S unit) l (s : S),
    exists l', Permutation l' (imap pair l) /\
      slice_ParallelForeach f l s = gforeach (fun ix => f ix.1 ix.2) l' s;
  Values_perm : forall {K V} `{Countable K} (m : gmap K V),
    Permutation (idx_Values m) (map snd (map_to_list m));
}.

(** ** crypto, sha3, codec.Bytes32, and the encodings of go-ethereum/common *)
Class CryptoLib := {
  Keccak256 : bytes -> bytes;
  LegacyKeccak256 : bytes -> bytes;   (* NewLegacyKeccak256(), Write, Sum(nil) *)
  Bytes32_Encode : bytes -> bytes;
  Bytes32_Decode : bytes -> bytes;
}.
Class EthCommonLib := {
  BytesToAddress : bytes -> bytes;
  BytesToHash : bytes -> bytes;
  Hash_Big : bytes -> Z;
  hexutil_Decode : string -> bytes * option string;
  hexutil_MustDecode : string -> outcome bytes;
  hexutil_EncodeBig : Z -> string;
}.

Definition ZeroAddress : bytes := replicate 20 0%Z.    (* the zero values *)
Definition EmptyHash : bytes := replicate 32 0%Z.

(** ** core/types *)
Record StateAccount := MkStateAccount {
  Nonce : Z;
  Balance : Z;
  Root : bytes;
  CodeHash : bytes;
}.
Class StateAccountLib := {
  EmptyRootHash : bytes;
  Encode_StateAccount : StateAccount -> bytes * option string;    (* rlp.EncodeToBytes *)
  Decode_StateAccount : bytes -> StateAccount + string;           (* rlp.DecodeBytes *)
}.
Definition state_in_range (a : StateAccount) : Prop :=
  (0 <= Nonce a < 2 ^ 64 /\ 0 <= Balance a < 2 ^ 256)%Z.
Class StateAccountLaws (SA : StateAccountLib) : Prop := {
  StateAccount_roundtrip : forall a, state_in_range a ->
    exists b, Encode_StateAccount a = (b, None) /\ b <> [] /\ Decode_StateAccount b = inl a;
}.

(** rlp: nothing is decoded from an empty input. *)
Class RlpEmpty (R : RlpLib) : Prop := {
  D_big_empty : exists e, Decode_big [] = inr e;
  D_bytes_empty : exists e, Decode_bytes [] = inr e;
  D_string_empty : exists e, Decode_string [] = inr e;
  D_bigs_empty : exists e, Decode_bigs [] = inr e;
  D_anys_empty : exists e, Decode_anys [] = inr e;
  D_struct_empty : forall w, exists e, Decode_struct w [] = inr e;
}.

(** ** The typed values behind [Value()]: which dynamic type it has *)
Class CrdtValues `{CrdtTypes} := {
  Value_uint64 : crdt -> option Z;      (* v.Value().(uint64) *)
  Value_uint256 : crdt -> option Z;     (* v.Value().(uint256.Int) *)
  Value_bytes : crdt -> option bytes;   (* v.Value().(codec.Bytes) *)
}.
Class CrdtValuesLaws `{CrdtTypes} (CV : CrdtValues) : Prop := {
  Value_CUint64 : forall v, Value_uint64 (CUint64 v) = Some (bValue v);
  Value_CU256 : forall v, Value_uint256 (CU256 v) = Some (bValue v);
  Value_NBytes : forall v, Value_bytes (NBytes v) = Some (Bytes_Value v);
}.

(** crdt/statecell: [StateCells(trans).KVs()], the path and the typed value of
    each transition, nil for a deletion. *)
Class KVsLib (S V : Type) := {
  StateCells_KVs : list loc -> Go S (list string * list (option V));
}.
Definition cell_kv {V cell} `{CellLib V cell} (c : cell) : option (string * option V) :=
  match GetPath c, Value c with
  | Some k, None => Some (k, None)
  | Some k, Some (IsCRDT v) => Some (k, Some v)
  | _, _ => None
  end.
Class KVsLaws {S V cell} (KV : KVsLib S V) `{CellLib V cell} `{HeapLens S cell} : Prop := {
  KVs_spec : forall ls kvs s,
    Forall2 (fun l kv => (heap_of s !! l ≫= cell_kv) = Some kv) ls kvs ->
    StateCells_KVs ls s = Ret ((map fst kvs, map snd kvs), s);
}.

(** ** ethdb, memorydb: a key-value database *)
Class DBLib (DB : Type) := {
  db_New : DB;
  db_Get : bytes -> DB -> option bytes * option string;
  db_Put : bytes -> bytes -> DB -> option string * DB;
}.
Class DBLaws {DB} (D : DBLib DB) : Prop := {
  db_Put_Get : forall k v d d' k', v <> [] -> db_Put k v d = (None, d') ->
    db_Get k' d' = if decide (k' = k) then (Some v, None) else db_Get k' d;
}.

(** ** trie and triedb.  A missing key reads as the empty slice.  [DB] is
    referred to by its handle. *)
Class TrieTypes := { trie : Type; triedb : Type; NodeSet : Type; memorydb : Type }.
Class TrieLib `{TrieTypes} := {
  trie_Get : trie -> bytes -> bytes * option string;
  trie_ThreadSafeGet : trie -> bytes -> bytes * option string;
  trie_Hash : trie -> bytes;
  trie_ParallelUpdate : list bytes -> list bytes -> trie -> list (option string) * trie;
  trie_Commit : trie -> bytes * option NodeSet * option string;
  (* Update(root, EmptyRootHash, block, NewWithNodeSet(nodes), nil) *)
  triedb_Update : bytes -> Z -> NodeSet -> triedb -> option string * triedb;
  trie_New : bytes -> triedb -> option trie * option string;
  trie_NewParallel : bytes -> triedb -> option trie * option string;
  trie_NewEmptyParallel : triedb -> trie;
  triedb_NewParallelDatabase : list loc -> triedb;
  triedb_DBs : triedb -> list loc;
  (* the pairs given to the writer, in order *)
  trie_Prove : trie -> bytes -> list (bytes * bytes) * option string;
  trie_VerifyProof : bytes -> bytes -> memorydb -> option bytes * option string;
}.

(** rawdb.NewLevelDBDatabase(dir, 256, 16, "temp", false): the database at a
    directory, with the trie database over sixteen handles of it
    (triedb.NewParallelDatabase), which reads what the directory holds. *)
Class LevelDBLib `{TrieTypes} (DB : Type) := {
  rawdb_NewLevelDBDatabase : string -> (DB * (list loc -> triedb)) + string;
}.

(** What a key holds after a write; writing nothing deletes it. *)
Definition written (v : bytes) : option bytes := match v with [] => None | _ :: _ => Some v end.
Definition trie_put (m : gmap bytes bytes) (kv : bytes * bytes) : gmap bytes bytes :=
  match kv.2 with [] => delete kv.1 m | _ :: _ => <[kv.1 := kv.2]> m end.
Definition trie_puts (ks vs : list bytes) (m : gmap bytes bytes) : gmap bytes bytes :=
  fold_left trie_put (combine ks vs) m.

(** What a trie holds, and whether the nodes it has not loaded are in the
    database. *)
Class TrieSpec `{TrieTypes} := {
  trie_map : trie -> gmap bytes bytes;
  backed : triedb -> trie -> Prop;
}.
(** The database holds the trie with this root. *)
Definition stored `{TrieLib} `{!TrieSpec} (d : triedb) (root : bytes) (m : gmap bytes bytes) : Prop :=
  (exists t, trie_New root d = (Some t, None) /\ backed d t /\ trie_map t = m) /\
  (exists t, trie_NewParallel root d = (Some t, None) /\ backed d t /\ trie_map t = m).
Class TrieLaws `{CryptoLib} `{StateAccountLib} `{TL : TrieLib} `{!DBLib memorydb} (TS : TrieSpec) : Prop := {
  Get_map : forall d t k, backed d t -> trie_Get t k = (default [] (trie_map t !! k), None);
  ThreadSafeGet_map : forall d t k, backed d t ->
    trie_ThreadSafeGet t k = (default [] (trie_map t !! k), None);
  map_nonempty : forall d t k v, backed d t -> trie_map t !! k = Some v -> v <> [];
  Update_map : forall d t ks vs, backed d t -> length ks = length vs -> NoDup ks ->
    exists errs t', trie_ParallelUpdate ks vs t = (errs, t') /\ Forall (eq None) errs /\
      backed d t' /\ trie_map t' = trie_puts ks vs (trie_map t);
  Hash_map : forall t t', trie_map t = trie_map t' -> trie_Hash t = trie_Hash t';
  Hash_empty : forall t, trie_map t = ∅ -> trie_Hash t = EmptyRootHash;
  stored_empty : forall d, stored d EmptyRootHash ∅;
  (* no node set when there is nothing new *)
  Commit_map : forall d t root nodes, backed d t -> trie_Commit t = (root, nodes, None) ->
    root = trie_Hash t /\
    match nodes with
    | None => stored d root (trie_map t)
    | Some n => forall b d', triedb_Update root b n d = (None, d') ->
        stored d' root (trie_map t)
    end;
  Update_keeps : forall root b n d e d', triedb_Update root b n d = (e, d') ->
    (forall t, backed d t -> backed d' t) /\ (forall r m, stored d r m -> stored d' r m);
  NewEmpty_map : forall d, backed d (trie_NewEmptyParallel d) /\ trie_map (trie_NewEmptyParallel d) = ∅;
  (* the proof of an empty trie holds no node and is not accepted *)
  Prove_verifies : forall d t k, backed d t -> trie_map t <> ∅ ->
    exists puts, trie_Prove t k = (puts, None) /\
      Forall (fun hn => hn.1 = Keccak256 hn.2) puts /\
      (forall h n n', (h, n) ∈ puts -> (h, n') ∈ puts -> n = n') /\
      forall db, (forall h n, (h, n) ∈ puts -> db_Get h db = (Some n, None)) ->
        trie_VerifyProof (trie_Hash t) k db = (trie_map t !! k, None);
}.
