(* ===== verification/EthAccount.v ===== *)
(** * storage/ethstorage: accounts and the databases under them

    eth_account.go and ethtrie_storage_backend.go, with
    the state the package keeps.  Accounts are shared objects: the index of a
    generation, the buffer of a block and the account cache hold pointers to
    them.  There is one trie database ([mainTrieDB]), used by every component,
    and the disk databases are referred to by their handles. *)
From S2P Require Import Prelude GoString Interfaces Heap Paths Codec EthLib.
Import Constants PathTypes.

(** ** The state *)
(** ethtrie_storage_backend.go.  The main trie database is [es_triedb]; the
    struct never changes once it is made. *)
Record EthShardTrieDB := MkEthShardTrieDB { diskShardDBs : list loc }.

Section state.
Context `{TT : TrieTypes}.

Record Account := MkAccount {
  addr : bytes;
  state : StateAccount;
  code : option bytes;
  storageTrie : option trie;
  backend : option EthShardTrieDB;
  acct_err : option string;
  trieDirty : bool;
}.

(** eth_world_state.go.  The locks are left out: each method is one step. *)
Record EthWorldState := MkEthWorldState {
  worldStateTrie : option trie;
  accountCache : gmap bytes loc;
  accountCacheEnabled : bool;
  trieDB : EthShardTrieDB;
  dbErr : option string;
  blockRoots : gmap Z bytes;
}.

Record EthState {DB : Type} := MkEthState {
  es_accounts : gmap loc Account;
  es_triedb : triedb;
  es_dbs : gmap loc DB;
  es_world : EthWorldState;
}.
End state.
Arguments EthState {TT} DB.

#[export] Instance eth_accounts `{TrieTypes} {DB} : HeapLens (EthState DB) Account := {|
  heap_of := es_accounts;
  with_heap h s := MkEthState _ h (es_triedb s) (es_dbs s) (es_world s) |}.
#[export] Instance eth_accounts_laws `{TrieTypes} {DB} : HeapLensLaws (eth_accounts (DB := DB)).
Proof. constructor; by intros; destruct s. Qed.

Section account.
Context `{CT : CrdtTypes} `{TT : TrieTypes} `{RL : !RlpLib} `{FI : FixedInt} `{UI : Uint256}
  `{CV : !CrdtValues} `{SL : SliceLib} `{ES : EthSliceLib} `{CrL : CryptoLib} `{EC : EthCommonLib}
  `{SA : StateAccountLib} `{TL : !TrieLib} {DB : Type} `{DL : !DBLib DB}.
Abbreviation Eth := (Go (EthState DB)).

Definition set_state (f : StateAccount -> StateAccount) (a : Account) : Account :=
  MkAccount (addr a) (f (state a)) (code a) (storageTrie a) (backend a) (acct_err a) (trieDirty a).
Definition set_code (c : option bytes) (a : Account) : Account :=
  MkAccount (addr a) (state a) c (storageTrie a) (backend a) (acct_err a) (trieDirty a).
Definition set_trie (t : option trie) (a : Account) : Account :=
  MkAccount (addr a) (state a) (code a) t (backend a) (acct_err a) (trieDirty a).
Definition set_err (e : option string) (a : Account) : Account :=
  MkAccount (addr a) (state a) (code a) (storageTrie a) (backend a) e (trieDirty a).
Definition set_dirty (d : bool) (a : Account) : Account :=
  MkAccount (addr a) (state a) (code a) (storageTrie a) (backend a) (acct_err a) d.
Definition set_Nonce (n : Z) (a : StateAccount) : StateAccount :=
  MkStateAccount n (Balance a) (Root a) (CodeHash a).
Definition set_Balance (b : Z) (a : StateAccount) : StateAccount :=
  MkStateAccount (Nonce a) b (Root a) (CodeHash a).
Definition set_Root (r : bytes) (a : StateAccount) : StateAccount :=
  MkStateAccount (Nonce a) (Balance a) r (CodeHash a).
Definition set_CodeHash (h : bytes) (a : StateAccount) : StateAccount :=
  MkStateAccount (Nonce a) (Balance a) (Root a) h.

Definition with_triedb (d : triedb) (s : EthState DB) : EthState DB :=
  MkEthState _ (es_accounts s) d (es_dbs s) (es_world s).
Definition with_dbs (d : gmap loc DB) (s : EthState DB) : EthState DB :=
  MkEthState _ (es_accounts s) (es_triedb s) d (es_world s).
Definition with_world (w : EthWorldState) (s : EthState DB) : EthState DB :=
  MkEthState _ (es_accounts s) (es_triedb s) (es_dbs s) w.

(** The methods of a database, through its handle. *)
Definition DB_Get (h : loc) (k : bytes) : Eth (option bytes * option string) :=
  let! s := gget in let! d := gsome (es_dbs s !! h) in gret (db_Get k d).
Definition DB_Put (h : loc) (k v : bytes) : Eth (option string) :=
  let! s := gget in
  let! d := gsome (es_dbs s !! h) in
  let '(e, d) := db_Put k v d in
  gput (with_dbs (<[h := d]> (es_dbs s)) s) ;;; gret e.

(** ** eth_account_storage.go: a record that has only its constructor *)
Record AccountStorage := MkAccountStorage {
  as_storageTrie : option trie;
  as_ethdb : triedb;
  as_diskdbShards : list loc;
  as_err : option string;
}.
Definition NewAccountStorage (ethdb : triedb) (diskdbShards : list loc) (storageTrie : option trie)
    : AccountStorage :=
  MkAccountStorage storageTrie ethdb diskdbShards None.

(** ** ethtrie_storage_backend.go *)

(** The memory database is made once and put in all sixteen places. *)
Definition NewEthShardTrieMemDB : EthShardTrieDB * gmap loc DB * triedb :=
  let diskdbs := replicate 16 0 in
  (MkEthShardTrieDB diskdbs, {[ 0 := db_New ]}, triedb_NewParallelDatabase diskdbs).

(** The database at a directory, in all sixteen places. *)
Definition NewEthShardLvlDB `{!LevelDBLib DB} (dir : string)
    : (EthShardTrieDB * gmap loc DB * triedb) + string :=
  match rawdb_NewLevelDBDatabase dir with
  | inr err => inr err
  | inl (leveldb, mainTrieDB) =>
      let diskdbs := replicate 16 0 in
      inl (MkEthShardTrieDB diskdbs, {[ 0 := leveldb ]}, mainTrieDB diskdbs)
  end.

Definition ShardFromKey (key : string) (this : EthShardTrieDB) : option loc :=
  match key with
  | "" => diskShardDBs this !! 0
  | String c _ => diskShardDBs this !! Z.to_nat (Z.shiftr (Z.of_N (N_of_ascii c)) 4)
  end.

(** [ (root, trie, error) ]; a nil receiver panics when a field of it is
    needed. *)
Definition EthShardTrieDB_Commit (t : trie) (block : Z) (this : option EthShardTrieDB)
    : Eth (bytes * option trie * option string) :=
  let '(root, nodes, err) := trie_Commit t in
  match err with
  | Some _ => gret (EmptyHash, None, errors_Join (Some "trie.Commit:") err)
  | None =>
      let! err :=
        match nodes with
        | None => gret None
        | Some nodes =>
            let! _ := gsome this in
            let! s := gget in
            let '(err, d) := triedb_Update root block nodes (es_triedb s) in
            gput (with_triedb d s) ;;; gret err
        end in
      match err with
      | Some _ => gret (EmptyHash, None, errors_Join (Some "ethdb.Update:") err)
      | None =>
          let! _ := gsome this in
          let! s := gget in
          let '(newTrie, err) := trie_NewParallel root (es_triedb s) in
          let err := match err with
                     | Some _ => errors_Join (Some "ethmpt.NewParallel:") err
                     | None => None
                     end in
          gret (root, newTrie, err)
      end
  end.

(** ** eth_account.go *)
Definition NewAccount (a : bytes) (b : option EthShardTrieDB) (st : StateAccount) : Account :=
  MkAccount a st None None b None false.

Definition LoadTrie (root : bytes) : Eth (option trie * option string) :=
  let! s := gget in gret (trie_NewParallel root (es_triedb s)).

Definition NewAccountWithSharedCache (a : bytes) (b : option EthShardTrieDB) (st : StateAccount)
    : Eth Account :=
  let! _ := gsome b in
  let! '(t, err) := LoadTrie (Root st) in
  gret (MkAccount a st None t b err false).

Definition EmptyAccountState : StateAccount :=
  MkStateAccount 0 0 EmptyRootHash (Bytes32_Encode (Keccak256 [])).

Definition SetAddress (a : bytes) (this : loc) : Eth unit :=
  update_cell (fun acct => MkAccount a (state acct) (code acct) (storageTrie acct) (backend acct)
    (acct_err acct) (trieDirty acct)) this.

Definition GetState (key : bytes) (this : Account) : outcome bytes :=
  match storageTrie this with Some t => Ret (trie_Get t key).1 | None => Panic end.
Definition GetStorageRoot (this : Account) : bytes :=
  match storageTrie this with None => EmptyRootHash | Some t => trie_Hash t end.
Definition GetCode (this : Account) : option bytes := code this.
Definition GetCodeHash (this : Account) : bytes :=
  match storageTrie this with None => Keccak256 [] | Some _ => Bytes32_Decode (CodeHash (state this)) end.

Definition Hash (key : bytes) : bytes := LegacyKeccak256 key.

Definition ToStorageKey (key : string) : outcome bytes :=
  let k := GetPathUnder key "/storage/native/" in
  if 0 <? len k then
    match hexutil_Decode k with
    | (kstr, None) => Ret (Keccak256 kstr)
    | (_, Some _) => Panic
    end
  else Ret (Hash (go_bytes key)).

Definition isAccountRoot (path : string) : bool := len path =? ETH_ACCOUNT_FULL_LENGTH + 1.

Definition Account_Has (path : string) (this : Account) : outcome bool :=
  if isAccountRoot path then Ret true
  else if HasSuffix path PATH_BALANCE || HasSuffix path PATH_NONCE then Ret true
  else if HasSuffix path PATH_CODE then Ret (0 <? length (default [] (code this)))
  else match ToStorageKey path, storageTrie this with
       | Ret k, Some t => Ret (0 <? length (trie_Get t k).1)
       | _, _ => Panic
       end.

Definition ErrNotFound : string := "not found".

Definition Account_Get (path : string) (this : loc) : Eth (option gval * option string) :=
  let! a := deref this in
  if HasSuffix path PATH_BALANCE then
    let balance := u256_SetFromBig (u256_ToBig (Balance (state a))) in
    gret (Some (VCrdt (CU256 (bSetValue balance NewUnbounded))), None)
  else if HasSuffix path PATH_NONCE then
    gret (Some (VCrdt (CUint64 (bSetValue (Nonce (state a)) NewUnbounded))), None)
  else if HasSuffix path PATH_CODE then
    let! err :=
      match code a with
      | Some _ => gret None
      | None =>
          let! b := gsome (backend a) in
          let! h := gsome (ShardFromKey path b) in
          let! '(c, err) := DB_Get h (CodeHash (state a)) in
          update_cell (set_code c) this ;;; gret err
      end in
    match err with
    | Some _ => gret (None, err)
    | None => let! a := deref this in gret (Some (VCrdt (NBytes (NewBytes (default [] (code a))))), None)
    end
  else
    let! k := gof (ToStorageKey path) in
    let! t := gsome (storageTrie a) in
    let '(v, err) := trie_Get t k in
    match v with
    | _ :: _ => gret (Some (VRaw v), err)
    | [] => gret (None, Some ErrNotFound)
    end.

(** UpdateAccountStorageTrie, in its five parts.  The slices are the local
    headers: the account root is dropped, then the nonce, balance and code are
    taken out, the first of each. *)
Abbreviation Entries := (list string * list (option crdt))%type.
Definition first_key (p : string -> bool) (keys : list string) : option nat :=
  let pos := (slice_FindFirstIf keys p).1 in
  if (0 <=? pos)%Z then Some (Z.to_nat pos) else None.
Definition remove_key (i : nat) (e : Entries) : Entries :=
  (slice_RemoveAt e.1 i, slice_RemoveAt e.2 i).
Definition typed_at (i : nat) (e : Entries) : Eth crdt :=
  let! v := gsome (e.2 !! i) in gsome v.

Definition drop_account_root (e : Entries) : Entries :=
  match first_key isAccountRoot e.1 with Some i => remove_key i e | None => e end.
Definition update_nonce (this : loc) (e : Entries) : Eth Entries :=
  match first_key (fun k => HasSuffix k PATH_NONCE) e.1 with
  | Some i =>
      let! v := typed_at i e in
      let! n := gsome (Value_uint64 v) in
      update_cell (set_state (set_Nonce n)) this ;;; gret (remove_key i e)
  | None => gret e
  end.
Definition update_balance (this : loc) (e : Entries) : Eth Entries :=
  match first_key (fun k => HasSuffix k PATH_BALANCE) e.1 with
  | Some i =>
      let! v := typed_at i e in
      let! b := gsome (Value_uint256 v) in
      update_cell (set_state (set_Balance b)) this ;;; gret (remove_key i e)
  | None => gret e
  end.
Definition update_code (this : loc) (e : Entries) : Eth (Entries * option string) :=
  match first_key (fun k => HasSuffix k PATH_CODE) e.1 with
  | Some i =>
      let! v := typed_at i e in
      let! c := gsome (Value_bytes v) in
      update_cell (set_code (Some c)) this ;;;
      update_cell (set_state (set_CodeHash (Hash c))) this ;;;
      let! a := deref this in
      let! b := gsome (backend a) in
      let! k := gsome (e.1 !! i) in
      let! h := gsome (ShardFromKey k b) in
      let! err := DB_Put h (Hash c) c in
      match err with
      | Some _ => gret (e, err)
      | None => gret (remove_key i e, None)
      end
  | None => gret (e, None)
  end.
Definition encode_value (keys : list string) (iv : nat * option crdt) : Eth bytes :=
  match iv.2 with
  | None => gret []
  | Some v =>
      let! k := gsome (keys !! iv.1) in
      let! r := gof (RlpCodec_Encode k (Some (VCrdt v))) in
      gret match r with inl b => b | inr _ => [] end
  end.
Definition update_trie (this : loc) (e : Entries) : Eth (option string) :=
  let '(keys, typedVals) := e in
  update_cell (set_dirty (0 <? length keys)) this ;;;
  let! encodedKeys := slice_ParallelTransform (fun k => gof (ToStorageKey k)) keys in
  let! encodedVals := slice_ParallelTransform (encode_value keys) (imap pair typedVals) in
  let '(encodedKeys, encodedVals) := slice_SortBy1st bytes_ltb encodedKeys encodedVals in
  let! a := deref this in
  let! t := gsome (storageTrie a) in
  let '(errs, t) := trie_ParallelUpdate encodedKeys encodedVals t in
  update_cell (set_trie (Some t)) this ;;;
  match (slice_FindFirstIf errs (fun v => bool_decide (v <> None))).2 with
  | Some e => gret e
  | None => update_cell (set_state (set_Root (trie_Hash t))) this ;;; gret None
  end.

Definition UpdateAccountStorageTrie (keys : list string) (typedVals : list (option crdt)) (this : loc)
    : Eth (option string) :=
  let e := drop_account_root (keys, typedVals) in
  let! e := update_nonce this e in
  let! e := update_balance this e in
  let! '(e, err) := update_code this e in
  match err with
  | Some _ => gret err
  | None => update_trie this e
  end.

Definition Account_Encode (this : Account) : bytes := (Encode_StateAccount (state this)).1.
Definition Account_Decode (buffer : bytes) : option Account * option string :=
  match Decode_StateAccount buffer with
  | inr err => (None, Some err)
  | inl st => (Some (MkAccount ZeroAddress st None None None None false), None)
  end.

Definition Account_Commit (block : Z) (this : loc) : Eth (option string) :=
  let! a := deref this in
  if trieDirty a then
    let! t := gsome (storageTrie a) in
    let! '(_, t, err) := EthShardTrieDB_Commit t block (backend a) in
    update_cell (set_trie t) this ;;;
    update_cell (set_dirty false) this ;;;
    gret err
  else gret None.
End account.
