(* ===== verification/EthWorldState.v ===== *)
(** * storage/ethstorage: the world state

    eth_world_state.go.  A method that only reads takes the world state it is
    called on: besides the node's own, which is [es_world] of the state, there
    are those opened at an earlier root.  Their accounts and databases are the
    shared ones. *)
From S2P Require Import Prelude GoString Interfaces Heap Paths Codec EthLib EthAccount.
Import PathTypes.

Section world.
Context `{CT : CrdtTypes} `{TT : TrieTypes} `{RL : !RlpLib} `{FI : FixedInt} `{UI : Uint256}
  `{CV : !CrdtValues} `{SL : SliceLib} `{ML : MapLib} `{ES : EthSliceLib} `{CrL : CryptoLib}
  `{EC : EthCommonLib} `{SA : StateAccountLib} `{TL : !TrieLib} {DB : Type} `{DL : !DBLib DB}.
Abbreviation Eth := (Go (EthState DB)).

Definition set_accountCache (c : gmap bytes loc) (w : EthWorldState) : EthWorldState :=
  MkEthWorldState (worldStateTrie w) c (accountCacheEnabled w) (trieDB w) (dbErr w) (blockRoots w).
Definition set_worldStateTrie (t : option trie) (w : EthWorldState) : EthWorldState :=
  MkEthWorldState t (accountCache w) (accountCacheEnabled w) (trieDB w) (dbErr w) (blockRoots w).
Definition set_dbErr (e : option string) (w : EthWorldState) : EthWorldState :=
  MkEthWorldState (worldStateTrie w) (accountCache w) (accountCacheEnabled w) (trieDB w) e (blockRoots w).
Definition set_blockRoots (r : gmap Z bytes) (w : EthWorldState) : EthWorldState :=
  MkEthWorldState (worldStateTrie w) (accountCache w) (accountCacheEnabled w) (trieDB w) (dbErr w) r.
Definition get_world : Eth EthWorldState := let! s := gget in gret (es_world s).
Definition modify_world (f : EthWorldState -> EthWorldState) : Eth unit :=
  gmodify (fun s => with_world (f (es_world s)) s).
(** [this.dbErr = errors.Join(this.dbErr, err)] *)
Definition join_dbErr (err : option string) : Eth unit :=
  modify_world (fun w => set_dbErr (errors_Join (dbErr w) err) w).

Definition NewEthDataStore (t : trie) (trieDB : EthShardTrieDB) : EthWorldState :=
  MkEthWorldState (Some t) ∅ false trieDB None ∅.

(** A constructor makes the whole state of a new node: the store and the
    database. *)
Definition new_state (x : EthShardTrieDB * gmap loc DB * triedb) : EthState DB :=
  let '(shardDB, dbs, d) := x in
  MkEthState _ ∅ d dbs (NewEthDataStore (trie_NewEmptyParallel d) shardDB).
Definition NewParallelEthMemDataStore : EthState DB := new_state NewEthShardTrieMemDB.
(** The cache it is given is not used. *)
Definition NewParallelEthMemDataStoreSharedCache : EthState DB := new_state NewEthShardTrieMemDB.
Definition NewEthWorldState `{!LevelDBLib DB} (rootHash : bytes) (dir : string)
    : option (EthState DB) :=
  match NewEthShardLvlDB dir with inr _ => None | inl db => Some (new_state db) end.
Definition NewLevelDBDataStore `{!LevelDBLib DB} (dir : string) : option (EthState DB) :=
  match NewEthShardLvlDB dir with inr _ => None | inl db => Some (new_state db) end.

Definition LoadEthTrieByRoot (root : bytes) : Eth (option EthWorldState * option string) :=
  let! s := gget in
  match trie_New root (es_triedb s) with
  | (Some t, None) =>
      gret (Some (NewEthDataStore t (MkEthShardTrieDB (triedb_DBs (es_triedb s)))), None)
  | (_, err) =>
      gret (None, errors_Join err
        (Some "Failed to load the trie from the database with the root provided!"))
  end.

Definition GetAccount (address : bytes) (this : EthWorldState) : Eth (option loc * option string) :=
  if length address =? 0 then gret (None, Some "Invalid account: ")
  else
    match accountCache this !! address with
    | Some v => gret (Some v, None)
    | None =>
        let! t := gsome (worldStateTrie this) in
        let '(buffer, err) := trie_Get t (Keccak256 address) in
        match buffer, err with
        | _ :: _, None =>
            match Decode_StateAccount buffer with
            | inr err => gret (None, Some err)
            | inl acctState =>
                let! s := gget in
                match trie_New (Root acctState) (es_triedb s) with
                | (Some stgTrie, None) =>
                    let! h := gsome (diskShardDBs (trieDB this) !! 0) in
                    let! '(c, _) := DB_Get h (CodeHash acctState) in
                    let! l := alloc (MkAccount address acctState c (Some stgTrie) None None false) in
                    gret (Some l, None)
                | (_, err) => gret (None, err)
                end
            end
        | _, err => gret (None, err)
        end
    end.

Definition Preload (a : bytes) : Eth loc :=
  let! this := get_world in
  let! '(acct, _) := GetAccount (BytesToAddress a) this in
  match acct with
  | Some l => gret l
  | None =>
      let! acct :=
        NewAccountWithSharedCache (BytesToAddress a) (Some (trieDB this)) EmptyAccountState in
      alloc acct
  end.

Definition World_Has (key : string) (this : EthWorldState) : Eth bool :=
  let '(_, acctKey, suffix) := ParseAccountAddr key in
  if len acctKey =? 0 then gret false
  else if len suffix =? 0 then gret false
  else
    match hexutil_Decode acctKey with
    | (_, Some _) => gret false
    | (acctBytes, None) =>
        let address := BytesToAddress acctBytes in
        match accountCache this !! address with
        | Some l => let! acct := deref l in gof (Account_Has key acct)
        | None =>
            let! t := gsome (worldStateTrie this) in
            let buffer := (trie_ThreadSafeGet t (Keccak256 address)).1 in
            match buffer with
            | [] => gret false
            | _ :: _ =>
                match Decode_StateAccount buffer with
                | inr _ => gret false
                | inl stateAccount =>
                    let acct := NewAccount address (Some (trieDB this)) stateAccount in
                    let! '(t, err) := LoadTrie (Root stateAccount) in
                    match err with
                    | Some _ => gret false
                    | None => gof (Account_Has key (set_trie t acct))
                    end
                end
            end
        end
    end.

Definition World_Get (path : string) (this : EthWorldState) : Eth (option gval * option string) :=
  let '(_, acctKey, _) := ParseAccountAddr path in
  if len acctKey =? 0 then gret (None, Some ("Invalid account: " +:+ acctKey))
  else
    match hexutil_Decode acctKey with
    | (_, Some _) => gret (None, Some ("Invalid account format: " +:+ acctKey))
    | (acctBytes, None) =>
        let! '(account, err) := GetAccount (BytesToAddress acctBytes) this in
        match account with
        | Some l => Account_Get path l
        | None => gret (None, err)
        end
    end.

Definition World_GetAs (path : string) (hint : option gval) (this : EthWorldState)
    : Eth (option gval * option string) :=
  let! '(data, err) := World_Get path this in
  match err with
  | Some _ => gret (None, err)
  | None =>
      match data, hint with
      | Some (VCrdt _), _ => gret (data, None)
      | Some (VRaw buffer), Some _ => gof (RlpCodec_Decode path buffer hint)
      | _, _ => gret (data, None)
      end
  end.

Definition WriteWorldTrie (dirtyAccounts : list loc) : Eth bytes :=
  let! accts := deref_all dirtyAccounts in
  let encodedAddrs := map (fun la => Keccak256 (addr la.2)) accts in
  let encodedAcct := map (fun la => Account_Encode la.2) accts in
  let! this := get_world in
  let! t := gsome (worldStateTrie this) in
  let '(errs, t) := trie_ParallelUpdate encodedAddrs encodedAcct t in
  modify_world (set_worldStateTrie (Some t)) ;;;
  join_dbErr (errors_Joins errs) ;;;
  gret (trie_Hash t).

(** [for len(this.blockRoots) >= 1024]: the number of entries bounds the
    iterations. *)
Fixpoint prune_loop (fuel : nat) (roots : gmap Z bytes) : option (gmap Z bytes) :=
  if (Z.of_nat (size roots) <? 1024)%Z then Some roots
  else match fuel with
       | O => None
       | S fuel => prune_loop fuel (delete (slice_Min (map_Keys roots)).2 roots)
       end.

(** The nil accounts are skipped. *)
Definition merge_accounts (dirtyAccounts : list (option loc)) : Eth (gmap bytes (list loc)) :=
  gfold (fun m acct =>
    match acct with
    | None => gret m
    | Some l =>
        let! a := deref l in
        gret (<[addr a := default [] (m !! addr a) ++ [l]]> m)
    end) ∅ dirtyAccounts.

Definition commit_accounts (blockNum : Z) (dirties : list loc) : Eth unit :=
  gforeach (fun l =>
    let! err := Account_Commit blockNum l in
    match err with Some _ => join_dbErr err | None => gret tt end) dirties.

Definition persistToEthStore (blockNum : Z) (dirtyAccounts : list (option loc))
    : Eth (option string) :=
  let! this := get_world in
  let! roots := gsome (prune_loop (size (blockRoots this)) (blockRoots this)) in
  let! t := gsome (worldStateTrie this) in
  modify_world (set_blockRoots (<[blockNum := trie_Hash t]> roots)) ;;;
  let! uniqueAccts := merge_accounts dirtyAccounts in
  let uniqueDirties := map_Values uniqueAccts in
  slice_ParallelForeach (fun _ dirties => commit_accounts blockNum dirties) uniqueDirties ;;;
  let! this := get_world in
  let! t := gsome (worldStateTrie this) in
  let! '(_, t, err) := EthShardTrieDB_Commit t blockNum (Some (trieDB this)) in
  modify_world (set_worldStateTrie t) ;;;
  match err with Some _ => join_dbErr err | None => gret tt end ;;;
  let! this := get_world in gret (dbErr this).

Definition set_cacheEnabled (b : bool) (w : EthWorldState) : EthWorldState :=
  MkEthWorldState (worldStateTrie w) (accountCache w) b (trieDB w) (dbErr w) (blockRoots w).
Definition EnableAccountCache : Eth unit := modify_world (set_cacheEnabled true).
Definition DisableAccountCache : Eth unit := modify_world (set_cacheEnabled false).
(** A place holder: nothing is written. *)
Definition World_Inject (key : string) (value : crdt) : Eth (option string) := gret None.

Definition World_Hash (key : string) : bytes := LegacyKeccak256 (go_bytes key).
Definition DiskDBs (this : EthWorldState) : list loc := diskShardDBs (trieDB this).
Definition World_UpdateCacheStats (_ : list gval) : Eth unit := gret tt.
Definition World_CheckSum : bytes := replicate 32 0%Z.
Definition World_Query (pattern : string) (condition : string -> bytes -> bool)
    : list string * list bytes * option string := ([], [], None).
Definition World_Clear : Eth unit := gret tt.

Definition World_Root (this : EthWorldState) : outcome bytes :=
  match worldStateTrie this with Some t => Ret (trie_Hash t) | None => Panic end.
Definition GetRootHash (blockNum : Z) (this : EthWorldState) : bytes :=
  default EmptyHash (blockRoots this !! blockNum).
End world.
