(* ===== verification/EthWriter.v ===== *)
(** * storage/ethstorage: the indexer and the writer of the Ethereum store

    eth_storage_indexer.go and eth_storage_writer.go.  The transitions are
    cells of the node's state [S]; the Ethereum store is a part of it. *)
From S2P Require Import Prelude GoString Interfaces Heap Paths DeltaSequence Codec EthLib EthAccount EthWorldState.
Import PathTypes.

Module EthStorage.
Section writer.
Context `{CT : CrdtTypes} `{TT : TrieTypes} `{RL : !RlpLib} `{FI : FixedInt} `{UI : Uint256}
  `{CV : !CrdtValues} `{SL : SliceLib} `{ML : MapLib} `{ES : EthSliceLib} `{IL : IndexerLib}
  `{CrL : CryptoLib} `{EC : EthCommonLib} `{SA : StateAccountLib} `{TL : !TrieLib} {DB : Type}
  `{DL : !DBLib DB}.
Context {S cell : Type} `{CL : CellLib Codec.crdt cell} `{CH : HeapLens S cell}
  `{EO : ObjLens S (EthState DB)} `{KV : KVsLib S Codec.crdt}.

(** A step of the store, as a step of the node. *)
Definition in_eth {A} (m : Go (EthState DB) A) : Go S A := fun s =>
  match m (obj_of s) with Ret (a, e) => Ret (a, with_obj e s) | Panic => Panic end.

(** ** eth_storage_indexer.go.  An account and its transitions, by address.
    Nil and empty slices of dirty accounts are not told apart. *)
Record EthIndexer := MkEthIndexer {
  filter : cell -> bool;
  Version : Z;
  index : gmap bytes (loc * list loc);
  dirtyAccounts : list loc;
}.

Definition NewEthIndexer (version : Z) (filter : cell -> bool) : EthIndexer :=
  MkEthIndexer filter version ∅ [].

Definition Indexer_key (v : loc) : Go S (bytes * bool) :=
  let! c := deref v in
  let! p := gsome (GetPath c) in
  gret (BytesToAddress (hexutil_Decode (GetAccountAddr p)).1, true).
Definition Indexer_init (a : bytes) (v : loc) : Go S (loc * list loc) :=
  let! acct := in_eth (Preload a) in gret (acct, [v]).
Definition Indexer_update (_ : bytes) (v : loc) (pair : loc * list loc) : loc * list loc :=
  (pair.1, pair.2 ++ [v]).

Definition Indexer_Import (trans : list loc) (this : EthIndexer) : Go S EthIndexer :=
  let! cs := deref_all trans in
  let ethTrans := map fst (slice_CopyIf cs (fun lc => negb (no_path lc.2) && filter this lc.2)) in
  let! m := idx_Import Indexer_key Indexer_init Indexer_update ethTrans (index this) in
  gret (MkEthIndexer (filter this) (Version this) m (dirtyAccounts this)).

(** The accounts left without transitions are removed from a slice that is
    dropped: the index keeps them. *)
Definition Indexer_Finalize (this : EthIndexer) : Go S EthIndexer :=
  let! m := gfold (fun m a =>
    let! pair := gsome (m !! a) in
    let! cs := deref_all pair.2 in
    gret (<[a := (pair.1, map fst (slice_RemoveIf (fun lc => no_path lc.2) cs))]> m))
    (index this) (idx_order (index this)) in
  let pairsByAccount := idx_Values m in
  let _ := slice_RemoveIf (fun v : loc * list loc => length v.2 =? 0) pairsByAccount in
  gret (MkEthIndexer (filter this) (Version this) m (dirtyAccounts this)).

(** (Version, dirtyAccounts) of the receiver, a new indexer. *)
Definition Indexer_Merge (idxers : list EthIndexer) : Go S (Z * list loc) :=
  if 0 <? length idxers then
    let! maxIdxer := gsome (slice_MaxIf idxers Version).2 in
    let idxers := slice_RemoveIf (fun i => length (dirtyAccounts i) =? 0) idxers in
    gret (Version maxIdxer,
      slice_ConcateDo idxers (fun i => Z.of_nat (length (dirtyAccounts i))) dirtyAccounts)
  else gret (0%Z, []).

(** ** eth_storage_writer.go *)
Record EthStorageWriter := MkEthStorageWriter {
  Indexer : EthIndexer;
  buffer : list EthIndexer;
  wfilter : cell -> bool;
}.

Definition NewEthStorageWriter (version : Z) (filter : cell -> bool) : EthStorageWriter :=
  MkEthStorageWriter (NewEthIndexer version filter) [] filter.

Definition Import (trans : list loc) (this : EthStorageWriter) : Go S EthStorageWriter :=
  let! idx := Indexer_Import trans (Indexer this) in
  gret (MkEthStorageWriter idx (buffer this) (wfilter this)).

Definition cache_account (l : loc) : Go (EthState DB) unit :=
  let! a := deref l in
  modify_world (fun w => set_accountCache (<[addr a := l]> (accountCache w)) w).
Definition update_account (dirtyAccounts : list loc) (i : nat) (acctTrans : loc * list loc)
    : Go S unit :=
  if length acctTrans.2 =? 0 then gret tt
  else
    let! '(keys, vals) := StateCells_KVs acctTrans.2 in
    let! l := gsome (dirtyAccounts !! i) in
    let! err := in_eth (UpdateAccountStorageTrie keys vals l) in
    match err with Some _ => in_eth (join_dbErr err) | None => gret tt end.

Definition Precommit (_ : bool) (this : EthStorageWriter)
    : Go S (EthStorageWriter * option string) :=
  let! idx := Indexer_Finalize (Indexer this) in
  let accounts := idx_Values (index idx) in
  let idx := MkEthIndexer (filter idx) (Version idx) (index idx) (map fst accounts) in
  in_eth (gforeach cache_account (dirtyAccounts idx)) ;;;
  slice_ParallelForeach (update_account (dirtyAccounts idx)) accounts ;;;
  in_eth (WriteWorldTrie (dirtyAccounts idx)) ;;;
  let! w := in_eth get_world in
  gret (MkEthStorageWriter (NewEthIndexer (-1) (wfilter this)) (buffer this ++ [idx]) (wfilter this),
        dbErr w).

Definition Commit (version : Z) (this : EthStorageWriter)
    : Go S (EthStorageWriter * option string) :=
  let! '(v, dirties) := Indexer_Merge (buffer this) in
  in_eth (persistToEthStore (u64 v) (map Some dirties)) ;;;
  let! w := in_eth get_world in
  gret (MkEthStorageWriter (Indexer this) [] (wfilter this), dbErr w).

Definition IsSync (this : EthStorageWriter) : bool := false.

(** ** eth_account.go, ApplyChanges.  The key of the [i]-th group is taken from
    the [i]-th transition of that group. *)
Definition changed_entry (getter : list loc -> Go S (string * option Codec.crdt)) (iv : nat * list loc)
    : Go S (string * option Codec.crdt) :=
  let! '(_, v) := getter iv.2 in
  let! l := gsome (iv.2 !! iv.1) in
  let! c := deref l in
  let! p := gsome (GetPath c) in
  gret (p, v).
Definition ApplyChanges (transitions : list (list loc))
    (getter : list loc -> Go S (string * option Codec.crdt)) (this : loc)
    : Go S (list string * list (option Codec.crdt) * option string) :=
  let! kvs := gmap_list (changed_entry getter) (imap pair transitions) in
  let! err := in_eth (UpdateAccountStorageTrie (map fst kvs) (map snd kvs) this) in
  in_eth (update_cell (set_err err) this) ;;;
  gret (map fst kvs, map snd kvs, err).
End writer.
Arguments EthIndexer : clear implicits.
Arguments EthStorageWriter : clear implicits.
End EthStorage.
