(* ===== verification/EthAccountTheory.v ===== *)
(** * Theory of the accounts

    What an update of an account writes, and what is read back. *)
From S2P Require Import Prelude GoString Interfaces Heap Paths Codec CodecTheory EthLib EthAccount.
Import Constants PathTypes.

(** ** Batches of trie writes *)
Lemma trie_put_lookup m kv k :
  trie_put m kv !! k = if decide (k = kv.1) then written kv.2 else m !! k.
Proof.
  unfold trie_put. destruct kv as [k' v]. cbn. destruct v; case_decide; subst.
  - apply lookup_delete_eq.
  - by rewrite lookup_delete_ne.
  - apply lookup_insert_eq.
  - by rewrite lookup_insert_ne.
Qed.
Lemma trie_puts_lookup kvs m k v : NoDup (map fst kvs) -> (k, v) ∈ kvs ->
  fold_left trie_put kvs m !! k = written v.
Proof.
  revert m. induction kvs as [|[k' v'] kvs IH]; intros m Hnd Hin; [by apply elem_of_nil in Hin|].
  cbn in Hnd |- *. apply NoDup_cons in Hnd as [Hk Hnd]. apply elem_of_cons in Hin as [[= <- <-]|Hin].
  - clear IH. assert (Hkeep : forall m, fold_left trie_put kvs m !! k = m !! k).
    { clear -Hk. induction kvs as [|[k' v'] kvs IH]; intros m; [done|].
      apply not_elem_of_cons in Hk as [Hne Hk]. cbn [fold_left]. rewrite IH by done.
      rewrite trie_put_lookup. by rewrite decide_False by exact Hne. }
    rewrite Hkeep, trie_put_lookup, decide_True by done. done.
  - by apply IH.
Qed.
Lemma trie_puts_other kvs m k : k ∉ map fst kvs -> fold_left trie_put kvs m !! k = m !! k.
Proof.
  revert m. induction kvs as [|[k' v'] kvs IH]; intros m Hk; [done|].
  apply not_elem_of_cons in Hk as [Hne Hk]. cbn [fold_left]. rewrite IH by done.
  rewrite trie_put_lookup. rewrite decide_False by exact Hne. done.
Qed.
Lemma trie_puts_perm kvs kvs' m : Permutation kvs kvs' -> NoDup (map fst kvs) ->
  fold_left trie_put kvs m = fold_left trie_put kvs' m.
Proof.
  intros HP Hnd. pose proof (Permutation_map fst HP) as HPm.
  assert (Hnd' : NoDup (map fst kvs')) by (by rewrite <- HPm).
  apply map_eq. intros k. destruct (decide (k ∈ map fst kvs)) as [Hk|Hk].
  - apply list_elem_of_fmap in Hk as ([k' v] & -> & Hin).
    rewrite (trie_puts_lookup _ _ _ v Hnd Hin). symmetry. apply trie_puts_lookup; [done|].
    by rewrite <- HP.
  - rewrite !trie_puts_other; [done| |done]. by rewrite <- HPm.
Qed.

(** ** The first entry of each kind *)
Fixpoint take_first {A} (p : A -> bool) (l : list A) : option A * list A :=
  match l with
  | [] => (None, [])
  | x :: l => if p x then (Some x, l)
              else let '(y, r) := take_first p l in (y, x :: r)
  end.
Lemma take_first_spec {A} (p : A -> bool) l :
  (take_first p l = (None, l) /\ forall x, List.In x l -> p x = false) \/
  exists l1 x l2, l = l1 ++ x :: l2 /\ take_first p l = (Some x, l1 ++ l2) /\
    p x = true /\ forall y, List.In y l1 -> p y = false.
Proof.
  induction l as [|x l IH]; [by left|]. cbn. destruct (p x) eqn:Ex.
  - right. by exists [], x, l.
  - destruct IH as [[-> H]|(l1 & y & l2 & -> & -> & Hy & H)].
    + left. split; [done|]. by intros z [<-|Hz]; auto.
    + right. exists (x :: l1), y, l2. split; [done|]. split; [done|]. split; [done|].
      by intros z [<-|Hz]; auto.
Qed.

Section theory.
Context `{CT : CrdtTypes} `{TT : TrieTypes} `{RL : !RlpLib} `{FI : FixedInt} `{UI : Uint256}
  `{CV : !CrdtValues} `{SL : SliceLib} `{SLL : !SliceLaws SL} `{ES : EthSliceLib}
  `{ESL : !EthSliceLaws ES} `{CrL : CryptoLib} `{EC : EthCommonLib}
  `{SA : StateAccountLib} `{TL : !TrieLib} {DB : Type} `{DL : !DBLib DB}
  `{MD : !DBLib memorydb} `{TS : !TrieSpec} `{TLW : !TrieLaws TS}.
Abbreviation Entry := (string * option crdt)%type.
Implicit Types (s : EthState DB) (l : loc) (a : Account) (kvs : list Entry).

Definition unzip (kvs : list Entry) : list string * list (option crdt) := (map fst kvs, map snd kvs).

Lemma first_key_cases p kvs :
  (first_key p (map fst kvs) = None /\ take_first (fun kv => p kv.1) kvs = (None, kvs)) \/
  exists i kv rest, first_key p (map fst kvs) = Some i /\
    take_first (fun kv => p kv.1) kvs = (Some kv, rest) /\
    map fst kvs !! i = Some kv.1 /\ map snd kvs !! i = Some kv.2 /\
    remove_key i (unzip kvs) = unzip rest.
Proof.
  unfold first_key. destruct (take_first_spec (fun kv => p kv.1) kvs)
    as [[E H]|(l1 & kv & l2 & -> & E & Hp & H)].
  - left. split; [|done]. rewrite FindFirstIf_none; [done|].
    intros k (x & <- & Hx)%in_map_iff. by apply (H x).
  - right. exists (length l1), kv, (l1 ++ l2). split; [|split; [done|]].
    + rewrite map_app. cbn. rewrite FindFirstIf_some; [|by intros k (x & <- & Hx)%in_map_iff; apply (H x)|done].
      cbn. rewrite length_map, (proj2 (Z.leb_le _ _)) by lia. by rewrite Nat2Z.id.
    + unfold remove_key, unzip. cbn. rewrite !map_app. cbn.
      assert (Hm : forall {B} (f : Entry -> B), (map f l1 ++ f kv :: map f l2) !! length l1 = Some (f kv)
        /\ slice_RemoveAt (map f l1 ++ f kv :: map f l2) (length l1) = map f l1 ++ map f l2).
      { intros B f. rewrite <- (length_map f l1). split; [by apply list_lookup_middle|].
        apply RemoveAt_spec. }
      destruct (Hm _ fst) as [-> ->], (Hm _ snd) as [-> ->]. done.
Qed.

(** ** The parts of an update *)
Definition put_account l a s : EthState DB := with_heap (<[l := a]> (es_accounts s)) s.

Lemma update_account_eq f l a s : es_accounts s !! l = Some a ->
  update_cell f l s = Ret (tt, put_account l (f a) s).
Proof. intros Ha. apply update_cell_ret. by exists a. Qed.
Lemma put_account_id l a s : es_accounts s !! l = Some a -> put_account l a s = s.
Proof. intros Ha. unfold put_account. cbn. rewrite insert_id by done. by destruct s. Qed.
Lemma put_account_twice l a b s : put_account l a (put_account l b s) = put_account l a s.
Proof. unfold put_account. cbn. by rewrite insert_insert_eq. Qed.
Lemma put_account_lookup l a s : es_accounts (put_account l a s) !! l = Some a.
Proof. cbn. apply lookup_insert_eq. Qed.

(** The value of a field after an update: the typed value of the entry, or the
    old one. *)
Definition field {A} (get : Codec.crdt -> option A) (e : option Entry) (old : A) : option A :=
  match e with None => Some old | Some (_, v) => v ≫= get end.
Definition is_field (suffix : string) (kv : Entry) : bool := HasSuffix kv.1 suffix.

Lemma typed_at_eq i e v s : e.2 !! i = Some (Some v) -> typed_at i e s = Ret (v, s).
Proof. intros E. unfold typed_at. by gstep (gsome_eq _ _ s E). Qed.

Lemma update_field_eq {A} (p : string -> bool) (get : Codec.crdt -> option A)
    (set : A -> StateAccount -> StateAccount) (old : StateAccount -> A) l a s kvs e rest z :
  (forall st, set (old st) st = st) ->
  es_accounts s !! l = Some a -> take_first (fun kv => p kv.1) kvs = (e, rest) ->
  field get e (old (state a)) = Some z ->
  match first_key p (map fst kvs) with
  | Some i =>
      let! v := typed_at i (unzip kvs) in
      let! n := gsome (get v) in
      update_cell (set_state (set n)) l ;;; gret (remove_key i (unzip kvs))
  | None => gret (unzip kvs)
  end s = Ret (unzip rest, put_account l (set_state (set z) a) s).
Proof.
  intros Hset Ha Ht Hf. destruct (first_key_cases p kvs) as [[-> E]|(i & [k v] & r & -> & E & _ & Hv & Hr)];
    rewrite E in Ht; simplify_eq; cbn in Hf.
  - simplify_eq. assert (Hid : set_state (set (old (state a))) a = a)
      by (unfold set_state; rewrite Hset; by destruct a).
    rewrite Hid, put_account_id by done. done.
  - destruct v as [v|]; [|done]. cbn in Hf. gstep (typed_at_eq i (unzip kvs) v s Hv).
    gstep (gsome_eq _ _ s Hf). gstep (update_account_eq (set_state (set z)) l a s Ha). by rewrite Hr.
Qed.

Lemma update_nonce_eq l a s kvs e rest z :
  es_accounts s !! l = Some a -> take_first (is_field PATH_NONCE) kvs = (e, rest) ->
  field Value_uint64 e (Nonce (state a)) = Some z ->
  update_nonce l (unzip kvs) s = Ret (unzip rest, put_account l (set_state (set_Nonce z) a) s).
Proof.
  apply (update_field_eq (fun k => HasSuffix k PATH_NONCE) Value_uint64 set_Nonce Nonce).
  by intros [].
Qed.
Lemma update_balance_eq l a s kvs e rest z :
  es_accounts s !! l = Some a -> take_first (is_field PATH_BALANCE) kvs = (e, rest) ->
  field Value_uint256 e (Balance (state a)) = Some z ->
  update_balance l (unzip kvs) s = Ret (unzip rest, put_account l (set_state (set_Balance z) a) s).
Proof.
  apply (update_field_eq (fun k => HasSuffix k PATH_BALANCE) Value_uint256 set_Balance Balance).
  by intros [].
Qed.

(** The code, its hash and the databases after an update that saves the code. *)
Definition code_step (e : option Entry) a (dbs : gmap loc DB)
    : option (option bytes * bytes * gmap loc DB) :=
  match e with
  | None => Some (code a, CodeHash (state a), dbs)
  | Some (k, v) =>
      v ← v; c ← Value_bytes v; b ← backend a; h ← ShardFromKey k b; d ← dbs !! h;
      match db_Put (Hash c) c d with
      | (None, d') => Some (Some c, Hash c, <[h := d']> dbs)
      | _ => None
      end
  end.
Lemma update_code_eq l a s kvs e rest c h dbs :
  es_accounts s !! l = Some a -> take_first (is_field PATH_CODE) kvs = (e, rest) ->
  code_step e a (es_dbs s) = Some (c, h, dbs) ->
  update_code l (unzip kvs) s =
    Ret ((unzip rest, None), with_dbs dbs (put_account l (set_state (set_CodeHash h) (set_code c a)) s)).
Proof.
  intros Ha Ht Hc. unfold update_code.
  destruct (first_key_cases (fun k => HasSuffix k PATH_CODE) kvs)
    as [[E1 E]|(i & [k v] & r & E1 & E & Hk & Hv & Hr)];
    unfold is_field in Ht; rewrite E in Ht; simplify_eq; cbn in Hc.
  - simplify_eq. unfold unzip at 1. cbn [fst]. rewrite E1.
    assert (Hid : set_state (set_CodeHash (CodeHash (state a))) (set_code (code a) a) = a)
      by (destruct a as [? [] ? ? ? ? ?]; done).
    rewrite Hid, put_account_id by done. by destruct s.
  - destruct v as [v|]; [|done]. cbn in Hc.
    destruct (Value_bytes v) as [c'|] eqn:Ec; [|done]. cbn in Hc.
    destruct (backend a) as [b|] eqn:Eb; [|done]. cbn in Hc.
    destruct (ShardFromKey k b) as [h'|] eqn:Eh; [|done]. cbn in Hc.
    destruct (es_dbs s !! h') as [d|] eqn:Ed; [|done]. cbn in Hc.
    destruct (db_Put (Hash c') c' d) as [[|] d'] eqn:Ep; [done|]. simplify_eq.
    unfold unzip at 1. cbn [fst]. rewrite E1. gstep (typed_at_eq i (unzip kvs) v s Hv).
    gstep (gsome_eq _ _ s Ec). gstep (update_account_eq (set_code (Some c')) l a s Ha).
    gby (apply update_account_eq, put_account_lookup).
    rewrite put_account_twice.
    gby (apply deref_eq, put_account_lookup).
    gby (exact (gsome_eq _ _ _ Eb)). gby (exact (gsome_eq _ _ _ Hk)). gby (exact (gsome_eq _ _ _ Eh)).
    unfold DB_Put. gsteps. gby (exact (gsome_eq _ _ _ Ed)).
    rewrite Ep. gsteps. by rewrite Hr.
Qed.

(** What a slot is written as in the storage trie.  A value without an encoding
    and a deletion are written alike. *)
Definition slot_key (k : string) : bytes := match ToStorageKey k with Ret b => b | Panic => [] end.
Definition slot_value (v : option Codec.crdt) : bytes :=
  match v with
  | None => []
  | Some v => match RlpCodec_Encode "" (Some (VCrdt v)) with Ret (inl b) => b | _ => [] end
  end.
Definition slot (kv : Entry) : bytes * bytes := (slot_key kv.1, slot_value kv.2).
Definition slots_ok kvs : Prop :=
  Forall (fun kv => ToStorageKey kv.1 <> Panic) kvs /\ NoDup (map (fun kv => slot_key kv.1) kvs).

Lemma encode_value_eq keys iv s : iv.1 < length keys ->
  encode_value keys iv s = Ret (slot_value iv.2, s).
Proof.
  intros Hi. unfold encode_value. destruct iv as [i [v|]]; [|done]. cbn [fst snd] in *.
  destruct (lookup_lt_is_Some_2 keys i Hi) as [k Hk]. gstep (gsome_eq _ _ s Hk).
  assert (E : RlpCodec_Encode k (Some (VCrdt v)) = RlpCodec_Encode "" (Some (VCrdt v))) by done.
  unfold slot_value. rewrite E. by destruct v.
Qed.
Lemma no_error_found errs : Forall (eq None) errs ->
  (slice_FindFirstIf errs (fun v : option string => bool_decide (v <> None))).2 = None.
Proof.
  intros HF. rewrite FindFirstIf_none; [done|]. intros e He%list_elem_of_In.
  rewrite Forall_forall in HF. by rewrite <- (HF e He).
Qed.

Lemma update_trie_eq l a t s kvs :
  es_accounts s !! l = Some a -> storageTrie a = Some t -> backed (es_triedb s) t -> slots_ok kvs ->
  exists t', backed (es_triedb s) t' /\
    trie_map t' = fold_left trie_put (map slot kvs) (trie_map t) /\
    update_trie l (unzip kvs) s =
      Ret (None, put_account l
        (set_state (set_Root (trie_Hash t')) (set_trie (Some t') (set_dirty (0 <? length kvs) a))) s).
Proof.
  intros Ha Ht Hb [Hk Hnd].
  set (ks := map (fun kv => slot_key kv.1) kvs). set (vs := map (fun kv => slot_value kv.2) kvs).
  assert (Hl : length ks = length vs) by (unfold ks, vs; by rewrite !length_map).
  destruct (SortBy1st_perm bytes_ltb ks vs Hl) as [Hls HP].
  destruct (slice_SortBy1st bytes_ltb ks vs) as [ks' vs'] eqn:Es. cbn [fst snd] in *.
  assert (Hfst : forall (xs : list bytes) (ys : list bytes), length xs = length ys -> map fst (combine xs ys) = xs).
  { clear. induction xs as [|x xs IH]; intros [|y ys] Hl; try done. cbn in *. f_equal. apply IH. lia. }
  assert (Hc : combine ks vs = map slot kvs).
  { unfold ks, vs. clear. induction kvs as [|kv kvs IH]; [done|]. cbn. by rewrite IH. }
  assert (Hnd' : NoDup ks').
  { pose proof (Permutation_map fst HP) as Hp. rewrite !Hfst in Hp by done. by rewrite Hp. }
  destruct (Update_map (es_triedb s) t ks' vs' Hb Hls Hnd') as (errs & t' & Eu & He & Hb' & Hm).
  exists t'. split; [done|]. split.
  { rewrite Hm. unfold trie_puts. rewrite <- Hc. apply trie_puts_perm; [done|]. by rewrite Hfst. }
  unfold update_trie, unzip. rewrite length_map.
  gstep (update_account_eq (set_dirty (0 <? length kvs)) l a s Ha).
  set (s1 := put_account l (set_dirty (0 <? length kvs) a) s).
  erewrite gbind_eq by (apply (ParallelTransform_map _ slot_key); intros k (kv & <- & Hkv%list_elem_of_In)%in_map_iff;
    rewrite Forall_forall in Hk; specialize (Hk kv Hkv); unfold slot_key, gof; by destruct (ToStorageKey kv.1)).
  erewrite gbind_eq by (apply (ParallelTransform_map _ (fun iv => slot_value iv.2)); intros [i v] Hiv%list_elem_of_In;
    apply encode_value_eq; rewrite length_map; cbn;
    apply elem_of_lookup_imap in Hiv as (j & y & [= -> ->] & Hj);
    apply lookup_lt_Some in Hj; by rewrite length_map in Hj).
  cbv beta iota. rewrite !map_map.
  replace (map (fun iv => slot_value iv.2) (imap pair (map snd kvs))) with vs.
  2: { unfold vs. rewrite <- (map_map snd slot_value). generalize (map snd kvs). clear. intros l.
       change (map slot_value l = (fun iv : nat * option Codec.crdt => slot_value iv.2) <$> imap pair l).
       rewrite fmap_imap. symmetry. change (map slot_value l) with (slot_value <$> l).
       apply list_eq. intros i. by rewrite list_lookup_imap, list_lookup_fmap. }
  fold ks. rewrite Es. unfold s1.
  gby (apply deref_eq, put_account_lookup). gby (exact (gsome_eq _ _ _ Ht)).
  rewrite Eu. gby (apply update_account_eq, put_account_lookup).
  rewrite no_error_found by done. rewrite put_account_twice.
  gby (apply update_account_eq, put_account_lookup). by rewrite put_account_twice.
Qed.

(** The entries an update takes out, in order: the first nonce, balance and
    code, and the slots that are left. *)
Definition plan kvs : option Entry * option Entry * option Entry * list Entry :=
  let kvs := (take_first (fun kv => isAccountRoot kv.1) kvs).2 in
  let '(n, kvs) := take_first (is_field PATH_NONCE) kvs in
  let '(b, kvs) := take_first (is_field PATH_BALANCE) kvs in
  let '(c, kvs) := take_first (is_field PATH_CODE) kvs in
  (n, b, c, kvs).

Lemma drop_account_root_eq kvs :
  drop_account_root (unzip kvs) = unzip (take_first (fun kv => isAccountRoot kv.1) kvs).2.
Proof.
  unfold drop_account_root. unfold unzip at 1. cbn [fst].
  destruct (first_key_cases isAccountRoot kvs) as [[-> ->]|(i & kv & r & -> & -> & _ & _ & Hr)]; done.
Qed.

Lemma UpdateAccountStorageTrie_eq kvs l a t s en eb ec rest n b c h dbs :
  es_accounts s !! l = Some a -> storageTrie a = Some t -> backed (es_triedb s) t ->
  plan kvs = (en, eb, ec, rest) ->
  field Value_uint64 en (Nonce (state a)) = Some n ->
  field Value_uint256 eb (Balance (state a)) = Some b ->
  code_step ec a (es_dbs s) = Some (c, h, dbs) -> slots_ok rest ->
  exists t', backed (es_triedb s) t' /\
    trie_map t' = fold_left trie_put (map slot rest) (trie_map t) /\
    UpdateAccountStorageTrie (map fst kvs) (map snd kvs) l s =
      Ret (None, with_dbs dbs (put_account l
        (MkAccount (addr a) (MkStateAccount n b (trie_Hash t') h) c (Some t') (backend a) (acct_err a)
          (0 <? length rest)) s)).
Proof.
  intros Ha Ht Hb Hp Hn Hbal Hc Hs. unfold plan in Hp.
  set (r0 := (take_first _ kvs).2) in Hp.
  destruct (take_first (is_field PATH_NONCE) r0) as [en' r1] eqn:E1.
  destruct (take_first (is_field PATH_BALANCE) r1) as [eb' r2] eqn:E2.
  destruct (take_first (is_field PATH_CODE) r2) as [ec' r3] eqn:E3. simplify_eq.
  unfold UpdateAccountStorageTrie. change (map fst kvs, map snd kvs) with (unzip kvs).
  rewrite drop_account_root_eq. fold r0.
  gby (by eapply (update_nonce_eq l a s)).
  set (a1 := set_state (set_Nonce n) a).
  gby (eapply (update_balance_eq l a1); [apply put_account_lookup|exact E2|exact Hbal]).
  rewrite put_account_twice. set (a2 := set_state (set_Balance b) a1).
  gby (eapply (update_code_eq l a2); [apply put_account_lookup|exact E3|]; exact Hc).
  rewrite put_account_twice. set (a3 := set_state (set_CodeHash h) (set_code c a2)).
  destruct (update_trie_eq l a3 t (with_dbs dbs (put_account l a3 s)) rest)
    as (t' & Hb' & Hm & E); [apply put_account_lookup|exact Ht|exact Hb|exact Hs|].
  exists t'. split; [exact Hb'|]. split; [exact Hm|]. rewrite E. f_equal. f_equal.
  change (with_dbs dbs (put_account l (set_state (set_Root (trie_Hash t'))
    (set_trie (Some t') (set_dirty (0 <? length rest) a3))) (put_account l a3 s)) =
    with_dbs dbs (put_account l (MkAccount (addr a) (MkStateAccount n b (trie_Hash t') h) c (Some t')
      (backend a) (acct_err a) (0 <? length rest)) s)).
  by rewrite put_account_twice.
Qed.

(** ** Committing a trie *)
Definition keeps (d d' : triedb) : Prop :=
  (forall t, backed d t -> backed d' t) /\ (forall r m, stored d r m -> stored d' r m).
Lemma keeps_refl d : keeps d d.
Proof. done. Qed.
Lemma keeps_trans d d' d'' : keeps d d' -> keeps d' d'' -> keeps d d''.
Proof. intros [H1 H2] [H3 H4]. split; auto. Qed.

Lemma Commit_trie_eq t block b s : backed (es_triedb s) t ->
  exists root t' err d', keeps (es_triedb s) d' /\
    EthShardTrieDB_Commit t block (Some b) s = Ret ((root, t', err), with_triedb d' s) /\
    match err with
    | Some _ => t' = None
    | None => root = trie_Hash t /\ stored d' root (trie_map t) /\
        exists t1, t' = Some t1 /\ backed d' t1 /\ trie_map t1 = trie_map t
    end.
Proof.
  intros Hb. unfold EthShardTrieDB_Commit.
  assert (Hid : with_triedb (es_triedb s) s = s) by by destruct s.
  destruct (trie_Commit t) as [[root nodes] [e|]] eqn:E.
  - eexists _, None, _, (es_triedb s). split; [apply keeps_refl|]. rewrite Hid.
    unfold errors_Join. by split.
  - destruct (Commit_map _ _ _ _ Hb E) as [Hr Hn].
    assert (Hend : forall d', keeps (es_triedb s) d' -> stored d' root (trie_map t) ->
      exists root0 t' err d0, keeps (es_triedb s) d0 /\
        (let! _ := gsome (Some b) in
         let! s0 := gget in
         let '(newTrie, err) := trie_NewParallel root (es_triedb s0) in
         gret (root, newTrie, match err with
                              | Some _ => errors_Join (Some "ethmpt.NewParallel:") err
                              | None => None end)) (with_triedb d' s) =
          Ret ((root0, t', err), with_triedb d0 s) /\
        match err with
        | Some _ => t' = None
        | None => root0 = trie_Hash t /\ stored d0 root0 (trie_map t) /\
            exists t1, t' = Some t1 /\ backed d0 t1 /\ trie_map t1 = trie_map t
        end).
    { intros d' Hk Hst. destruct Hst as [H1 (t1 & H2 & Hb1 & Hm1)].
      exists root, (Some t1), None, d'. split; [done|]. split; [|split; [done|]; split; [|by exists t1]].
      - cbn [gsome]. gsteps. cbn [es_triedb with_triedb]. by rewrite H2.
      - split; [done|]. by exists t1. }
    destruct nodes as [n|].
    + gsteps. cbn [gsome]. gsteps.
      destruct (triedb_Update root block n (es_triedb s)) as [err d'] eqn:Eu. gsteps.
      pose proof (Update_keeps _ _ _ _ _ _ Eu) as Hk. destruct err as [e|].
      * eexists _, None, _, d'. split; [done|]. unfold errors_Join. by split.
      * apply Hend; [done|]. by eapply Hn.
    + gsteps. specialize (Hend (es_triedb s) (keeps_refl _) Hn). rewrite Hid in Hend. exact Hend.
Qed.

(** Committing an account that can reach the database: what it holds is kept,
    or there was an error and its storage trie is gone. *)
Lemma Account_Commit_eq l a t b block s :
  es_accounts s !! l = Some a -> storageTrie a = Some t -> backed (es_triedb s) t ->
  backend a = Some b ->
  exists err t' d', keeps (es_triedb s) d' /\
    Account_Commit block l s =
      Ret (err, with_triedb d' (put_account l (set_dirty false (set_trie t' a)) s)) /\
    match err with
    | Some _ => t' = None
    | None => (trieDirty a = true -> stored d' (trie_Hash t) (trie_map t)) /\
        exists t1, t' = Some t1 /\ backed d' t1 /\ trie_map t1 = trie_map t
    end.
Proof.
  intros Ha Ht Hb Hbk. unfold Account_Commit. gstep (deref_eq _ _ _ Ha).
  destruct (trieDirty a) eqn:Hd.
  - gstep (gsome_eq _ _ s Ht). rewrite Hbk.
    destruct (Commit_trie_eq t block b s Hb) as (root & t' & err & d' & Hk & E & Hr).
    exists err, t', d'. split; [done|]. split; [|by destruct err; [|destruct Hr as (-> & ? & ?)]].
    gstep E. gby (apply update_account_eq; exact Ha). gby (apply update_account_eq, put_account_lookup).
    rewrite put_account_twice. done.
  - exists None, (Some t), (es_triedb s). split; [apply keeps_refl|]. split; [|by split; [|exists t]].
    assert (Ea : set_dirty false (set_trie (Some t) a) = a)
      by (destruct a; cbn in *; by subst). rewrite Ea.
    rewrite put_account_id by done. by destruct s.
Qed.

(** ** What an update does *)
Lemma plan_incl kvs en eb ec rest kv : plan kvs = (en, eb, ec, rest) -> kv ∈ rest -> kv ∈ kvs.
Proof.
  unfold plan. intros Hp Hin.
  assert (Hsub : forall (p : Entry -> bool) xs, kv ∈ (take_first p xs).2 -> kv ∈ xs).
  { intros p xs. destruct (take_first_spec p xs) as [[-> _]|(x1 & x & x2 & -> & -> & _)]; [done|].
    cbn. rewrite !elem_of_app, elem_of_cons. tauto. }
  set (r0 := (take_first _ kvs).2) in Hp.
  destruct (take_first (is_field PATH_NONCE) r0) as [? r1] eqn:E1.
  destruct (take_first (is_field PATH_BALANCE) r1) as [? r2] eqn:E2.
  destruct (take_first (is_field PATH_CODE) r2) as [? r3] eqn:E3. simplify_eq.
  apply (Hsub (fun kv => isAccountRoot kv.1)). fold r0. eapply (Hsub (is_field PATH_NONCE)). rewrite E1.
  eapply (Hsub (is_field PATH_BALANCE)). cbn. rewrite E2. eapply (Hsub (is_field PATH_CODE)).
  cbn. by rewrite E3.
Qed.

(** A path that is none of the account's fields is written to its slot. *)
Lemma plan_slot k v : isAccountRoot k = false -> HasSuffix k PATH_NONCE = false ->
  HasSuffix k PATH_BALANCE = false -> HasSuffix k PATH_CODE = false ->
  plan [(k, v)] = (None, None, None, [(k, v)]).
Proof.
  intros H1 H2 H3 H4. unfold plan, is_field. cbn [take_first fst snd]. rewrite H1. cbn [take_first fst snd].
  rewrite H2. cbn [take_first fst snd]. rewrite H3. cbn [take_first fst snd]. by rewrite H4.
Qed.

(** C15: an update of an account takes the first entry whose path ends in /nonce,
    /balance and /code into the account record, saves the code under its hash,
    writes every other entry but the account's own path to its slot of the
    storage trie, an empty encoding being a deletion, and changes no other
    slot.  The record gets the new root, and the account is marked for the
    commit exactly when some slot was written. *)
Theorem UpdateAccountStorageTrie_spec kvs l a t s en eb ec rest n b c h dbs :
  es_accounts s !! l = Some a -> storageTrie a = Some t -> backed (es_triedb s) t ->
  plan kvs = (en, eb, ec, rest) ->
  field Value_uint64 en (Nonce (state a)) = Some n ->
  field Value_uint256 eb (Balance (state a)) = Some b ->
  code_step ec a (es_dbs s) = Some (c, h, dbs) -> slots_ok rest ->
  exists t',
    UpdateAccountStorageTrie (map fst kvs) (map snd kvs) l s =
      Ret (None, with_dbs dbs (put_account l
        (MkAccount (addr a) (MkStateAccount n b (trie_Hash t') h) c (Some t') (backend a) (acct_err a)
          (0 <? length rest)) s)) /\
    (forall k v, (k, v) ∈ rest -> trie_map t' !! slot_key k = written (slot_value v)) /\
    (forall k, k ∉ map (fun kv => slot_key kv.1) rest -> trie_map t' !! k = trie_map t !! k).
Proof.
  intros Ha Ht Hb Hp Hn Hbal Hc Hs.
  destruct (UpdateAccountStorageTrie_eq _ _ _ _ _ _ _ _ _ _ _ _ _ _ Ha Ht Hb Hp Hn Hbal Hc Hs)
    as (t' & _ & Hm & E).
  assert (Hfst : map fst (map slot rest) = map (fun kv => slot_key kv.1) rest) by by rewrite map_map.
  exists t'. split; [exact E|]. rewrite Hm. split.
  - intros k v Hin. apply (trie_puts_lookup _ _ _ (slot_value v)); [rewrite Hfst; apply Hs|].
    change (slot_key k, slot_value v) with (slot (k, v)). by apply list_elem_of_fmap; eexists.
  - intros k Hk. apply trie_puts_other. by rewrite Hfst.
Qed.

(** A value without an RLP encoding (a negative integer) deletes the slot it
    is written to, and the update reports success. *)
Theorem unencodable_deletes k v l a t s e :
  es_accounts s !! l = Some a -> storageTrie a = Some t -> backed (es_triedb s) t ->
  isAccountRoot k = false -> HasSuffix k PATH_NONCE = false -> HasSuffix k PATH_BALANCE = false ->
  HasSuffix k PATH_CODE = false -> ToStorageKey k <> Panic ->
  RlpCodec_Encode k (Some (VCrdt v)) = Ret (inr e) ->
  exists s' a' t', UpdateAccountStorageTrie [k] [Some v] l s = Ret (None, s') /\
    es_accounts s' !! l = Some a' /\ storageTrie a' = Some t' /\ trie_map t' !! slot_key k = None.
Proof.
  intros Ha Ht Hb H1 H2 H3 H4 Hk Hv.
  pose proof (plan_slot k (Some v) H1 H2 H3 H4) as Hp.
  destruct (UpdateAccountStorageTrie_eq [(k, Some v)] l a t s None None None _ _ _ _ _ _ Ha Ht Hb Hp
    eq_refl eq_refl eq_refl) as (t' & _ & Hm & E).
  { split; [by constructor|]. apply NoDup_singleton. }
  eexists _, _, t'. split; [exact E|]. split; [apply lookup_insert_eq|]. split; [done|].
  rewrite Hm. cbn [map fold_left]. rewrite trie_put_lookup, decide_True by done.
  assert (Hr : RlpCodec_Encode "" (Some (VCrdt v)) = Ret (inr e)) by (by rewrite <- Hv).
  unfold slot, slot_value. cbn [snd]. by rewrite Hr.
Qed.

(** Any path under an account that ends in /balance is taken for its balance,
    whatever container it is in: the value replaces the balance and no slot is
    written; and a value of another type makes the update panic. *)
Theorem balance_by_suffix k v l a t s :
  es_accounts s !! l = Some a -> storageTrie a = Some t -> backed (es_triedb s) t ->
  isAccountRoot k = false -> HasSuffix k PATH_NONCE = false -> HasSuffix k PATH_BALANCE = true ->
  match Value_uint256 v with
  | Some b => exists s' a' t', UpdateAccountStorageTrie [k] [Some v] l s = Ret (None, s') /\
      es_accounts s' !! l = Some a' /\ Balance (state a') = b /\
      storageTrie a' = Some t' /\ trie_map t' = trie_map t
  | None => UpdateAccountStorageTrie [k] [Some v] l s = Panic
  end.
Proof.
  intros Ha Ht Hb H1 H2 H3. destruct (Value_uint256 v) as [b|] eqn:Hv.
  - assert (Hp : plan [(k, Some v)] = (None, Some (k, Some v), None, [])).
    { unfold plan, is_field. cbn [take_first fst snd]. rewrite H1. cbn [take_first fst snd].
      rewrite H2. cbn [take_first fst snd]. by rewrite H3. }
    destruct (UpdateAccountStorageTrie_eq [(k, Some v)] l a t s None _ None _ _ b _ _ _ Ha Ht Hb Hp
      eq_refl Hv eq_refl) as (t' & _ & Hm & E); [by split; constructor|].
    eexists _, _, t'. split; [exact E|]. split; [apply lookup_insert_eq|]. done.
  - unfold UpdateAccountStorageTrie. change ([k], [Some v]) with (unzip [(k, Some v)]).
    rewrite drop_account_root_eq. cbn [take_first fst]. rewrite H1. cbn [snd].
    gby (eapply (update_nonce_eq l a s _ None [(k, Some v)]); [exact Ha| |reflexivity];
         unfold is_field; cbn [take_first fst]; by rewrite H2).
    rewrite gbind_panic; [done|]. unfold update_balance.
    destruct (first_key_cases (fun k => HasSuffix k PATH_BALANCE) [(k, Some v)])
      as [[_ E]|(i & kv & r & E1 & E & _ & Hi & _)]; cbn [take_first fst] in E; rewrite H3 in E; [done|]. simplify_eq.
    unfold unzip at 1. cbn [fst]. rewrite E1.
    gstep (typed_at_eq i (unzip [(k, Some v)]) v
      (put_account l (set_state (set_Nonce (Nonce (state a))) a) s) Hi).
    apply gbind_panic. by rewrite Hv.
Qed.

(** The mark of an account is that of its last update: when slots were
    written in one generation of a block and only the nonce in the next, the
    commit of the block writes nothing to the trie database. *)
Theorem trieDirty_overwritten block kvs l a t s en eb ec n b c h dbs :
  es_accounts s !! l = Some a -> storageTrie a = Some t -> backed (es_triedb s) t ->
  trieDirty a = true ->
  plan kvs = (en, eb, ec, []) ->
  field Value_uint64 en (Nonce (state a)) = Some n ->
  field Value_uint256 eb (Balance (state a)) = Some b ->
  code_step ec a (es_dbs s) = Some (c, h, dbs) ->
  exists s' s'', UpdateAccountStorageTrie (map fst kvs) (map snd kvs) l s = Ret (None, s') /\
    Account_Commit block l s' = Ret (None, s'') /\ s'' = s' /\ es_triedb s'' = es_triedb s.
Proof.
  intros Ha Ht Hb Hd Hp Hn Hbal Hc.
  destruct (UpdateAccountStorageTrie_eq _ _ _ _ _ _ _ _ _ _ _ _ _ _ Ha Ht Hb Hp Hn Hbal Hc)
    as (t' & _ & _ & E); [by split; constructor|].
  eexists _, _. split; [exact E|]. split; [|by split].
  unfold Account_Commit. gby (apply deref_eq; apply lookup_insert_eq). done.
Qed.
End theory.
