(* ===== verification/EthWorldTheory.v ===== *)
(** * Theory of the world state

    The invariant of the Ethereum store, what it shows of an account, and what
    the steps of a generation and of a block do to it. *)
From S2P Require Import Prelude GoString Interfaces Heap Paths Codec CodecTheory EthLib EthAccount EthAccountTheory EthWorldState.
Import Constants PathTypes.

(** No two addresses have the same hash. *)
Class AddressLaws `{CryptoLib} `{EthCommonLib} : Prop := {
  BytesToAddress_length : forall b, length (BytesToAddress b) = 20;
  BytesToAddress_id : forall b, length b = 20 -> BytesToAddress b = b;
  Keccak_address_inj : forall a b, length a = 20 -> length b = 20 ->
    Keccak256 a = Keccak256 b -> a = b;
}.
(** A disk that takes every write. *)
Class DBWrites {DB} (D : DBLib DB) : Prop := {
  db_Put_ok : forall k v d, (db_Put k v d).1 = None;
}.

(** ** What the store shows of an account *)
Record AccountView := MkView {
  v_nonce : Z;
  v_balance : Z;
  v_codehash : bytes;
  v_code : option bytes;
  v_slots : gmap bytes bytes;
}.

Section theory.
Context `{CT : CrdtTypes} `{TT : TrieTypes} `{RL : !RlpLib} `{FI : FixedInt} `{UI : Uint256}
  `{CV : !CrdtValues} `{SL : SliceLib} `{SLL : !SliceLaws SL} `{ML : MapLib} `{MLW : !MapLaws ML}
  `{ES : EthSliceLib} `{ESL : !EthSliceLaws ES} `{CrL : CryptoLib} `{EC : EthCommonLib}
  `{AL : !AddressLaws} `{SA : StateAccountLib} `{SAL : !StateAccountLaws SA} `{TL : !TrieLib}
  {DB : Type} `{DL : !DBLib DB} `{DW : !DBWrites DL} `{MD : !DBLib memorydb}
  `{TS : !TrieSpec} `{TLW : !TrieLaws TS}.
Abbreviation Entry := (string * option Codec.crdt)%type.
Implicit Types (e : EthState DB) (l : loc) (a : Account) (kvs : list Entry) (ad : bytes).

Definition view a : AccountView :=
  MkView (Nonce (state a)) (Balance (state a)) (CodeHash (state a)) (code a)
    (match storageTrie a with Some t => trie_map t | None => ∅ end).
Definition empty_view : AccountView :=
  MkView (Nonce EmptyAccountState) (Balance EmptyAccountState) (CodeHash EmptyAccountState) None ∅.
Definition view_in_range (v : AccountView) : Prop :=
  (0 <= v_nonce v < 2 ^ 64 /\ 0 <= v_balance v < 2 ^ 256)%Z.

(** The specification of an update. *)
Definition apply_entries kvs (v : AccountView) : option AccountView :=
  let '(en, eb, ec, rest) := plan kvs in
  n ← field Value_uint64 en (v_nonce v);
  b ← field Value_uint256 eb (v_balance v);
  ch ← match ec with
       | None => Some (v_code v, v_codehash v)
       | Some (_, w) => w ← w; c ← Value_bytes w; Some (Some c, Hash c)
       end;
  Some (MkView n b ch.2 ch.1 (fold_left trie_put (map slot rest) (v_slots v))).
(** The slots an update writes are different ones, and their names can be
    read. *)
Definition entries_ok kvs : Prop := let '(_, _, _, rest) := plan kvs in slots_ok rest.

(** An account after an update: also, whether it is marked for the commit. *)
Definition marks kvs : bool := let '(_, _, _, rest) := plan kvs in 0 <? length rest.
Definition updated kvs a a' : Prop :=
  apply_entries kvs (view a) = Some (view a') /\ (kvs <> [] -> trieDirty a' = marks kvs).

Lemma apply_entries_nil v : apply_entries [] v = Some v.
Proof. by destruct v. Qed.

(** ** The invariant *)
Definition account_ok e ad a : Prop :=
  addr a = ad /\ backend a = Some (trieDB (es_world e)) /\ state_in_range (state a) /\
  exists t, storageTrie a = Some t /\ backed (es_triedb e) t /\ Root (state a) = trie_Hash t.
Definition cached e ad : option Account := accountCache (es_world e) !! ad ≫= fun l => es_accounts e !! l.
Definition disks_ok e : Prop :=
  length (diskShardDBs (trieDB (es_world e))) = 16 /\
  forall h, h ∈ diskShardDBs (trieDB (es_world e)) -> is_Some (es_dbs e !! h).
Definition accounts_ok e : Prop :=
  forall ad l, accountCache (es_world e) !! ad = Some l ->
    length ad = 20 /\ exists a, es_accounts e !! l = Some a /\ account_ok e ad a.
(** The world trie holds the records of the cached accounts, and no other. *)
Definition world_ok e : Prop :=
  exists wt, worldStateTrie (es_world e) = Some wt /\ backed (es_triedb e) wt /\
    forall ad, length ad = 20 -> trie_map wt !! Keccak256 ad = Account_Encode <$> cached e ad.
Definition eth_wf e : Prop := disks_ok e /\ accounts_ok e /\ world_ok e.

(** What the store shows at an address: nothing, or a cached account. *)
Definition view_at e ad : option AccountView := view <$> cached e ad.
Lemma record_of_view e wt ad vw : eth_wf e -> worldStateTrie (es_world e) = Some wt ->
  view_at e ad = Some vw ->
  exists a, view a = vw /\ trie_map wt !! Keccak256 ad = Some (Account_Encode a).
Proof.
  intros (_ & Hacc & wt2 & Hwt2 & _ & Hmap) Hwt Hv. assert (wt2 = wt) as -> by congruence.
  unfold view_at, cached in Hv. destruct (accountCache (es_world e) !! ad) as [l|] eqn:Hc; [|done].
  destruct (Hacc ad l Hc) as (Hl & a & Ha & _). cbn in Hv. rewrite Ha in Hv. exists a.
  split; [by apply (inj Some) in Hv|]. rewrite Hmap by done. unfold cached. rewrite Hc. cbn. by rewrite Ha.
Qed.

(** ** One update *)
Definition frame e e' : Prop :=
  es_triedb e' = es_triedb e /\ es_world e' = es_world e /\
  forall h, is_Some (es_dbs e !! h) -> is_Some (es_dbs e' !! h).
Lemma frame_refl e : frame e e.
Proof. done. Qed.
Lemma frame_trans e1 e2 e3 : frame e1 e2 -> frame e2 e3 -> frame e1 e3.
Proof. intros (H1 & H2 & H3) (H4 & H5 & H6). split; [congruence|]. split; [congruence|]. auto. Qed.
Lemma frame_disks e e' : frame e e' -> disks_ok e -> disks_ok e'.
Proof. intros (_ & Hw & Hd) [H1 H2]. split; rewrite Hw; [done|]. intros h Hh. by apply Hd, H2. Qed.
Lemma frame_account e e' ad a : frame e e' -> account_ok e ad a -> account_ok e' ad a.
Proof. intros (Ht & Hw & _) H. unfold account_ok in *. by rewrite Ht, Hw. Qed.

Lemma ShardFromKey_ok k (b : EthShardTrieDB) : length (diskShardDBs b) = 16 ->
  exists h, ShardFromKey k b = Some h /\ h ∈ diskShardDBs b.
Proof.
  intros Hl. assert (Hi : forall i, i < 16 -> exists h, diskShardDBs b !! i = Some h /\ h ∈ diskShardDBs b).
  { intros i Hi. destruct (lookup_lt_is_Some_2 (diskShardDBs b) i) as [h Hh]; [by rewrite Hl|].
    exists h. split; [done|]. by eapply list_elem_of_lookup_2. }
  destruct k as [|c k]; cbn [ShardFromKey]; apply Hi; [lia|].
  pose proof (N_ascii_bounded c) as Hb.
  assert (Hs : (0 <= Z.shiftr (Z.of_N (N_of_ascii c)) 4 < 16)%Z).
  { rewrite Z.shiftr_div_pow2 by lia. change (2 ^ 4)%Z with 16%Z.
    split; [apply Z.div_pos; lia|]. apply Z.div_lt_upper_bound; lia. }
  lia.
Qed.

Lemma update_one kvs l a ad e v' :
  disks_ok e -> es_accounts e !! l = Some a -> account_ok e ad a ->
  apply_entries kvs (view a) = Some v' -> view_in_range v' -> entries_ok kvs ->
  exists e' a', UpdateAccountStorageTrie (map fst kvs) (map snd kvs) l e = Ret (None, e') /\
    frame e e' /\ es_accounts e' = <[l := a']> (es_accounts e) /\ account_ok e' ad a' /\ view a' = v' /\
    trieDirty a' = marks kvs.
Proof.
  intros [Hd1 Hd2] Ha (Had & Hbk & Hr & t & Ht & Hb & Hroot) Hap Hvr Hok.
  unfold apply_entries, entries_ok, marks in *. remember (view a) as v eqn:Ev.
  destruct (plan kvs) as [[[en eb] ec] rest] eqn:Hp.
  destruct (field Value_uint64 en (v_nonce v)) as [n|] eqn:Hn; [|done]. cbn in Hap.
  destruct (field Value_uint256 eb (v_balance v)) as [b|] eqn:Hbal; [|done]. cbn in Hap.
  assert (Hc : exists c h dbs, code_step ec a (es_dbs e) = Some (c, h, dbs) /\
    Some (MkView n b h c (fold_left trie_put (map slot rest) (v_slots v))) = Some v' /\
    (forall h, is_Some (es_dbs e !! h) -> is_Some (dbs !! h))).
  { destruct ec as [[k w]|]; [|subst v; by exists (code a), (CodeHash (state a)), (es_dbs e)].
    destruct w as [w|]; [|done]. cbn in Hap. unfold code_step. cbn.
    destruct (Value_bytes w) as [c|] eqn:Ec; [|done]. cbn in Hap |- *. rewrite Hbk. cbn.
    destruct (ShardFromKey_ok k (trieDB (es_world e)) Hd1) as (h & -> & Hh). cbn.
    destruct (Hd2 h Hh) as [d Hd]. rewrite Hd. cbn.
    pose proof (db_Put_ok (Hash c) c d) as Hput. destruct (db_Put (Hash c) c d) as [err d'].
    cbn in Hput. subst err. eexists _, _, _. split; [done|]. split; [done|].
    intros h' Hh'. destruct (decide (h = h')) as [->|Hne];
      [rewrite lookup_insert_eq|rewrite lookup_insert_ne]; eauto. }
  destruct Hc as (c & h & dbs & Hc & [= <-] & Hdbs). subst v.
  destruct (UpdateAccountStorageTrie_eq _ _ _ _ _ _ _ _ _ _ _ _ _ _ Ha Ht Hb Hp Hn Hbal Hc Hok)
    as (t' & Hb' & Hm & E).
  eexists _, _. split; [exact E|]. split; [by split|]. split; [done|]. split.
  - split; [done|]. split; [done|]. split; [exact Hvr|]. exists t'. by split.
  - split; [|done]. unfold view. cbn. rewrite Hm, Ht. done.
Qed.

(** ** Opening an account *)
Lemma GetAccount_cached ad l (w : EthWorldState) e : length ad = 20 ->
  accountCache w !! ad = Some l -> GetAccount ad w e = Ret ((Some l, None), e).
Proof. intros Hl Hc. unfold GetAccount. by rewrite Hl, Hc. Qed.
Lemma GetAccount_missing ad e : eth_wf e -> length ad = 20 ->
  accountCache (es_world e) !! ad = None -> GetAccount ad (es_world e) e = Ret ((None, None), e).
Proof.
  intros (_ & _ & wt & Hwt & Hb & Hm) Hl Hc. unfold GetAccount. rewrite Hl, Hc. cbn [Nat.eqb].
  gstep (gsome_eq _ _ e Hwt). rewrite (Get_map _ _ _ Hb), Hm by done. unfold cached. by rewrite Hc.
Qed.

(** [Preload] gives the cached account of an address or a new, empty one. *)
Lemma Preload_eq b e (ad := BytesToAddress b) : eth_wf e ->
  exists l e' a, Preload b e = Ret (l, e') /\ frame e e' /\ es_dbs e' = es_dbs e /\
    (forall l0, is_Some (es_accounts e !! l0) -> es_accounts e' !! l0 = es_accounts e !! l0) /\
    es_accounts e' !! l = Some a /\ account_ok e' ad a /\
    match accountCache (es_world e) !! ad with
    | Some l' => l = l' /\ e' = e
    | None => view a = empty_view /\ es_accounts e !! l = None
    end.
Proof.
  intros Hwf. pose proof (BytesToAddress_length b) as Hl. fold ad in Hl.
  unfold Preload, get_world. fold ad. gsteps.
  destruct (accountCache (es_world e) !! ad) as [l|] eqn:Hc.
  - gstep (GetAccount_cached _ _ (es_world e) e Hl Hc).
    destruct (proj1 (proj2 Hwf) ad l Hc) as (_ & a & Ha & Hok).
    exists l, e, a. split; [done|]. split; [apply frame_refl|]. by do 4 (split; [done|]).
  - gstep (GetAccount_missing _ e Hwf Hl Hc).
    destruct (stored_empty (es_triedb e)) as [_ (t & Et & Hb & Hm)].
    unfold NewAccountWithSharedCache, LoadTrie. cbn [gsome]. gsteps. cbn [Root EmptyAccountState].
    rewrite Et. gsteps.
    set (a := MkAccount ad EmptyAccountState None (Some t) (Some (trieDB (es_world e))) None false).
    assert (Hf : es_accounts e !! fresh (dom (es_accounts e)) = None)
      by (apply not_elem_of_dom, is_fresh).
    eexists (fresh (dom (es_accounts e))), (put_account _ a e), a.
    split; [apply alloc_ret; by split|]. split; [by split|]. split; [done|].
    split; [|split; [apply lookup_insert_eq|]].
    + intros l0 [a0 Ha0]. cbn. rewrite lookup_insert_ne; [done|]. intros <-. congruence.
    + split; [|split; [|done]].
      * split; [done|]. split; [done|]. split; [by repeat split|]. exists t. split; [done|].
        split; [done|]. cbn. by rewrite Hash_empty.
      * unfold view, empty_view. cbn. by rewrite Hm.
Qed.

Lemma wf_extend e e' : frame e e' ->
  (forall l, is_Some (es_accounts e !! l) -> es_accounts e' !! l = es_accounts e !! l) ->
  eth_wf e -> eth_wf e'.
Proof.
  intros Hf Hex (Hd & Ha & Hw). pose proof Hf as (Ht & Hwd & _).
  split; [by eapply frame_disks|]. split.
  - intros ad l Hc. rewrite Hwd in Hc. destruct (Ha ad l Hc) as (Hl & a & Hla & Hok).
    split; [done|]. exists a. split; [rewrite Hex; eauto|by eapply frame_account].
  - destruct Hw as (wt & Hwt & Hb & Hm). exists wt. rewrite Hwd, Ht. split; [done|]. split; [done|].
    intros ad Hl. rewrite Hm by done. f_equal. unfold cached. rewrite Hwd.
    destruct (accountCache (es_world e) !! ad) as [l|] eqn:Hc; [|done]. cbn.
    destruct (Ha ad l Hc) as (_ & a & Hla & _). symmetry. apply Hex. eauto.
Qed.

Lemma view_extend e e' ad : frame e e' ->
  (forall l, is_Some (es_accounts e !! l) -> es_accounts e' !! l = es_accounts e !! l) ->
  eth_wf e -> view_at e' ad = view_at e ad.
Proof.
  intros (_ & Hwd & _) Hex (_ & Ha & _). unfold view_at, cached. rewrite Hwd.
  destruct (accountCache (es_world e) !! ad) as [l|] eqn:Hc; [|done]. cbn.
  destruct (Ha ad l Hc) as (_ & a & Hla & _). rewrite Hex; eauto.
Qed.

(** ** The account cache *)
Definition cache_locs e : list loc := map snd (map_to_list (accountCache (es_world e))).
Lemma elem_of_cache_locs e l : l ∈ cache_locs e <-> exists ad, accountCache (es_world e) !! ad = Some l.
Proof.
  unfold cache_locs. split.
  - intros ([ad l'] & -> & H)%list_elem_of_fmap. apply elem_of_map_to_list in H. by exists ad.
  - intros [ad H]. apply list_elem_of_fmap. exists (ad, l). split; [done|]. by apply elem_of_map_to_list.
Qed.
Lemma cache_accounts_eq (ps : list (bytes * loc)) e :
  (forall ad l, (ad, l) ∈ ps -> exists a, es_accounts e !! l = Some a /\ addr a = ad) ->
  gforeach (fun l => let! a := deref l in
      modify_world (fun w => set_accountCache (<[addr a := l]> (accountCache w)) w)) (map snd ps) e =
    Ret (tt, with_world (set_accountCache
      (fold_left (fun c (p : bytes * loc) => <[p.1 := p.2]> c) ps (accountCache (es_world e)))
      (es_world e)) e).
Proof.
  revert e. induction ps as [|[ad l] ps IH]; intros e Hps.
  - cbn. unfold gret. by destruct e as [? ? ? []].
  - cbn [map gforeach snd]. destruct (Hps ad l) as (a & Ha & Had); [by left|].
    rewrite gbind_assoc. gstep (deref_eq _ _ _ Ha). unfold modify_world at 1. gsteps.
    rewrite Had. rewrite IH; [|by intros ad' l' H; apply (Hps ad' l'); right].
    done.
Qed.
Lemma fold_insert_pairs (ps : list (bytes * loc)) (c : gmap bytes loc) ad :
  NoDup (map fst ps) ->
  fold_left (fun c (p : bytes * loc) => <[p.1 := p.2]> c) ps c !! ad =
    match list_to_map (M := gmap bytes loc) ps !! ad with Some l => Some l | None => c !! ad end.
Proof.
  revert c. induction ps as [|[ad' l] ps IH]; intros c Hnd; cbn [map fold_left fst snd list_to_map foldr uncurry].
  - by rewrite lookup_empty.
  - cbn in Hnd. apply NoDup_cons in Hnd as [Hn Hnd]. rewrite IH by done. cbn.
    destruct (decide (ad' = ad)) as [->|Hne].
    + rewrite !lookup_insert_eq. by rewrite not_elem_of_list_to_map_1 by done.
    + rewrite !lookup_insert_ne by done. done.
Qed.

(** ** The world trie *)
Lemma Account_Encode_some a : state_in_range (state a) -> written (Account_Encode a) = Some (Account_Encode a).
Proof.
  intros Hr. destruct (StateAccount_roundtrip (state a) Hr) as (b & E & Hne & _).
  unfold Account_Encode. rewrite E. by destruct b.
Qed.

Lemma WriteWorldTrie_eq (ps : list (bytes * loc)) e wt :
  worldStateTrie (es_world e) = Some wt -> backed (es_triedb e) wt ->
  NoDup (map fst ps) ->
  (forall ad l, (ad, l) ∈ ps -> length ad = 20 /\
     exists a, es_accounts e !! l = Some a /\ addr a = ad /\ state_in_range (state a)) ->
  exists wt', backed (es_triedb e) wt' /\
    WriteWorldTrie (map snd ps) e =
      Ret (trie_Hash wt', with_world (set_worldStateTrie (Some wt') (es_world e)) e) /\
    forall ad, length ad = 20 -> trie_map wt' !! Keccak256 ad =
      match list_to_map (M := gmap bytes loc) ps !! ad ≫= fun l => es_accounts e !! l with
      | Some a => Some (Account_Encode a)
      | None => trie_map wt !! Keccak256 ad
      end.
Proof.
  intros Hwt Hb Hnd Hps.
  set (acct l := default (MkAccount [] EmptyAccountState None None None None false) (es_accounts e !! l)).
  assert (Hacct : forall ad l, (ad, l) ∈ ps -> es_accounts e !! l = Some (acct l) /\ addr (acct l) = ad).
  { intros ad l Hin. destruct (Hps ad l Hin) as (_ & a & Ha & Had & _). unfold acct. by rewrite Ha. }
  set (ks := map (fun p => Keccak256 p.1) ps).
  set (vs := map (fun p : bytes * loc => Account_Encode (acct p.2)) ps).
  assert (Hnk : NoDup ks).
  { unfold ks. rewrite <- (map_map fst Keccak256). apply NoDup_fmap_2_strong; [|done].
    intros x y (px & -> & Hx)%list_elem_of_fmap (py & -> & Hy)%list_elem_of_fmap.
    destruct px as [x lx], py as [y ly]. destruct (Hps _ _ Hx), (Hps _ _ Hy).
    by apply Keccak_address_inj. }
  assert (Hlen : length ks = length vs) by (unfold ks, vs; by rewrite !length_map).
  destruct (Update_map _ _ ks vs Hb Hlen Hnk) as (errs & wt' & Eu & He & Hb' & Hm).
  assert (Hd : deref_all (map snd ps) e = Ret (map (fun p => (p.2, acct p.2)) ps, e)).
  { apply deref_all_ret. split; [done|]. clear -Hacct. induction ps as [|[ad l] ps IH]; cbn; constructor.
    - cbn. split; [done|]. eapply Hacct. by left.
    - apply IH. intros ad' l' H. apply Hacct. by right. }
  exists wt'. split; [done|]. split.
  - unfold WriteWorldTrie. gstep Hd. rewrite !map_map. cbn [fst snd].
    assert (Hks : map (fun p : bytes * loc => Keccak256 (addr (acct p.2))) ps = ks).
    { unfold ks. apply map_ext_in. intros [ad l] Hin%list_elem_of_In. cbn. f_equal.
      by eapply Hacct. }
    rewrite Hks. fold vs. unfold get_world. gsteps. gstep (gsome_eq _ _ e Hwt). rewrite Eu.
    unfold join_dbErr, modify_world. gsteps. rewrite errors_Joins_None by done.
    unfold gret. do 2 f_equal. unfold with_world, set_dbErr, set_worldStateTrie. cbn. do 2 f_equal.
    by destruct (dbErr (es_world e)).
  - intros ad Had. rewrite Hm. unfold trie_puts.
    assert (Hc : combine ks vs = map (fun p : bytes * loc => (Keccak256 p.1, Account_Encode (acct p.2))) ps).
    { unfold ks, vs. clear. induction ps as [|p ps IH]; [done|]. cbn. by rewrite IH. }
    rewrite Hc. assert (Hfst : map fst (map (fun p : bytes * loc => (Keccak256 p.1, Account_Encode (acct p.2))) ps) = ks)
      by by rewrite map_map.
    destruct (list_to_map (M := gmap bytes loc) ps !! ad) as [l|] eqn:El.
    + apply elem_of_list_to_map_2 in El. cbn [mbind option_bind]. destruct (Hacct _ _ El) as [-> _].
      rewrite (trie_puts_lookup _ _ _ (Account_Encode (acct l))); [|by rewrite Hfst|].
      * apply Account_Encode_some. destruct (Hps _ _ El) as (_ & a & Ha & _ & Hr).
        destruct (Hacct _ _ El) as [Ha' _]. rewrite Ha in Ha'. by injection Ha' as <-.
      * apply list_elem_of_fmap. by exists (ad, l).
    + cbn [mbind option_bind]. apply trie_puts_other. rewrite Hfst. unfold ks.
      intros ([ad' l'] & E & Hin)%list_elem_of_fmap. cbn in E.
      destruct (Hps _ _ Hin) as [Hl' _]. apply Keccak_address_inj in E; [|done|done]. subst ad'.
      apply not_elem_of_list_to_map in El. apply El. apply list_elem_of_fmap. by exists (ad, l').
Qed.

(** A new store is well-formed and shows no account, whatever its database
    holds. *)
Lemma new_state_wf (d0 : DB) d :
  let e := new_state (MkEthShardTrieDB (replicate 16 0), {[ 0 := d0 ]}, d) in
  eth_wf e /\ forall ad, view_at e ad = None.
Proof.
  intros e. destruct (NewEmpty_map d) as [Hb Hm].
  assert (Hc : forall ad, cached e ad = None) by (intros ad; unfold cached; cbn; by rewrite lookup_empty).
  split; [|intros ad; unfold view_at; by rewrite Hc].
  split; [split|split].
  - reflexivity.
  - intros h [-> _]%elem_of_replicate. by eexists.
  - intros ad l Hl. cbn in Hl. by rewrite lookup_empty in Hl.
  - eexists. split; [reflexivity|]. split; [exact Hb|]. intros ad _. rewrite Hc, Hm. by rewrite lookup_empty.
Qed.
Lemma new_store_wf : eth_wf (NewParallelEthMemDataStore : EthState DB) /\
  forall ad, view_at (NewParallelEthMemDataStore : EthState DB) ad = None.
Proof. apply new_state_wf. Qed.
Lemma leveldb_store_wf `{!LevelDBLib DB} dir e : NewLevelDBDataStore dir = Some e ->
  eth_wf e /\ forall ad, view_at e ad = None.
Proof.
  unfold NewLevelDBDataStore, NewEthShardLvlDB. destruct (rawdb_NewLevelDBDatabase dir) as [[d0 f]|]; [|done].
  intros [= <-]. apply new_state_wf.
Qed.

(** The root that [NewEthWorldState] is given is not used: the store it opens
    shows no account, whatever was committed in the directory before. *)
Theorem NewEthWorldState_ignores_root `{!LevelDBLib DB} rootHash dir :
  (NewEthWorldState rootHash dir : option (EthState DB)) = NewLevelDBDataStore dir /\
  forall e, NewEthWorldState rootHash dir = Some e -> forall ad, view_at e ad = None.
Proof. split; [done|]. intros e He. by apply (leveldb_store_wf dir). Qed.
End theory.
