(* ===== verification/EthWriterTheory.v ===== *)
(** * Theory of the Ethereum writer

    A generation: what its index holds after the import, and what the store
    shows once it is committed. *)
From S2P Require Import Prelude GoString Interfaces Heap Paths DeltaSequence Codec CodecTheory EthLib EthAccount EthAccountTheory EthWorldState EthWorldTheory EthWriter.
Import Constants PathTypes EthStorage.

Section theory.
Context `{CT : CrdtTypes} `{TT : TrieTypes} `{RL : !RlpLib} `{FI : FixedInt} `{UI : Uint256}
  `{CV : !CrdtValues} `{SL : SliceLib} `{SLL : !SliceLaws SL} `{ML : MapLib} `{MLW : !MapLaws ML}
  `{ES : EthSliceLib} `{ESL : !EthSliceLaws ES} `{IL : IndexerLib} `{ILL : !IndexerLaws IL}
  `{CrL : CryptoLib} `{EC : EthCommonLib}
  `{AL : !AddressLaws} `{SA : StateAccountLib} `{SAL : !StateAccountLaws SA} `{TL : !TrieLib}
  {DB : Type} `{DL : !DBLib DB} `{DW : !DBWrites DL} `{MD : !DBLib memorydb}
  `{TS : !TrieSpec} `{TLW : !TrieLaws TS}.
Context {S cell : Type} `{CL : CellLib Codec.crdt cell} `{CH : HeapLens S cell}
  `{CHL : !HeapLensLaws CH} `{EO : ObjLens S (EthState DB)} `{EOL : !ObjLensLaws EO}
  `{EI : !ObjIndep CH EO} `{KV : KVsLib S Codec.crdt} `{KVL : !KVsLaws KV}.
Abbreviation Entry := (string * option Codec.crdt)%type.
Abbreviation Writer := (EthStorageWriter cell).
Implicit Types (s : S) (e : EthState DB) (l : loc) (a : Account) (kvs : list Entry) (ad : bytes)
  (m : gmap bytes (loc * list loc)).
Abbreviation eth s := (obj_of s : EthState DB).

Lemma in_eth_eq {A} (f : Go (EthState DB) A) s x e' :
  f (eth s) = Ret (x, e') -> in_eth f s = Ret (x, with_obj e' s).
Proof. intros E. unfold in_eth. by rewrite E. Qed.

(** The entries behind the transitions of an account that have a path. *)
Definition ents s (ls : list loc) : list Entry := omap (fun l => heap_of s !! l ≫= cell_kv) ls.
(** Transitions whose values, where they have a path, are typed. *)
Definition cells_typed s (ls : list loc) : Prop :=
  forall l, l ∈ ls -> exists c, heap_of s !! l = Some c /\ (no_path c = true \/ is_Some (cell_kv c)).
Definition live s (ls : list loc) : list loc :=
  List.filter (fun l => negb (no_path (cell_at (heap_of s) l))) ls.

Lemma no_path_kv c : no_path c = true -> cell_kv c = None.
Proof. unfold no_path, cell_kv. by destruct (GetPath c). Qed.
Lemma live_ents s ls : cells_typed s ls ->
  Forall2 (fun l kv => (heap_of s !! l ≫= cell_kv) = Some kv) (live s ls) (ents s ls).
Proof.
  induction ls as [|l ls IH]; intros Ht; [constructor|].
  assert (IHls : Forall2 (fun l kv => (heap_of s !! l ≫= cell_kv) = Some kv) (live s ls) (ents s ls))
    by (apply IH; intros l' Hl'; apply Ht; by right).
  destruct (Ht l) as (c & Hc & Hn); [by left|]. unfold live, ents. cbn [List.filter omap list_omap].
  rewrite (cell_at_eq _ _ _ Hc), Hc. cbn [mbind option_bind]. destruct (no_path c) eqn:En.
  - rewrite no_path_kv by done. exact IHls.
  - destruct Hn as [|[kv Hkv]]; [done|]. rewrite Hkv. constructor; [|exact IHls].
    rewrite Hc. exact Hkv.
Qed.

(** ** The updates of a generation *)
Definition update_ready s e (dirty : list loc) (j : nat * (loc * list loc)) : Prop :=
  dirty !! j.1 = Some j.2.1 /\ cells_typed s j.2.2 /\ entries_ok (ents s j.2.2) /\
  exists ad a v, es_accounts e !! j.2.1 = Some a /\ account_ok e ad a /\
    apply_entries (ents s j.2.2) (view a) = Some v /\ view_in_range v.

Lemma update_account_run s e dirty i l ls : disks_ok e ->
  update_ready s e dirty (i, (l, ls)) ->
  exists e' a a' ad, update_account dirty i (l, live s ls) (with_obj e s) = Ret (tt, with_obj e' s) /\
    frame e e' /\ es_accounts e !! l = Some a /\ es_accounts e' = <[l := a']> (es_accounts e) /\
    account_ok e ad a /\ account_ok e' ad a' /\ updated (ents s ls) a a'.
Proof.
  intros Hd (Hi & Hty & Hok & ad & a & v & Ha & Hao & Hv & Hr). cbn [fst snd] in *.
  pose proof (live_ents s ls Hty) as HF. unfold update_account. cbn [fst snd].
  destruct (live s ls) as [|l0 ls0] eqn:El.
  - apply Forall2_nil_inv_l in HF. cbn [length Nat.eqb].
    exists e, a, a, ad. rewrite HF. split; [done|]. split; [apply frame_refl|]. split; [done|].
    split; [by rewrite insert_id|]. split; [done|]. split; [done|]. split; [apply apply_entries_nil|done].
  - cbn [length Nat.eqb]. rewrite <- El in HF |- *.
    destruct (update_one (ents s ls) l a ad e v Hd Ha Hao Hv Hr Hok)
      as (e' & a' & E & Hf & Hacc & Hao' & Hv' & Hdm).
    exists e', a, a', ad.
    assert (HK : StateCells_KVs (live s ls) (with_obj e s) =
      Ret ((map fst (ents s ls), map snd (ents s ls)), with_obj e s))
      by (apply KVs_spec; by rewrite heap_with_obj).
    gstep HK. gstep (gsome_eq _ _ (with_obj e s) Hi).
    erewrite gbind_eq; [|apply in_eth_eq; rewrite obj_with_obj; exact E]. cbv beta iota.
    rewrite with_obj_twice. split; [done|]. unfold updated. by rewrite Hv', Hv.
Qed.

Lemma update_loop s dirty js e : disks_ok e -> NoDup (map (fun j => j.2.1) js) ->
  Forall (update_ready s e dirty) js ->
  exists e', gforeach (fun j => update_account dirty j.1 (j.2.1, live s j.2.2)) js (with_obj e s)
      = Ret (tt, with_obj e' s) /\ frame e e' /\
    (forall j, j ∈ js -> exists ad a a', es_accounts e !! j.2.1 = Some a /\ account_ok e ad a /\
       es_accounts e' !! j.2.1 = Some a' /\ account_ok e' ad a' /\
       updated (ents s j.2.2) a a') /\
    (forall l, l ∉ map (fun j => j.2.1) js -> es_accounts e' !! l = es_accounts e !! l).
Proof.
  revert e. induction js as [|[i [l ls]] js IH]; intros e Hd Hnd HF.
  - exists e. split; [done|]. split; [apply frame_refl|]. split; [|done].
    intros j Hj. by apply elem_of_nil in Hj.
  - cbn [map fst snd] in Hnd. apply NoDup_cons in Hnd as [Hn Hnd].
    apply Forall_cons in HF as [Hj HF]. cbn [gforeach fst snd].
    destruct (update_account_run s e dirty i l ls Hd Hj)
      as (e1 & a & a1 & ad & E1 & Hf1 & Ha & Hacc & Hao & Hao1 & Hv). gstep E1.
    assert (Hother : forall l', l' <> l -> es_accounts e1 !! l' = es_accounts e !! l')
      by (intros l' Hne; rewrite Hacc; by apply lookup_insert_ne).
    destruct (IH e1) as (e2 & E2 & Hf2 & Hin & Hout); [by eapply frame_disks|done| |].
    { apply Forall_forall. intros [i' [l' ls']] Hin. rewrite Forall_forall in HF.
      destruct (HF _ Hin) as (H1 & H2 & H3 & ad' & a' & v & H4 & H5 & H6).
      split; [exact H1|]. split; [exact H2|]. split; [exact H3|]. exists ad', a', v. cbn [fst snd] in *.
      split; [|split; [by eapply frame_account|done]]. rewrite Hother; [done|].
      intros ->. apply Hn. apply list_elem_of_fmap. by exists (i', (l, ls')). }
    exists e2. split; [exact E2|]. split; [by eapply frame_trans|]. split.
    + intros j [->|Hjs]%elem_of_cons.
      * cbn [fst snd]. exists ad, a, a1. split; [done|]. split; [done|]. split; [|split; [by eapply frame_account|done]].
        rewrite Hout by done. rewrite Hacc. apply lookup_insert_eq.
      * destruct (Hin j Hjs) as (ad' & a' & a2 & H1 & H2 & H3 & H4 & H5).
        exists ad', a', a2. rewrite Hother in H1.
        -- split; [done|]. split; [|done]. pose proof Hf1 as (Ht & Hw & _).
           unfold account_ok in *. by rewrite Ht, Hw in H2.
        -- intros E. apply Hn. rewrite <- E. apply list_elem_of_fmap. by exists j.
    + intros l' Hl'. cbn [map fst snd] in Hl'. apply not_elem_of_cons in Hl' as [Hne Hl'].
      rewrite Hout by done. by apply Hother.
Qed.

(** ** The index of a generation *)

(** What the store shows at an address, or an account nothing was written to. *)
Definition old_view e ad : AccountView := default empty_view (view_at e ad).
Definition index_ok e m : Prop :=
  forall ad l ls, m !! ad = Some (l, ls) -> length ad = 20 /\
    (exists a, es_accounts e !! l = Some a /\ account_ok e ad a /\ view a = old_view e ad) /\
    forall l', accountCache (es_world e) !! ad = Some l' -> l' = l.

Definition addr_at s l : bytes :=
  BytesToAddress (hexutil_Decode (GetAccountAddr (default "" (GetPath (cell_at (heap_of s) l))))).1.
Definition of_addr s ad (ls : list loc) : list loc :=
  List.filter (fun l => bool_decide (addr_at s l = ad)) ls.
(** The transitions an indexer takes. *)
Definition taken (f : cell -> bool) s (ts : list loc) : list loc :=
  List.filter (fun l => negb (no_path (cell_at (heap_of s) l)) && f (cell_at (heap_of s) l)) ts.

Lemma index_extend e e' m : frame e e' ->
  (forall l, is_Some (es_accounts e !! l) -> es_accounts e' !! l = es_accounts e !! l) ->
  eth_wf e -> index_ok e m -> index_ok e' m.
Proof.
  intros Hf Hex Hwf Hm ad l ls E. destruct (Hm ad l ls E) as (Hl & (a & Ha & Hok & Hv) & Hc).
  split; [done|]. split.
  - exists a. rewrite Hex by eauto. split; [done|]. split; [by eapply frame_account|].
    unfold old_view. by rewrite (view_extend e e').
  - by rewrite (proj1 (proj2 Hf)).
Qed.

Definition import_one m (v : loc) : Go S (gmap bytes (loc * list loc)) :=
  let! '(k, ok) := Indexer_key v in
  if ok : bool then
    match m !! k with
    | Some x => gret (<[k := Indexer_update k v x]> m)
    | None => let! x := Indexer_init k v in gret (<[k := x]> m)
    end
  else gret m.

Lemma import_one_run s e m v c p : eth_wf e -> index_ok e m ->
  heap_of s !! v = Some c -> GetPath c = Some p ->
  (forall ad l ls, m !! ad = Some (l, ls) -> ls <> []) ->
  exists m' e', import_one m v (with_obj e s) = Ret (m', with_obj e' s) /\
    frame e e' /\ (forall l, is_Some (es_accounts e !! l) -> es_accounts e' !! l = es_accounts e !! l) /\
    eth_wf e' /\ index_ok e' m' /\
    (forall ad, snd <$> m' !! ad =
       if decide (addr_at s v = ad) then Some (default [] (snd <$> m !! ad) ++ [v]) else snd <$> m !! ad).
Proof.
  intros Hwf Hm Hc Hp Hne. unfold import_one, Indexer_key.
  rewrite gbind_assoc. erewrite gbind_eq by (apply deref_eq; rewrite heap_with_obj; exact Hc). cbv beta.
  rewrite gbind_assoc. gby (exact (gsome_eq _ _ _ Hp)). gsteps.
  set (b := (hexutil_Decode (GetAccountAddr p)).1).
  assert (Ead : addr_at s v = BytesToAddress b).
  { unfold addr_at. by rewrite (cell_at_eq _ _ _ Hc), Hp. }
  rewrite <- Ead. pose proof (BytesToAddress_length b) as Hl20. rewrite <- Ead in Hl20.
  clear Ead. generalize dependent (addr_at s v). intros ad0 Hl20.
  destruct (m !! ad0) as [[l ls]|] eqn:Em.
  - exists (<[ad0 := Indexer_update ad0 v (l, ls)]> m), e. split; [done|]. split; [apply frame_refl|].
    split; [done|]. split; [done|]. split.
    + intros ad l' ls' E. destruct (decide (ad0 = ad)) as [<-|Hn].
      * rewrite lookup_insert_eq in E. injection E as <- <-. by apply (Hm ad0 l ls).
      * rewrite lookup_insert_ne in E by done. by eapply Hm.
    + intros ad. case_decide as Hd; [subst ad; rewrite lookup_insert_eq, Em; done|].
      by rewrite lookup_insert_ne.
  - destruct (Preload_eq ad0 e Hwf) as (l & e' & a & E & Hf & _ & Hex & Ha & Hao & Hcase).
    rewrite BytesToAddress_id in Hao, Hcase by done.
    unfold Indexer_init. rewrite !gbind_assoc.
    erewrite gbind_eq by (apply in_eth_eq; rewrite obj_with_obj; exact E). cbv beta. gsteps.
    rewrite with_obj_twice. exists (<[ad0 := (l, [v])]> m), e'. split; [done|]. split; [done|].
    split; [done|]. pose proof (wf_extend e e' Hf Hex Hwf) as Hwf'. split; [done|]. split.
    + intros ad l' ls' El. destruct (decide (ad0 = ad)) as [<-|Hn].
      * rewrite lookup_insert_eq in El. injection El as <- <-. split; [done|].
        split.
        -- exists a. split; [done|]. split; [done|]. unfold old_view.
           rewrite (view_extend e e') by done. unfold view_at, cached.
           destruct (accountCache (es_world e) !! ad0) as [lc|]; cbn.
           ++ destruct Hcase as [-> ->]. by rewrite Ha.
           ++ by destruct Hcase.
        -- rewrite (proj1 (proj2 Hf)). intros lc Hlc. rewrite Hlc in Hcase. by destruct Hcase.
      * rewrite lookup_insert_ne in El by done. by eapply (index_extend e e' m).
    + intros ad. case_decide as Hd; [subst ad; by rewrite lookup_insert_eq, Em|].
      by rewrite lookup_insert_ne.
Qed.

Lemma import_run s e us m : eth_wf e -> index_ok e m ->
  (forall l, l ∈ us -> exists c p, heap_of s !! l = Some c /\ GetPath c = Some p) ->
  (forall ad l ls, m !! ad = Some (l, ls) -> ls <> []) ->
  exists m' e', gfold import_one m us (with_obj e s) = Ret (m', with_obj e' s) /\
    frame e e' /\ (forall l, is_Some (es_accounts e !! l) -> es_accounts e' !! l = es_accounts e !! l) /\
    eth_wf e' /\ index_ok e' m' /\
    (forall ad, snd <$> m' !! ad =
       match default [] (snd <$> m !! ad) ++ of_addr s ad us with [] => None | ls => Some ls end).
Proof.
  revert e m. induction us as [|u us IH]; intros e m Hwf Hm Hus Hne.
  - exists m, e. split; [done|]. split; [apply frame_refl|]. do 3 (split; [done|]).
    intros ad. cbn. rewrite app_nil_r. destruct (m !! ad) as [[l ls]|] eqn:E; [|done].
    cbn. specialize (Hne ad l ls E). by destruct ls.
  - destruct (Hus u) as (c & p & Hc & Hp); [by left|].
    destruct (import_one_run s e m u c p Hwf Hm Hc Hp Hne) as (m1 & e1 & E1 & Hf1 & Hx1 & Hwf1 & Hm1 & Hg1).
    cbn [gfold]. gstep E1.
    destruct (IH e1 m1) as (m2 & e2 & E2 & Hf2 & Hx2 & Hwf2 & Hm2 & Hg2); [done|done| | |].
    + intros l Hl. apply Hus. by right.
    + intros ad l ls E. specialize (Hg1 ad). rewrite E in Hg1. cbn in Hg1. case_decide.
      * injection Hg1 as ->. by destruct (default _ _).
      * destruct (m !! ad) as [[l0 ls0]|] eqn:E0; [|done]. injection Hg1 as ->. by eapply Hne.
    + exists m2, e2. split; [exact E2|]. split; [by eapply frame_trans|]. split.
      { intros l Hl. rewrite Hx2; [by apply Hx1|]. by rewrite Hx1. }
      split; [done|]. split; [done|]. intros ad. rewrite Hg2, Hg1. unfold of_addr. cbn [List.filter].
      case_decide as Hd.
      * rewrite bool_decide_true by done. cbn. by rewrite <- app_assoc.
      * by rewrite bool_decide_false.
Qed.

Lemma EthStorage_Import_run ts (idx : EthIndexer cell) s :
  eth_wf (eth s) -> valid (heap_of s) ts -> index idx = ∅ ->
  exists m e', Indexer_Import ts idx s =
      Ret (MkEthIndexer (filter idx) (Version idx) m (dirtyAccounts idx), with_obj e' s) /\
    eth_wf e' /\ index_ok e' m /\ (forall ad, view_at e' ad = view_at (eth s) ad) /\
    es_world e' = es_world (eth s) /\
    forall ad, snd <$> m !! ad =
      match of_addr s ad (taken (filter idx) s ts) with [] => None | ls => Some ls end.
Proof.
  intros Hwf Hv Hidx. unfold Indexer_Import. gstep (deref_all_valid ts s Hv). rewrite CopyIf_spec, Hidx.
  assert (Ht : map fst (List.filter (fun lc : loc * cell => negb (no_path lc.2) && filter idx lc.2)
      (map (fun l => (l, cell_at (heap_of s) l)) ts)) = taken (filter idx) s ts).
  { unfold taken. clear. induction ts as [|l ts IH]; [done|]. cbn.
    destruct (negb _ && _); cbn; by rewrite IH. }
  rewrite Ht.
  destruct (import_run s (eth s) (taken (filter idx) s ts) ∅) as (m & e' & E & Hf & Hx & Hwf' & Hm & Hg);
    [done|intros ? ? ?; by rewrite lookup_empty| |intros ? ? ?; by rewrite lookup_empty|].
  { intros l [Hl Hc]%list_elem_of_In%filter_In. apply andb_true_iff in Hc as [Hc _].
    exists (cell_at (heap_of s) l). apply list_elem_of_In in Hl.
    rewrite (cell_at_some _ _ (Hv l Hl)). unfold no_path in Hc.
    destruct (GetPath (cell_at (heap_of s) l)) as [p|]; [by exists p|done]. }
  rewrite with_obj_obj in E. exists m, e'.
  erewrite gbind_eq; [|rewrite Import_one_by_one; exact E]. cbv beta.
  split; [done|]. split; [done|]. split; [done|]. split; [intros ad; by apply view_extend|].
  split; [exact (proj1 (proj2 Hf))|]. intros ad. rewrite Hg. by rewrite lookup_empty.
Qed.

(** After the import of a generation the index holds, for every address with
    a transition the filter takes, the account of that address (the cached
    one, or a new one with nothing in it) and its transitions in order; the
    store shows what it showed. *)
Theorem EthStorage_Import_spec ts (idx : EthIndexer cell) s :
  eth_wf (eth s) -> valid (heap_of s) ts -> index idx = ∅ ->
  exists m e', Indexer_Import ts idx s =
      Ret (MkEthIndexer (filter idx) (Version idx) m (dirtyAccounts idx), with_obj e' s) /\
    eth_wf e' /\ index_ok e' m /\ (forall ad, view_at e' ad = view_at (eth s) ad) /\
    es_world e' = es_world (eth s) /\
    forall ad, snd <$> m !! ad =
      match of_addr s ad (taken (filter idx) s ts) with [] => None | ls => Some ls end.
Proof. apply EthStorage_Import_run. Qed.

(** ** Finalizing: the erased transitions leave the index, the accounts stay *)
Definition cells_valid s m : Prop :=
  forall ad l ls, m !! ad = Some (l, ls) -> valid (heap_of s) ls.
Definition finalized s m : gmap bytes (loc * list loc) := (fun p => (p.1, live s p.2)) <$> m.

Lemma finalize_fold s ks m : NoDup ks -> (forall k, k ∈ ks -> is_Some (m !! k)) -> cells_valid s m ->
  exists m', gfold (fun m ad =>
      let! pair := gsome (m !! ad) in
      let! cs := deref_all pair.2 in
      gret (<[ad := (pair.1, map fst (slice_RemoveIf (fun lc => no_path lc.2) cs))]> m)) m ks s = Ret (m', s) /\
    forall k, m' !! k = if decide (k ∈ ks) then (fun p => (p.1, live s p.2)) <$> m !! k else m !! k.
Proof.
  revert m. induction ks as [|k ks IH]; intros m Hnd Hks Hv.
  - exists m. split; [done|]. intros k. by rewrite decide_False by apply not_elem_of_nil.
  - apply NoDup_cons in Hnd as [Hk Hnd]. cbn [gfold].
    destruct (Hks k) as [[l ls] Hm]; [by left|].
    rewrite gbind_assoc. gstep (gsome_eq _ _ s Hm). cbn [snd fst].
    rewrite gbind_assoc. gstep (deref_all_valid ls s (Hv _ _ _ Hm)). gsteps. rewrite RemoveIf_spec.
    assert (Hl : map fst (List.filter (fun x : loc * cell => negb (no_path x.2))
      (map (fun l => (l, cell_at (heap_of s) l)) ls)) = live s ls).
    { unfold live. clear. induction ls as [|l ls IH]; [done|]. cbn.
      destruct (negb _); cbn; by rewrite IH. }
    rewrite Hl. destruct (IH (<[k := (l, live s ls)]> m)) as (m' & E & Hm'); [done| | |].
    + intros k' Hk'. rewrite lookup_insert_ne by (intros ->; done). apply Hks. by right.
    + intros ad l' ls' E. destruct (decide (k = ad)) as [->|Hne].
      * rewrite lookup_insert_eq in E. injection E as <- <-.
        intros x [Hx _]%list_elem_of_In%filter_In. apply (Hv _ _ _ Hm). by apply list_elem_of_In.
      * rewrite lookup_insert_ne in E by done. by eapply Hv.
    + exists m'. split; [exact E|]. intros k'. rewrite Hm'.
      destruct (decide (k' = k)) as [->|Hne].
      * rewrite decide_False by done. rewrite decide_True by by left. by rewrite lookup_insert_eq, Hm.
      * rewrite lookup_insert_ne by done. apply decide_ext. rewrite elem_of_cons. naive_solver.
Qed.

Lemma Finalize_run s (idx : EthIndexer cell) : cells_valid s (index idx) ->
  Indexer_Finalize idx s =
    Ret (MkEthIndexer (filter idx) (Version idx) (finalized s (index idx)) (dirtyAccounts idx), s).
Proof.
  intros Hv. unfold Indexer_Finalize.
  pose proof (order_perm (index idx)) as HP.
  assert (Hnd : NoDup (idx_order (index idx))) by (rewrite HP; apply NoDup_fst_map_to_list).
  assert (Hin : forall k, k ∈ idx_order (index idx) <-> is_Some (index idx !! k)).
  { intros k. rewrite HP. split.
    - intros ([k' v] & -> & H)%list_elem_of_fmap. apply elem_of_map_to_list in H. by exists v.
    - intros [v Hk]. apply list_elem_of_fmap. exists (k, v). split; [done|]. by apply elem_of_map_to_list. }
  destruct (finalize_fold s _ (index idx) Hnd (fun k => proj1 (Hin k)) Hv) as (m' & E & Hm').
  gstep E. unfold gret. do 3 f_equal. apply map_eq. intros k. rewrite Hm'. unfold finalized.
  rewrite lookup_fmap. case_decide as Hd; [done|]. rewrite Hin in Hd.
  destruct (index idx !! k); [|done]. exfalso. apply Hd. eauto.
Qed.
Lemma Values_pairs m : exists ps, Permutation ps (map_to_list m) /\ idx_Values m = map snd ps.
Proof.
  pose proof (Values_perm m) as HP. apply Permutation_map_inv in HP as (ps & E & HP).
  exists ps. split; [by symmetry|done].
Qed.

(** ** A generation *)
Definition gen_ok s m : Prop :=
  forall ad l ls, m !! ad = Some (l, ls) -> cells_typed s ls /\ entries_ok (ents s ls) /\
    exists v, apply_entries (ents s ls) (old_view (eth s) ad) = Some v /\ view_in_range v.

Lemma live_live s ls : live s (live s ls) = live s ls.
Proof.
  unfold live. induction ls as [|l ls IH]; [done|]. cbn [List.filter].
  destruct (negb (no_path (cell_at (heap_of s) l))) eqn:E; [cbn [List.filter]; by rewrite E, IH|done].
Qed.
Lemma live_typed s ls : cells_typed s ls -> cells_typed s (live s ls).
Proof. intros Ht l [Hl _]%list_elem_of_In%filter_In. apply Ht. by apply list_elem_of_In. Qed.
Lemma ents_live s ls : cells_typed s ls -> ents s (live s ls) = ents s ls.
Proof.
  intros Ht. induction ls as [|l ls IH]; [done|].
  assert (IHls : ents s (live s ls) = ents s ls) by (apply IH; intros l' Hl'; apply Ht; by right).
  destruct (Ht l) as (c & Hc & _); [by left|]. unfold ents, live in *. cbn [List.filter omap list_omap].
  rewrite (cell_at_eq _ _ _ Hc), Hc. cbn [mbind option_bind]. destruct (no_path c) eqn:En; cbn [negb].
  - rewrite IHls. by rewrite (no_path_kv c).
  - cbn [omap list_omap]. rewrite Hc. cbn [mbind option_bind]. by rewrite IHls.
Qed.

Lemma gforeach_ext {A} (f g : A -> Go S unit) (xs : list A) s :
  (forall x s, x ∈ xs -> f x s = g x s) -> gforeach f xs s = gforeach g xs s.
Proof.
  revert s. induction xs as [|x xs IH]; intros s H; [done|]. cbn. unfold gbind.
  rewrite H by by left. destruct (g x s) as [[u s']|]; [|done]. apply IH.
  intros y s0 Hy. apply H. by right.
Qed.

(** The accounts of the index, in the order the map gives them. *)
Record gen_list s m (ps : list (bytes * (loc * list loc))) : Prop := {
  gl_perm : Permutation ps (map_to_list (finalized s m));
  gl_values : idx_Values (finalized s m) = map snd ps;
}.
Definition by_addr (ps : list (bytes * (loc * list loc))) : list (bytes * loc) :=
  map (fun p => (p.1, p.2.1)) ps.

Lemma gen_list_elem s m ps p : gen_list s m ps -> p ∈ ps ->
  exists ls, m !! p.1 = Some (p.2.1, ls) /\ p.2.2 = live s ls.
Proof.
  intros [HP _] Hin. rewrite HP in Hin. destruct p as [ad [l ls']].
  apply elem_of_map_to_list in Hin. unfold finalized in Hin. rewrite lookup_fmap in Hin.
  destruct (m !! ad) as [[l0 ls]|] eqn:E; [|done]. injection Hin as <- <-. by exists ls.
Qed.
Lemma gen_list_keys s m ps : gen_list s m ps -> NoDup (map fst (by_addr ps)).
Proof.
  intros [HP _]. unfold by_addr. rewrite map_map. cbn.
  change (NoDup (map fst ps)). rewrite (Permutation_map fst HP). apply NoDup_fst_map_to_list.
Qed.
Lemma gen_list_map s m ps ad : gen_list s m ps ->
  list_to_map (M := gmap bytes loc) (by_addr ps) !! ad = fst <$> m !! ad.
Proof.
  intros Hg. pose proof (gen_list_keys s m ps Hg) as Hnd. destruct (m !! ad) as [[l ls]|] eqn:E; cbn.
  - apply elem_of_list_to_map_1; [done|]. apply list_elem_of_fmap. exists (ad, (l, live s ls)).
    split; [done|]. rewrite (gl_perm _ _ _ Hg). apply elem_of_map_to_list.
    unfold finalized. by rewrite lookup_fmap, E.
  - apply not_elem_of_list_to_map_1. unfold by_addr.
    intros ([ad' l] & -> & (p & Ep & Hp)%list_elem_of_fmap)%list_elem_of_fmap. injection Ep as -> ->.
    destruct (gen_list_elem _ _ _ _ Hg Hp) as (ls & H & _). cbn in E. by rewrite E in H.
Qed.
Lemma index_locs_nodup e s m ps : index_ok e m -> gen_list s m ps ->
  NoDup (map (fun p => p.2.1) ps).
Proof.
  intros Hm Hg. pose proof (gen_list_keys s m ps Hg) as Hnd. unfold by_addr in Hnd. rewrite map_map in Hnd.
  apply (NoDup_fmap_1 (fun l => default [] (addr <$> es_accounts e !! l))).
  change (NoDup (map (fun l => default [] (addr <$> es_accounts e !! l)) (map (fun p => p.2.1) ps))).
  rewrite map_map.
  rewrite (map_ext_in _ (fun p : bytes * (loc * list loc) => (p.1, p.2.1).1)); [done|].
  intros p Hp%list_elem_of_In. destruct (gen_list_elem _ _ _ _ Hg Hp) as (ls & E & _).
  destruct (Hm _ _ _ E) as (_ & (a & Ha & (Had & _) & _) & _). by rewrite Ha.
Qed.

(** The updates of a generation, all of them, in whatever order. *)
Lemma updates_run s e m ps : disks_ok e -> index_ok e m -> gen_list s m ps ->
  (forall ad l ls, m !! ad = Some (l, ls) -> cells_typed s ls /\ entries_ok (ents s ls) /\
     exists v, apply_entries (ents s ls) (old_view e ad) = Some v /\ view_in_range v) ->
  exists e', slice_ParallelForeach (update_account (map fst (map snd ps))) (map snd ps) (with_obj e s)
      = Ret (tt, with_obj e' s) /\ frame e e' /\
    (forall ad l ls, m !! ad = Some (l, ls) -> exists a a', view a = old_view e ad /\
       es_accounts e' !! l = Some a' /\ account_ok e' ad a' /\ updated (ents s ls) a a') /\
    (forall l, (forall ad ls, m !! ad <> Some (l, ls)) -> es_accounts e' !! l = es_accounts e !! l).
Proof.
  intros Hd Hm Hg Hgen. set (dirty := map fst (map snd ps)).
  destruct (ParallelForeach_perm (update_account dirty) (map snd ps) (with_obj e s)) as (js & HP & E).
  assert (Hj : forall j, j ∈ js -> exists ad ls, m !! ad = Some (j.2.1, ls) /\ j.2.2 = live s ls /\
    dirty !! j.1 = Some j.2.1).
  { intros j Hjs. rewrite HP in Hjs. apply elem_of_lookup_imap in Hjs as (i & q & -> & Hi).
    cbn [fst snd]. assert (Hq : q ∈ map snd ps) by by eapply list_elem_of_lookup_2.
    apply list_elem_of_fmap in Hq as (p & -> & Hp).
    destruct (gen_list_elem _ _ _ _ Hg Hp) as (ls & El & Els). exists p.1, ls. split; [done|].
    split; [done|]. unfold dirty. change (map fst (map snd ps)) with (fst <$> (map snd ps)).
    by rewrite list_lookup_fmap, Hi. }
  assert (Hready : Forall (update_ready s e dirty) js).
  { apply Forall_forall. intros j Hjs. destruct (Hj j Hjs) as (ad & ls & El & Els & Hdi).
    destruct (Hgen _ _ _ El) as (Hty & Hok & v & Hv & Hr).
    destruct (Hm _ _ _ El) as (_ & (a & Ha & Hao & Hview) & _).
    split; [done|]. rewrite Els, ents_live by done. split; [by apply live_typed|]. split; [done|].
    exists ad, a, v. by rewrite Hview. }
  assert (Hlocs : map (fun j : nat * (loc * list loc) => j.2.1) (imap pair (map snd ps)) = map (fun p => p.2.1) ps).
  { clear. apply list_eq. intros i.
    change (((fun j : nat * (loc * list loc) => j.2.1) <$> imap pair (snd <$> ps)) !! i
      = ((fun p : bytes * (loc * list loc) => p.2.1) <$> ps) !! i).
    rewrite !list_lookup_fmap, list_lookup_imap, list_lookup_fmap. by destruct (ps !! i). }
  assert (Hnd : NoDup (map (fun j => j.2.1) js)).
  { rewrite (Permutation_map (fun j => j.2.1) HP), Hlocs. by eapply index_locs_nodup. }
  destruct (update_loop s dirty js e Hd Hnd Hready) as (e' & E' & Hf & Hin & Hout).
  exists e'. split; [|split; [done|]; split].
  - rewrite E, <- E'. apply gforeach_ext. intros j s0 Hjs. destruct (Hj j Hjs) as (ad & ls & _ & Els & _).
    rewrite Els, live_live, <- Els. by destruct j as [i [l' ls']].
  - intros ad l ls El. assert (Hp : (ad, (l, live s ls)) ∈ ps).
    { rewrite (gl_perm _ _ _ Hg). apply elem_of_map_to_list. unfold finalized. by rewrite lookup_fmap, El. }
    assert (Hl : l ∈ map (fun j => j.2.1) js).
    { rewrite (Permutation_map (fun j => j.2.1) HP), Hlocs. apply list_elem_of_fmap. by exists (ad, (l, live s ls)). }
    apply list_elem_of_fmap in Hl as (j & -> & Hjs).
    destruct (Hin j Hjs) as (ad1 & a & a' & Ha & Hao & Ha' & Hao' & Hv).
    destruct (Hj j Hjs) as (ad' & ls' & El' & Els' & _).
    destruct (Hm _ _ _ El) as (_ & (a0 & Ha0 & Hao0 & Hv0) & _).
    destruct (Hm _ _ _ El') as (_ & (a2 & Ha2 & Hao2 & _) & _).
    assert (ad' = ad) as -> by (destruct Hao0 as [<- _], Hao2 as [<- _]; congruence).
    assert (ad1 = ad) as -> by (destruct Hao0 as [<- _], Hao as [<- _]; congruence).
    rewrite El in El'. injection El' as <-. rewrite Ha0 in Ha. injection Ha as <-.
    exists a0, a'. split; [done|]. split; [done|]. split; [done|].
    by rewrite Els', ents_live in Hv by (by eapply Hgen).
  - intros l Hl. apply Hout. intros (j & -> & Hjs)%list_elem_of_fmap.
    destruct (Hj j Hjs) as (ad & ls & El & _). by eapply Hl.
Qed.

(** The accounts of the index are put in the cache. *)
Definition with_cache (c : gmap bytes loc) e : EthState DB :=
  with_world (set_accountCache c (es_world e)) e.
Definition cache_with m e : gmap bytes loc := (fst <$> m) ∪ accountCache (es_world e).
Lemma cache_with_lookup m e ad : cache_with m e !! ad =
  match m !! ad with Some (l, _) => Some l | None => accountCache (es_world e) !! ad end.
Proof. unfold cache_with. rewrite lookup_union, lookup_fmap. by destruct (m !! ad) as [[]|], (_ !! ad). Qed.
Lemma cache_with_grows m e ad l : index_ok e m ->
  accountCache (es_world e) !! ad = Some l -> cache_with m e !! ad = Some l.
Proof.
  intros Hm Hc. rewrite cache_with_lookup. destruct (m !! ad) as [[l' ls]|] eqn:El; [|done].
  destruct (Hm _ _ _ El) as (_ & _ & H). by rewrite (H l Hc).
Qed.
Lemma by_addr_index s m ps ad l : gen_list s m ps -> (ad, l) ∈ by_addr ps -> exists ls, m !! ad = Some (l, ls).
Proof.
  intros Hg (p & [= -> ->] & Hp)%list_elem_of_fmap.
  destruct (gen_list_elem _ _ _ _ Hg Hp) as (ls & El & _). by exists ls.
Qed.
Lemma cache_index_run s m ps e : index_ok e m -> gen_list s m ps ->
  let e1 := with_cache (cache_with m e) e in
  gforeach cache_account (map snd (by_addr ps)) e = Ret (tt, e1) /\ index_ok e1 m /\
  forall ad l ls, m !! ad = Some (l, ls) -> old_view e1 ad = old_view e ad.
Proof.
  intros Hm Hg e1.
  assert (Hold : forall ad l ls, m !! ad = Some (l, ls) -> old_view e1 ad = old_view e ad).
  { intros ad l ls El. unfold old_view at 1, view_at, cached. cbn. rewrite cache_with_lookup, El. cbn.
    destruct (Hm _ _ _ El) as (_ & (a & Ha & _ & Hv) & _). cbn in Ha. by rewrite Ha. }
  split; [|split; [|exact Hold]].
  - unfold cache_account. erewrite cache_accounts_eq.
    + unfold e1, with_cache. do 5 f_equal. apply map_eq. intros ad.
      rewrite fold_insert_pairs by (by eapply gen_list_keys). rewrite (gen_list_map s m) by done.
      rewrite cache_with_lookup. by destruct (m !! ad) as [[]|].
    + intros ad l Hin. destruct (by_addr_index _ _ _ _ _ Hg Hin) as (ls & El).
      destruct (Hm _ _ _ El) as (_ & (a & Ha & (Had & _) & _) & _). by exists a.
  - intros ad l ls El. destruct (Hm _ _ _ El) as (Hl & (a & Ha & Hao & Hv) & _). split; [done|]. split.
    + exists a. by rewrite (Hold _ _ _ El).
    + intros l'. cbn. rewrite cache_with_lookup, El. by intros [= ->].
Qed.

(** The state once the accounts of the index are updated and their records are
    in the world trie. *)
Definition accounts_updated s m e e2 : Prop :=
  (forall ad l ls, m !! ad = Some (l, ls) -> exists a a', view a = old_view e ad /\
     es_accounts e2 !! l = Some a' /\ account_ok e2 ad a' /\ updated (ents s ls) a a') /\
  (forall l, (forall ad ls, m !! ad <> Some (l, ls)) -> es_accounts e2 !! l = es_accounts e !! l).
Definition with_trie (wt : trie) e : EthState DB := with_world (set_worldStateTrie (Some wt) (es_world e)) e.

Lemma cached_after s m e e2 wt ad : eth_wf e -> index_ok e m ->
  frame (with_cache (cache_with m e) e) e2 -> accounts_updated s m e e2 ->
  cached (with_trie wt e2) ad = match m !! ad with Some (l, _) => es_accounts e2 !! l | None => cached e ad end.
Proof.
  intros (_ & Hacc & _) Hm (_ & Hw & _) [_ Hout]. unfold cached, with_trie. cbn. rewrite Hw. cbn.
  rewrite cache_with_lookup. destruct (m !! ad) as [[l ls]|] eqn:El; [done|].
  destruct (accountCache (es_world e) !! ad) as [l|] eqn:Ec; [|done]. cbn. apply Hout.
  intros ad' ls El'. destruct (Hacc _ _ Ec) as (_ & a & Ha & Hao & _).
  destruct (Hm _ _ _ El') as (_ & (a' & Ha' & (Had' & _) & _) & _). congruence.
Qed.

Lemma precommit_wf s m e e2 wt wt' : eth_wf e -> index_ok e m ->
  frame (with_cache (cache_with m e) e) e2 -> accounts_updated s m e e2 ->
  worldStateTrie (es_world e) = Some wt -> backed (es_triedb e2) wt' ->
  (forall ad, length ad = 20 -> trie_map wt' !! Keccak256 ad =
     match (fst <$> m !! ad) ≫= fun l => es_accounts e2 !! l with
     | Some a => Some (Account_Encode a)
     | None => trie_map wt !! Keccak256 ad
     end) ->
  eth_wf (with_trie wt' e2).
Proof.
  intros Hwf Hm Hf Hup Hwt Hb Hmap. pose proof (fun ad => cached_after s m e e2 wt' ad Hwf Hm Hf Hup) as Hca.
  destruct Hwf as (Hd & Hacc & wt0 & Hwt0 & _ & Hmap0). assert (wt0 = wt) as -> by congruence.
  destruct Hup as [Hin Hout]. split; [by apply (frame_disks (with_cache (cache_with m e) e) e2)|]. split.
  - intros ad l Hc. pose proof (Hca ad) as Hx. unfold cached at 1 in Hx. rewrite Hc in Hx. cbn in Hx.
    cbn in Hc. rewrite (proj1 (proj2 Hf)) in Hc. cbn in Hc. rewrite cache_with_lookup in Hc.
    destruct (m !! ad) as [[l' ls]|] eqn:El.
    + injection Hc as ->. split; [by apply (Hm _ _ _ El)|].
      destruct (Hin _ _ _ El) as (_ & a' & _ & Ha' & Hao & _). by exists a'.
    + destruct (Hacc _ _ Hc) as (Hl & a & Ha & Hao). split; [done|]. exists a.
      unfold cached in Hx. rewrite Hc in Hx. cbn in Hx. split; [cbn; by rewrite Hx|].
      exact (frame_account (with_cache (cache_with m e) e) e2 ad a Hf Hao).
  - exists wt'. split; [done|]. split; [done|]. intros ad Hl. rewrite Hmap by done. rewrite Hca.
    destruct (m !! ad) as [[l ls]|] eqn:El; cbn.
    + destruct (Hin _ _ _ El) as (_ & a' & _ & Ha' & _). by rewrite Ha'.
    + by apply Hmap0.
Qed.

Record precommitted s m e e' (idx : EthIndexer cell) : Prop := {
  pc_wf : eth_wf e';
  pc_err : dbErr (es_world e') = dbErr (es_world e);
  pc_triedb : es_triedb e' = es_triedb e;
  pc_roots : blockRoots (es_world e') = blockRoots (es_world e);
  pc_cache : accountCache (es_world e') = cache_with m e;
  pc_dirty : forall l, l ∈ dirtyAccounts idx <-> exists ad ls, m !! ad = Some (l, ls);
  pc_marks : forall ad l ls a, m !! ad = Some (l, ls) -> ents s ls <> [] ->
    es_accounts e' !! l = Some a -> trieDirty a = marks (ents s ls);
  pc_views : forall ad, view_at e' ad =
    match m !! ad with
    | Some (_, ls) => apply_entries (ents s ls) (old_view e ad)
    | None => view_at e ad
    end;
}.
Lemma by_addr_elem s m ps l : gen_list s m ps ->
  l ∈ map snd (by_addr ps) <-> exists ad ls, m !! ad = Some (l, ls).
Proof.
  intros Hg. rewrite list_elem_of_fmap. split.
  - intros ([ad l'] & -> & Hp). exists ad. by apply (by_addr_index s m ps).
  - intros (ad & ls & El). exists (ad, l). split; [done|]. apply list_elem_of_fmap.
    exists (ad, (l, live s ls)). split; [done|]. rewrite (gl_perm _ _ _ Hg). apply elem_of_map_to_list.
    unfold finalized. by rewrite lookup_fmap, El.
Qed.
Lemma precommitted_intro s m ps e e2 wt wt' v f : eth_wf e -> index_ok e m -> gen_list s m ps ->
  frame (with_cache (cache_with m e) e) e2 -> accounts_updated s m e e2 ->
  worldStateTrie (es_world e) = Some wt -> backed (es_triedb e2) wt' ->
  (forall ad, length ad = 20 -> trie_map wt' !! Keccak256 ad =
     match (fst <$> m !! ad) ≫= fun l => es_accounts e2 !! l with
     | Some a => Some (Account_Encode a)
     | None => trie_map wt !! Keccak256 ad
     end) ->
  precommitted s m e (with_trie wt' e2) (MkEthIndexer f v (finalized s m) (map snd (by_addr ps))).
Proof.
  intros Hwf Hm Hg Hf Hup Hwt Hb Hmap. pose proof Hf as (Htdb & Hw & _). constructor.
  - by eapply precommit_wf.
  - cbn. by rewrite Hw.
  - exact Htdb.
  - cbn. by rewrite Hw.
  - cbn. by rewrite Hw.
  - intros l. by apply (by_addr_elem s).
  - intros ad l ls a El Hne Ha. destruct (proj1 Hup _ _ _ El) as (_ & a' & _ & Ha' & _ & _ & Hmk).
    cbn in Ha. rewrite Ha' in Ha. injection Ha as <-. by apply Hmk.
  - intros ad. unfold view_at at 1. rewrite (cached_after s m e e2 wt' ad Hwf Hm Hf Hup).
    destruct (m !! ad) as [[l ls]|] eqn:El; [|done].
    destruct (proj1 Hup _ _ _ El) as (a & a' & Hva & Ha' & _ & Hv & _). rewrite Ha'. cbn.
    by rewrite <- Hv, Hva.
Qed.

Lemma Precommit_run b (this : Writer) s m : index (Indexer this) = m ->
  eth_wf (eth s) -> index_ok (eth s) m -> gen_ok s m ->
  exists idx' e', Precommit b this s =
      Ret ((MkEthStorageWriter (NewEthIndexer (-1) (wfilter this)) (buffer this ++ [idx']) (wfilter this),
            dbErr (es_world (eth s))), with_obj e' s) /\
    Version idx' = Version (Indexer this) /\ precommitted s m (eth s) e' idx'.
Proof.
  intros Hidx Hwf Hm Hgen. set (e := eth s) in *.
  destruct (Values_pairs (finalized s m)) as (ps & Hps & Hvals).
  pose proof (Build_gen_list s m ps Hps Hvals) as Hg. pose proof Hwf as (Hd & _ & wt & Hwt & Hb & _).
  assert (Hdirty : map fst (map snd ps) = map snd (by_addr ps)) by (unfold by_addr; by rewrite !map_map).
  assert (Hval : cells_valid s m).
  { intros ad l ls El l' Hl'. destruct (Hgen _ _ _ El) as (Hty & _).
    destruct (Hty l' Hl') as (c & Hc & _). eauto. }
  destruct (cache_index_run s m ps e Hm Hg) as (E1 & Hidx1 & Hold).
  set (e1 := with_cache (cache_with m e) e) in *.
  destruct (updates_run s e1 m ps) as (e2 & E2 & Hf & Hin & Hout); [exact Hd|exact Hidx1|exact Hg| |].
  { intros ad l ls El. rewrite (Hold _ _ _ El). by apply (Hgen ad l ls). }
  pose proof Hf as (Htdb & Hw & _).
  destruct (WriteWorldTrie_eq (by_addr ps) e2 wt) as (wt' & Hb' & E3 & Hmap').
  { by rewrite Hw. } { by rewrite Htdb. } { by eapply gen_list_keys. }
  { intros ad l Hp. destruct (by_addr_index _ _ _ _ _ Hg Hp) as (ls & El). split; [by apply (Hm _ _ _ El)|].
    destruct (Hin _ _ _ El) as (_ & a' & _ & Ha' & (Had & _ & Hr & _) & _). by exists a'. }
  exists (MkEthIndexer (filter (Indexer this)) (Version (Indexer this)) (finalized s m) (map snd (by_addr ps))),
    (with_trie wt' e2). split; [|split; [reflexivity|]].
  - unfold Precommit. gstep (Finalize_run s (Indexer this) ltac:(by rewrite Hidx)).
    rewrite Hidx. cbn [index filter Version dirtyAccounts]. rewrite Hvals, Hdirty.
    gstep (in_eth_eq _ s tt e1 E1). rewrite Hdirty in E2. gstep E2.
    gby (apply in_eth_eq; rewrite obj_with_obj; exact E3). rewrite with_obj_twice.
    gby (apply in_eth_eq; rewrite obj_with_obj; reflexivity). rewrite with_obj_twice.
    cbn [dbErr es_world with_world set_worldStateTrie]. unfold gret.
    replace (dbErr (es_world e2)) with (dbErr (es_world e)) by (by rewrite Hw). reflexivity.
  - eapply (precommitted_intro s m ps e e2 wt); try done.
    + split; [|exact Hout]. intros ad l ls El. destruct (Hin _ _ _ El) as (a & a' & Hva & H). exists a, a'.
      by rewrite Hva, (Hold _ _ _ El).
    + intros ad Hl. rewrite Hmap' by done. by rewrite (gen_list_map s m).
Qed.

(** C16: the precommit of a generation applies to every account of the index
    its transitions that are left, as [apply_entries] specifies, whatever the
    order the accounts are updated in; the accounts are cached and their records
    are in the world trie; no other account is changed. *)
Theorem EthStorage_Precommit_spec b (this : Writer) s :
  let m := index (Indexer this) in
  eth_wf (eth s) -> index_ok (eth s) m -> gen_ok s m ->
  exists idx' s', Precommit b this s =
      Ret ((MkEthStorageWriter (NewEthIndexer (-1) (wfilter this)) (buffer this ++ [idx']) (wfilter this),
            dbErr (es_world (eth s))), s') /\
    eth_wf (eth s') /\ heap_of s' = heap_of s /\
    (forall ad, view_at (eth s') ad =
       match m !! ad with
       | Some (_, ls) => apply_entries (ents s ls) (old_view (eth s) ad)
       | None => view_at (eth s) ad
       end).
Proof.
  intros m Hwf Hm Hgen. destruct (Precommit_run b this s m eq_refl Hwf Hm Hgen)
    as (idx' & e' & E & _ & Hpc). destruct Hpc as [Hwf' _ _ _ _ _ _ Hv].
  exists idx', (with_obj e' s). rewrite obj_with_obj, heap_with_obj. done.
Qed.

(** An address all of whose transitions were rejected still gets an account:
    the indexer drops such addresses from a copy of its values only.  The
    world trie holds a record of an empty account where it held nothing. *)
Theorem phantom_account b (this : Writer) s ad l ls :
  let m := index (Indexer this) in
  eth_wf (eth s) -> index_ok (eth s) m -> gen_ok s m ->
  m !! ad = Some (l, ls) -> ents s ls = [] -> view_at (eth s) ad = None ->
  exists r s' wt a, Precommit b this s = Ret (r, s') /\
    worldStateTrie (es_world (eth s')) = Some wt /\
    cached (eth s') ad = Some a /\ view a = empty_view /\
    trie_map wt !! Keccak256 ad = Some (Account_Encode a).
Proof.
  intros m Hwf Hm Hgen El Hents Hnone. destruct (Precommit_run b this s m eq_refl Hwf Hm Hgen)
    as (idx' & e' & E & _ & Hpc). destruct Hpc as [(_ & _ & wt & Hwt & _ & Hmap) _ _ _ _ _ _ Hv].
  specialize (Hv ad). rewrite El, Hents, apply_entries_nil in Hv. unfold old_view in Hv.
  rewrite Hnone in Hv. cbn in Hv. unfold view_at in Hv.
  destruct (cached e' ad) as [a|] eqn:Hc; [|done].
  change (Some (view a) = Some empty_view) in Hv. apply (inj Some) in Hv.
  eexists _, (with_obj e' s), wt, a. rewrite obj_with_obj. split; [exact E|]. split; [done|].
  split; [done|]. split; [done|]. rewrite Hmap; [by rewrite Hc|]. by apply (Hm _ _ _ El).
Qed.

(** [ApplyChanges] takes the path of the second group from its second
    transition: with two groups of one transition each it panics. *)
Theorem ApplyChanges_panics l1 l2 c p v1 v2 k1 k2 getter this s :
  heap_of s !! l1 = Some c -> GetPath c = Some p ->
  getter [l1] s = Ret ((k1, v1), s) -> getter [l2] s = Ret ((k2, v2), s) ->
  ApplyChanges [[l1]; [l2]] getter this s = Panic.
Proof.
  intros Hc Hp H1 H2.
  assert (E1 : changed_entry getter (0, [l1]) s = Ret ((p, v1), s)).
  { unfold changed_entry. cbn [fst snd]. gstep H1. cbn [lookup list_lookup gsome]. gsteps.
    gstep (deref_eq l1 s c Hc). by gstep (gsome_eq _ _ s Hp). }
  assert (E2 : changed_entry getter (1, [l2]) s = Panic).
  { unfold changed_entry. cbn [fst snd]. by gstep H2. }
  unfold ApplyChanges. apply gbind_panic. change (imap pair [[l1]; [l2]]) with [(0, [l1]); (1, [l2])].
  unfold gmap_list. cbn [gfold]. unfold gbind. rewrite E1. cbn. by rewrite E2.
Qed.
End theory.
