(* ===== verification/EthBlockTheory.v ===== *)
(** * Theory of a block's commit to the Ethereum store

    Which roots are kept, what the commit of the dirty accounts and of the world
    trie leaves in the trie database, and what is read back. *)
From S2P Require Import Prelude GoString Interfaces Heap Paths Codec CodecTheory EthLib EthAccount EthAccountTheory EthWorldState EthWorldTheory.
Import Constants PathTypes.

(** ** The roots that are kept *)
Section roots.
Context `{ML : MapLib} `{MLW : !MapLaws ML} `{ES : EthSliceLib} `{ESL : !EthSliceLaws ES}.
Implicit Types (roots : gmap Z bytes).

Lemma prune_loop_ok fuel roots : size roots <= fuel ->
  exists roots', prune_loop fuel roots = Some roots' /\ (Z.of_nat (size roots') < 1024)%Z /\
    (forall k r, roots' !! k = Some r -> roots !! k = Some r) /\
    (forall k k', is_Some (roots !! k) -> roots' !! k = None -> is_Some (roots' !! k') -> (k < k')%Z) /\
    ((Z.of_nat (size roots) < 1024)%Z -> roots' = roots).
Proof.
  revert roots. induction fuel as [|fuel IH]; intros roots Hs.
  - exists roots. cbn [prune_loop]. rewrite (proj2 (Z.ltb_lt _ _)) by lia. split; [done|].
    split; [lia|]. split; [done|]. split; [|done]. intros k k' [r Hk] Hn. congruence.
  - cbn [prune_loop]. destruct (Z.ltb_spec (Z.of_nat (size roots)) 1024) as [Hlt|Hge].
    { exists roots. split; [done|]. split; [done|]. split; [done|]. split; [|done].
      intros k k' [r Hk] Hn. congruence. }
    assert (Hne : map_Keys roots <> []).
    { intros E. assert (roots = ∅) as ->.
      { apply map_empty. intros k. apply eq_None_not_Some. rewrite <- elem_of_Keys, E. apply not_elem_of_nil. }
      rewrite map_size_empty in Hge. lia. }
    destruct (Min_spec (map_Keys roots) Hne) as [Hin Hmin]. set (k0 := (slice_Min (map_Keys roots)).2) in *.
    apply elem_of_Keys in Hin as [r0 Hr0].
    pose proof (map_size_delete_Some k0 roots ltac:(eauto)) as Hsz.
    destruct (IH (delete k0 roots)) as (roots' & E & Hlt & Hsub & Hold & _); [lia|].
    exists roots'. split; [exact E|]. split; [done|]. split; [|split; [|lia]].
    + intros k r Hk. apply Hsub in Hk. by apply lookup_delete_Some in Hk as [_ Hk].
    + intros k k' Hk Hn Hk'. destruct (decide (k0 = k)) as [<-|Hd].
      * destruct Hk' as [r' Hr']. apply Hsub in Hr'. apply lookup_delete_Some in Hr' as [Hd Hr'].
        assert (k0 <= k')%Z by (apply Hmin, elem_of_Keys; eauto). lia.
      * apply (Hold k k'); [by rewrite lookup_delete_ne|done|done].
Qed.

(** C35: the loop that prunes the block roots ends, for any number of roots: it
    leaves fewer than 1024 of those there were, it drops only roots older than
    all it leaves, and none when there is room. *)
Theorem prune_terminates roots :
  exists roots', prune_loop (size roots) roots = Some roots' /\ (Z.of_nat (size roots') < 1024)%Z /\
    (forall k r, roots' !! k = Some r -> roots !! k = Some r) /\
    (forall k k', is_Some (roots !! k) -> roots' !! k = None -> is_Some (roots' !! k') -> (k < k')%Z) /\
    ((Z.of_nat (size roots) < 1024)%Z -> roots' = roots).
Proof. by apply prune_loop_ok. Qed.
End roots.

Section theory.
Context `{CT : CrdtTypes} `{TT : TrieTypes} `{RL : !RlpLib} `{FI : FixedInt} `{UI : Uint256}
  `{CV : !CrdtValues} `{SL : SliceLib} `{SLL : !SliceLaws SL} `{ML : MapLib} `{MLW : !MapLaws ML}
  `{ES : EthSliceLib} `{ESL : !EthSliceLaws ES} `{CrL : CryptoLib} `{EC : EthCommonLib}
  `{AL : !AddressLaws} `{SA : StateAccountLib} `{SAL : !StateAccountLaws SA} `{TL : !TrieLib}
  {DB : Type} `{DL : !DBLib DB} `{MD : !DBLib memorydb}
  `{TS : !TrieSpec} `{TLW : !TrieLaws TS}.
Implicit Types (e : EthState DB) (l : loc) (a : Account) (ad : bytes) (x : option string).

Definition slots a : gmap bytes bytes := v_slots (view a).

(** ** The commit of the dirty accounts *)

(** An account of the block so far, from what it was before. *)
Definition committed (d : triedb) (a0 : Account) x a : Prop :=
  addr a = addr a0 /\ state a = state a0 /\ code a = code a0 /\ backend a = backend a0 /\
  ((exists t, storageTrie a = Some t /\ backed d t /\ trie_map t = slots a0 /\
      trie_Hash t = Root (state a0)) \/
   (trieDirty a = false /\ x <> None)).
Definition commit_one (block : Z) (l : loc) : Go (EthState DB) unit :=
  let! err := Account_Commit block l in
  match err with Some _ => join_dbErr err | None => gret tt end.

Lemma set_dbErr_twice x y (w : EthWorldState) : set_dbErr x (set_dbErr y w) = set_dbErr x w.
Proof. done. Qed.
Lemma errors_Join_some x y : y <> None -> errors_Join x y <> None.
Proof. destruct x, y; done. Qed.

Lemma commit_one_run block l e w x a0 a b :
  es_world e = set_dbErr x w -> es_accounts e !! l = Some a -> committed (es_triedb e) a0 x a ->
  backend a0 = Some b ->
  exists e' x' a', commit_one block l e = Ret (tt, e') /\ keeps (es_triedb e) (es_triedb e') /\
    es_dbs e' = es_dbs e /\ es_world e' = set_dbErr x' w /\ (x' = None -> x = None) /\
    es_accounts e' = <[l := a']> (es_accounts e) /\ committed (es_triedb e') a0 x' a' /\
    trieDirty a' = false /\
    (x' = None -> trieDirty a = true -> stored (es_triedb e') (Root (state a0)) (slots a0)).
Proof.
  intros Hw Ha (H1 & H2 & H3 & H4 & Hc) Hb. unfold commit_one. destruct Hc as [(t & Ht & Hbk & Hm & Hh)|[Hd Hx]].
  - destruct (Account_Commit_eq l a t b block e Ha Ht Hbk) as (err & t' & d' & Hk & E & Hr); [congruence|].
    gstep E. destruct err as [er|].
    + unfold join_dbErr, modify_world. eexists _, (errors_Join x (Some er)), (set_dirty false (set_trie t' a)).
      split; [apply gmodify_eq|]. split; [exact Hk|]. split; [done|]. split; [cbn; by rewrite Hw|].
      split; [by intros [? ?]%errors_Join_None|]. split; [done|]. split; [|split; [done|]].
      * do 4 (split; [done|]). right. split; [done|]. by apply errors_Join_some.
      * by intros [_ ?]%errors_Join_None.
    + destruct Hr as [Hst (t1 & -> & Hb1 & Hm1)].
      eexists _, x, (set_dirty false (set_trie (Some t1) a)). split; [done|]. split; [exact Hk|].
      split; [done|]. split; [done|]. split; [done|]. split; [done|]. split; [|split; [done|]].
      * do 4 (split; [done|]). left. exists t1. split; [done|]. split; [done|]. split; [congruence|].
        rewrite <- Hh. by apply Hash_map.
      * intros _ Hd. rewrite <- Hm, <- Hh. by apply Hst.
  - unfold Account_Commit. rewrite gbind_assoc. gstep (deref_eq _ _ _ Ha). rewrite Hd. gsteps.
    exists e, x, a. split; [done|]. split; [apply keeps_refl|]. split; [done|]. split; [done|].
    split; [done|]. split; [by rewrite insert_id|]. split; [|by split; [|intros ->]].
    do 4 (split; [done|]). by right.
Qed.

(** The accounts [ls] of [e0] after some of them were committed. *)
Record committing e0 (ls done : list loc) x e : Prop := {
  cm_keeps : keeps (es_triedb e0) (es_triedb e);
  cm_dbs : es_dbs e = es_dbs e0;
  cm_world : es_world e = set_dbErr x (es_world e0);
  cm_err : x = None -> dbErr (es_world e0) = None;
  cm_other : forall l, l ∉ ls -> es_accounts e !! l = es_accounts e0 !! l;
  cm_accounts : forall l a0, l ∈ ls -> es_accounts e0 !! l = Some a0 ->
    exists a, es_accounts e !! l = Some a /\ committed (es_triedb e) a0 x a /\
      (l ∉ done -> trieDirty a = trieDirty a0) /\
      (l ∈ done -> x = None -> trieDirty a0 = true -> stored (es_triedb e) (Root (state a0)) (slots a0));
}.
Lemma committed_keeps d d' a0 x x' a : keeps d d' -> (x' = None -> x = None) ->
  committed d a0 x a -> committed d' a0 x' a.
Proof.
  intros [Hk _] Hx (H1 & H2 & H3 & H4 & Hc). do 4 (split; [done|]).
  destruct Hc as [(t & Ht & Hb & Hm)|[Hd Hn]]; [left|right].
  - exists t. split; [done|]. split; [by apply Hk|done].
  - split; [done|]. intros E. by apply Hn, Hx.
Qed.
Lemma committing_step block l e0 ls don x e :
  committing e0 ls don x e -> l ∈ ls ->
  (exists a0 b, es_accounts e0 !! l = Some a0 /\ backend a0 = Some b) ->
  exists x' e', commit_one block l e = Ret (tt, e') /\ committing e0 ls (l :: don) x' e'.
Proof.
  intros [Hk Hd Hw He Ho Hacc] Hl (a0 & b & Ha0 & Hb).
  destruct (Hacc l a0 Hl Ha0) as (a & Ha & Hc & Hdirty & Hst).
  destruct (commit_one_run block l e (es_world e0) x a0 a b Hw Ha Hc Hb)
    as (e' & x' & a' & E & Hk' & Hd' & Hw' & Hx & Hacc' & Hc' & Hdf & Hst').
  exists x', e'. split; [done|]. constructor.
  - by eapply keeps_trans.
  - congruence.
  - done.
  - auto.
  - intros l' Hl'. rewrite Hacc', lookup_insert_ne; [by apply Ho|]. by intros ->.
  - intros l' a1 Hl' Ha1. destruct (decide (l = l')) as [->|Hne].
    + rewrite Ha0 in Ha1. injection Ha1 as <-. exists a'. rewrite Hacc', lookup_insert_eq.
      split; [done|]. split; [done|]. split; [intros Hn; exfalso; apply Hn; by left|].
      intros _ Hx' Hd0. destruct (decide (l' ∈ don)) as [Hin|Hin].
      * apply Hk'. by apply Hst; auto.
      * apply Hst'; [done|]. by rewrite Hdirty.
    + destruct (Hacc l' a1 Hl' Ha1) as (a2 & Ha2 & Hc2 & Hd2 & Hst2). exists a2.
      rewrite Hacc', lookup_insert_ne by done. split; [done|].
      split; [by eapply committed_keeps|]. split.
      * intros Hn. apply Hd2. intros Hin. apply Hn. by right.
      * intros [->|Hin]%elem_of_cons Hx' Hd0; [done|]. apply Hk'. by apply Hst2; auto.
Qed.
Lemma commit_accounts_run block e0 ls todo don x e :
  committing e0 ls don x e -> (forall l, l ∈ todo -> l ∈ ls) ->
  (forall l, l ∈ ls -> exists a0 b, es_accounts e0 !! l = Some a0 /\ backend a0 = Some b) ->
  exists x' e', gforeach (commit_one block) todo e = Ret (tt, e') /\
    committing e0 ls (rev todo ++ don) x' e'.
Proof.
  revert don x e. induction todo as [|l todo IH]; intros don x e Hc Hin Hls.
  - by exists x, e.
  - cbn [gforeach]. destruct (committing_step block l e0 ls don x e Hc) as (x1 & e1 & E1 & Hc1);
      [apply Hin; by left|apply Hls, Hin; by left|].
    gstep E1. destruct (IH (l :: don) x1 e1 Hc1) as (x2 & e2 & E2 & Hc2);
      [intros l' Hl'; apply Hin; by right|done|].
    exists x2, e2. split; [done|]. cbn [rev]. by rewrite <- app_assoc.
Qed.

(** ** The groups of the dirty accounts *)
Lemma gforeach_concat {A} (f : A -> Go (EthState DB) unit) (gs : list (list A)) e :
  gforeach (fun g => gforeach f g) gs e = gforeach f (List.concat gs) e.
Proof.
  revert e. induction gs as [|g gs IH]; intros e; [done|]. cbn [gforeach List.concat].
  rewrite gforeach_app. apply gbind_ext. intros _ e'. apply IH.
Qed.
Definition grouped (m : gmap bytes (list loc)) (l : loc) : Prop := exists ad g, m !! ad = Some g /\ l ∈ g.
Lemma merge_accounts_run e (dirties : list (option loc)) :
  (forall l, Some l ∈ dirties -> is_Some (es_accounts e !! l)) ->
  exists m, merge_accounts dirties e = Ret (m, e) /\ forall l, grouped m l <-> Some l ∈ dirties.
Proof.
  intros Hv. unfold merge_accounts.
  enough (H : forall m0, exists m, gfold (fun (m : gmap bytes (list loc)) acct =>
      match acct with
      | None => gret m
      | Some l => let! a := deref l in gret (<[addr a := default [] (m !! addr a) ++ [l]]> m)
      end) m0 dirties e = Ret (m, e) /\ forall l, grouped m l <-> grouped m0 l \/ Some l ∈ dirties).
  { destruct (H ∅) as (m & E & Hm). exists m. split; [exact E|]. intros l. rewrite Hm.
    split; [|by right]. intros [(ad & g & Hg & _)|]; [by rewrite lookup_empty in Hg|done]. }
  induction dirties as [|[l0|] dirties IH]; intros m0; cbn [gfold].
  - exists m0. split; [done|]. intros l. rewrite elem_of_nil. tauto.
  - destruct (Hv l0) as [a Ha]; [by left|]. rewrite gbind_assoc. gstep (deref_eq _ _ _ Ha). gsteps.
    destruct (IH (fun l Hl => Hv l ltac:(by right)) (<[addr a := default [] (m0 !! addr a) ++ [l0]]> m0))
      as (m & E & Hm).
    exists m. split; [exact E|]. intros l. rewrite Hm, elem_of_cons.
    assert (Hg : grouped (<[addr a := default [] (m0 !! addr a) ++ [l0]]> m0) l <-> grouped m0 l \/ l = l0).
    { split.
      - intros (ad & g & Hg & Hl). destruct (decide (addr a = ad)) as [<-|Hne].
        + rewrite lookup_insert_eq in Hg. injection Hg as <-.
          apply elem_of_app in Hl as [Hl|Hl%list_elem_of_singleton]; [|by right]. left.
          destruct (m0 !! addr a) as [g|] eqn:E0; [by exists (addr a), g|by apply elem_of_nil in Hl].
        + rewrite lookup_insert_ne in Hg by done. left. by exists ad, g.
      - intros [(ad & g & Hg & Hl)| ->].
        + destruct (decide (addr a = ad)) as [<-|Hne].
          * eexists (addr a), _. rewrite lookup_insert_eq, Hg. split; [done|]. cbn. apply elem_of_app. by left.
          * exists ad, g. by rewrite lookup_insert_ne.
        + eexists (addr a), _. rewrite lookup_insert_eq. split; [done|]. apply elem_of_app. right.
          by apply list_elem_of_singleton. }
    rewrite Hg. naive_solver.
  - destruct (IH (fun l Hl => Hv l ltac:(by right)) m0) as (m & E & Hm). gsteps. exists m.
    split; [exact E|]. intros l. rewrite Hm, elem_of_cons. naive_solver.
Qed.

(** ** The commit of a block *)
Lemma cache_accounts e l : accounts_ok e -> l ∈ cache_locs e ->
  exists ad a, es_accounts e !! l = Some a /\ account_ok e ad a.
Proof.
  intros Ha [ad Hc]%elem_of_cache_locs. destruct (Ha ad l Hc) as (_ & a & Hla & Hok). by exists ad, a.
Qed.

Lemma commits_run block e (dirties : list (option loc)) m : eth_wf e ->
  (forall l, Some l ∈ dirties -> l ∈ cache_locs e) ->
  (forall l, grouped m l <-> Some l ∈ dirties) ->
  exists x e', slice_ParallelForeach (fun _ ds => commit_accounts block ds) (map_Values m) e = Ret (tt, e') /\
    exists don, committing e (cache_locs e) don x e' /\ forall l, Some l ∈ dirties -> l ∈ don.
Proof.
  intros (_ & Hacc & _) Hd Hm.
  destruct (ParallelForeach_perm (fun _ ds => commit_accounts block ds) (map_Values m) e) as (js & HP & E).
  assert (Hin : forall l, l ∈ List.concat (map snd js) <-> Some l ∈ dirties).
  { intros l. rewrite <- Hm. rewrite list_elem_of_In, in_concat. split.
    - intros (g & Hg & Hl). apply list_elem_of_In in Hg, Hl. apply list_elem_of_fmap in Hg as ([i g'] & -> & Hj).
      rewrite HP in Hj. apply elem_of_lookup_imap in Hj as (i' & g0 & [= -> ->] & Hi).
      apply list_elem_of_lookup_2, elem_of_Values in Hi as [ad Hi]. by exists ad, g0.
    - intros (ad & g & Hg & Hl). exists g. split; [|by apply list_elem_of_In].
      assert (Hv : g ∈ map_Values m) by (apply elem_of_Values; eauto).
      apply list_elem_of_lookup_1 in Hv as [i Hi]. apply list_elem_of_In, list_elem_of_fmap.
      exists (i, g). split; [done|]. rewrite HP. apply elem_of_lookup_imap. by exists i, g. }
  destruct (commit_accounts_run block e (cache_locs e) (List.concat (map snd js)) [] (dbErr (es_world e)) e)
    as (x & e' & E' & Hc).
  - constructor; try done.
    + by destruct (es_world e).
    + intros l a0 Hl Ha0. exists a0. split; [done|]. split; [|by split; [|intros ?%elem_of_nil]].
      do 4 (split; [done|]). left. destruct (cache_accounts e l Hacc Hl) as (ad & a & Ha & _ & _ & _ & t & Ht & Hb & Hr).
      rewrite Ha in Ha0. injection Ha0 as <-. exists t. split; [done|]. split; [done|].
      split; [unfold slots, view; cbn; by rewrite Ht|done].
  - intros l Hl. by apply Hd, Hin.
  - intros l Hl. destruct (cache_accounts e l Hacc Hl) as (ad & a & Ha & _ & Hb & _). eauto.
  - exists x, e'. split.
    + rewrite E, <- E', <- gforeach_concat. generalize e. clear. induction js as [|j js IH]; intros e; [done|].
      cbn [map gforeach]. apply gbind_ext. intros _ e1. apply IH.
    + eexists. split; [exact Hc|]. intros l Hl. rewrite app_nil_r. apply list_elem_of_In, in_rev.
      rewrite rev_involutive. by apply list_elem_of_In, Hin.
Qed.

(** The state after the accounts and the world trie have been committed. *)
Definition persisted (t1 : trie) (d' : triedb) e2 : EthState DB :=
  with_world (set_dbErr None (set_worldStateTrie (Some t1) (es_world e2))) (with_triedb d' e2).
Lemma committed_account e r don e2 t1 d' ad l a :
  let e1 := with_world (set_blockRoots r (es_world e)) e in
  committing e1 (cache_locs e1) don None e2 -> keeps (es_triedb e2) d' ->
  accountCache (es_world e) !! ad = Some l -> es_accounts e !! l = Some a -> account_ok e ad a ->
  exists a', es_accounts e2 !! l = Some a' /\ account_ok (persisted t1 d' e2) ad a' /\ view a' = view a /\
    state a' = state a.
Proof.
  intros e1 [_ _ Hw _ _ Hcm] Hk' Hc Ha (Had & Hbk & Hrg & t & Ht & Hbt & Hrt).
  destruct (Hcm l a) as (a' & Ha' & (H1 & H2 & H3 & H4 & [(t2 & Ht2 & Hb2' & Hm2 & Hh2)|[_ Hn]]) & _ & _);
    [apply elem_of_cache_locs; by exists ad|done| |done].
  exists a'. split; [done|]. split; [|split; [|done]].
  - split; [congruence|]. split; [cbn; rewrite Hw; cbn; congruence|]. split; [by rewrite H2|].
    exists t2. split; [done|]. split; [by apply Hk'|]. by rewrite H2.
  - unfold slots, view in *. cbn in Hm2. rewrite H2, H3, Ht2, Hm2. done.
Qed.
Lemma persisted_wf e r don e2 wt t1 d' :
  let e1 := with_world (set_blockRoots r (es_world e)) e in
  eth_wf e -> worldStateTrie (es_world e) = Some wt ->
  committing e1 (cache_locs e1) don None e2 -> keeps (es_triedb e2) d' ->
  backed d' t1 -> trie_map t1 = trie_map wt ->
  eth_wf (persisted t1 d' e2) /\ forall ad, view_at (persisted t1 d' e2) ad = view_at e ad.
Proof.
  intros e1 (Hdisks & Hacc & wt0 & Hwt & _ & Hmap) Hwt' Hcmt Hk' Hb1 Hm1. assert (wt0 = wt) as -> by congruence.
  pose proof (fun ad l a => committed_account e r don e2 t1 d' ad l a Hcmt Hk') as Hview.
  destruct Hcmt as [_ Hdbs Hw _ _ _].
  assert (Hcached : forall ad, view <$> cached (persisted t1 d' e2) ad = view <$> cached e ad /\
    Account_Encode <$> cached (persisted t1 d' e2) ad = Account_Encode <$> cached e ad).
  { intros ad. unfold cached. cbn. rewrite Hw. cbn.
    destruct (accountCache (es_world e) !! ad) as [l|] eqn:Hc; [|done]. cbn.
    destruct (Hacc ad l Hc) as (_ & a & Ha & Hok).
    destruct (Hview ad l a Hc Ha Hok) as (a' & Ha' & _ & Hv & Hs). rewrite Ha, Ha'. cbn.
    unfold Account_Encode. by rewrite Hv, Hs. }
  split; [split; [|split]|].
  - destruct Hdisks as [H1 H2]. split; cbn; rewrite Hw; [done|]. intros h Hh. rewrite Hdbs. by apply H2.
  - intros ad l Hc. cbn in Hc. rewrite Hw in Hc. cbn in Hc. destruct (Hacc ad l Hc) as (Hl & a & Ha & Hok).
    split; [done|]. destruct (Hview ad l a Hc Ha Hok) as (a' & Ha' & Hok' & _). by exists a'.
  - exists t1. split; [done|]. split; [done|]. intros ad Hl. rewrite Hm1, Hmap by done.
    symmetry. apply Hcached.
  - intros ad. apply Hcached.
Qed.
Lemma persist_run n (dirties : list (option loc)) e : eth_wf e ->
  (forall l, Some l ∈ dirties -> l ∈ cache_locs e) ->
  exists e' wt roots, persistToEthStore n dirties e = Ret (dbErr (es_world e'), e') /\
    worldStateTrie (es_world e) = Some wt /\
    prune_loop (size (blockRoots (es_world e))) (blockRoots (es_world e)) = Some roots /\
    blockRoots (es_world e') = <[n := trie_Hash wt]> roots /\
    (dbErr (es_world e') = None -> dbErr (es_world e) = None /\ eth_wf e' /\
       (forall ad, view_at e' ad = view_at e ad) /\
       worldStateTrie (es_world e') <> None /\
       stored (es_triedb e') (trie_Hash wt) (trie_map wt) /\
       forall l a, Some l ∈ dirties -> es_accounts e !! l = Some a -> trieDirty a = true ->
         stored (es_triedb e') (Root (state a)) (slots a)).
Proof.
  intros Hwf Hd. pose proof Hwf as (Hdisks & Hacc & wt & Hwt & Hb & Hmap).
  destruct (prune_loop_ok _ (blockRoots (es_world e)) (Nat.le_refl _)) as (roots & Hp & _).
  unfold persistToEthStore, get_world. gsteps. gstep (gsome_eq _ _ e Hp). gstep (gsome_eq _ _ e Hwt).
  unfold modify_world. gsteps.
  set (e1 := with_world (set_blockRoots (<[n := trie_Hash wt]> roots) (es_world e)) e).
  assert (Hwf1 : eth_wf e1).
  { split; [exact Hdisks|]. split; [exact Hacc|]. by exists wt. }
  destruct (merge_accounts_run e1 dirties) as (m & Em & Hm).
  { intros l Hl. destruct (cache_accounts e l Hacc (Hd l Hl)) as (ad & a & Ha & _). eauto. }
  gstep Em.
  destruct (commits_run n e1 dirties m Hwf1 Hd Hm) as (x & e2 & E2 & don & [Hk Hdbs Hw Hx Ho Hcm] & Hdone).
  gstep E2. gsteps.
  assert (Hwt2 : worldStateTrie (es_world e2) = Some wt) by by rewrite Hw.
  gstep (gsome_eq _ _ e2 Hwt2).
  assert (Hb2 : backed (es_triedb e2) wt) by by apply Hk.
  destruct (Commit_trie_eq wt n (trieDB (es_world e2)) e2 Hb2) as (root & t' & err & d' & Hk' & E3 & Hr).
  gstep E3. gsteps.
  set (w3 := set_worldStateTrie t' (es_world e2)).
  assert (Eend : forall y, (match err with Some _ => join_dbErr err | None => gret tt end ;;;
      let! this := gget in gret (dbErr (es_world this))) (with_world w3 (with_triedb d' e2)) = y ->
    y = Ret (errors_Join x err, with_world (set_dbErr (errors_Join x err) w3) (with_triedb d' e2))).
  { intros y <-. destruct err as [er|].
    - unfold join_dbErr, modify_world. gsteps. unfold gret. cbn. by rewrite Hw.
    - gsteps. unfold gret. cbn. rewrite Hw. unfold w3. rewrite Hw. by destruct x. }
  set (e3 := with_world (set_dbErr (errors_Join x err) w3) (with_triedb d' e2)).
  exists e3, wt, roots. split; [|split; [done|]; split; [done|]; split].
  - etrans; [|by apply (Eend _ eq_refl)]. gsteps. apply gbind_ext. intros _ e4. by gsteps.
  - cbn. by rewrite Hw.
  - intros [-> ->]%errors_Join_None. destruct Hr as (-> & Hst & t1 & -> & Hb1 & Hm1).
    split; [by apply Hx|].
    destruct (persisted_wf e (<[n := trie_Hash wt]> roots) don e2 wt t1 d' Hwf Hwt) as [Hwf3 Hv3];
      [by constructor|done|done|done|].
    split; [exact Hwf3|]. split; [exact Hv3|]. split; [done|]. split; [exact Hst|].
    intros l a Hl Ha Hdt. destruct (Hcm l a (Hd l Hl) Ha) as (a' & _ & _ & _ & Hstored).
    apply Hk'. by apply Hstored; auto.
Qed.
End theory.
