(* ===== verification/EthStoreTheory.v ===== *)
(** * Theory of the Ethereum store: reads, and a whole block

    What is read back of a slot, from the live store and from a snapshot at the
    root a block has recorded. *)
From S2P Require Import Prelude GoString Interfaces Heap Paths DeltaSequence Codec CodecTheory EthLib EthAccount EthAccountTheory EthWorldState EthWorldTheory EthWriter EthWriterTheory EthBlockTheory.
Import Constants PathTypes EthStorage.

Section reads.
Context `{CT : CrdtTypes} `{TT : TrieTypes} `{RL : !RlpLib} `{RLL : !RlpLaws RL} `{RE : !RlpEmpty RL}
  `{FI : FixedInt} `{FIL : !FixedIntLaws FI} `{UI : Uint256} `{UIL : !Uint256Laws UI}
  `{B1 : !BoundedLaws Uint64_ops} `{B2 : !BoundedLaws U256_ops} `{B3 : !BoundedLaws Int64_ops}
  `{CV : !CrdtValues} `{SL : SliceLib} `{ES : EthSliceLib} `{CrL : CryptoLib} `{EC : EthCommonLib}
  `{AL : !AddressLaws} `{SA : StateAccountLib} `{SAL : !StateAccountLaws SA} `{TL : !TrieLib}
  {DB : Type} `{DL : !DBLib DB} `{MD : !DBLib memorydb} `{TS : !TrieSpec} `{TLW : !TrieLaws TS}.
Implicit Types (e : EthState DB) (l : loc) (a : Account) (ad : bytes) (v T : Codec.crdt) (k : string).

(** A path of a slot of the account at [ad]. *)
Definition slot_path k ad : Prop :=
  len (GetAccountAddr k) <> 0 /\
  (exists b, hexutil_Decode (GetAccountAddr k) = (b, None) /\ BytesToAddress b = ad) /\
  HasSuffix k PATH_BALANCE = false /\ HasSuffix k PATH_NONCE = false /\
  HasSuffix k PATH_CODE = false /\ ToStorageKey k <> Panic.

Lemma encode_nonempty v b : encodable v -> RlpCodec_Encode "" (Some (VCrdt v)) = Ret (inl b) -> b <> [].
Proof.
  intros He Hb ->. destruct (RlpCodec_roundtrip_at "" v v He eq_refl) as (b & r & E & D & _).
  rewrite Hb in E. injection E as <-.
  destruct D_big_empty as [e1 E1], D_bytes_empty as [e2 E2], D_string_empty as [e3 E3],
    D_bigs_empty as [e4 E4], D_anys_empty as [e5 E5].
  destruct v; cbn [RlpCodec_Decode] in D;
    unfold Uint64RLP_Decode, U256RLP_Decode, Int64RLP_Decode, PathRLP_Decode, NInt64RLP_Decode,
      Uint64RLP_nc_Decode, Uint32RLP_Decode, BigintRLP_Decode, BytesRLP_Decode, StringRLP_Decode in D;
    cbn [length Nat.eqb] in D; rewrite ?E1, ?E2, ?E3, ?E4, ?E5 in D; try rewrite E1 in D;
    try discriminate D.
  - destruct (D_struct_empty 64) as [e6 E6]. by rewrite E6 in D.
  - destruct (D_struct_empty 32) as [e6 E6]. by rewrite E6 in D.
Qed.
(** A slot that holds the encoding of a value decodes to it. *)
Lemma slot_value_decodes v T k : encodable v -> kind T = kind v ->
  written (slot_value (Some v)) = Some (slot_value (Some v)) /\
  exists r, RlpCodec_Decode k (slot_value (Some v)) (Some (VCrdt T)) = Ret (Some r, None) /\ decoded_as v r.
Proof.
  intros He Hk. destruct (RlpCodec_roundtrip_at "" v T He Hk) as (b & r & E & D & Hr).
  unfold slot_value. rewrite E. pose proof (encode_nonempty v b He E) as Hne. split; [by destruct b|].
  exists r. split; [|done]. rewrite <- D. by destruct T.
Qed.

Lemma Account_Get_slot k ad l a t e : es_accounts e !! l = Some a -> storageTrie a = Some t ->
  backed (es_triedb e) t -> slot_path k ad ->
  Account_Get k l e = Ret (match trie_map t !! slot_key k with
                           | Some v => (Some (VRaw v), None)
                           | None => (None, Some ErrNotFound) end, e).
Proof.
  intros Ha Ht Hb (_ & _ & H1 & H2 & H3 & H4). unfold Account_Get. gstep (deref_eq _ _ _ Ha).
  rewrite H1, H2, H3. unfold slot_key. destruct (ToStorageKey k) as [sk|]; [|done].
  gstep (gof_eq (Ret sk) sk e eq_refl). gstep (gsome_eq _ _ e Ht). rewrite (Get_map _ _ _ Hb).
  destruct (trie_map t !! sk) as [v|] eqn:E; cbn; [|done].
  pose proof (map_nonempty _ _ _ _ Hb E). by destruct v.
Qed.

Lemma World_GetAs_slot k ad l a t (w : EthWorldState) e e' v T : slot_path k ad ->
  GetAccount ad w e = Ret ((Some l, None), e') -> es_accounts e' !! l = Some a ->
  storageTrie a = Some t -> backed (es_triedb e') t ->
  trie_map t !! slot_key k = written (slot_value (Some v)) -> encodable v -> kind T = kind v ->
  exists r, World_GetAs k (Some (VCrdt T)) w e = Ret ((Some r, None), e') /\ decoded_as v r.
Proof.
  intros Hk HG Ha Ht Hb Hm He HT. destruct (slot_value_decodes v T k He HT) as [Hw (r & D & Hr)].
  exists r. split; [|done]. unfold World_GetAs, World_Get. destruct Hk as (Hl & (b & Hdec & Hb2) & Hrest).
  unfold GetAccountAddr in *. destruct (ParseAccountAddr k) as [[p0 ak] p1] eqn:Ep.
  rewrite (proj2 (Nat.eqb_neq _ _) Hl), Hdec, Hb2. rewrite gbind_assoc. gstep HG.
  erewrite gbind_eq.
  2: { eapply (Account_Get_slot k ad); [exact Ha|exact Ht|exact Hb|]. unfold slot_path, GetAccountAddr.
       rewrite Ep. split; [done|]. split; [by exists b|exact Hrest]. }
  rewrite Hm, Hw. cbv beta iota. unfold gof. by rewrite D.
Qed.

(** A value the store shows in a slot is read back: asked with a value of
    its type, the world state decodes the value that was written. *)
Theorem World_GetAs_spec k ad e vw v T : eth_wf e -> slot_path k ad ->
  view_at e ad = Some vw -> v_slots vw !! slot_key k = written (slot_value (Some v)) ->
  encodable v -> kind T = kind v ->
  exists r, World_GetAs k (Some (VCrdt T)) (es_world e) e = Ret ((Some r, None), e) /\ decoded_as v r.
Proof.
  intros (_ & Hacc & _) Hk Hv Hs He HT. unfold view_at, cached in Hv.
  destruct (accountCache (es_world e) !! ad) as [l|] eqn:Hc; [|done].
  destruct (Hacc ad l Hc) as (Hl & a & Ha & _ & _ & _ & t & Ht & Hb & _).
  cbn in Hv. rewrite Ha in Hv. apply (inj Some) in Hv. subst vw. cbn in Hs. rewrite Ht in Hs.
  eapply (World_GetAs_slot k ad l a t); [done| |done..].
  by apply GetAccount_cached.
Qed.

(** ** Snapshots *)
(** The disks a database opened at a root reads codes from. *)
Definition snapshot_disks e : Prop :=
  exists h, triedb_DBs (es_triedb e) !! 0 = Some h /\ is_Some (es_dbs e !! h).

Lemma snapshot_account e root m a ad : snapshot_disks e ->
  stored (es_triedb e) root m -> length ad = 20 -> m !! Keccak256 ad = Some (Account_Encode a) ->
  state_in_range (state a) -> stored (es_triedb e) (Root (state a)) (v_slots (view a)) ->
  exists w l c t1, LoadEthTrieByRoot root e = Ret ((Some w, None), e) /\
    GetAccount ad w e =
      Ret ((Some l, None), put_account l (MkAccount ad (state a) c (Some t1) None None false) e) /\
    backed (es_triedb e) t1 /\ trie_map t1 = v_slots (view a) /\
    forall h d, triedb_DBs (es_triedb e) !! 0 = Some h -> es_dbs e !! h = Some d ->
      c = (db_Get (CodeHash (state a)) d).1.
Proof.
  intros (h & Hh & d & Hd) [(t & Et & Hb & Hm) _] Hl Hrec Hr [(t1 & Et1 & Hb1 & Hm1) _].
  destruct (StateAccount_roundtrip (state a) Hr) as (b & Eb & Hne & Db).
  set (w := NewEthDataStore t (MkEthShardTrieDB (triedb_DBs (es_triedb e)))).
  exists w, (fresh (dom (es_accounts e))), (db_Get (CodeHash (state a)) d).1, t1.
  split; [unfold LoadEthTrieByRoot; gsteps; by rewrite Et|].
  split; [|split; [done|split; [done|intros h' d' Hh' Hd'; congruence]]]. unfold GetAccount. rewrite Hl. cbn [Nat.eqb accountCache w NewEthDataStore]. rewrite lookup_empty.
  gstep (gsome_eq (worldStateTrie w) t e eq_refl). rewrite (Get_map _ _ _ Hb), Hm, Hrec.
  unfold Account_Encode. rewrite Eb. cbn [fst]. destruct b as [|b0 b]; [done|]. cbn [from_option id].
  rewrite Db. gsteps. rewrite Et1. gsteps. cbn [trieDB diskShardDBs w NewEthDataStore].
  gstep (gsome_eq _ _ e Hh). unfold DB_Get. gsteps. gstep (gsome_eq _ _ e Hd). gsteps.
  destruct (db_Get (CodeHash (state a)) d) as [c err]. gsteps.
  by erewrite gbind_eq by (apply alloc_ret; split; reflexivity).
Qed.
Lemma snapshot_reads e root m a ad k v T : snapshot_disks e ->
  stored (es_triedb e) root m -> length ad = 20 -> m !! Keccak256 ad = Some (Account_Encode a) ->
  state_in_range (state a) -> stored (es_triedb e) (Root (state a)) (v_slots (view a)) ->
  slot_path k ad -> v_slots (view a) !! slot_key k = written (slot_value (Some v)) ->
  encodable v -> kind T = kind v ->
  exists w r e', LoadEthTrieByRoot root e = Ret ((Some w, None), e) /\
    World_GetAs k (Some (VCrdt T)) w e = Ret ((Some r, None), e') /\ decoded_as v r.
Proof.
  intros Hsd Hst Hl Hrec Hr Hsa Hk Hs He HT.
  destruct (snapshot_account e root m a ad Hsd Hst Hl Hrec Hr Hsa) as (w & l & c & t1 & EL & EG & Hb1 & Hm1 & _).
  set (a1 := MkAccount ad (state a) c (Some t1) None None false) in *.
  destruct (World_GetAs_slot k ad l a1 t1 w e _ v T Hk EG) as (r & E & Hdec);
    [apply put_account_lookup|done|exact Hb1|by rewrite Hm1|done|done|].
  by exists w, r, (put_account l a1 e).
Qed.
End reads.

(** ** Blocks *)
Section block.
Context `{CT : CrdtTypes} `{TT : TrieTypes} `{RL : !RlpLib} `{RLL : !RlpLaws RL} `{RE : !RlpEmpty RL}
  `{FI : FixedInt} `{FIL : !FixedIntLaws FI} `{UI : Uint256} `{UIL : !Uint256Laws UI}
  `{B1 : !BoundedLaws Uint64_ops} `{B2 : !BoundedLaws U256_ops} `{B3 : !BoundedLaws Int64_ops}
  `{CV : !CrdtValues} `{SL : SliceLib} `{SLL : !SliceLaws SL} `{ML : MapLib} `{MLW : !MapLaws ML}
  `{ES : EthSliceLib} `{ESL : !EthSliceLaws ES} `{IL : IndexerLib} `{ILL : !IndexerLaws IL}
  `{CrL : CryptoLib} `{EC : EthCommonLib}
  `{AL : !AddressLaws} `{SA : StateAccountLib} `{SAL : !StateAccountLaws SA} `{TL : !TrieLib}
  {DB : Type} `{DL : !DBLib DB} `{DW : !DBWrites DL} `{MD : !DBLib memorydb}
  `{TS : !TrieSpec} `{TLW : !TrieLaws TS}.
Context {S cell : Type} `{CL : CellLib Codec.crdt cell} `{CH : HeapLens S cell}
  `{CHL : !HeapLensLaws CH} `{EO : ObjLens S (EthState DB)} `{EOL : !ObjLensLaws EO}
  `{EI : !ObjIndep CH EO} `{KV : KVsLib S Codec.crdt} `{KVL : !KVsLaws KV}.
Abbreviation Writer := (EthStorageWriter cell).
Implicit Types (s : S) (e : EthState DB) (l : loc) (a : Account) (ad : bytes) (T : Codec.crdt).
Abbreviation eth s := (obj_of s : EthState DB).

(** The version a block is recorded under: the highest of its generations. *)
Definition block_version (bs : list (EthIndexer cell)) (v : Z) : Prop :=
  match bs with
  | [] => v = 0%Z
  | _ => (exists idx, idx ∈ bs /\ Version idx = v) /\ forall idx, idx ∈ bs -> (Version idx <= v)%Z
  end.
Lemma Merge_run (bs : list (EthIndexer cell)) s : exists v ds,
  Indexer_Merge bs s = Ret ((v, ds), s) /\ block_version bs v /\
  forall l, l ∈ ds <-> exists idx, idx ∈ bs /\ l ∈ dirtyAccounts idx.
Proof.
  unfold Indexer_Merge. destruct bs as [|b0 bs].
  - exists 0%Z, []. split; [done|]. split; [done|]. intros l. split; [by intros ?%elem_of_nil|].
    by intros (idx & ?%elem_of_nil & _).
  - cbn [length Nat.ltb Nat.leb]. destruct (MaxIf_spec (b0 :: bs) Version) as (x & Hx & Hin & Hmax); [done|].
    gstep (gsome_eq _ _ s Hx). rewrite ConcateDo_concat by done. rewrite RemoveIf_spec.
    eexists _, _. split; [reflexivity|]. split; [split; [by exists x|done]|].
    intros l. rewrite list_elem_of_In, in_concat. split.
    + intros (g & (idx & <- & Hi)%in_map_iff & Hl). apply filter_In in Hi as [Hi _].
      exists idx. by rewrite !list_elem_of_In.
    + intros (idx & Hi & Hl). exists (dirtyAccounts idx). rewrite !list_elem_of_In in *.
      split; [|done]. apply in_map, filter_In. split; [done|]. by destruct (dirtyAccounts idx).
Qed.

Lemma Commit_run n (this : Writer) s : eth_wf (eth s) ->
  (forall idx l, idx ∈ buffer this -> l ∈ dirtyAccounts idx -> l ∈ cache_locs (eth s)) ->
  exists v e' wt roots, block_version (buffer this) v /\
    Commit n this s =
      Ret ((MkEthStorageWriter (Indexer this) [] (wfilter this), dbErr (es_world e')), with_obj e' s) /\
    worldStateTrie (es_world (eth s)) = Some wt /\
    prune_loop (size (blockRoots (es_world (eth s)))) (blockRoots (es_world (eth s))) = Some roots /\
    blockRoots (es_world e') = <[u64 v := trie_Hash wt]> roots /\
    (dbErr (es_world e') = None -> dbErr (es_world (eth s)) = None /\ eth_wf e' /\
       (forall ad, view_at e' ad = view_at (eth s) ad) /\ worldStateTrie (es_world e') <> None /\
       stored (es_triedb e') (trie_Hash wt) (trie_map wt) /\
       forall idx l a, idx ∈ buffer this -> l ∈ dirtyAccounts idx -> es_accounts (eth s) !! l = Some a ->
         trieDirty a = true -> stored (es_triedb e') (Root (state a)) (slots a)).
Proof.
  intros Hwf Hd. destruct (Merge_run (buffer this) s) as (v & ds & E & Hv & Hds).
  assert (Hin : forall l, Some l ∈ map Some ds <-> exists idx, idx ∈ buffer this /\ l ∈ dirtyAccounts idx).
  { intros l. rewrite <- Hds. split.
    - by intros (l' & [= ->] & Hl)%list_elem_of_fmap.
    - intros Hl. apply list_elem_of_fmap. by exists l. }
  destruct (persist_run (u64 v) (map Some ds) (eth s) Hwf) as (e' & wt & roots & Ep & Hwt & Hr & Hb & Hok).
  { intros l (idx & Hi & Hl)%Hin. by eapply Hd. }
  exists v, e', wt, roots. split; [done|]. split; [|split; [done|]; split; [done|]; split; [done|]].
  - unfold Commit. gstep E. erewrite gbind_eq by (apply in_eth_eq; exact Ep). cbv beta.
    erewrite gbind_eq by (apply in_eth_eq; rewrite obj_with_obj; reflexivity). cbv beta.
    by rewrite with_obj_twice.
  - intros Hnone. destruct (Hok Hnone) as (H1 & H2 & H3 & H4 & H5 & H6).
    do 5 (split; [done|]). intros idx l a Hi Hl. apply H6. apply Hin. by exists idx.
Qed.

(** C17: the commit of a block: it records the world root under the version of
    the block's generations, pruning the older roots; when no write of the node
    so far has failed, the store shows what it showed, and the trie database
    holds the world trie and the storage trie of every marked account of the
    block.  An error of an earlier block is returned again. *)
Theorem EthStorage_Commit_spec n (this : Writer) s : eth_wf (eth s) ->
  (forall idx l, idx ∈ buffer this -> l ∈ dirtyAccounts idx -> l ∈ cache_locs (eth s)) ->
  exists v s' wt roots, block_version (buffer this) v /\
    Commit n this s =
      Ret ((MkEthStorageWriter (Indexer this) [] (wfilter this), dbErr (es_world (eth s'))), s') /\
    worldStateTrie (es_world (eth s)) = Some wt /\
    prune_loop (size (blockRoots (es_world (eth s)))) (blockRoots (es_world (eth s))) = Some roots /\
    blockRoots (es_world (eth s')) = <[u64 v := trie_Hash wt]> roots /\
    (dbErr (es_world (eth s)) <> None -> dbErr (es_world (eth s')) <> None) /\
    (dbErr (es_world (eth s')) = None -> eth_wf (eth s') /\
       (forall ad, view_at (eth s') ad = view_at (eth s) ad) /\
       stored (es_triedb (eth s')) (trie_Hash wt) (trie_map wt) /\
       forall idx l a, idx ∈ buffer this -> l ∈ dirtyAccounts idx -> es_accounts (eth s) !! l = Some a ->
         trieDirty a = true -> stored (es_triedb (eth s')) (Root (state a)) (slots a)).
Proof.
  intros Hwf Hd. destruct (Commit_run n this s Hwf Hd) as (v & e' & wt & roots & Hv & E & Hwt & Hp & Hb & Hok).
  exists v, (with_obj e' s), wt, roots. rewrite obj_with_obj. do 5 (split; [done|]). split.
  - intros Hne Hnone. by destruct (Hok Hnone).
  - intros Hnone. destruct (Hok Hnone) as (_ & H2 & H3 & _ & H5 & H6). done.
Qed.

(** The proxy creates the writer with version -1, and so are the indexers
    that follow: whatever the number of a block, its root is recorded under
    2^64 - 1, and asking for the root of a block gives the zero hash. *)
Theorem block_number_unused n (k : Z) (this : Writer) s : eth_wf (eth s) ->
  blockRoots (es_world (eth s)) = ∅ ->
  buffer this <> [] -> (forall idx, idx ∈ buffer this -> Version idx = (-1)%Z) ->
  (forall idx l, idx ∈ buffer this -> l ∈ dirtyAccounts idx -> l ∈ cache_locs (eth s)) ->
  exists r s' wt, Commit n this s = Ret (r, s') /\ worldStateTrie (es_world (eth s)) = Some wt /\
    GetRootHash k (es_world (eth s')) = if decide (k = MaxUint64) then trie_Hash wt else EmptyHash.
Proof.
  intros Hwf Hroots Hne Hver Hd.
  destruct (Commit_run n this s Hwf Hd) as (v & e' & wt & roots & Hv & E & Hwt & Hp & Hb & _).
  eexists _, (with_obj e' s), wt. split; [exact E|]. split; [done|]. rewrite obj_with_obj.
  unfold GetRootHash. rewrite Hb. rewrite Hroots in Hp. cbn in Hp. injection Hp as <-.
  destruct (buffer this) as [|b0 bs] eqn:Eb; [done|]. destruct Hv as [(idx & Hi & Hvi) _].
  rewrite (Hver idx Hi) in Hvi. subst v. change (u64 (-1)) with MaxUint64.
  case_decide as Hk; [subst k; by rewrite lookup_insert_eq|]. by rewrite lookup_insert_ne by congruence.
Qed.


(** A generation of a block: its transitions are imported and precommitted. *)
Definition generation (ts : list loc) (this : Writer) : Go S (Writer * option string) :=
  let! w := Import ts this in Precommit false w.
(** The transitions of [ts] that the writer takes for an account. *)
Definition group_of (this : Writer) s (ts : list loc) (ad : bytes) : list loc :=
  of_addr s ad (taken (filter (Indexer this)) s ts).
Definition generation_ok (this : Writer) s (ts : list loc) : Prop :=
  valid (heap_of s) ts /\ forall ad, let ls := group_of this s ts ad in
    cells_typed s ls /\ entries_ok (ents s ls) /\
    exists v, apply_entries (ents s ls) (old_view (eth s) ad) = Some v /\ view_in_range v.
Definition generation_view (this : Writer) s (ts : list loc) (ad : bytes) : option AccountView :=
  match group_of this s ts ad with
  | [] => view_at (eth s) ad
  | ls => apply_entries (ents s ls) (old_view (eth s) ad)
  end.
Definition buffer_cached e (this : Writer) : Prop :=
  forall idx l, idx ∈ buffer this -> l ∈ dirtyAccounts idx -> l ∈ cache_locs e.

Record generated (this : Writer) s ts e2 (idx' : EthIndexer cell) : Prop := {
  gn_wf : eth_wf e2;
  gn_version : Version idx' = Version (Indexer this);
  gn_err : dbErr (es_world e2) = dbErr (es_world (eth s));
  gn_grows : forall l, l ∈ cache_locs (eth s) -> l ∈ cache_locs e2;
  gn_dirty : forall l, l ∈ dirtyAccounts idx' -> l ∈ cache_locs e2;
  gn_views : forall ad, view_at e2 ad = generation_view this s ts ad;
  gn_group : forall ad, group_of this s ts ad <> [] ->
    exists l a, l ∈ dirtyAccounts idx' /\ length ad = 20 /\
      accountCache (es_world e2) !! ad = Some l /\ es_accounts e2 !! l = Some a /\ account_ok e2 ad a /\
      (ents s (group_of this s ts ad) <> [] -> trieDirty a = marks (ents s (group_of this s ts ad)));
}.
Lemma generation_run ts (this : Writer) s :
  eth_wf (eth s) -> index (Indexer this) = ∅ -> generation_ok this s ts ->
  exists idx' e2, generation ts this s =
      Ret ((MkEthStorageWriter (NewEthIndexer (-1) (wfilter this)) (buffer this ++ [idx']) (wfilter this),
            dbErr (es_world (eth s))), with_obj e2 s) /\ generated this s ts e2 idx'.
Proof.
  intros Hwf Hidx [Hts Hgen].
  destruct (EthStorage_Import_run ts (Indexer this) s Hwf Hts Hidx) as (m & e1 & E1 & Hwf1 & Hm1 & Hv1 & Hw1 & Hg).
  change (forall ad, snd <$> m !! ad = match group_of this s ts ad with [] => None | ls => Some ls end) in Hg.
  assert (Hgrp : forall ad l ls, m !! ad = Some (l, ls) -> group_of this s ts ad = ls /\ ls <> []).
  { intros ad l ls El. specialize (Hg ad). rewrite El in Hg. cbn in Hg.
    destruct (group_of this s ts ad); [done|]. by injection Hg as ->. }
  set (w1 := MkEthStorageWriter (MkEthIndexer (filter (Indexer this)) (Version (Indexer this)) m
    (dirtyAccounts (Indexer this))) (buffer this) (wfilter this)).
  assert (EI1 : Import ts this s = Ret (w1, with_obj e1 s)) by (unfold Import; by gstep E1).
  assert (Hgo : gen_ok (with_obj e1 s) m).
  { intros ad l ls El. destruct (Hgrp _ _ _ El) as [<- _]. unfold gen_ok, cells_typed, ents.
    rewrite heap_with_obj, obj_with_obj. destruct (Hgen ad) as (H1 & H2 & v & H3 & H4).
    split; [exact H1|]. split; [exact H2|]. exists v. unfold old_view. by rewrite Hv1. }
  destruct (Precommit_run false w1 (with_obj e1 s) m eq_refl) as (idx' & e2 & E2 & Hver & Hpc);
    [by rewrite obj_with_obj|by rewrite obj_with_obj|done|].
  rewrite with_obj_twice in E2. rewrite obj_with_obj in E2, Hpc.
  destruct Hpc as [Hwf2 Hd2 _ _ Hcache Hdirty Hmarks Hv2]. unfold ents in Hmarks, Hv2. rewrite heap_with_obj in Hmarks, Hv2.
  exists idx', e2. split; [unfold generation; gstep EI1; rewrite E2; by rewrite Hw1|].
  constructor; [done|done|by rewrite Hd2, Hw1| | | |].
  - intros l [ad Hl]%elem_of_cache_locs. apply elem_of_cache_locs. exists ad. rewrite Hcache.
    apply cache_with_grows; [done|]. by rewrite Hw1.
  - intros l (ad & ls & El)%Hdirty. apply elem_of_cache_locs. exists ad. by rewrite Hcache, cache_with_lookup, El.
  - intros ad. rewrite Hv2. unfold generation_view, ents, old_view. specialize (Hg ad).
    destruct (m !! ad) as [[l ls]|] eqn:El; [destruct (Hgrp _ _ _ El) as [-> _]|];
      rewrite Hv1; [by destruct ls; [destruct (Hgrp _ _ _ El)|]|]. by destruct (group_of this s ts ad).
  - intros ad Hne. destruct (m !! ad) as [[l ls]|] eqn:El.
    + destruct (Hgrp _ _ _ El) as [-> _]. assert (Hc : accountCache (es_world e2) !! ad = Some l)
        by by rewrite Hcache, cache_with_lookup, El.
      destruct Hwf2 as (_ & Hacc2 & _). destruct (Hacc2 ad l Hc) as (Hl20 & a & Ha & Hok).
      exists l, a. split; [apply Hdirty; by exists ad, ls|]. do 4 (split; [done|]).
      intros Hents. by apply (Hmarks ad l ls a El).
    + specialize (Hg ad). rewrite El in Hg. cbn in Hg. by destruct (group_of this s ts ad).
Qed.

Definition one_generation (n : Z) (ts : list loc) (this : Writer) : Go S (Writer * option string) :=
  let! '(w, _) := generation ts this in Commit n w.

(** C11: a block of one generation, from its transitions to the snapshot at its
    root.  The store shows every account with the generation's transitions
    applied, as [apply_entries] specifies; and when no write has failed, a
    world state opened at the recorded root gives back the value of every slot
    of every account the block wrote slots of. *)
Theorem EthStorage_block n ts (this : Writer) s :
  eth_wf (eth s) -> index (Indexer this) = ∅ -> buffer this = [] -> generation_ok this s ts ->
  exists r s', one_generation n ts this s = Ret (r, s') /\
    (r.2 = None -> eth_wf (eth s') /\
      (forall ad, view_at (eth s') ad = generation_view this s ts ad) /\
      (snapshot_disks (eth s') ->
       let root := GetRootHash (u64 (Version (Indexer this))) (es_world (eth s')) in
       forall ad (k : string) (v : Codec.crdt) T vw,
         marks (ents s (group_of this s ts ad)) = true -> view_at (eth s') ad = Some vw ->
         slot_path k ad -> v_slots vw !! slot_key k = written (slot_value (Some v)) ->
         encodable v -> kind T = kind v ->
         exists w r e, LoadEthTrieByRoot root (eth s') = Ret ((Some w, None), eth s') /\
           World_GetAs k (Some (VCrdt T)) w (eth s') = Ret ((Some r, None), e) /\ decoded_as v r)).
Proof.
  intros Hwf Hidx Hbuf Hgen.
  destruct (generation_run ts this s Hwf Hidx Hgen) as (idx' & e2 & E2 & [Hwf2 Hver _ _ Hcl Hv2 Hacc]).
  rewrite Hbuf in E2. set (w2 := MkEthStorageWriter _ _ _) in E2.
  assert (Hobj2 : eth (with_obj e2 s) = e2) by apply obj_with_obj.
  destruct (Commit_run n w2 (with_obj e2 s)) as (v0 & e3 & wt & roots & Hbv & E3 & Hwt & Hp & Hb & Hok).
  { by rewrite Hobj2. }
  { intros idx l. rewrite Hobj2. intros ->%list_elem_of_singleton. apply Hcl. }
  eexists _, (with_obj e3 (with_obj e2 s)). split; [unfold one_generation; gstep E2; exact E3|].
  rewrite obj_with_obj. cbn [snd]. intros Hnone.
  destruct (Hok Hnone) as (_ & Hwf3 & Hv3 & _ & Hst & Hsta). rewrite Hobj2 in *.
  split; [done|]. split; [intros ad; by rewrite Hv3|]. intros Hsd ad k v T vw Hmk Hvw Hk Hs He HT.
  assert (Hents : ents s (group_of this s ts ad) <> []) by (intros E; by rewrite E in Hmk).
  destruct (Hacc ad) as (l & a & Hl & Hl20 & Hc & Ha & (_ & _ & Hrg & _) & Hdt);
    [intros E; by rewrite E in Hents|].
  destruct Hwf2 as (_ & _ & wt2 & Hwt2 & _ & Hmap2). assert (wt2 = wt) as -> by congruence.
  assert (Hca : cached e2 ad = Some a) by (unfold cached; rewrite Hc; exact Ha).
  assert (Hva : vw = view a).
  { rewrite Hv3 in Hvw. unfold view_at in Hvw. rewrite Hca in Hvw. by apply (inj Some) in Hvw. }
  subst vw. destruct Hbv as [(i & ->%list_elem_of_singleton & <-) _].
  assert (Hroot : GetRootHash (u64 (Version (Indexer this))) (es_world e3) = trie_Hash wt).
  { unfold GetRootHash. rewrite Hb, Hver. cbn. by rewrite lookup_insert_eq. }
  rewrite Hroot. eapply (snapshot_reads e3 (trie_Hash wt) (trie_map wt) a ad k v T); try done.
  - rewrite Hmap2 by done. by rewrite Hca.
  - apply (Hsta idx' l a); [by left|done|done|]. by rewrite Hdt.
Qed.
End block.
