(* ===== verification/EthNode.v ===== *)
(** * The Ethereum store over the life of a node

    A node runs generations and commits in any order, and in between does
    anything to the transitions it has.  The store then shows what the
    specification says: the accounts as a map of views, on which a generation
    acts by [apply_entries] and a commit does not act. *)
From S2P Require Import Prelude GoString Interfaces Heap Paths Codec CodecTheory EthLib EthAccount EthWorldState EthWriter EthAccountTheory EthWorldTheory EthWriterTheory EthBlockTheory EthStoreTheory.
Import PathTypes EthStorage.

Section node.
Context `{CT : CrdtTypes} `{TT : TrieTypes} `{RL : !RlpLib} `{RLL : !RlpLaws RL} `{RE : !RlpEmpty RL}
  `{FI : FixedInt} `{FIL : !FixedIntLaws FI} `{UI : Uint256} `{UIL : !Uint256Laws UI}
  `{B1 : !BoundedLaws Uint64_ops} `{B2 : !BoundedLaws U256_ops} `{B3 : !BoundedLaws Int64_ops}
  `{CV : !CrdtValues} `{SL : SliceLib} `{SLL : !SliceLaws SL} `{ML : MapLib} `{MLW : !MapLaws ML}
  `{ES : EthSliceLib} `{ESL : !EthSliceLaws ES} `{IL : IndexerLib} `{ILL : !IndexerLaws IL}
  `{CrL : CryptoLib} `{EC : EthCommonLib}
  `{AL : !AddressLaws} `{SA : StateAccountLib} `{SAL : !StateAccountLaws SA} `{TL : !TrieLib}
  {DB : Type} `{DL : !DBLib DB} `{DW : !DBWrites DL} `{LD : !LevelDBLib DB} `{MD : !DBLib memorydb}
  `{TS : !TrieSpec} `{TLW : !TrieLaws TS}.
Context {S cell : Type} `{CL : CellLib Codec.crdt cell} `{CH : HeapLens S cell}
  `{CHL : !HeapLensLaws CH} `{EO : ObjLens S (EthState DB)} `{EOL : !ObjLensLaws EO}
  `{EI : !ObjIndep CH EO} `{KV : KVsLib S Codec.crdt} `{KVL : !KVsLaws KV}.
Abbreviation Entry := (string * option Codec.crdt)%type.
Abbreviation Writer := (EthStorageWriter cell).
Abbreviation eth s := (obj_of s : EthState DB).
Abbreviation Node := (Writer * S)%type.
Implicit Types (x y : Node) (ad : bytes).

(** ** The specification *)
Definition Views : Type := bytes -> option AccountView.
Inductive action :=
| Cells                                         (* the rest of the node *)
| Generation (kvs : bytes -> option (list Entry)) (* the transitions of each account *)
| Commits (n : Z).
Definition spec_step (a : action) (f : Views) : Views :=
  match a with
  | Cells | Commits _ => f
  | Generation kvs => fun ad =>
      match kvs ad with
      | Some kvs => apply_entries kvs (default empty_view (f ad))
      | None => f ad
      end
  end.

(** ** The node *)
Definition transitions_of (this : Writer) s (ts : list loc) (ad : bytes) : option (list Entry) :=
  match group_of this s ts ad with [] => None | ls => Some (ents s ls) end.
Inductive node_step : action -> Node -> Node -> Prop :=
| node_cells w s h : node_step Cells (w, s) (w, with_heap h s)
| node_generation ts w s w' err s' :
    generation_ok w s ts -> generation ts w s = Ret ((w', err), s') ->
    node_step (Generation (transitions_of w s ts)) (w, s) (w', s')
| node_commit n w s w' s' :
    Commit n w s = Ret ((w', None), s') -> node_step (Commits n) (w, s) (w', s').
(** From a store just made, with the actions in order. *)
Definition just_made (e : EthState DB) : Prop :=
  e = NewParallelEthMemDataStore \/ (exists dir, NewLevelDBDataStore dir = Some e).
Inductive node_trace : list action -> Node -> Prop :=
| trace_new v f s : just_made (eth s) -> node_trace [] (NewEthStorageWriter v f, s)
| trace_step as_ a x y : node_trace as_ x -> node_step a x y -> node_trace (as_ ++ [a]) y.

Definition node_inv x : Prop :=
  eth_wf (eth x.2) /\ index (Indexer x.1) = ∅ /\ buffer_cached (eth x.2) x.1.

Lemma node_new v f s : just_made (eth s) ->
  node_inv (NewEthStorageWriter v f, s) /\ forall ad, view_at (eth s) ad = None.
Proof.
  intros E. assert (H : eth_wf (eth s) /\ forall ad, view_at (eth s) ad = None)
    by (destruct E as [-> |[dir E]]; [apply new_store_wf|by apply (leveldb_store_wf dir)]).
  destruct H as [Hwf Hv]. unfold node_inv. cbn [fst snd]. split; [|exact Hv]. split; [exact Hwf|]. split; [done|]. by intros idx l Hi%elem_of_nil.
Qed.

Lemma node_step_ok a x y : node_inv x -> node_step a x y ->
  node_inv y /\ forall ad, view_at (eth y.2) ad = spec_step a (view_at (eth x.2)) ad.
Proof.
  intros (Hwf & Hidx & Hbuf) Hs. destruct Hs as [w s h|ts w s w' err s' Hok E|n w s w' s' E];
    cbn [fst snd] in *; unfold node_inv; cbn [fst snd].
  - by rewrite obj_with_heap.
  - destruct (generation_run ts w s Hwf Hidx Hok) as (idx' & e2 & E2 & [Hwf2 _ _ Hgr Hd Hv _]).
    rewrite E in E2. injection E2 as -> -> ->. rewrite obj_with_obj. split.
    + split; [done|]. split; [done|]. intros idx l [Hi| ->%list_elem_of_singleton]%elem_of_app Hl; [|by apply Hd].
      by apply Hgr, (Hbuf idx).
    + intros ad. rewrite Hv. unfold generation_view, transitions_of. cbn [spec_step].
      by destruct (group_of w s ts ad).
  - destruct (Commit_run n w s Hwf Hbuf) as (v & e' & wt & roots & _ & E2 & _ & _ & _ & Hok).
    rewrite E in E2. injection E2 as -> Hn ->. rewrite obj_with_obj.
    destruct (Hok (eq_sym Hn)) as (_ & Hwf' & Hv & _). split; [|exact Hv].
    split; [done|]. split; [done|]. by intros idx l Hi%elem_of_nil.
Qed.

Lemma spec_step_ext a (f g : Views) : (forall ad, f ad = g ad) -> forall ad, spec_step a f ad = spec_step a g ad.
Proof. intros H ad. destruct a; cbn; [apply H| |apply H]. by rewrite H. Qed.

Lemma node_trace_ok as_ x : node_trace as_ x -> node_inv x /\
  forall ad, view_at (eth x.2) ad = fold_left (fun f a => spec_step a f) as_ (fun _ => None) ad.
Proof.
  induction 1 as [v f s E|as_ a x y _ [IHi IHv] Hs]; [by apply node_new|].
  destruct (node_step_ok a x y IHi Hs) as [Hi Hv]. split; [done|]. intros ad.
  rewrite fold_left_app. cbn [fold_left]. rewrite Hv. by apply spec_step_ext.
Qed.

(** C10: from a new store, in memory or over a directory, after any sequence of generations, commits and other
    work of the node, the store is well-formed and shows exactly what the
    specification gives for the sequence: every account with the transitions
    of its generations applied in order, and no other account. *)
Theorem EthStorage_trace as_ x : node_trace as_ x -> node_inv x /\
  forall ad, view_at (eth x.2) ad = fold_left (fun f a => spec_step a f) as_ (fun _ => None) ad.
Proof. apply node_trace_ok. Qed.

(** In every state that a node reaches, a generation whose values have the
    types of their paths is applied, without an error of its own, and a commit
    returns; a commit that returns no error has put in the trie database the
    world trie, in which every account the store shows has its record. *)
Theorem EthStorage_progress as_ x : node_trace as_ x ->
  (forall ts, generation_ok x.1 x.2 ts ->
     exists w s, generation ts x.1 x.2 = Ret ((w, dbErr (es_world (eth x.2))), s)) /\
  (forall n, exists w err s, Commit n x.1 x.2 = Ret ((w, err), s) /\
     (err = None -> exists root m, stored (es_triedb (eth s)) root m /\
        forall ad vw, view_at (eth x.2) ad = Some vw -> exists a, view a = vw /\
          m !! Keccak256 ad = Some (Account_Encode a))).
Proof.
  intros H. destruct (node_trace_ok as_ x H) as [(Hwf & Hidx & Hbuf) _]. split.
  - intros ts Hok. destruct (generation_run ts x.1 x.2 Hwf Hidx Hok) as (idx' & e2 & E2 & _). eauto.
  - intros n. destruct (Commit_run n x.1 x.2 Hwf Hbuf) as (v & e' & wt & roots & _ & E & Hwt & _ & _ & Hok).
    eexists _, _, _. split; [exact E|]. intros Hn. rewrite obj_with_obj.
    destruct (Hok Hn) as (_ & _ & _ & _ & Hst & _). exists (trie_Hash wt), (trie_map wt). split; [done|].
    intros ad vw Hv. by apply (record_of_view (eth x.2)).
Qed.
End node.
