(* ===== verification/EthProof.v ===== *)
(** * storage/ethstorage: Merkle proofs

    ethtrie_types.go, ethtrie_util.go, ethtrie_storage_proof.go,
    ethtrie_proof_cache.go and the proofs of eth_account.go and
    eth_world_state.go.  A proof list and a memory database are what the prover
    writes its nodes to; a proof is the list of the nodes in hexadecimal. *)
From S2P Require Import Prelude GoString Interfaces Heap PathBuilder Codec EthLib EthAccount EthWorldState EthWriter.
Import EthStorage.

(** ** ethtrie_types.go *)
Record StorageResult := MkStorageResult { Key : string; SValue : Z; Proof : list string }.
Record AccountResult := MkAccountResult {
  RAddress : bytes;
  AccountProof : list string;
  RBalance : Z;
  RCodeHash : bytes;
  RNonce : Z;
  StorageHash : bytes;
  StorageProof : list StorageResult;
}.

Section proofs.
Context `{TT : TrieTypes} `{RL : !RlpLib} `{HX : HexCodecLib} `{CrL : CryptoLib}
  `{EC : EthCommonLib} `{SA : StateAccountLib} `{UI : Uint256} `{TL : !TrieLib} {DB : Type}
  `{DL : !DBLib DB} `{MD : !DBLib memorydb}.
Abbreviation Eth := (Go (EthState DB)).

(** What a proof list holds after the prover's writes. *)
Definition proofList_of (puts : list (bytes * bytes)) : list string :=
  map (fun kv => hexutil_Encode kv.2) puts.

(** (hash, length of the input, error) *)
Definition proofList_Delete (n : list string) (key : bytes) : outcome (option string) := Panic.

Definition decodeHash (s : string) : bytes * Z * option string :=
  let s := if HasPrefix s "0x" || HasPrefix s "0X" then str_drop 2 s else s in
  let s := if Nat.odd (len s) then "0" +:+ s else s in
  match hex_DecodeString s with
  | None => (EmptyHash, 0%Z, Some "hex string invalid")
  | Some b =>
      if 32 <? length b then
        (EmptyHash, Z.of_nat (length b), Some "hex string too long, 32 bytes at most")
      else (BytesToHash b, Z.of_nat (length b), None)
  end.

(** ** ethtrie_util.go *)
Fixpoint put_nodes (key : string -> bytes -> bytes) (proofs : list string) (db : memorydb)
    : outcome (memorydb * option string) :=
  match proofs with
  | [] => Ret (db, None)
  | p :: proofs =>
      match hexutil_MustDecode p with
      | Panic => Panic
      | Ret b =>
          match db_Put (key p b) b db with
          | (Some err, db) => Ret (db, Some err)
          | (None, db) => put_nodes key proofs db
          end
      end
  end.
(** Small nodes are kept under their own bytes. *)
Definition ProofArrayToDB (proofs : list string) : outcome (option memorydb * option string) :=
  match put_nodes (fun _ b => if 32 <=? length b then Keccak256 b else b) proofs db_New with
  | Panic => Panic
  | Ret (_, Some err) => Ret (None, Some err)
  | Ret (db, None) => Ret (Some db, None)
  end.

Definition VerifyProof (rootHash : bytes) (proof : list string) (a : bytes) : outcome unit :=
  match ProofArrayToDB proof with
  | Ret (Some db, _) =>
      match trie_VerifyProof rootHash (Keccak256 a) db with
      | (Some (_ :: _), None) => Ret tt
      | _ => Panic
      end
  | _ => Panic
  end.

Definition GetFromTrie {T} (zero : T) (dec : bytes -> T * option string) (t : trie) (key : bytes)
    : T * option string :=
  match trie_Get t (Keccak256 key) with
  | (_, Some err) => (zero, Some err)
  | ([], None) => (zero, Some "key not found in trie")
  | (buffer, None) => dec buffer
  end.

(** ** ethtrie_types.go *)

(** The nodes of a storage proof are kept under their hash when their
    hexadecimal form has at least 32 digits, and under no key otherwise. *)
Definition validate_entry (storageHash : bytes) (entry : StorageResult) : outcome (option string) :=
  match put_nodes (fun p b => if 32 <=? len p then Keccak256 b else []) (Proof entry) db_New with
  | Panic => Panic
  | Ret (_, Some _) => Ret (Some "failed to load storage proof node")
  | Ret (db, None) =>
      match hexutil_MustDecode (Key entry) with
      | Panic => Panic
      | Ret decoded =>
          match trie_VerifyProof storageHash (Keccak256 decoded) db with
          | (Some _, None) => Ret None
          | _ => Ret (Some "failed to verify storage value")
          end
      end
  end.
Fixpoint validate_entries (storageHash : bytes) (entries : list StorageResult)
    : outcome (option string) :=
  match entries with
  | [] => Ret None
  | entry :: entries =>
      match validate_entry storageHash entry with
      | Ret None => validate_entries storageHash entries
      | r => r
      end
  end.
Definition Validate (rootHash : bytes) (this : AccountResult) : outcome (option string) :=
  match ProofArrayToDB (AccountProof this) with
  | Panic => Panic
  | Ret (_, Some err) => Ret (Some err)
  | Ret (None, None) => Panic
  | Ret (Some db, None) =>
      match trie_VerifyProof rootHash (Keccak256 (RAddress this)) db with
      | (Some (_ :: _), None) => validate_entries (StorageHash this) (StorageProof this)
      | _ => Ret (Some "Failed to find the validate the account proof!!!")
      end
  end.

(** ** Proofs of accounts and slots: eth_account.go, eth_world_state.go *)
Definition IsAccountStorageProvable (key : string) (this : Account)
    : outcome (bytes * list string * option string) :=
  let not_found := Some ("Failed to find the proof for storage key: " +:+ key) in
  match decodeHash key with
  | (_, _, Some err) => Ret ([], [], Some err)
  | (decoded, _, None) =>
      let keyBytes := Keccak256 decoded in
      match storageTrie this with
      | None => Panic
      | Some t =>
          match trie_Get t keyBytes with
          | ((_ :: _) as data, None) =>
              let '(puts, err) := trie_Prove t keyBytes in
              let proofs := proofList_of puts in
              match err with
              | Some err => Ret ([], proofs, Some err)
              | None =>
                  match ProofArrayToDB proofs with
                  | Panic => Panic
                  | Ret (_, Some err) => Ret ([], proofs, Some err)
                  | Ret (None, None) => Panic
                  | Ret (Some db, None) =>
                      let '(v, err) := trie_VerifyProof (Root (state this)) keyBytes db in
                      match err with
                      | None => if bool_decide (default [] v = data) then Ret (data, proofs, None)
                                else Ret ([], proofs, not_found)
                      | Some _ => Ret ([], proofs, not_found)
                      end
                  end
              end
          | _ => Ret ([], [], not_found)
          end
      end
  end.

Definition GetAccountProof (a : bytes) (this : EthWorldState) : outcome (list string * option string) :=
  match worldStateTrie this with
  | None => Panic
  | Some t =>
      match (trie_Get t (Keccak256 a)).1 with
      | _ :: _ => let '(puts, err) := trie_Prove t (Keccak256 a) in Ret (proofList_of puts, err)
      | [] => Ret ([], None)
      end
  end.

(** ** ethtrie_storage_proof.go *)

(** The proof of one storage key. *)
Definition prove_slot (account : Account) (hexKey : string) : StorageResult + string :=
  match decodeHash hexKey with
  | (_, _, Some err) => inr err
  | (key, keyLength, None) =>
      let outputKey := if (keyLength =? 32)%Z then hexutil_Encode key
                       else hexutil_EncodeBig (Hash_Big key) in
      match storageTrie account with
      | None => inl (MkStorageResult outputKey 0 [])
      | Some t =>
          let storageKey := Keccak256 key in
          let '(puts, err) := trie_Prove t storageKey in
          match err with
          | Some err => inr err
          | None =>
              let v := (trie_Get t storageKey).1 in
              let decoded := match Decode_bytes v with inl d => d | inr _ => [] end in
              inl (MkStorageResult outputKey (Hash_Big (BytesToHash decoded)) (proofList_of puts))
          end
      end
  end.
Fixpoint prove_slots (account : Account) (keys : list string) : list StorageResult + string :=
  match keys with
  | [] => inl []
  | k :: keys =>
      match prove_slot account k with
      | inr err => inr err
      | inl r => match prove_slots account keys with inr err => inr err | inl rs => inl (r :: rs) end
      end
  end.

(** [GetProof], on the world state of the provider. *)
Definition get_proof (store : EthWorldState) (acctAddr : bytes) (storageKeys : list string)
    : Eth (option AccountResult * option string) :=
  let! '(account, err) := GetAccount acctAddr store in
  match account, err with
  | Some l, None =>
      let! account := deref l in
      let storageHash := GetStorageRoot account in
      let codeHash := GetCodeHash account in
      match prove_slots account storageKeys with
      | inr err => gret (None, Some err)
      | inl storageProof =>
          let! '(accountProof, proofErr) := gof (GetAccountProof acctAddr store) in
          match proofErr with
          | Some _ => gret (None, proofErr)
          | None =>
              let! root := gof (World_Root store) in
              gof (VerifyProof root accountProof acctAddr) ;;;
              gret (Some (MkAccountResult acctAddr accountProof (u256_ToBig (Balance (state account)))
                codeHash (Nonce (state account)) storageHash storageProof), None)
          end
      end
  | _, _ => gret (None, err)
  end.

Definition IsAccountProvable (a : string) (acctRoot : bytes) (worldTrie : trie)
    : bytes * option string :=
  let keyHash := Keccak256 (hexutil_Decode a).1 in
  match (trie_Get worldTrie keyHash).1 with
  | [] => ([], Some "Failed to get the proof")
  | _ :: _ =>
      let '(puts, err) := trie_Prove worldTrie keyHash in
      let proofs := fold_left (fun db kv => (db_Put kv.1 kv.2 db).2) puts db_New in
      match err with
      | Some err => ([], Some err)
      | None =>
          match trie_VerifyProof acctRoot keyHash proofs with
          | (Some ((_ :: _) as v), None) => (v, None)
          | (v, _) => (default [] v, Some "Failed to verify the proof")
          end
      end
  end.
End proofs.

(** ** The providers and their cache *)
Record ProofProvider `{TrieTypes} := MkProofProvider {
  pp_root : bytes;
  totalVisits : Z;
  visits : Z;
  DataStore : EthWorldState;
}.
Record MerkleProofCache := MkMerkleProofCache {
  maxCached : Z;
  merkleDict : gmap bytes loc;
}.
Class FloatLib := {
  float : Type;
  float_ratio : Z -> Z -> float;                (* float64(a) / float64(b) *)
  float_lt : float -> float -> bool;
  slice_Extreme : list float -> (float -> float -> bool) -> Z * option float;
}.
Class FloatLaws (FL : FloatLib) : Prop := {
  Extreme_index : forall l lt, l <> [] -> (0 <= (slice_Extreme l lt).1 < Z.of_nat (length l))%Z;
}.

Section cache.
Context `{TT : TrieTypes} `{RL : !RlpLib} `{HX : HexCodecLib} `{CrL : CryptoLib}
  `{EC : EthCommonLib} `{SA : StateAccountLib} `{UI : Uint256} `{TL : !TrieLib} {DB : Type}
  `{DL : !DBLib DB} `{MD : !DBLib memorydb} `{ML : MapLib} `{FL : FloatLib}.
Context {S : Type} `{PH : HeapLens S ProofProvider} `{EO : ObjLens S (EthState DB)}.

Definition visit (p : ProofProvider) : ProofProvider :=
  MkProofProvider _ (pp_root p) (totalVisits p) (i64 (visits p + 1)) (DataStore p).
Definition count_visit (p : ProofProvider) : ProofProvider :=
  MkProofProvider _ (pp_root p) (u64 (totalVisits p + 1)) (visits p) (DataStore p).

Definition NewProofProvider (root : bytes) : Go S (option loc * option string) :=
  let! '(store, err) := in_eth (LoadEthTrieByRoot root) in
  match store, err with
  | Some store, None => let! l := alloc (MkProofProvider _ root 1 1 store) in gret (Some l, None)
  | _, _ => gret (None, err)
  end.
Definition Provider_Root (this : loc) : Go S bytes :=
  update_cell visit this ;;; let! p := deref this in gret (pp_root p).
Definition GetProof (acctAddr : bytes) (storageKeys : list string) (this : loc)
    : Go S (option AccountResult * option string) :=
  update_cell visit this ;;;
  let! p := deref this in
  in_eth (get_proof (DataStore p) acctAddr storageKeys).

Definition NewMerkleProofCache (max : Z) : MerkleProofCache := MkMerkleProofCache max ∅.

(** The provider that slice.Extreme picks by the ratio of its own visits to all
    the visits counted is dropped. *)
Definition visit_ratio (l : loc) : Go S float :=
  let! p := deref l in gret (float_ratio (visits p) (totalVisits p)).
Definition evict (dict : gmap bytes loc) : Go S (gmap bytes loc) :=
  let '(keys, merkles) := map_KVs dict in
  let! ratios := gmap_list visit_ratio merkles in
  let idx := (slice_Extreme ratios float_lt).1 in
  let! k := gsome (if (0 <=? idx)%Z then keys !! Z.to_nat idx else None) in
  gret (delete k dict).

Definition GetProofProvider (rootHash : bytes) (this : MerkleProofCache)
    : Go S (MerkleProofCache * (option loc * option string)) :=
  let! '(dict, merkle, err) :=
    match merkleDict this !! rootHash with
    | Some l => gret (merkleDict this, Some l, None)
    | None =>
        let! '(datastore, err) := in_eth (LoadEthTrieByRoot rootHash) in
        match datastore, err with
        | Some datastore, None =>
            let! l := alloc (MkProofProvider _ rootHash 1 1 datastore) in
            let dict := <[rootHash := l]> (merkleDict this) in
            if (maxCached this <? Z.of_nat (size dict))%Z then
              let! dict := evict dict in gret (dict, Some l, None)
            else gret (dict, Some l, None)
        | _, _ => gret (merkleDict this, None, err)
        end
    end in
  match merkle with
  | None => gret (this, (None, err))
  | Some l =>
      gforeach (update_cell count_visit) (map_Values dict) ;;;
      gret (MkMerkleProofCache (maxCached this) dict, (Some l, None))
  end.
End cache.
