(* ===== verification/OpVerifier.v ===== *)
(** * op: proofs in Optimism's format

    op_verifier.go and type_converter.go: the same proof with its nodes as bytes
    instead of hexadecimal strings, and the verifier that Optimism runs on it. *)
From S2P Require Import Prelude GoString Interfaces Codec EthLib EthProof.

(** rlp.EncodeToBytes of the list [nonce, balance bytes, storage hash, code hash]. *)
Class ClaimLib := {
  Encode_claim : Z -> bytes -> bytes -> bytes -> bytes + string;
}.

Record OptimismStorageProof := MkOptimismStorageProof {
  OKey : bytes;
  OValue : Z;
  OProof : list bytes;
}.
Record OptimismAccountResult := MkOptimismAccountResult {
  OAccountProof : list bytes;
  OAddress : bytes;
  OBalance : Z;
  OCodeHash : bytes;
  ONonce : Z;
  OStorageHash : bytes;
  OStorageProof : list OptimismStorageProof;
}.

Section op.
Context `{TT : TrieTypes} `{RL : !RlpLib} `{CrL : CryptoLib} `{EC : EthCommonLib} `{TL : !TrieLib}
  `{MD : !DBLib memorydb} `{CB : ClaimLib}.

(** ** type_converter.go *)
Fixpoint decode_nodes (proof : list string) : outcome (list bytes) :=
  match proof with
  | [] => Ret []
  | p :: proof =>
      match hexutil_MustDecode p, decode_nodes proof with
      | Ret b, Ret bs => Ret (b :: bs)
      | _, _ => Panic
      end
  end.
Fixpoint ToStorageProof (res : list StorageResult) : outcome (list OptimismStorageProof) :=
  match res with
  | [] => Ret []
  | r :: res =>
      match hexutil_MustDecode (Key r), decode_nodes (Proof r), ToStorageProof res with
      | Ret k, Ret nodes, Ret ps => Ret (MkOptimismStorageProof (BytesToHash k) (SValue r) nodes :: ps)
      | _, _, _ => Panic
      end
  end.
Definition Convertible_New (this : AccountResult) : outcome OptimismAccountResult :=
  match decode_nodes (AccountProof this), ToStorageProof (StorageProof this) with
  | Ret accountProof, Ret storageProof =>
      Ret (MkOptimismAccountResult accountProof (RAddress this) (RBalance this) (RCodeHash this)
             (RNonce this) (StorageHash this) storageProof)
  | _, _ => Panic
  end.

(** ** op_verifier.go *)
Fixpoint load_nodes (proof : list bytes) (db : memorydb) : memorydb * option string :=
  match proof with
  | [] => (db, None)
  | node :: proof =>
      let nodeKey := if 32 <=? length node then Keccak256 node else node in
      match db_Put nodeKey node db with
      | (Some err, db) => (db, Some err)
      | (None, db) => load_nodes proof db
      end
  end.
Definition verify_entry (storageHash : bytes) (entry : OptimismStorageProof) : option string :=
  match load_nodes (OProof entry) db_New with
  | (_, Some _) => Some "failed to load storage proof node"
  | (db, None) =>
      match trie_VerifyProof storageHash (Keccak256 (OKey entry)) db with
      | (_, Some _) => Some "failed to verify storage value"
      | (val, None) =>
          if bool_decide (val = None) && (OValue entry =? 0)%Z then None
          else match Encode_bytes (big_Bytes (OValue entry)) with
               | inr _ => Some "failed to encode storage value"
               | inl comparison =>
                   if bool_decide (default [] val = comparison) then None
                   else Some "value in storage proof does not match proven value"
               end
      end
  end.
Fixpoint verify_entries (storageHash : bytes) (entries : list OptimismStorageProof) : option string :=
  match entries with
  | [] => None
  | entry :: entries =>
      match verify_entry storageHash entry with
      | None => verify_entries storageHash entries
      | err => err
      end
  end.
Definition Verify (stateRoot : bytes) (res : OptimismAccountResult) : option string :=
  match verify_entries (OStorageHash res) (OStorageProof res) with
  | Some err => Some err
  | None =>
      match Encode_claim (ONonce res) (big_Bytes (OBalance res)) (OStorageHash res) (OCodeHash res) with
      | inr _ => Some "failed to encode account from retrieved values"
      | inl accountClaimedValue =>
          match load_nodes (OAccountProof res) db_New with
          | (_, Some _) => Some "failed to load account proof node"
          | (db, None) =>
              match trie_VerifyProof stateRoot (Keccak256 (OAddress res)) db with
              | (_, Some _) => Some "failed to verify account value"
              | (accountProofValue, None) =>
                  if bool_decide (accountClaimedValue = default [] accountProofValue) then None
                  else Some "account proof does not match provided deserialized values"
              end
          end
      end
  end.
End op.
