(* ===== verification/EthProofTheory.v ===== *)
(** * Theory of the proofs

    A proof the provider makes is one its own check and Optimism's accept, and
    where they do not; parsing of hash arguments; the cache of providers. *)
From S2P Require Import Prelude GoString Interfaces Heap PathBuilder Codec CodecTheory EthLib EthAccount EthAccountTheory EthWorldState EthWorldTheory EthWriter EthProof OpVerifier.
Import EthStorage.

(** go-ethereum/common and hexutil: a hash is padded on the left; a quantity
    has no leading zero digit, so an odd number of digits is not a byte string. *)
Class HashLaws `{HexCodecLib} `{EthCommonLib} : Prop := {
  BytesToHash_pad : forall b, length b <= 32 -> BytesToHash b = replicate (32 - length b) 0%Z ++ b;
  Hash_Big_value : forall h, Hash_Big h = big_SetBytes h;
  MustDecode_Encode : forall b, byte_range b -> hexutil_MustDecode (hexutil_Encode b) = Ret b;
  MustDecode_EncodeBig : forall n, (0 <= n)%Z ->
    hexutil_MustDecode (hexutil_EncodeBig n) =
      if Z.even (Z.log2 n / 4) then Panic else Ret (big_Bytes n);
}.

(** ** Hexadecimal *)

(** The number a string of digits stands for. *)
Fixpoint hex_value (acc : Z) (s : string) : option Z :=
  match s with
  | "" => Some acc
  | String c s => match fromHexChar c with Some d => hex_value (acc * 16 + d) s | None => None end
  end.
Lemma fromHexChar_range c d : fromHexChar c = Some d -> (0 <= d < 16)%Z.
Proof.
  unfold fromHexChar. set (n := Z.of_nat (nat_of_ascii c)).
  repeat match goal with |- context [(?a <=? ?b)%Z] => destruct (Z.leb_spec a b) end;
    cbn; intros [= <-]; lia.
Qed.
Lemma string_pair_ind (P : string -> Prop) :
  P "" -> (forall c, P (String c "")) -> (forall a b s, P s -> P (String a (String b s))) -> forall s, P s.
Proof.
  intros H0 H1 H2. enough (H : forall s, P s /\ forall c, P (String c s)) by (intros s; apply H).
  induction s as [|c s [IH1 IH2]]; [by split|]. split; [apply IH2|]. intros c'. by apply H2.
Qed.
Lemma SetBytes_app b c : big_SetBytes (b ++ c) = fold_left (fun a d => a * 256 + d)%Z c (big_SetBytes b).
Proof. unfold big_SetBytes. by rewrite fold_left_app. Qed.

Lemma DecodeString_spec s : Nat.even (len s) = true ->
  match hex_value 0 s, hex_DecodeString s with
  | Some n, Some b => big_SetBytes b = n /\ byte_range b /\ len s = 2 * length b
  | None, None => True
  | _, _ => False
  end.
Proof.
  intros He. unfold big_SetBytes.
  enough (H : forall acc, match hex_value acc s, hex_DecodeString s with
    | Some n, Some b => fold_left (fun a d => a * 256 + d)%Z b acc = n /\ byte_range b /\ len s = 2 * length b
    | None, None => True
    | _, _ => False end) by apply H.
  induction s as [|c|a b s IH] using string_pair_ind; intros acc; [by repeat split; constructor|done|].
  cbn [hex_value hex_DecodeString].
  destruct (fromHexChar a) as [x|] eqn:Ea; [|done].
  destruct (fromHexChar b) as [y|] eqn:Eb; [|done].
  specialize (IH He (acc * 256 + (x * 16 + y))%Z).
  replace ((acc * 16 + x) * 16 + y)%Z with (acc * 256 + (x * 16 + y))%Z by lia.
  destruct (hex_value _ s) as [n|], (hex_DecodeString s) as [bs|]; try done.
  destruct IH as (H1 & H2 & H3). apply fromHexChar_range in Ea, Eb. split; [done|]. split.
  - constructor; [lia|done].
  - cbn. rewrite H3. lia.
Qed.

Definition strip_0x (s : string) : string :=
  if HasPrefix s "0x" || HasPrefix s "0X" then str_drop 2 s else s.

Section theory.
Context `{TT : TrieTypes} `{RL : !RlpLib} `{RLL : !RlpLaws RL} `{RE : !RlpEmpty RL} `{HX : HexCodecLib} `{CrL : CryptoLib}
  `{EC : EthCommonLib} `{HL : !HashLaws} `{SA : StateAccountLib} `{SAL : !StateAccountLaws SA}
  `{UI : Uint256} `{UIL : !Uint256Laws UI} `{TL : !TrieLib} {DB : Type}
  `{DL : !DBLib DB} `{MD : !DBLib memorydb} `{MDL : !DBLaws MD} `{MDW : !DBWrites MD}
  `{TS : !TrieSpec} `{TLW : !TrieLaws TS}.
Implicit Types (e : EthState DB) (l : loc) (a : Account) (t : trie) (k : string).

Lemma SetBytes_zeros n b : big_SetBytes (replicate n 0%Z ++ b) = big_SetBytes b.
Proof. unfold big_SetBytes. induction n as [|n IH]; [done|]. cbn. exact IH. Qed.
Lemma BytesToHash_length b : length b <= 32 -> length (BytesToHash b) = 32.
Proof. intros Hb. rewrite BytesToHash_pad, length_app, length_replicate by done. lia. Qed.
Lemma BytesToHash_Big b : length b <= 32 -> Hash_Big (BytesToHash b) = big_SetBytes b.
Proof. intros Hb. by rewrite Hash_Big_value, BytesToHash_pad, SetBytes_zeros. Qed.
Lemma BytesToHash_id b : length b = 32 -> BytesToHash b = b.
Proof. intros Hb. rewrite BytesToHash_pad by lia. by rewrite Hb. Qed.
Lemma BytesToHash_range b : length b <= 32 -> byte_range b -> byte_range (BytesToHash b).
Proof.
  intros Hb Hr. rewrite BytesToHash_pad by done. apply Forall_app. split; [|done].
  apply Forall_replicate. lia.
Qed.
Lemma drop_zeros_split b : b = replicate (length b - length (drop_zeros b)) 0%Z ++ drop_zeros b.
Proof.
  induction b as [|d b IH]; [done|]. cbn [drop_zeros]. destruct (Z.eqb_spec d 0) as [->|Hn].
  - assert (Hl : length (drop_zeros b) <= length b).
    { rewrite IH at 2. rewrite length_app. lia. }
    cbn [length]. replace (S (length b) - length (drop_zeros b)) with
      (S (length b - length (drop_zeros b))) by lia. cbn. by rewrite <- IH.
  - by rewrite Nat.sub_diag.
Qed.
(** A key survives its quantity. *)
Lemma BytesToHash_quantity b : length b <= 32 -> byte_range b ->
  BytesToHash (big_Bytes (big_SetBytes b)) = BytesToHash b.
Proof.
  intros Hb Hr. rewrite Bytes_SetBytes by done.
  pose proof (drop_zeros_split b) as E. set (z := drop_zeros b) in *.
  set (n := length b - length z) in *. assert (Hl : length z <= length b) by (rewrite E, length_app; lia).
  rewrite !BytesToHash_pad by lia. rewrite E at 2. rewrite app_assoc, <- replicate_add. do 2 f_equal.
  unfold n. lia.
Qed.

(** A hash argument is read as the number its digits stand for: with or
    without 0x, an odd number of digits included; more than 64 digits, or
    anything that is not a digit, is an error. *)
Theorem decodeHash_spec s :
  let body := strip_0x s in
  match hex_value 0 body with
  | None => exists msg, decodeHash s = (EmptyHash, 0%Z, Some msg)
  | Some n =>
      let size := Z.of_nat ((len body + 1) / 2) in
      if (size <=? 32)%Z
      then exists h, decodeHash s = (h, size, None) /\ length h = 32 /\ Hash_Big h = n
      else exists msg, decodeHash s = (EmptyHash, size, Some msg)
  end.
Proof.
  intros body. unfold decodeHash. fold (strip_0x s). fold body.
  set (even := if Nat.odd (len body) then "0" +:+ body else body).
  assert (Hev : Nat.even (len even) = true /\ hex_value 0 even = hex_value 0 body /\
    len even = 2 * ((len body + 1) / 2)).
  { unfold even. destruct (Nat.odd (len body)) eqn:Ho.
    - split; [|split; [done|]].
      + cbn [len String.append]. by rewrite Nat.even_succ.
      + apply Nat.odd_spec in Ho as [m Hm]. change (len ("0" +:+ body)) with (S (len body)). rewrite Hm.
        replace (2 * m + 1 + 1) with ((m + 1) * 2) by lia. rewrite Nat.div_mul by lia. lia.
    - assert (He : Nat.even (len body) = true) by (rewrite <- Nat.negb_odd; by rewrite Ho).
      split; [done|]. split; [done|]. apply Nat.even_spec in He as [m Hm]. rewrite Hm.
      replace (2 * m + 1) with (1 + m * 2) by lia. rewrite Nat.div_add by lia. cbn. lia. }
  destruct Hev as (Hev & Hval & Hlen). pose proof (DecodeString_spec even Hev) as Hd. rewrite Hval in Hd.
  destruct (hex_value 0 body) as [n|], (hex_DecodeString even) as [b|]; try done; [|by eexists].
  destruct Hd as (Hn & Hr & Hl). assert (Hb : length b = (len body + 1) / 2) by lia. rewrite <- Hb.
  destruct (Z.leb_spec (Z.of_nat (length b)) 32) as [H32|H32].
  - exists (BytesToHash b). rewrite (proj2 (Nat.ltb_ge _ _)) by lia. split; [done|].
    split; [by apply BytesToHash_length; lia|]. rewrite BytesToHash_Big by lia. done.
  - rewrite (proj2 (Nat.ltb_lt _ _)) by lia. by eexists.
Qed.

(** ** Proofs as databases *)

(** The proof of a key is made of byte strings long enough to be referred to by
    their hash, as those of keys of 32 bytes are. *)
Definition proof_wf t (key : bytes) : Prop :=
  Forall (fun hn => 32 <= length hn.2 /\ byte_range hn.2) (trie_Prove t key).1.

Lemma long_nonempty (b : bytes) : 32 <= length b -> b <> [].
Proof. destruct b; cbn; [lia|done]. Qed.

Definition holds (db : memorydb) (hn : bytes * bytes) : Prop := db_Get hn.1 db = (Some hn.2, None).
Lemma put_keeps (puts : list (bytes * bytes)) hn hn' db :
  (forall h n n', (h, n) ∈ puts -> (h, n') ∈ puts -> n = n') -> hn ∈ puts -> hn' ∈ puts ->
  32 <= length hn.2 -> holds db hn' -> holds (db_Put hn.1 hn.2 db).2 hn'.
Proof.
  intros Hf Hi Hi' Hl H. unfold holds in *. pose proof (db_Put_ok hn.1 hn.2 db) as Hok.
  destruct (db_Put hn.1 hn.2 db) as [err db'] eqn:E. cbn in Hok |- *. subst err.
  rewrite (db_Put_Get hn.1 hn.2 db db'); [|by apply long_nonempty|done]. case_decide as Hd; [|done].
  destruct hn as [h n], hn' as [h' n']. cbn in *. subst h'. by rewrite (Hf h n n').
Qed.
Lemma put_holds hn db : 32 <= length hn.2 -> holds (db_Put hn.1 hn.2 db).2 hn.
Proof.
  intros Hl. unfold holds. pose proof (db_Put_ok hn.1 hn.2 db) as Hok.
  destruct (db_Put hn.1 hn.2 db) as [err db'] eqn:E. cbn in Hok |- *. subst err.
  rewrite (db_Put_Get hn.1 hn.2 db db'); [|by apply long_nonempty|done]. by rewrite decide_True.
Qed.

(** Filling a database with the nodes of a proof, one at a time. *)
Lemma put_all (puts todo : list (bytes * bytes)) db :
  (forall h n n', (h, n) ∈ puts -> (h, n') ∈ puts -> n = n') ->
  (forall hn, hn ∈ todo -> hn ∈ puts) -> Forall (fun hn => 32 <= length hn.2) puts ->
  (forall hn, hn ∈ puts -> hn ∈ todo \/ holds db hn) ->
  forall hn, hn ∈ puts -> holds (fold_left (fun db kv => (db_Put kv.1 kv.2 db).2) todo db) hn.
Proof.
  intros Hf Hsub Hl. revert db Hsub. induction todo as [|x todo IH]; intros db Hsub Hh hn Hin.
  - by destruct (Hh hn Hin) as [?%elem_of_nil|].
  - cbn [fold_left]. assert (Hx : x ∈ puts) by (apply Hsub; by left).
    rewrite Forall_forall in Hl. apply IH; [intros y Hy; apply Hsub; by right| |done].
    intros y Hy. destruct (Hh y Hy) as [[->|Hy']%elem_of_cons|Hy'].
    + right. apply put_holds. by apply Hl.
    + by left.
    + right. by apply (put_keeps puts x y); auto.
Qed.
Lemma put_nodes_ok key (todo : list (bytes * bytes)) db :
  Forall (fun hn => byte_range hn.2 /\ key (hexutil_Encode hn.2) hn.2 = hn.1) todo ->
  put_nodes key (proofList_of todo) db =
    Ret (fold_left (fun db kv => (db_Put kv.1 kv.2 db).2) todo db, None).
Proof.
  revert db. induction todo as [|[h n] todo IH]; intros db HF; [done|].
  apply Forall_cons in HF as [[Hr Hk] HF]. cbn [proofList_of map put_nodes fold_left fst snd] in *.
  rewrite MustDecode_Encode, Hk by done. pose proof (db_Put_ok h n db) as Hok.
  destruct (db_Put h n db) as [err db']. cbn in Hok. subst err. by apply IH.
Qed.
Lemma load_nodes_ok (todo : list (bytes * bytes)) db :
  Forall (fun hn => 32 <= length hn.2 /\ hn.1 = Keccak256 hn.2) todo ->
  load_nodes (map snd todo) db =
    (fold_left (fun db kv => (db_Put kv.1 kv.2 db).2) todo db, None).
Proof.
  revert db. induction todo as [|[h n] todo IH]; intros db HF; [done|].
  apply Forall_cons in HF as [[Hr Hk] HF]. cbn [map load_nodes fold_left fst snd] in *.
  rewrite (proj2 (Nat.leb_le _ _)) by done. rewrite <- Hk. pose proof (db_Put_ok h n db) as Hok.
  destruct (db_Put h n db) as [err db']. cbn in Hok. subst err. by apply IH.
Qed.
Lemma decode_nodes_ok (todo : list (bytes * bytes)) :
  Forall (fun hn => byte_range hn.2) todo -> decode_nodes (proofList_of todo) = Ret (map snd todo).
Proof.
  induction 1 as [|[h n] todo Hr _ IH]; [done|]. cbn [snd] in Hr.
  change (proofList_of ((h, n) :: todo)) with (hexutil_Encode n :: proofList_of todo).
  cbn [decode_nodes map snd]. by rewrite MustDecode_Encode, IH by done.
Qed.

(** A proof, what it is made of, and the database it makes. *)
Lemma Prove_ok d t key : backed d t -> trie_map t <> ∅ -> proof_wf t key ->
  exists puts db, trie_Prove t key = (puts, None) /\
    Forall (fun hn => 32 <= length hn.2 /\ byte_range hn.2 /\ hn.1 = Keccak256 hn.2) puts /\
    db = fold_left (fun db kv => (db_Put kv.1 kv.2 db).2) puts db_New /\
    trie_VerifyProof (trie_Hash t) key db = (trie_map t !! key, None).
Proof.
  intros Hb Hne Hwf. destruct (Prove_verifies d t key Hb Hne) as (puts & E & Hk & Hf & Hv).
  unfold proof_wf in Hwf. rewrite E in Hwf. cbn in Hwf.
  exists puts, (fold_left (fun db kv => (db_Put kv.1 kv.2 db).2) puts db_New). split; [done|]. split.
  - rewrite !Forall_forall in *. intros hn Hin. destruct (Hwf hn Hin). auto.
  - split; [done|]. apply Hv. intros h n Hin.
    apply (put_all puts puts db_New Hf (fun _ H => H)) with (hn := (h, n)); [|by left|done].
    eapply Forall_impl; [exact Hwf|]. by intros ? [].
Qed.

(** ** The account behind a proof *)

(** The world state [w] gives, in [e], the account [a] at [ad], which its world
    trie has a record of. *)
Definition provable (w : EthWorldState) (ad : bytes) e l e1 wt a t : Prop :=
  GetAccount ad w e = Ret ((Some l, None), e1) /\ es_accounts e1 !! l = Some a /\
  worldStateTrie w = Some wt /\ backed (es_triedb e1) wt /\ proof_wf wt (Keccak256 ad) /\
  state_in_range (state a) /\ trie_map wt !! Keccak256 ad = Some (Account_Encode a) /\
  storageTrie a = Some t /\ backed (es_triedb e1) t /\ trie_map t <> ∅ /\ Root (state a) = trie_Hash t.

(** The result for one key: the value the slot's encoding stands for. *)
Definition key_of k : bytes := (decodeHash k).1.1.
Definition size_of k : Z := (decodeHash k).1.2.
Definition slot_of t k : option bytes := trie_map t !! Keccak256 (key_of k).
Definition slot_number t k : Z :=
  Hash_Big (BytesToHash (match Decode_bytes (default [] (slot_of t k)) with inl d => d | inr _ => [] end)).
Definition key_wf t k : Prop := (decodeHash k).2 = None /\ proof_wf t (Keccak256 (key_of k)).
Definition slot_result t k : StorageResult :=
  MkStorageResult (if (size_of k =? 32)%Z then hexutil_Encode (key_of k) else hexutil_EncodeBig (Hash_Big (key_of k)))
    (slot_number t k) (proofList_of (trie_Prove t (Keccak256 (key_of k))).1).

Lemma prove_slots_ok d t a ks : backed d t -> storageTrie a = Some t -> trie_map t <> ∅ ->
  Forall (key_wf t) ks -> prove_slots a ks = inl (map (slot_result t) ks).
Proof.
  intros Hb Ht Hne. induction 1 as [|k ks [Hk Hp] _ IH]; [done|]. cbn [prove_slots map]. rewrite IH.
  unfold prove_slot, slot_result, slot_number, slot_of, key_of, size_of in *.
  destruct (decodeHash k) as [[h n] [err|]]; [done|]. cbn [fst snd] in *. rewrite Ht.
  destruct (Prove_ok d t (Keccak256 h) Hb Hne Hp) as (puts & db & -> & _).
  rewrite (Get_map _ _ _ Hb). done.
Qed.

Definition the_result ad a t wt ks : AccountResult :=
  MkAccountResult ad (proofList_of (trie_Prove wt (Keccak256 ad)).1) (u256_ToBig (Balance (state a)))
    (Bytes32_Decode (CodeHash (state a))) (Nonce (state a)) (trie_Hash t) (map (slot_result t) ks).

Lemma ProofArrayToDB_ok (puts : list (bytes * bytes)) :
  Forall (fun hn => 32 <= length hn.2 /\ byte_range hn.2 /\ hn.1 = Keccak256 hn.2) puts ->
  ProofArrayToDB (proofList_of puts) =
    Ret (Some (fold_left (fun db kv => (db_Put kv.1 kv.2 db).2) puts db_New), None).
Proof.
  intros HF. unfold ProofArrayToDB. rewrite put_nodes_ok; [done|].
  eapply Forall_impl; [exact HF|]. intros [h n] (Hl & Hr & Hk). cbn [fst snd] in *. split; [done|].
  by rewrite (proj2 (Nat.leb_le _ _)).
Qed.
Lemma record_nonempty a : state_in_range (state a) -> exists b0 b, Account_Encode a = b0 :: b.
Proof.
  intros Hr. destruct (StateAccount_roundtrip (state a) Hr) as (b & E & Hne & _).
  unfold Account_Encode. rewrite E. destruct b as [|b0 b]; [done|]. by exists b0, b.
Qed.
Lemma wt_nonempty (m : gmap bytes bytes) (k v : bytes) : m !! k = Some v -> m <> ∅.
Proof. intros E ->. by rewrite lookup_empty in E. Qed.

Lemma get_proof_ok w ad e l e1 wt a t ks : provable w ad e l e1 wt a t ->
  Forall (key_wf t) ks ->
  get_proof w ad ks e = Ret ((Some (the_result ad a t wt ks), None), e1).
Proof.
  intros (HG & Ha & Hw & Hbw & Hpw & Hr & Hrec & Ht & Hb & Hne & Hroot) Hks.
  unfold get_proof. gstep HG. gstep (deref_eq _ _ _ Ha).
  rewrite (prove_slots_ok _ t a ks Hb Ht Hne Hks).
  destruct (record_nonempty a Hr) as (b0 & b & Eb).
  destruct (Prove_ok _ wt (Keccak256 ad) Hbw (wt_nonempty _ _ _ Hrec) Hpw) as (puts & db & Ep & Hputs & Edb & Ev).
  assert (EP : GetAccountProof ad w = Ret (proofList_of puts, None)).
  { unfold GetAccountProof. rewrite Hw, (Get_map _ _ _ Hbw), Hrec, Eb. cbn. by rewrite Ep. }
  gstep (gof_eq _ _ e1 EP). assert (ER : World_Root w = Ret (trie_Hash wt)) by (unfold World_Root; by rewrite Hw).
  gstep (gof_eq _ _ e1 ER).
  assert (EV : VerifyProof (trie_Hash wt) (proofList_of puts) ad = Ret tt).
  { unfold VerifyProof. rewrite ProofArrayToDB_ok by done. rewrite <- Edb, Ev, Hrec, Eb. done. }
  gstep (gof_eq _ _ e1 EV). unfold the_result, GetStorageRoot, GetCodeHash. rewrite Ht, Ep. done.
Qed.

(** ** The provider's own check *)
Lemma decodeHash_bytes k : (decodeHash k).2 = None ->
  exists b, length b <= 32 /\ byte_range b /\ key_of k = BytesToHash b /\ size_of k = Z.of_nat (length b).
Proof.
  unfold key_of, size_of, decodeHash. fold (strip_0x k).
  set (ev := if Nat.odd (len (strip_0x k)) then _ else _).
  destruct (hex_DecodeString ev) as [b|] eqn:E; [|done].
  destruct (Nat.ltb_spec 32 (length b)) as [|Hl]; [done|]. intros _. exists b. cbn.
  split; [done|]. split; [|done].
  assert (Hev : Nat.even (len ev) = true).
  { unfold ev. destruct (Nat.odd (len (strip_0x k))) eqn:Ho.
    - cbn [len String.append]. by rewrite Nat.even_succ.
    - rewrite <- Nat.negb_odd. by rewrite Ho. }
  pose proof (DecodeString_spec ev Hev) as Hd. rewrite E in Hd.
  destruct (hex_value 0 ev); [by destruct Hd as (_ & ? & _)|done].
Qed.
Lemma key_range k : (decodeHash k).2 = None -> byte_range (key_of k).
Proof. intros (b & Hl & Hr & -> & _)%decodeHash_bytes. by apply BytesToHash_range. Qed.
Lemma key_number k : (decodeHash k).2 = None -> (0 <= Hash_Big (key_of k))%Z.
Proof.
  intros (b & Hl & Hr & -> & _)%decodeHash_bytes. rewrite BytesToHash_Big by done.
  by apply SetBytes_nonneg.
Qed.
Lemma validate_entry_ok d t k `{!HexCodecLaws HX} : backed d t -> trie_map t <> ∅ -> key_wf t k ->
  size_of k = 32%Z ->
  validate_entry (trie_Hash t) (slot_result t k) =
    Ret (match slot_of t k with Some _ => None | None => Some "failed to verify storage value" end).
Proof.
  intros Hb Hne [Hk Hp] H32. pose proof (key_range k Hk) as Hr. unfold validate_entry, slot_result. cbn [Proof Key].
  destruct (Prove_ok d t (Keccak256 (key_of k)) Hb Hne Hp) as (puts & db & Ep & Hputs & Edb & Ev).
  rewrite Ep. cbn [fst]. rewrite put_nodes_ok.
  - rewrite H32. cbn [Z.eqb Pos.eqb]. rewrite MustDecode_Encode by done. rewrite <- Edb, Ev.
    unfold slot_of. by destruct (trie_map t !! _).
  - eapply Forall_impl; [exact Hputs|]. intros [h n] (Hl & Hrn & Hkk). cbn [fst snd] in *. split; [done|].
    rewrite (proj2 (Nat.leb_le _ _)); [done|]. rewrite hexutil_Encode_len. lia.
Qed.

(** C19: what [GetProof] returns for keys of 32 bytes is accepted by its own
    [Validate] under the world root exactly when every slot asked for has a
    value: the proof that a slot is empty is refused. *)
Theorem GetProof_Validate w ad e l e1 wt a t ks `{!HexCodecLaws HX} : provable w ad e l e1 wt a t ->
  Forall (fun k => key_wf t k /\ size_of k = 32%Z) ks ->
  exists r, get_proof w ad ks e = Ret ((Some r, None), e1) /\
    Validate (trie_Hash wt) r =
      Ret (if forallb (fun k => bool_decide (is_Some (slot_of t k))) ks then None
           else Some "failed to verify storage value").
Proof.
  intros Hpr Hks. exists (the_result ad a t wt ks). split.
  { eapply get_proof_ok; [exact Hpr|]. eapply Forall_impl; [exact Hks|]. by intros ? []. }
  destruct Hpr as (HG & Ha & Hw & Hbw & Hpw & Hr & Hrec & Ht & Hb & Hne & Hroot).
  destruct (record_nonempty a Hr) as (b0 & b & Eb).
  destruct (Prove_ok _ wt (Keccak256 ad) Hbw (wt_nonempty _ _ _ Hrec) Hpw) as (puts & db & Ep & Hputs & Edb & Ev).
  unfold Validate, the_result. cbn [AccountProof RAddress StorageHash StorageProof]. rewrite Ep. cbn [fst].
  rewrite ProofArrayToDB_ok by done. rewrite <- Edb, Ev, Hrec, Eb.
  induction Hks as [|k ks (Hk & H32) _ IH]; [done|]. cbn [map validate_entries forallb].
  rewrite (validate_entry_ok _ t k Hb Hne Hk H32).
  destruct (slot_of t k); cbn; [exact IH|done].
Qed.

(** A key given with fewer than 32 bytes is returned as a quantity, and
    [Validate] panics on a quantity with an odd number of digits, such as that
    of every key below 16. *)
Theorem Validate_quantity_panics w ad e l e1 wt a t k `{!HexCodecLaws HX} : provable w ad e l e1 wt a t ->
  key_wf t k -> size_of k <> 32%Z ->
  Z.even (Z.log2 (Hash_Big (key_of k)) / 4) = true ->
  exists r, get_proof w ad [k] e = Ret ((Some r, None), e1) /\ Validate (trie_Hash wt) r = Panic.
Proof.
  intros Hpr Hk H32 Hodd. pose proof (key_number k (proj1 Hk)) as Hpos. exists (the_result ad a t wt [k]). split.
  { eapply get_proof_ok; [exact Hpr|]. by constructor. }
  destruct Hpr as (HG & Ha & Hw & Hbw & Hpw & Hr & Hrec & Ht & Hb & Hne & Hroot).
  destruct (record_nonempty a Hr) as (b0 & b & Eb).
  destruct (Prove_ok _ wt (Keccak256 ad) Hbw (wt_nonempty _ _ _ Hrec) Hpw) as (puts & db & Ep & Hputs & Edb & Ev).
  unfold Validate, the_result. cbn [AccountProof RAddress StorageHash StorageProof]. rewrite Ep. cbn [fst].
  rewrite ProofArrayToDB_ok by done. rewrite <- Edb, Ev, Hrec, Eb. cbn [map validate_entries].
  unfold validate_entry, slot_result. cbn [Proof Key].
  destruct Hk as [Hk Hp].
  destruct (Prove_ok _ t (Keccak256 (key_of k)) Hb Hne Hp) as (puts' & db' & Ep' & Hputs' & _).
  rewrite Ep'. cbn [fst]. rewrite put_nodes_ok.
  - rewrite (proj2 (Z.eqb_neq _ _)) by done. by rewrite MustDecode_EncodeBig, Hodd.
  - eapply Forall_impl; [exact Hputs'|]. intros [h n] (Hl & Hrn & Hkk). cbn [fst snd] in *. split; [done|].
    rewrite (proj2 (Nat.leb_le _ _)); [done|]. rewrite hexutil_Encode_len. lia.
Qed.

(** ** Optimism's check *)
Lemma le_bytes_length n m z : (0 <= z < 256 ^ Z.of_nat m)%Z -> length (le_bytes n z) <= m.
Proof.
  revert m z. induction n as [|n IH]; intros m z Hz; [simpl; lia|]. cbn [le_bytes].
  destruct (Z.eqb_spec z 0) as [|Hn]; [simpl; lia|]. destruct m as [|m]; [simpl in Hz; lia|].
  cbn [length]. apply le_n_S, IH. rewrite Nat2Z.inj_succ, Z.pow_succ_r in Hz by lia.
  split; [apply Z.div_pos; lia|]. apply Z.div_lt_upper_bound; lia.
Qed.
Lemma Bytes_length z : (0 <= z < 2 ^ 256)%Z -> length (big_Bytes z) <= 32.
Proof.
  intros Hz. unfold big_Bytes. rewrite length_rev. apply le_bytes_length.
  change (256 ^ Z.of_nat 32)%Z with (2 ^ 256)%Z. done.
Qed.

(** A slot that is empty or holds the encoding of a 256-bit number. *)
Definition number_slot t k : Prop :=
  slot_of t k = None \/ exists z, (0 <= z < 2 ^ 256)%Z /\ slot_of t k = Some (rlp (Str (big_Bytes z))).
(** The slot is empty, or is the encoding of the number that is reported for it. *)
Definition reported t k : Prop :=
  slot_of t k = None \/ slot_of t k = Some (rlp (Str (big_Bytes (slot_number t k)))).
(** The key is returned in a form that can be read back: in full, or as a
    quantity with an even number of digits. *)
Definition readable_key k : bool := (size_of k =? 32)%Z || negb (Z.even (Z.log2 (Hash_Big (key_of k)) / 4)).

Lemma converted_key d t k : backed d t -> trie_map t <> ∅ -> key_wf t k -> readable_key k = true ->
  exists b puts, hexutil_MustDecode (Key (slot_result t k)) = Ret b /\ BytesToHash b = key_of k /\
    Proof (slot_result t k) = proofList_of puts /\
    Forall (fun hn => 32 <= length hn.2 /\ byte_range hn.2 /\ hn.1 = Keccak256 hn.2) puts /\
    trie_VerifyProof (trie_Hash t) (Keccak256 (key_of k))
      (fold_left (fun db kv => (db_Put kv.1 kv.2 db).2) puts db_New) = (slot_of t k, None).
Proof.
  intros Hb Hne [Hk Hp] Hr. pose proof (key_number k Hk) as Hpos. pose proof (key_range k Hk) as Hrg.
  destruct (decodeHash_bytes k Hk) as (b & Hl & Hrb & Ekey & Esz).
  destruct (Prove_ok d t _ Hb Hne Hp) as (puts & db & Ep & Hputs & -> & Ev).
  assert (Hlen : length (key_of k) = 32) by (rewrite Ekey; by apply BytesToHash_length).
  unfold slot_result. cbn [Key Proof]. rewrite Ep. destruct (Z.eqb_spec (size_of k) 32) as [H32|H32].
  - exists (key_of k), puts. rewrite MustDecode_Encode by done.
    split; [done|]. by rewrite BytesToHash_id.
  - unfold readable_key in Hr. rewrite (proj2 (Z.eqb_neq _ _) H32) in Hr. apply negb_true_iff in Hr.
    eexists _, puts. rewrite MustDecode_EncodeBig, Hr by done.
    split; [done|]. split; [|done]. rewrite Ekey at 2. rewrite Ekey, BytesToHash_Big by done.
    by apply BytesToHash_quantity.
Qed.

Lemma unreadable_panics t k : key_wf t k -> readable_key k = false ->
  hexutil_MustDecode (Key (slot_result t k)) = Panic.
Proof.
  intros [Hk _] [H32 Hr]%orb_false_iff. pose proof (key_number k Hk) as Hpos. unfold slot_result. cbn [Key].
  apply negb_false_iff in Hr. by rewrite H32, MustDecode_EncodeBig, Hr.
Qed.

Lemma number_reported t k : number_slot t k -> reported t k.
Proof.
  intros [E|(z & Hz & E)]; [by left|right]. unfold slot_number. rewrite E. cbn [default from_option id].
  rewrite D_bytes, BytesToHash_Big by by apply Bytes_length. by rewrite SetBytes_Bytes by lia.
Qed.
(** The verifier's comparison of the value proved and the number claimed. *)
Lemma reported_verifies t k :
  (if bool_decide (slot_of t k = None) && (slot_number t k =? 0)%Z then None
   else match Encode_bytes (big_Bytes (slot_number t k)) with
        | inr _ => Some "failed to encode storage value"
        | inl comparison => if bool_decide (default [] (slot_of t k) = comparison) then None
                            else Some "value in storage proof does not match proven value"
        end) = None <-> reported t k.
Proof.
  unfold reported. rewrite E_bytes. destruct (slot_of t k) as [v|] eqn:E; cbn [default from_option id].
  - rewrite bool_decide_false by done. cbn [andb]. case_bool_decide as Hv.
    + split; [|done]. intros _. right. by rewrite Hv.
    + split; [done|]. intros [|[= ->]]; done.
  - unfold slot_number. rewrite E. cbn [default from_option id]. destruct D_bytes_empty as [msg ->].
    rewrite BytesToHash_Big by (cbn; lia). rewrite bool_decide_true by done. split; [by left|done].
Qed.

(** The slots, converted and verified one after another. *)
Lemma converted_slots d t ks : backed d t -> trie_map t <> ∅ -> Forall (key_wf t) ks ->
  if forallb readable_key ks then
    exists ps, ToStorageProof (map (slot_result t) ks) = Ret ps /\
      (verify_entries (trie_Hash t) ps = None <-> Forall (reported t) ks)
  else ToStorageProof (map (slot_result t) ks) = Panic.
Proof.
  intros Hb Hne. induction 1 as [|k ks Hk _ IH]; [by exists []|]. cbn [forallb map ToStorageProof].
  destruct (readable_key k) eqn:Hr; cbn [andb]; [|by rewrite (unreadable_panics t k Hk Hr)].
  destruct (converted_key d t k Hb Hne Hk Hr) as (b & puts & Ek & Eb & Ep & Hputs & Ev).
  rewrite Ek, Ep, decode_nodes_ok by (eapply Forall_impl; [exact Hputs|]; by intros ? (_ & ? & _)).
  destruct (forallb readable_key ks); [|by rewrite IH]. destruct IH as (ps & E & V). rewrite E, Eb.
  eexists. split; [reflexivity|]. rewrite Forall_cons, <- V, <- reported_verifies. cbn [verify_entries].
  unfold verify_entry. cbn [OProof OKey OValue slot_result SValue].
  rewrite load_nodes_ok by (eapply Forall_impl; [exact Hputs|]; by intros ? (? & _ & ?)). rewrite Ev.
  match goal with |- context [match ?x with None => verify_entries _ _ | Some _ => _ end] => destruct x end; naive_solver.
Qed.
End theory.

(** rlp: the list of the four fields and the struct have one encoding. *)
Class ClaimLaws `{StateAccountLib} (CB : ClaimLib) : Prop := {
  claim_is_record : forall a, state_in_range a ->
    Encode_claim (Nonce a) (big_Bytes (Balance a)) (Root a) (CodeHash a) = inl (Encode_StateAccount a).1;
}.

Section optimism.
Context `{TT : TrieTypes} `{RL : !RlpLib} `{RLL : !RlpLaws RL} `{RE : !RlpEmpty RL} `{HX : HexCodecLib}
  `{CrL : CryptoLib}
  `{EC : EthCommonLib} `{HL : !HashLaws} `{SA : StateAccountLib} `{SAL : !StateAccountLaws SA}
  `{UI : Uint256} `{UIL : !Uint256Laws UI} `{TL : !TrieLib} {DB : Type}
  `{DL : !DBLib DB} `{MD : !DBLib memorydb} `{MDL : !DBLaws MD} `{MDW : !DBWrites MD}
  `{TS : !TrieSpec} `{TLW : !TrieLaws TS} `{CB : ClaimLib} `{CBL : !ClaimLaws CB}.
Implicit Types (e : EthState DB) (l : loc) (a : Account) (t : trie) (k : string).

(** C20: a proof made for an account that has slots, converted to Optimism's
    format, passes Optimism's verification under the world root exactly when
    every slot asked for is empty or holds the encoding of the number reported
    for it, as every slot does that holds a number of at most 256 bits: so what
    is proved absent is accepted here.  The conversion panics exactly when some
    key was asked for with fewer than 32 bytes and is returned as a quantity with
    an odd number of digits. *)
Theorem converted_proof_verifies w ad e l e1 wt a t ks : provable w ad e l e1 wt a t ->
  Bytes32_Decode (CodeHash (state a)) = CodeHash (state a) -> Forall (key_wf t) ks ->
  exists r, get_proof w ad ks e = Ret ((Some r, None), e1) /\
    (if forallb readable_key ks then
       exists o, Convertible_New r = Ret o /\ (Verify (trie_Hash wt) o = None <-> Forall (reported t) ks)
     else Convertible_New r = Panic) /\
    (Forall (number_slot t) ks -> Forall (reported t) ks).
Proof.
  intros Hpr Hch Hks. exists (the_result ad a t wt ks).
  pose proof (get_proof_ok w ad e l e1 wt a t ks Hpr Hks) as Eg. split; [exact Eg|].
  split; [|intros Hn; eapply Forall_impl; [exact Hn|]; intros k; apply number_reported].
  destruct Hpr as (HG & Ha & Hw & Hbw & Hpw & Hr & Hrec & Ht & Hb & Hne & Hroot).
  pose proof (converted_slots (es_triedb e1) t ks Hb Hne Hks) as Hc.
  destruct (Prove_ok _ wt (Keccak256 ad) Hbw (wt_nonempty _ _ _ Hrec) Hpw) as (puts & db & Ep & Hputs & Edb & Ev).
  unfold Convertible_New. cbn [AccountProof StorageProof the_result]. rewrite Ep. cbn [fst].
  rewrite decode_nodes_ok by (eapply Forall_impl; [exact Hputs|]; by intros ? (_ & ? & _)).
  destruct (forallb readable_key ks); [|by rewrite Hc]. destruct Hc as (ps & Eps & V). rewrite Eps.
  eexists. split; [reflexivity|]. rewrite <- V. unfold Verify.
  cbn [OStorageHash OStorageProof OBalance OCodeHash ONonce OAccountProof OAddress
      RBalance RCodeHash RNonce StorageHash RAddress the_result].
  destruct (verify_entries (trie_Hash t) ps); [done|].
  rewrite ToBig_id, <- Hroot, Hch, (claim_is_record (state a) Hr).
  rewrite load_nodes_ok by (eapply Forall_impl; [exact Hputs|]; by intros ? (? & _ & ?)).
  rewrite <- Edb, Ev, Hrec. by rewrite bool_decide_true.
Qed.
End optimism.
