(* ===== verification/EthCacheTheory.v ===== *)
(** * Theory of the proof providers' cache

    The cache never holds more than it may, every provider is the one of its
    root, and a request either gives a provider of the root or leaves the cache
    as it was. *)
From S2P Require Import Prelude GoString Interfaces Heap PathBuilder Codec EthLib EthAccount EthWorldState EthWriter EthProof.
Import EthStorage.

Section cache.
Context `{TT : TrieTypes} `{RL : !RlpLib} `{HX : HexCodecLib} `{CrL : CryptoLib}
  `{EC : EthCommonLib} `{SA : StateAccountLib} `{UI : Uint256} `{TL : !TrieLib} {DB : Type}
  `{DL : !DBLib DB} `{MD : !DBLib memorydb} `{ML : MapLib} `{MLW : !MapLaws ML} `{FL : FloatLib}
  `{FLW : !FloatLaws FL}.
Context {S : Type} `{PH : HeapLens S ProofProvider} `{PHL : !HeapLensLaws PH}
  `{EO : ObjLens S (EthState DB)} `{EOL : !ObjLensLaws EO} `{EI : !ObjIndep PH EO}.
Implicit Types (s : S) (this : MerkleProofCache) (dict : gmap bytes loc) (l : loc).
Abbreviation eth s := (obj_of s : EthState DB).

Definition provider_at s (root : bytes) l : Prop := exists p, heap_of s !! l = Some p /\ pp_root p = root.
Definition dict_ok s dict : Prop := forall root l, dict !! root = Some l -> provider_at s root l.
Definition cache_inv s this : Prop :=
  dict_ok s (merkleDict this) /\ (Z.of_nat (size (merkleDict this)) <= Z.max (maxCached this) 0)%Z.

Lemma Load_cases root (e : EthState DB) :
  (exists w, LoadEthTrieByRoot root e = Ret ((Some w, None), e)) \/
  (exists err, LoadEthTrieByRoot root e = Ret ((None, Some err), e)).
Proof.
  unfold LoadEthTrieByRoot. gsteps. destruct (trie_New root (es_triedb e)) as [[t|] [err|]].
  - right. by eexists.
  - left. by eexists.
  - right. by eexists.
  - right. by eexists.
Qed.
Lemma in_load root s :
  (exists w, in_eth (LoadEthTrieByRoot root) s = Ret ((Some w, None), s)) \/
  (exists err, in_eth (LoadEthTrieByRoot root) s = Ret ((None, Some err), s)).
Proof.
  unfold in_eth. destruct (Load_cases root (eth s)) as [[w ->]|[err ->]]; [left|right];
    eexists; by rewrite with_obj_obj.
Qed.

Lemma dict_valid s dict : dict_ok s dict -> valid (heap_of s) (map_Values dict).
Proof.
  intros Hd l [root Hl]%elem_of_Values. destruct (Hd _ _ Hl) as (p & Hp & _). by exists p.
Qed.

(** Counting the visits changes no root. *)
Lemma count_visit_run s l : is_Some (heap_of s !! l) -> exists s',
  update_cell count_visit l s = Ret (tt, s') /\ eth s' = eth s /\
  forall root l, provider_at s root l -> provider_at s' root l.
Proof.
  intros [p Hp]. eexists. split; [apply update_cell_ret; by exists p|].
  rewrite obj_with_heap. split; [done|]. intros root l' (q & Hq & Hr). unfold provider_at. rewrite heap_with_heap.
  destruct (decide (l = l')) as [->|Hn].
  - exists (count_visit p). split; [apply lookup_insert_eq|]. rewrite Hp in Hq. by injection Hq as ->.
  - exists q. by rewrite lookup_insert_ne.
Qed.
Lemma count_visits_run s ls : (forall l, l ∈ ls -> exists root, provider_at s root l) ->
  exists s', gforeach (update_cell count_visit) ls s = Ret (tt, s') /\
    eth s' = eth s /\ forall root l, provider_at s root l -> provider_at s' root l.
Proof.
  revert s. induction ls as [|l ls IH]; intros s Hv; [by exists s|]. cbn [gforeach].
  destruct (Hv l ltac:(by left)) as (root & p & Hp & _).
  destruct (count_visit_run s l ltac:(eauto)) as (s1 & E1 & He1 & Hp1). gstep E1.
  destruct (IH s1) as (s' & E & He & Hps).
  { intros x Hx. destruct (Hv x ltac:(by right)) as [r Hr]. exists r. by apply Hp1. }
  exists s'. split; [exact E|]. split; [congruence|]. intros r x Hr. by apply Hps, Hp1.
Qed.
Lemma count_dict_run s dict : dict_ok s dict ->
  exists s', gforeach (update_cell count_visit) (map_Values dict) s = Ret (tt, s') /\
    eth s' = eth s /\ forall root l, provider_at s root l -> provider_at s' root l.
Proof. intros Hd. apply count_visits_run. intros l [root Hl]%elem_of_Values. exists root. by apply Hd. Qed.

Lemma evict_run s dict : dict_ok s dict -> dict <> ∅ ->
  exists k, is_Some (dict !! k) /\ evict dict s = Ret (delete k dict, s).
Proof.
  intros Hd Hne. pose proof (dict_valid s dict Hd) as Hv. pose proof (KVs_length dict) as Hl.
  unfold evict, map_Values in *. pose proof (elem_of_Keys dict) as Hk. unfold map_Keys in Hk.
  destruct (map_KVs dict) as [keys merkles]. cbn [fst snd] in *.
  assert (Hr : exists rs, Forall2 (fun l r => visit_ratio l s = Ret (r, s)) merkles rs).
  { clear -Hv. induction merkles as [|l ls IH]; [by exists []|].
    destruct IH as [rs IH]; [intros x Hx; apply Hv; by right|]. destruct (Hv l) as [p Hp]; [by left|].
    eexists (_ :: rs). constructor; [|exact IH].
    unfold visit_ratio. rewrite (gbind_eq _ _ _ _ _ (deref_eq _ _ _ Hp)). done. }
  destruct Hr as [rs Hrs]. gstep (gmap_list_Forall2 visit_ratio s merkles rs Hrs).
  pose proof (Forall2_length _ _ _ Hrs) as Hlen.
  assert (Hrne : rs <> []).
  { intros ->. destruct (map_choose dict Hne) as (k & l & Hkl).
    assert (Hin : k ∈ keys) by (apply Hk; eauto). destruct keys; [by apply elem_of_nil in Hin|].
    cbn in *. lia. }
  pose proof (Extreme_index rs float_lt Hrne) as Hi. set (i := (slice_Extreme rs float_lt).1) in *.
  destruct (lookup_lt_is_Some_2 keys (Z.to_nat i)) as [k Hki]; [lia|].
  exists k. split; [apply Hk; by eapply list_elem_of_lookup_2|].
  rewrite (proj2 (Z.leb_le 0 i)) by lia. by gby (by apply gsome_eq).
Qed.

Lemma admit_run s dict max l : dict_ok s dict -> dict <> ∅ -> (Z.of_nat (size dict) <= Z.max max 0 + 1)%Z ->
  exists dict', (if (max <? Z.of_nat (size dict))%Z
    then let! dict := evict dict in gret (dict, Some l, None)
    else gret (dict, Some l, None)) s = Ret ((dict', Some l, None : option string), s) /\
    (forall root x, dict' !! root = Some x -> dict !! root = Some x) /\
    (Z.of_nat (size dict') <= Z.max max 0)%Z.
Proof.
  intros Hd Hne Hsz. destruct (Z.ltb_spec max (Z.of_nat (size dict))) as [Hlt|Hge].
  - destruct (evict_run s dict Hd Hne) as (k & Hk & E). gstep E. exists (delete k dict). split; [done|].
    split; [intros root x Hx; by apply lookup_delete_Some in Hx as [_ Hx]|].
    rewrite map_size_delete_Some by done. lia.
  - exists dict. split; [done|]. split; [done|]. lia.
Qed.

(** C28: from a cache that holds no more providers than it may, each the one of
    its root, a request returns, and leaves such a cache; it gives either a
    provider of the root asked for, or the error of opening that root, in
    which case the cache and the store are as they were. *)
Theorem GetProofProvider_spec rootHash this s : cache_inv s this ->
  exists this' r s', GetProofProvider rootHash this s = Ret ((this', r), s') /\
    cache_inv s' this' /\ maxCached this' = maxCached this /\ eth s' = eth s /\
    match r with
    | (Some l, err) => err = None /\ provider_at s' rootHash l
    | (None, err) => this' = this /\ s' = s /\ merkleDict this !! rootHash = None /\
        in_eth (LoadEthTrieByRoot rootHash) s = Ret ((None, err), s) /\ err <> None
    end.
Proof.
  intros [Hd Hsz]. unfold GetProofProvider. destruct (merkleDict this !! rootHash) as [l|] eqn:El.
  - gsteps. destruct (count_dict_run s _ Hd) as (s' & E & He & Hp). gstep E.
    eexists _, (Some l, None), s'. split; [reflexivity|]. split; [|split; [done|split; [done|]]].
    + split; [|done]. intros root l' Hl. by apply Hp, Hd.
    + split; [done|]. by apply Hp, Hd.
  - destruct (in_load rootHash s) as [[w Ew]|[err Ew]].
    2: { rewrite gbind_assoc. gstep Ew. gsteps. eexists _, (None, Some err), s. split; [reflexivity|]. done. }
    rewrite gbind_assoc. gstep Ew. cbn beta iota.
    destruct (alloc (MkProofProvider _ rootHash 1 1 w) s) as [[l s1]|] eqn:Ea.
    2: { unfold alloc, gget, assign, gmodify, gret, gbind in Ea. done. }
    pose proof Ea as (_ & Hs1)%alloc_ret. pose proof (alloc_fresh _ _ _ _ Ea) as Hfr.
    rewrite gbind_assoc. gstep Ea.
    assert (Hd1 : dict_ok s1 (<[rootHash := l]> (merkleDict this))).
    { intros root l'. rewrite Hs1. unfold provider_at. rewrite heap_with_heap.
      intros [[<- <-]|[Hn Hl]]%lookup_insert_Some; [eexists; split; [apply lookup_insert_eq|done]|].
      destruct (Hd _ _ Hl) as (p & Hp & Hr). exists p. split; [|done]. rewrite lookup_insert_ne; [done|congruence]. }
    assert (He1 : eth s1 = eth s) by (rewrite Hs1; by rewrite obj_with_heap).
    pose proof (map_size_insert_None rootHash l (merkleDict this) El) as Hsize.
    set (dict1 := <[rootHash := l]> (merkleDict this)) in *.
    destruct (admit_run s1 dict1 (maxCached this) l) as (dict2 & E2 & Hsub & Hsz2); [done|apply insert_non_empty|lia|].
    gstep E2. assert (Hd2 : dict_ok s1 dict2) by (intros root l' Hl; by apply Hd1, Hsub).
    destruct (count_dict_run s1 dict2 Hd2) as (s' & E & He & Hp). gstep E.
    eexists _, (Some l, None), s'. split; [reflexivity|]. split; [|split; [done|split; [congruence|]]].
    + split; [|exact Hsz2]. intros root l' Hl. by apply Hp, Hd2.
    + split; [done|]. apply Hp, Hd1. apply lookup_insert_eq.
Qed.
End cache.
