(* ===== verification/StoreDigest.v ===== *)
(** * state/cache: comparing two stores, and their checksum

    [Equal] and [Checksum] of execution_state_store.go.  The cells come out of
    a map in any order and are sorted by path, so that neither depends on the
    order. *)
From S2P Require Import Prelude GoString GoSort Interfaces Heap EthLib ExecStore.

(** reflect.DeepEqual of two cells, and the checksum of a list of cells
    (crdt/statecell). *)
Class DigestLib (cell : Type) := {
  DeepEqual : cell -> cell -> bool;
  StateCells_Checksum : list cell -> bytes;
}.
Class DigestLaws {crdt cell} `{CellLib crdt cell} (DG : DigestLib cell) : Prop := {
  DeepEqual_path : forall c d, DeepEqual c d = true -> GetPath c = GetPath d;
}.

Section digest.
Context {S crdt cell : Type} `{CL : CellLib crdt cell} `{ML : MapLib} `{CH : HeapLens S cell}
  `{DG : DigestLib cell}.
Abbreviation Store := (ExecutionStateStore crdt).

(** The paths are only looked at when there is something to compare. *)
Definition sorted_cells (this : Store) : Go S (list cell) :=
  let! lcs := deref_all (map_Values (localCells this)) in
  let cs := map snd lcs in
  let! paths :=
    if length cs <? 2 then gret (map (fun _ => "") cs)
    else gmap_list (fun c => gsome (GetPath c)) cs in
  gret (map snd (SliceStable (fun x y => str_ltb x.1 y.1) (combine paths cs))).

Fixpoint DeepEqual_list (cs ds : list cell) : bool :=
  match cs, ds with
  | [], [] => true
  | c :: cs, d :: ds => DeepEqual c d && DeepEqual_list cs ds
  | _, _ => false
  end.
Definition Equal (this other : Store) : Go S bool :=
  let! thisBuffer := sorted_cells this in
  let! otherBuffer := sorted_cells other in
  gret (DeepEqual_list thisBuffer otherBuffer).
Definition Checksum (this : Store) : Go S bytes :=
  let! values := sorted_cells this in gret (StateCells_Checksum values).
End digest.

Section theory.
Context {S crdt cell : Type} `{CL : CellLib crdt cell} `{ML : MapLib} `{MLW : !MapLaws ML}
  `{CH : HeapLens S cell} `{DG : DigestLib cell} `{DGL : !DigestLaws DG}.
Abbreviation Store := (ExecutionStateStore crdt).
Implicit Types (s : S) (st : Store) (c d : cell) (p : string).

(** The cells of a store, each under its own path. *)
Definition cell_of s st p c : Prop := exists l, localCells st !! p = Some l /\ heap_of s !! l = Some c.
Definition paths_ok s st : Prop :=
  forall p l, localCells st !! p = Some l -> exists c, heap_of s !! l = Some c /\ GetPath c = Some p.
Definition path_of c : string := default "" (GetPath c).
Definition str_le (p q : string) : Prop := str_ltb q p = false.
Definition less c d : bool := str_ltb (path_of c) (path_of d).

#[local] Instance str_le_anti : AntiSymm (=) str_le.
Proof. intros p q H1 H2. by apply str_ltb_total. Qed.
#[local] Instance str_le_trans : Transitive str_le.
Proof.
  intros p q r H1 H2. unfold str_le in *. destruct (str_ltb r p) eqn:E; [|done].
  destruct (str_ltb p q) eqn:E2; [by rewrite (str_ltb_trans r p q) in H2|].
  by rewrite (str_ltb_total p q) in E by done; rewrite E in H2.
Qed.

(** A list of the cells of a store, by path. *)
Record listing s st (cs : list cell) : Prop := {
  ls_cells : forall p c, cell_of s st p c <-> c ∈ cs /\ path_of c = p;
  ls_paths : NoDup (map path_of cs);
  ls_sorted : StronglySorted str_le (map path_of cs);
}.

Lemma keys_paths s st : paths_ok s st ->
  map (fun l => path_of (cell_at (heap_of s) l)) (map_Values (localCells st)) = map_Keys (localCells st).
Proof.
  intros Hok. pose proof (KVs_length (localCells st)) as Hl. pose proof (KVs_perm (localCells st)) as HP.
  unfold map_Keys, map_Values. rewrite <- (combine_fst _ _ Hl), <- (combine_snd _ _ Hl) at 1.
  rewrite map_map. apply map_ext_in. intros [p l] Hin. cbn.
  apply list_elem_of_In in Hin. rewrite HP in Hin. apply elem_of_map_to_list in Hin.
  destruct (Hok _ _ Hin) as (c & Hc & Hp). rewrite (cell_at_eq _ _ _ Hc).
  unfold path_of. by rewrite Hp.
Qed.
Lemma keys_nodup st : NoDup (map_Keys (localCells st)).
Proof.
  unfold map_Keys. rewrite <- (combine_fst _ _ (KVs_length (localCells st))).
  rewrite (Permutation_map fst (KVs_perm (localCells st))). apply NoDup_fst_map_to_list.
Qed.

Lemma sorted_run s st : paths_ok s st -> exists cs, sorted_cells st s = Ret (cs, s) /\ listing s st cs.
Proof.
  intros Hok. set (cs := map (cell_at (heap_of s)) (map_Values (localCells st))).
  assert (Hv : valid (heap_of s) (map_Values (localCells st))).
  { intros l [p Hp]%elem_of_Values. destruct (Hok _ _ Hp) as (c & Hc & _). by exists c. }
  assert (Hpath : forall c, c ∈ cs -> GetPath c = Some (path_of c)).
  { intros c (l & -> & [p Hp]%elem_of_Values)%list_elem_of_fmap. destruct (Hok _ _ Hp) as (c & Hc & Hpc).
    unfold path_of. by rewrite (cell_at_eq _ _ _ Hc), Hpc. }
  exists (SliceStable less cs). split.
  - unfold sorted_cells. gstep (deref_all_valid _ s Hv). rewrite map_map. cbn [snd].
    change (map (fun x => cell_at (heap_of s) x) (map_Values (localCells st))) with cs.
    destruct (Nat.ltb_spec (length cs) 2) as [Hlt|Hge].
    + gsteps. destruct cs as [|c [|d cs']]; [done|done|cbn in Hlt; lia].
    + assert (Hp : gmap_list (fun c => gsome (GetPath c)) cs s = Ret (map path_of cs, s)).
      { apply gmap_list_Forall2. clear -Hpath. induction cs as [|c cs' IH]; constructor;
          [apply gsome_eq, Hpath; by left|apply IH; intros d Hd; apply Hpath; by right]. }
      gstep Hp.
      assert (Hcomb : combine (map path_of cs) cs = map (fun c => (path_of c, c)) cs).
      { clear. induction cs as [|c cs' IH]; [done|]. cbn. by rewrite IH. }
      rewrite Hcomb, SliceStable_map, map_map. cbn [fst snd]. by rewrite map_id.
  - assert (Hkeys : Permutation (map path_of (SliceStable less cs)) (map_Keys (localCells st))).
    { rewrite (Permutation_map path_of (SliceStable_perm less cs)). unfold cs. rewrite map_map.
      by rewrite keys_paths. }
    constructor.
    + intros p c. rewrite SliceStable_perm. split.
      * intros (l & Hp & Hc). destruct (Hok _ _ Hp) as (c' & Hc' & Hpc). assert (c' = c) as -> by congruence.
        split; [|unfold path_of; by rewrite Hpc]. apply list_elem_of_fmap. exists l.
        split; [by rewrite (cell_at_eq _ _ _ Hc)|]. apply elem_of_Values. by exists p.
      * intros [(l & -> & [q Hq]%elem_of_Values)%list_elem_of_fmap <-]. exists l.
        destruct (Hok _ _ Hq) as (c & Hc & Hpc). rewrite (cell_at_eq _ _ _ Hc). unfold path_of. by rewrite Hpc.
    + rewrite Hkeys. apply keys_nodup.
    + assert (Hm : map path_of (SliceStable less cs) = SliceStable str_ltb (map path_of cs))
        by (symmetry; exact (SliceStable_map path_of str_ltb cs)).
      rewrite Hm. apply SliceStable_sorted; [apply _| |done].
      intros x y Hxy. unfold str_le. destruct (str_ltb y x) eqn:E; [|done].
      pose proof (str_ltb_trans _ _ _ Hxy E) as Hc. by rewrite str_ltb_irrefl in Hc.
Qed.

Lemma listing_paths s st cs p : listing s st cs -> paths_ok s st ->
  p ∈ map path_of cs <-> is_Some (localCells st !! p).
Proof.
  intros [H _ _] Hok. split.
  - intros (c & -> & Hc)%list_elem_of_fmap. destruct (proj2 (H (path_of c) c) (conj Hc eq_refl)) as (l & Hl & _). eauto.
  - intros [l Hl]. destruct (Hok _ _ Hl) as (c & Hc & Hp). apply list_elem_of_fmap. exists c.
    destruct (proj1 (H p c)) as [Hin <-]; [by exists l|done].
Qed.
Lemma listing_unique cs ds s st s' st' : listing s st cs -> listing s' st' ds ->
  (forall p, is_Some (localCells st !! p) <-> is_Some (localCells st' !! p)) ->
  paths_ok s st -> paths_ok s' st' -> map path_of cs = map path_of ds.
Proof.
  intros L1 L2 Hdom Ho Ho'.
  apply (StronglySorted_unique str_le); [apply L1|apply L2|]. apply NoDup_Permutation; [apply L1|apply L2|].
  intros p. rewrite (listing_paths s st cs p L1 Ho), (listing_paths s' st' ds p L2 Ho'). apply Hdom.
Qed.
(** Two lists with the same distinct paths, one within the other, are equal. *)
Lemma map_eq_paths cs ds : NoDup (map path_of cs) -> map path_of cs = map path_of ds ->
  (forall c, c ∈ cs -> c ∈ ds) -> cs = ds.
Proof.
  intros Hn Hp Hin. apply list_eq. intros i.
  assert (Hl : forall i, path_of <$> cs !! i = path_of <$> ds !! i).
  { intros j. rewrite <- !list_lookup_fmap. change (map path_of cs !! j = map path_of ds !! j). by rewrite Hp. }
  pose proof (Hl i) as Hi. destruct (cs !! i) as [c|] eqn:Hc, (ds !! i) as [d|] eqn:Hd; try done.
  destruct (proj1 (list_elem_of_lookup ds c)) as [j Hj]; [apply Hin; by eapply list_elem_of_lookup_2|].
  assert (i = j) as ->; [|congruence]. rewrite Hp in Hn. apply (NoDup_lookup _ i j (path_of c) Hn).
  - change ((path_of <$> ds) !! i = Some (path_of c)). by rewrite list_lookup_fmap, Hd, <- Hi.
  - change ((path_of <$> ds) !! j = Some (path_of c)). by rewrite list_lookup_fmap, Hj.
Qed.
Lemma DeepEqual_list_spec cs ds :
  DeepEqual_list cs ds = true <-> Forall2 (fun c d => DeepEqual c d = true) cs ds.
Proof.
  revert ds. induction cs as [|c cs IH]; intros [|d ds]; cbn; split; try done;
    try (by intros H%Forall2_nil_inv_l); try (by inversion 1).
  - intros [H1 H2]%andb_true_iff. constructor; [done|by apply IH].
  - inversion 1; subst. apply andb_true_iff. split; [done|by apply IH].
Qed.
Lemma same_paths cs ds : Forall2 (fun c d => DeepEqual c d = true) cs ds -> map path_of cs = map path_of ds.
Proof.
  induction 1 as [|c d cs ds E _ IH]; [done|]. cbn. rewrite IH. unfold path_of at 1.
  by rewrite (DeepEqual_path c d E).
Qed.

(** C29: two stores, whose cells are indexed under their own paths, are equal
    exactly if they have cells under the same paths and the cells under every
    path are equal; the order in which the maps give their cells out does not
    matter, and comparing changes nothing. *)
Theorem Equal_spec s (this other : Store) : paths_ok s this -> paths_ok s other ->
  exists b, Equal this other s = Ret (b, s) /\
    (b = true <->
       (forall p, is_Some (localCells this !! p) <-> is_Some (localCells other !! p)) /\
       forall p c d, cell_of s this p c -> cell_of s other p d -> DeepEqual c d = true).
Proof.
  intros Ht Ho. destruct (sorted_run s this Ht) as (cs & E1 & L1). destruct (sorted_run s other Ho) as (ds & E2 & L2).
  exists (DeepEqual_list cs ds). split; [unfold Equal; gstep E1; by gstep E2|].
  rewrite DeepEqual_list_spec. pose proof L1 as [H1 N1 _]. pose proof L2 as [H2 N2 _]. split.
  - intros HF. pose proof (same_paths _ _ HF) as Hp. split.
    + intros p. by rewrite <- (listing_paths s this cs p L1 Ht), <- (listing_paths s other ds p L2 Ho), Hp.
    + intros p c d [Hc <-]%H1 [Hd Hpd]%H2. apply list_elem_of_lookup in Hc as [i Hi].
      destruct (Forall2_lookup_l _ _ _ _ _ HF Hi) as (d' & Hi' & E).
      assert (d = d') as ->; [|done]. apply list_elem_of_lookup in Hd as [j Hj].
      assert (i = j) as ->; [|congruence]. apply (NoDup_lookup (map path_of ds) i j (path_of c)); [done| |].
      * change ((path_of <$> ds) !! i = Some (path_of c)). rewrite list_lookup_fmap, Hi'. cbn.
        f_equal. unfold path_of. by rewrite (DeepEqual_path c d' E).
      * change ((path_of <$> ds) !! j = Some (path_of c)). rewrite list_lookup_fmap, Hj. cbn. by rewrite Hpd.
  - intros [Hdom Heq]. pose proof (listing_unique cs ds s this s other L1 L2 Hdom Ht Ho) as Hp.
    apply Forall2_same_length_lookup. split.
    + apply (f_equal length) in Hp. by rewrite !length_map in Hp.
    + intros i c d Hc Hd. apply (Heq (path_of c)).
      * apply H1. split; [by eapply list_elem_of_lookup_2|done].
      * apply H2. split; [by eapply list_elem_of_lookup_2|].
        apply (f_equal (.!! i)) in Hp. change ((path_of <$> cs) !! i = (path_of <$> ds) !! i) in Hp.
        rewrite !list_lookup_fmap, Hc, Hd in Hp. cbn in Hp. by injection Hp.
Qed.

(** The checksum depends on the cells under each path only: two stores with
    the same ones have the same checksum, whatever states they are in, in
    whatever order their maps give the cells out. *)
Theorem Checksum_spec s s' (this other : Store) : paths_ok s this -> paths_ok s' other ->
  (forall p c, cell_of s this p c <-> cell_of s' other p c) ->
  exists sum, Checksum this s = Ret (sum, s) /\ Checksum other s' = Ret (sum, s').
Proof.
  intros Ht Ho Hsame. destruct (sorted_run s this Ht) as (cs & E1 & L1).
  destruct (sorted_run s' other Ho) as (ds & E2 & L2).
  assert (cs = ds) as <-.
  { apply (map_eq_paths _ _ (ls_paths _ _ _ L1)).
    - eapply (listing_unique cs ds s this s' other); try done. intros p. split.
      + intros [l Hl]. destruct (Ht _ _ Hl) as (c & Hc & _). destruct (proj1 (Hsame p c)) as (l' & Hl' & _); [|eauto].
        by exists l.
      + intros [l Hl]. destruct (Ho _ _ Hl) as (c & Hc & _). destruct (proj2 (Hsame p c)) as (l' & Hl' & _); [|eauto].
        by exists l.
    - intros c Hc. apply (proj1 (ls_cells _ _ _ L2 (path_of c) c)), Hsame.
      by apply (proj2 (ls_cells _ _ _ L1 (path_of c) c)). }
  exists (StateCells_Checksum cs). split; unfold Checksum; [by gstep E1|by gstep E2].
Qed.
End theory.
