(* ===== verification/Proxy.v ===== *)
(** * storage/proxy: what the state proxy configures its stores with

    The proxy owns the live cache, its backend and the Ethereum store, hands
    out their writers, and gives all of them the same filter of transitions
    and the codec of their values. *)
From S2P Require Import Prelude GoString Interfaces Heap Paths ExecStore Codec CodecTheory.
Import Constants PathTypes Platform.

(** ** state_proxy.go, the filters *)
Class PathReset (crdt : Type) := { Path_Reset : crdt -> crdt }.

Section filters.
Context {S crdt cell raw : Type} `{TI : TypeIDs} `{CL : CellLib crdt cell} `{CR : CrdtLib crdt raw}
  `{PR : PathReset crdt} `{HL : HeapLens S cell}.

(** [this.platform.IsSysPath]: a short path is decided before the receiver,
    which may be nil, is looked at. *)
Definition platform_IsSysPath (platform : option (gmap string Z)) (path : string) : Go S bool :=
  if decide (len path <= ETH_ACCOUNT_FULL_LENGTH) then gret true
  else let! defaultPaths := gsome platform in gret (IsSysPath defaultPaths path).

Definition NonTransientOnly (platform : option (gmap string Z)) (tran : loc) : Go S bool :=
  let! c := deref tran in
  match Value c with
  | None => gret tt
  | Some a =>
      let! v := as_crdt a in
      if (TypeID v =? PATH)%Z then
        if is_Path v then
          if Path_IsBlockBound v then
            let! p := gsome (GetPath c) in
            let! sys := platform_IsSysPath platform p in
            if sys then update_cell (SetValue (Some (IsCRDT (Path_Reset v)))) tran else gret tt
          else gret tt
        else gpanic
      else gret tt
  end ;;;
  let! c := deref tran in gret (negb (IsBlockBound c)).

Definition EthOnly (tran : loc) : Go S bool :=
  let! c := deref tran in let! p := gsome (GetPath c) in gret (ShouldPersistToEth p).
Definition All (tran : loc) : Go S bool := gret true.

(** snapshot_state_proxy.go: the writer of a snapshot filters with the method
    of an empty proxy, whose platform is nil. *)
Definition snapshot_filter (tran : loc) : Go S bool := NonTransientOnly None tran.
End filters.

(** ** state_proxy.go, the codecs of the cache and of its backend *)
Section codecs.
Context `{TypeIDs} `{CT : CrdtTypes} `{!CrdtCodec}.

(** [newLiveCacheCodec] *)
Definition cache_encode (key : string) (value : option Codec.crdt)
    : outcome (string * (bytes + string)) :=
  match Codec_Encode key (VCrdt <$> value) with
  | Ret r => Ret (key, r)
  | Panic => Panic
  end.
Definition cache_decode (key : string) (value : bytes)
    : outcome (string * option Codec.crdt * option string) :=
  match Codec_Decode 0 key value with
  | Ret None => Ret (key, None, None)
  | Ret (Some (VCrdt v)) => Ret (key, Some v, None)
  | _ => Panic
  end.
(** [initLiveStorage] *)
Definition storage_encode (key : string) (value : option Codec.crdt)
    : outcome (string * (bytes + string)) :=
  match value with
  | Some v => match Codec_Encode key (Some (VCrdt v)) with
              | Ret r => Ret (key, r)
              | Panic => Panic
              end
  | None => Ret (key, inl [])
  end.
Definition storage_decode (key : string) (value : bytes)
    : outcome (string * option Codec.crdt * option string) :=
  match Codec_Decode 0 key value with
  | Ret None => Ret ("", None, Some "failed to decode data")
  | Ret (Some (VCrdt v)) => Ret (key, Some v, None)
  | _ => Panic
  end.
(** [initByteLiveStorage], for encodings that stay as they are *)
Definition byte_encode (key : string) (value : bytes) : string * bytes * option string := (key, value, None).
Definition byte_decode (key : string) (value : bytes) : string * bytes * option string := (key, value, None).
End codecs.

Section theory.
Context {S crdt cell raw : Type} `{TI : TypeIDs} `{CL : CellLib crdt cell} `{CLW : !CellLaws CL}
  `{CR : CrdtLib crdt raw} `{PR : PathReset crdt} `{HLL : HeapLensLaws S cell}.
Implicit Types (s : S) (l : loc) (c : cell).
Abbreviation cells s := (heap_of s : gmap loc cell).

(** The value of a transition that the filter empties: a block-bound container
    at a built-in path. *)
Definition to_reset (pf : gmap string Z) (c : cell) : option crdt :=
  match Value c, GetPath c with
  | Some (IsCRDT v), Some p =>
      if (TypeID v =? PATH)%Z && Path_IsBlockBound v && IsSysPath pf p then Some v else None
  | _, _ => None
  end.
(** A transition the filter accepts to look at: a typed value under a path. *)
Definition filterable (c : cell) : Prop :=
  match Value c with
  | None => True
  | Some (IsBytes _) => False
  | Some (IsCRDT v) => is_Some (GetPath c) /\ ((TypeID v =? PATH)%Z = true -> is_Path v = true)
  end.

(** C39: the filter every store is configured with keeps the transitions that
    are not bound to the block, and has one effect: the container of a built-in
    path that is bound to the block is emptied in the transition itself. *)
Theorem NonTransientOnly_spec pf l c s :
  cells s !! l = Some c -> filterable c ->
  NonTransientOnly (Some pf) l s =
    match to_reset pf c with
    | None => Ret (negb (IsBlockBound c), s)
    | Some v =>
        let c' := SetValue (Some (IsCRDT (Path_Reset v))) c in
        Ret (negb (IsBlockBound c'), with_heap (<[l := c']> (cells s)) s)
    end.
Proof.
  intros Hc Hf. unfold NonTransientOnly, to_reset. rewrite (gbind_eq _ _ _ _ _ (deref_eq l s c Hc)).
  assert (Hend : (let! c := deref l in gret (negb (IsBlockBound c))) s = Ret (negb (IsBlockBound c), s))
    by (by rewrite (gbind_eq _ _ _ _ _ (deref_eq l s c Hc))).
  unfold filterable in Hf. destruct (Value c) as [[v|b]|]; [|done|exact Hend].
  destruct Hf as [[p Hp] Hpath]. rewrite Hp. rewrite gbind_assoc.
  rewrite (gbind_eq _ _ _ _ _ (gret_eq v s)). destruct (TypeID v =? PATH)%Z; [|exact Hend].
  rewrite Hpath by done. destruct (Path_IsBlockBound v); [|exact Hend]. cbn [andb].
  rewrite !gbind_assoc. cbn [gsome]. rewrite (gbind_eq _ _ _ _ _ (gret_eq p s)).
  rewrite gbind_assoc.
  assert (Hs : platform_IsSysPath (Some pf) p s = Ret (IsSysPath pf p, s))
    by (unfold platform_IsSysPath, IsSysPath; by case_decide).
  rewrite (gbind_eq _ _ _ _ _ Hs). destruct (IsSysPath pf p); [|exact Hend].
  set (c' := SetValue _ c).
  assert (Hu : update_cell (SetValue (Some (IsCRDT (Path_Reset v)))) l s
    = Ret (tt, with_heap (<[l := c']> (cells s)) s)) by (apply update_cell_ret; eauto).
  rewrite (gbind_eq _ _ _ _ _ Hu).
  assert (Hd : deref l (with_heap (<[l := c']> (cells s)) s)
    = Ret (c', with_heap (<[l := c']> (cells s)) s))
    by (apply deref_eq; by rewrite heap_with_heap, lookup_insert_eq).
  by rewrite (gbind_eq _ _ _ _ _ Hd).
Qed.

(** The writer of a snapshot panics on the transition of any block-bound
    container below the root of an account: its filter has no platform. *)
Theorem snapshot_filter_panics l c v p s :
  cells s !! l = Some c -> Value c = Some (IsCRDT v) -> GetPath c = Some p ->
  TypeID v = PATH -> is_Path v = true -> Path_IsBlockBound v = true ->
  ETH_ACCOUNT_FULL_LENGTH < len p ->
  snapshot_filter l s = Panic.
Proof.
  intros Hc Hv Hp Ht Hi Hb Hl. unfold snapshot_filter, NonTransientOnly.
  rewrite (gbind_eq _ _ _ _ _ (deref_eq l s c Hc)), Hv, gbind_assoc.
  rewrite (gbind_eq _ _ _ _ _ (gret_eq v s)), Ht, Z.eqb_refl, Hi, Hb, Hp, !gbind_assoc.
  cbn [gsome]. rewrite (gbind_eq _ _ _ _ _ (gret_eq p s)), gbind_assoc.
  apply gbind_panic. unfold platform_IsSysPath. by rewrite decide_False by lia.
Qed.
End theory.

Section codec_theory.
Context `{TI : TypeIDs} `{CT : CrdtTypes} `{CC : !CrdtCodec} `{KL : !KindLaws}.

(** What the cache writes to its backend it reads back, a value or a
    deletion, whenever the value survives its own encoding; reading a deletion
    through the codec of the backend is an error. *)
Theorem stored_codec_roundtrip key v :
  native_decodes (kind v) = true -> CRDT_Decode (kind v) (CRDT_Encode v) = v ->
  (exists b, cache_encode key (Some v) = Ret (key, inl b) /\
     storage_encode key (Some v) = Ret (key, inl b) /\
     cache_decode key b = Ret (key, Some v, None) /\
     storage_decode key b = Ret (key, Some v, None)) /\
  (exists b, cache_encode key None = Ret (key, inl b) /\
     storage_encode key None = Ret (key, inl b) /\
     cache_decode key b = Ret (key, None, None) /\
     storage_decode key b = Ret ("", None, Some "failed to decode data")).
Proof.
  intros Hn Hv. split.
  - eexists. split; [done|]. split; [done|].
    unfold cache_decode, storage_decode. by rewrite Codec_Decode_kind, Hn, Hv.
  - by exists [].
Qed.
End codec_theory.
