(* ===== verification/Snapshot.v ===== *)
(** * storage/proxy: the snapshot of the Ethereum state

    snapshot_state_proxy.go: a world state opened at an earlier root, that can
    be moved to another root, read, and given a writer of its own. *)
From S2P Require Import Prelude GoString Interfaces Heap Paths Codec CodecTheory EthLib EthAccount EthWorldState EthWriter EthProof EthAccountTheory EthWorldTheory EthStoreTheory.
Import Constants PathTypes EthStorage.

Section snapshot.
Context `{CT : CrdtTypes} `{TT : TrieTypes} `{RL : !RlpLib} `{FI : FixedInt} `{UI : Uint256}
  `{CV : !CrdtValues} `{SL : SliceLib} `{ML : MapLib} `{ES : EthSliceLib} `{CrL : CryptoLib}
  `{EC : EthCommonLib} `{SA : StateAccountLib} `{TL : !TrieLib} {DB : Type} `{DL : !DBLib DB}.
Abbreviation Eth := (Go (EthState DB)).

(** The embedded pointer, which can be nil. *)
Record EthStateSnapshot := MkEthStateSnapshot { EthWorldState_ : option EthWorldState }.

Definition NewEthStateSnapshot (rootHash : bytes) : Eth (option EthStateSnapshot * option string) :=
  let! '(ethWorldState, err) := LoadEthTrieByRoot rootHash in
  match err with
  | Some _ => gret (None, err)
  | None => gret (Some (MkEthStateSnapshot ethWorldState), None)
  end.
Definition SetVersion (version : bytes) (this : EthStateSnapshot)
    : Eth (EthStateSnapshot * option string) :=
  let! _ := gsome (EthWorldState_ this) in
  let! '(w, err) := LoadEthTrieByRoot version in
  gret (MkEthStateSnapshot w, err).
(** The promoted methods. *)
Definition Snapshot_Get (path : string) (this : EthStateSnapshot) : Eth (option gval * option string) :=
  match this with
  | MkEthStateSnapshot (Some w) => World_Get path w
  | MkEthStateSnapshot None =>
      let '(_, acctKey, _) := ParseAccountAddr path in
      if len acctKey =? 0 then gret (None, Some ("Invalid account: " +:+ acctKey))
      else match hexutil_Decode acctKey with
           | (_, Some _) => gret (None, Some ("Invalid account format: " +:+ acctKey))
           | (_, None) => gpanic
           end
  end.

(** state_proxy.go *)
Definition Proxy_Preload (data : bytes) : Eth loc := Preload data.
End snapshot.

Section theory.
Context `{CT : CrdtTypes} `{TT : TrieTypes} `{RL : !RlpLib} `{RLL : !RlpLaws RL} `{RE : !RlpEmpty RL}
  `{FI : FixedInt} `{FIL : !FixedIntLaws FI} `{UI : Uint256} `{UIL : !Uint256Laws UI}
  `{B1 : !BoundedLaws Uint64_ops} `{B2 : !BoundedLaws U256_ops} `{B3 : !BoundedLaws Int64_ops}
  `{CV : !CrdtValues} `{CVL : !CrdtValuesLaws CV} `{SL : SliceLib} `{SLL : !SliceLaws SL} `{ML : MapLib}
  `{ES : EthSliceLib} `{ESL : !EthSliceLaws ES} `{CrL : CryptoLib} `{EC : EthCommonLib}
  `{AL : !AddressLaws} `{SA : StateAccountLib} `{SAL : !StateAccountLaws SA} `{TL : !TrieLib}
  {DB : Type} `{DL : !DBLib DB} `{MD : !DBLib memorydb} `{TS : !TrieSpec} `{TLW : !TrieLaws TS}.
Implicit Types (e : EthState DB) (l : loc) (a : Account) (ad : bytes) (k : string).

Definition plain_slot k : Prop :=
  isAccountRoot k = false /\ HasSuffix k PATH_NONCE = false /\ HasSuffix k PATH_BALANCE = false /\
  HasSuffix k PATH_CODE = false /\ ToStorageKey k <> Panic.
Definition code_path k : Prop :=
  isAccountRoot k = false /\ HasSuffix k PATH_NONCE = false /\ HasSuffix k PATH_BALANCE = false /\
  HasSuffix k PATH_CODE = true.

Lemma no_backend_commit n l a t e : es_accounts e !! l = Some a -> storageTrie a = Some t ->
  backend a = None -> trieDirty a = true -> forall e', Account_Commit n l e <> Ret (None, e').
Proof.
  intros Ha Ht Hbk Hd e'. unfold Account_Commit. gstep (deref_eq l e a Ha). rewrite Hd, Ht, Hbk.
  gby (by apply gsome_eq). unfold EthShardTrieDB_Commit.
  destruct (trie_Commit t) as [[root nodes] err]. destruct err as [err|].
  - gsteps. gby (apply update_account_eq; exact Ha). gby (apply update_account_eq; apply lookup_insert_eq). done.
  - destruct nodes; by rewrite !gbind_assoc.
Qed.

Lemma no_backend_code k c l a e : es_accounts e !! l = Some a -> backend a = None -> code_path k ->
  UpdateAccountStorageTrie [k] [Some (NBytes c)] l e = Panic.
Proof.
  intros Ha Hbk (H1 & H2 & H3 & H4). unfold UpdateAccountStorageTrie.
  change ([k], [Some (NBytes c)]) with (unzip [(k, Some (NBytes c))]).
  rewrite drop_account_root_eq. cbn [take_first fst]. rewrite H1. cbn [snd].
  gby (eapply (update_nonce_eq l a e _ None [(k, Some (NBytes c))]); [exact Ha| |reflexivity];
       unfold is_field; cbn [take_first fst]; by rewrite H2).
  gby (eapply (update_balance_eq l _ _ _ None [(k, Some (NBytes c))]); [apply put_account_lookup| |reflexivity];
       unfold is_field; cbn [take_first fst]; by rewrite H3).
  apply gbind_panic. unfold update_code.
  destruct (first_key_cases (fun k => HasSuffix k PATH_CODE) [(k, Some (NBytes c))])
    as [[_ E]|(i & kv & r & E1 & E & _ & Hi & _)]; cbn [take_first fst] in E; rewrite H4 in E; [done|].
  simplify_eq. unfold unzip at 1. cbn [fst]. rewrite E1.
  gby (by apply (typed_at_eq i (unzip [(k, Some (NBytes c))]) (NBytes c))).
  rewrite Value_NBytes. gby (by apply gsome_eq).
  gby (apply update_account_eq, put_account_lookup). gby (apply update_account_eq, put_account_lookup).
  gby (apply deref_eq, put_account_lookup). apply gbind_panic. cbn [backend set_state set_code]. by rewrite Hbk.
Qed.

(** C40: an account read from a world state opened at a root has no database:
    writing its code panics, and so does the commit of a block that has written
    any of its slots (or the commit of the trie fails). *)
Theorem reopened_account_panics e root m a ad k v n : snapshot_disks e ->
  stored (es_triedb e) root m -> length ad = 20 -> m !! Keccak256 ad = Some (Account_Encode a) ->
  state_in_range (state a) -> stored (es_triedb e) (Root (state a)) (v_slots (view a)) -> plain_slot k ->
  exists w l e1 e2, LoadEthTrieByRoot root e = Ret ((Some w, None), e) /\
    GetAccount ad w e = Ret ((Some l, None), e1) /\
    (forall kc c, code_path kc -> UpdateAccountStorageTrie [kc] [Some (NBytes c)] l e1 = Panic) /\
    UpdateAccountStorageTrie [k] [v] l e1 = Ret (None, e2) /\
    forall e3, Account_Commit n l e2 <> Ret (None, e3).
Proof.
  intros Hsd Hst Hl Hrec Hr Hsa (H1 & H2 & H3 & H4 & Hk).
  destruct (snapshot_account e root m a ad Hsd Hst Hl Hrec Hr Hsa) as (w & l & c & t1 & EL & EG & Hb1 & Hm1 & _).
  set (a1 := MkAccount ad (state a) c (Some t1) None None false) in *.
  pose proof (put_account_lookup l a1 e) as Ha1.
  destruct (UpdateAccountStorageTrie_eq [(k, v)] l a1 t1 (put_account l a1 e) None None None [(k, v)] _ _ _ _ _
    Ha1 eq_refl Hb1 (plan_slot k v H1 H2 H3 H4) eq_refl eq_refl eq_refl) as (t' & _ & _ & E).
  { split; [by constructor|]. apply NoDup_singleton. }
  exists w, l, (put_account l a1 e). eexists. split; [exact EL|]. split; [exact EG|]. split.
  { intros kc c0. by apply (no_backend_code kc c0 l a1). }
  split; [exact E|]. by eapply no_backend_commit; [apply lookup_insert_eq|..].
Qed.

(** Moving a snapshot to a root that cannot be opened returns the error and
    leaves the snapshot without a world state: from then on every read of an
    account panics, and so does moving it to any other root. *)
Theorem SetVersion_failed version (w : EthWorldState) e :
  (trie_New version (es_triedb e)).1 = None ->
  exists this err, SetVersion version (MkEthStateSnapshot (Some w)) e = Ret ((this, Some err), e) /\
    (forall v, SetVersion v this e = Panic) /\
    forall k ad, slot_path k ad -> Snapshot_Get k this e = Panic.
Proof.
  intros Hn. unfold SetVersion at 1. gby (by apply gsome_eq). unfold LoadEthTrieByRoot at 1. gsteps.
  destruct (trie_New version (es_triedb e)) as [t err]. cbn in Hn. subst t.
  exists (MkEthStateSnapshot None).
  assert (He : exists m, errors_Join err
    (Some "Failed to load the trie from the database with the root provided!") = Some m)
    by (destruct err; by eexists).
  destruct He as [msg ->]. exists msg. split; [reflexivity|]. split; [done|].
  intros k ad (Hl & (b & Hb & _) & _). unfold Snapshot_Get.
  unfold GetAccountAddr in *. destruct (ParseAccountAddr k) as [[x key] y]. cbn in *.
  rewrite (proj2 (Nat.eqb_neq _ _)) by done. by rewrite Hb.
Qed.

Lemma World_Has_code root m (w : EthWorldState) k ad a e key x y b :
  LoadEthTrieByRoot root e = Ret ((Some w, None), e) -> stored (es_triedb e) root m ->
  m !! Keccak256 ad = Some (Account_Encode a) -> state_in_range (state a) ->
  stored (es_triedb e) (Root (state a)) (v_slots (view a)) -> code_path k ->
  ParseAccountAddr k = (x, key, y) -> len key <> 0 -> len y <> 0 ->
  hexutil_Decode key = (b, None) -> BytesToAddress b = ad -> World_Has k w e = Ret (false, e).
Proof.
  intros EL [(t & Et & Hbt & Hm) _] Hrec Hr [_ (t2 & Et2 & _)] (H1 & H2 & H3 & H4) Hp Hk Hy Hb Had.
  assert (Hw : w = NewEthDataStore t (MkEthShardTrieDB (triedb_DBs (es_triedb e)))).
  { unfold LoadEthTrieByRoot in EL. rewrite (gbind_eq _ _ _ _ _ (gget_eq e)), Et in EL. injection EL as <-. reflexivity. }
  destruct (StateAccount_roundtrip (state a) Hr) as (bs & Eb & Hne & Db).
  subst w. unfold World_Has. rewrite Hp, !(proj2 (Nat.eqb_neq _ _)) by done. rewrite Hb, Had.
  cbn [accountCache NewEthDataStore]. rewrite lookup_empty. gby (by apply gsome_eq).
  rewrite (ThreadSafeGet_map _ _ _ Hbt), Hm, Hrec. unfold Account_Encode. rewrite Eb. cbn [fst default].
  destruct bs as [|b0 bs]; [done|]. cbn [from_option id]. rewrite Db. unfold LoadTrie. gsteps. rewrite Et2. gsteps.
  apply gof_eq. unfold Account_Has. by rewrite H1, H2, H3, H4.
Qed.

(** A snapshot denies that an account has code and returns the code when
    asked for it. *)
Theorem snapshot_Has_misses_code e root m a ad k h d c : 
  triedb_DBs (es_triedb e) !! 0 = Some h -> es_dbs e !! h = Some d ->
  db_Get (CodeHash (state a)) d = (Some c, None) ->
  stored (es_triedb e) root m -> length ad = 20 -> m !! Keccak256 ad = Some (Account_Encode a) ->
  state_in_range (state a) -> stored (es_triedb e) (Root (state a)) (v_slots (view a)) ->
  code_path k -> len (GetAccountAddr k) <> 0 -> len (ParseAccountAddr k).2 <> 0 ->
  (exists b, hexutil_Decode (GetAccountAddr k) = (b, None) /\ BytesToAddress b = ad) ->
  exists w e1, LoadEthTrieByRoot root e = Ret ((Some w, None), e) /\
    World_Has k w e = Ret (false, e) /\
    World_Get k w e = Ret ((Some (VCrdt (NBytes (NewBytes c))), None), e1).
Proof.
  intros Hh Hd Hc Hst Hl Hrec Hr Hsa (H1 & H2 & H3 & H4) Hk1 Hk2 (b & Hb & Had).
  assert (Hsd : snapshot_disks e) by (exists h; split; [done|by eexists]).
  destruct (snapshot_account e root m a ad Hsd Hst Hl Hrec Hr Hsa)
    as (w & l & c1 & t1 & EL & EG & Hb1 & Hm1 & Hcode).
  rewrite (Hcode h d Hh Hd), Hc in EG. cbn [fst] in EG. clear Hcode.
  eexists w, _. split; [exact EL|].
  unfold GetAccountAddr in *. destruct (ParseAccountAddr k) as [[x key] y] eqn:Hp. cbn [fst snd] in *. split.
  - by eapply (World_Has_code root m w k ad a e key x y b).
  - unfold World_Get. rewrite Hp, (proj2 (Nat.eqb_neq _ _)) by done. rewrite Hb, Had. gstep EG.
    unfold Account_Get. gby (apply deref_eq, put_account_lookup). rewrite H3, H2, H4.
    cbn [code]. gsteps. gby (apply deref_eq, put_account_lookup). reflexivity.
Qed.
End theory.
