(* ===== verification/Remote.v ===== *)
(** * storage/proxy/remote: serving a store to readers

    server.go.  The store and the encoder are the server's own fields; the
    client (client.go) is commented out. *)
From S2P Require Import Prelude GoString Interfaces.

Record ReadonlyServer (crdt : Type) := MkReadonlyServer {
  rs_addr : string;
  rs_Get : string -> option (any crdt) * option string;    (* dataStore.Get *)
  rs_encoder : option (any crdt) -> bytes;
}.
Arguments MkReadonlyServer {crdt}. Arguments rs_addr {crdt}. Arguments rs_Get {crdt}.
Arguments rs_encoder {crdt}.

(** net/http: the method, whether the form can be parsed, and its values. *)
Record Request := MkRequest { Method : string; ParseForm : option string; FormValue : string -> string }.

Section server.
Context {crdt : Type}.
Implicit Types (this : ReadonlyServer crdt).

Definition NewReadonlyServer (addr : string) (encoder : option (any crdt) -> bytes)
    (dataStore : string -> option (any crdt) * option string) : ReadonlyServer crdt :=
  MkReadonlyServer addr dataStore encoder.

Definition Get (path : string) this : bytes * option string :=
  match rs_Get this path with
  | (_, Some err) => ([], Some err)
  | (val, None) => (rs_encoder this val, None)
  end.
(** The entries of the paths that cannot be read stay nil. *)
Definition GetBatch (paths : list string) this : list (option bytes) * option string :=
  (map (fun v => match rs_Get this v with
                 | (_, Some _) => None
                 | (val, None) => Some (rs_encoder this val)
                 end) paths, None).
(** What is written to the response. *)
Definition Receive (request : Request) this : option bytes :=
  if String.eqb (Method request) "GET" then
    match ParseForm request with
    | Some _ => None
    | None =>
        match (rs_Get this (FormValue request "key")).1 with
        | Some v => Some (rs_encoder this (Some v))
        | None => None
        end
    end
  else None.

(** A batch answers as single requests do, but for the errors, which it drops;
    and what a reader receives for a key is what [Get] gives for it, unless
    the store has nothing there. *)
Lemma GetBatch_Get this paths i path : paths !! i = Some path ->
  (GetBatch paths this).1 !! i =
    Some (match Get path this with (b, None) => Some b | (_, Some _) => None end).
Proof.
  intros Hi. unfold GetBatch, Get. cbn [fst].
  rewrite list_lookup_fmap, Hi. cbn. by destruct (rs_Get this path) as [v [e|]].
Qed.
Lemma Receive_Get this r : Method r = "GET" -> ParseForm r = None ->
  (rs_Get this (FormValue r "key")).2 = None -> is_Some (rs_Get this (FormValue r "key")).1 ->
  Receive r this = Some (Get (FormValue r "key") this).1.
Proof.
  intros Hm Hp. unfold Receive, Get. rewrite Hm, Hp. cbn [String.eqb].
  destruct (rs_Get this (FormValue r "key")) as [v e]. by intros [= ->] [x [= ->]].
Qed.
End server.
