(* ===== verification/Node.v ===== *)
(** * A node: the stores of the proxy and their writers

    state_proxy.go and execution_state_store.go, the lists of writers, over a
    state that holds the transitions, the writer objects, the live cache, its
    backend, the Ethereum store and the execution state store. *)
From S2P Require Import Prelude ExecStore ExecStoreOps Interfaces Heap Committer LiveCache LiveStorage Codec EthLib EthAccount EthWorldState EthWriter.

Section state.
Context `{CT : CrdtTypes} `{TT : TrieTypes} {cell LC DS DB : Type}.

(** The writers a [StorageProxy] hands out, and that of the execution store. *)
Inductive NodeWriter :=
| WCache (w : LiveCache.LiveCacheWriter Codec.crdt cell)
| WEth (w : EthStorage.EthStorageWriter cell)
| WStorage (w : LiveStorage.LiveStorageWriter Codec.crdt cell bytes)
| WExec (w : ExecutionCacheIndexer (cell := cell)).

Record NodeState := MkNodeState {
  n_cells : gmap loc cell;
  n_writers : gmap loc NodeWriter;
  n_cache : LC;
  n_backend : DS;
  n_eth : EthState DB;
  n_exec : ExecutionStateStore Codec.crdt;
}.
End state.
Arguments NodeWriter {CT} cell.
Arguments NodeState {CT TT} cell LC DS DB.

Section lenses.
Context `{CT : CrdtTypes} `{TT : TrieTypes} {cell LC DS DB : Type}.
Abbreviation Node := (NodeState cell LC DS DB).

#[export] Instance node_cells : HeapLens Node cell := {|
  heap_of := n_cells;
  with_heap h s := MkNodeState h (n_writers s) (n_cache s) (n_backend s) (n_eth s) (n_exec s) |}.
#[export] Instance node_writers : HeapLens Node (NodeWriter cell) := {|
  heap_of := n_writers;
  with_heap h s := MkNodeState (n_cells s) h (n_cache s) (n_backend s) (n_eth s) (n_exec s) |}.
#[export] Instance node_cache : ObjLens Node LC := {|
  obj_of := n_cache;
  with_obj c s := MkNodeState (n_cells s) (n_writers s) c (n_backend s) (n_eth s) (n_exec s) |}.
#[export] Instance node_backend : ObjLens Node DS := {|
  obj_of := n_backend;
  with_obj d s := MkNodeState (n_cells s) (n_writers s) (n_cache s) d (n_eth s) (n_exec s) |}.
#[export] Instance node_eth : ObjLens Node (EthState DB) := {|
  obj_of := n_eth;
  with_obj e s := MkNodeState (n_cells s) (n_writers s) (n_cache s) (n_backend s) e (n_exec s) |}.

#[export] Instance node_exec : ObjLens Node (ExecutionStateStore Codec.crdt) := {|
  obj_of := n_exec;
  with_obj x s := MkNodeState (n_cells s) (n_writers s) (n_cache s) (n_backend s) (n_eth s) x |}.

#[export] Instance node_cells_laws : HeapLensLaws node_cells.
Proof. constructor; by intros; destruct s. Qed.
#[export] Instance node_writers_laws : HeapLensLaws node_writers.
Proof. constructor; by intros; destruct s. Qed.
#[export] Instance node_cache_laws : ObjLensLaws node_cache.
Proof. constructor; by intros; destruct s. Qed.
#[export] Instance node_backend_laws : ObjLensLaws node_backend.
Proof. constructor; by intros; destruct s. Qed.
#[export] Instance node_eth_laws : ObjLensLaws node_eth.
Proof. constructor; by intros; destruct s. Qed.
#[export] Instance node_exec_laws : ObjLensLaws node_exec.
Proof. constructor; by intros; destruct s. Qed.
#[export] Instance node_cells_exec : ObjIndep node_cells node_exec.
Proof. constructor; by intros; destruct s. Qed.
#[export] Instance node_cells_eth : ObjIndep node_cells node_eth.
Proof. constructor; by intros; destruct s. Qed.
End lenses.

Section node.
Context `{CT : CrdtTypes} `{TT : TrieTypes} `{RL : !RlpLib} `{FI : FixedInt} `{UI : Uint256}
  `{CV : !CrdtValues} `{SL : SliceLib} `{ML : MapLib} `{ES : EthSliceLib} `{IL : IndexerLib}
  `{CrL : CryptoLib} `{EC : EthCommonLib} `{SA : StateAccountLib} `{TL : !TrieLib} {DB : Type}
  `{DL : !DBLib DB}.
Context {cell LC DS : Type} `{CL : CellLib Codec.crdt cell} `{CaL : CacheLib Codec.crdt LC}
  `{RW : RWStoreLib bytes DS}.
Abbreviation Node := (NodeState cell LC DS DB).
Context `{KV : !KVsLib Node Codec.crdt} `{PoL : !PoolLib Node}.

(** A call of a method of the interface, on whichever writer it is.  The
    committer ignores the errors. *)
Definition writer_Import (ts : list loc) (w : NodeWriter cell) : Go Node (NodeWriter cell) :=
  match w with
  | WCache w => let! w := LiveCache.Import ts w in gret (WCache w)
  | WEth w => let! w := EthStorage.Import ts w in gret (WEth w)
  | WStorage w => let! w := LiveStorage.Import ts w in gret (WStorage w)
  | WExec w => let! w := Indexer_Import ts w in gret (WExec w)
  end.
Definition writer_Precommit (isSync : bool) (w : NodeWriter cell) : Go Node (NodeWriter cell) :=
  match w with
  | WCache w => let! w := LiveCache.Precommit isSync w in gret (WCache w)
  | WEth w => let! '(w, _) := EthStorage.Precommit isSync w in gret (WEth w)
  | WStorage w => let! w := LiveStorage.Precommit isSync w in gret (WStorage w)
  | WExec w => let! w := Writer_Precommit isSync w in gret (WExec w)
  end.
Definition writer_Commit (n : Z) (w : NodeWriter cell) : Go Node (NodeWriter cell) :=
  match w with
  | WCache w => let! w := LiveCache.Commit n w in gret (WCache w)
  | WEth w => let! '(w, _) := EthStorage.Commit n w in gret (WEth w)
  | WStorage w => let! '(w, _) := LiveStorage.Commit n w in gret (WStorage w)
  | WExec w => let! w := Writer_Commit n w in gret (WExec w)
  end.
#[export] Instance node_StoreWriter : StoreWriter Node (NodeWriter cell) := {|
  w_Import := writer_Import;
  w_Precommit := writer_Precommit;
  w_Commit := writer_Commit;
  w_IsSync w := match w with
                | WCache w => LiveCache.IsSync w
                | WEth w => EthStorage.IsSync w
                | WStorage w => LiveStorage.IsSync w
                | WExec w => Writer_IsSync w
                end;
  w_is_EthStorageWriter w := match w with WEth _ => true | _ => false end;
  w_is_ExecutionCacheWriter w := match w with WExec _ => true | _ => false end |}.

(** ** state_proxy.go *)
Section proxy.
Context (filter : cell -> bool) (codec : string -> Codec.crdt -> string * bytes * option string).

Definition SyncWriters : Go Node (list loc) :=
  let! w := alloc (WCache (LiveCache.NewLiveCacheWriter (-1) filter)) in gret [w].
Definition AsyncWriters : Go Node (list loc) :=
  let! e := alloc (WEth (EthStorage.NewEthStorageWriter (-1) filter)) in
  let! d := alloc (WStorage (LiveStorage.NewLiveStorageWriter (-1) filter codec)) in
  gret [e; d].
Definition GetWriters : Go Node (list loc) :=
  let! sync := SyncWriters in let! async := AsyncWriters in gret (sync ++ async).

(** execution_state_store.go, GetWriters, over the proxy's: the store's own
    writer comes first, and alone when nothing is committed below. *)
Definition Exec_GetWriters : Go Node (list loc) :=
  let! st := ExecStore.this in
  let! self := alloc (WExec (NewExecutionCacheIndexer (i64 (stateVersion st)) None)) in
  match committedStore st with
  | None => gret [self]
  | Some _ => let! ws := GetWriters in gret (self :: ws)
  end.
End proxy.
End node.
