(* ===== verification/NodeTheory.v ===== *)
(** * The phases of a node's writers

    What the import, the two precommit phases and the commit of the committer
    do to the three writers of the proxy, and to that of the execution store
    when it is one of them. *)
From S2P Require Import Prelude ExecStore ExecStoreOps ExecStoreTheory ExecStoreOpsTheory Interfaces Heap Paths DeltaSequence DeltaSequenceTheory Committer CommitterTheory LiveCache LiveStorage LiveTheory Pipeline Codec EthLib EthAccount EthWorldState EthWriter EthAccountTheory EthWorldTheory EthWriterTheory EthBlockTheory EthStoreTheory Node.
Import PathTypes.

Section node.
Context `{CT : CrdtTypes} `{TT : TrieTypes} `{RL : !RlpLib} `{FI : FixedInt} `{UI : Uint256}
  `{CV : !CrdtValues} `{SL : SliceLib} `{SLL : !SliceLaws SL} `{ML : MapLib} `{MLW : !MapLaws ML}
  `{ES : EthSliceLib} `{ESL : !EthSliceLaws ES} `{IL : IndexerLib} `{ILL : !IndexerLaws IL}
  `{CrL : CryptoLib} `{EC : EthCommonLib}
  `{AL : !AddressLaws} `{SA : StateAccountLib} `{SAL : !StateAccountLaws SA} `{TL : !TrieLib}
  {DB : Type} `{DL : !DBLib DB} `{DW : !DBWrites DL} `{MD : !DBLib memorydb}
  `{TS : !TrieSpec} `{TLW : !TrieLaws TS}.
Context {cell LC DS : Type} `{CL : CellLib Codec.crdt cell} `{CLW : !CellLaws CL}
  `{CaL : CacheLib Codec.crdt LC} `{CaLL : !CacheLaws CaL}
  `{RW : RWStoreLib bytes DS} `{RWL : !RWStoreLaws RW}.
Abbreviation Node := (NodeState cell LC DS DB).
Context `{KV : !KVsLib Node Codec.crdt} `{KVL : !KVsLaws KV}
  `{PoL : !PoolLib Node} `{PL : !PoolLaws PoL node_cells}.
Context (f : cell -> bool) (codec : string -> Codec.crdt -> string * bytes * option string).
Abbreviation Entry := (string * option Codec.crdt)%type.
Implicit Types (s : Node) (h : gmap loc cell) (e : EthState DB) (l : loc) (ad : bytes)
  (ts : list loc) (this : StateCommitter Codec.crdt) (wx : option loc) (wc we wd : loc).

(** ** What a generation asks of the Ethereum store *)
Definition addr_of h l : bytes :=
  BytesToAddress (hexutil_Decode (GetAccountAddr (default "" (GetPath (cell_at h l))))).1.
Definition account_group h ts ad : list loc :=
  List.filter (fun l => bool_decide (addr_of h l = ad)) (kept f h ts).
Definition account_entries h txs ts ad : list Entry :=
  omap (fun l => finalized_cell h txs ts l ≫= cell_kv) (account_group h ts ad).
Definition account_spec h txs ts (view : bytes -> option AccountView) ad : option AccountView :=
  match account_group h ts ad with
  | [] => view ad
  | _ => apply_entries (account_entries h txs ts ad) (default empty_view (view ad))
  end.

(** A generation whose deltas apply, to typed values, and whose Ethereum
    transitions have the types of their paths. *)
Definition block_ready h txs ts e : Prop :=
  deltas_apply h txs ts /\ merged_typed h txs ts /\
  forall ad, entries_ok (account_entries h txs ts ad) /\
    exists v, apply_entries (account_entries h txs ts ad) (old_view e ad) = Some v /\ view_in_range v.

(** ** What the committer and the writers hold: the generations that are done,
    and the transitions just imported. *)
Record committer_of this wx wc we wd : Prop := {
  co_writers : writers this = option_list wx ++ [wc; we; wd];
  co_sync : syncWriters this = option_list wx ++ [wc];
  co_async : asyncWriters this = [we; wd];
  co_distinct : NoDup [wc; we; wd];
  co_exec : forall x, wx = Some x -> x ∉ [wc; we; wd];
}.
Definition cache_holds (gone ls : list loc) (o : LiveCache.LiveCacheWriter Codec.crdt cell) : Prop :=
  LiveCache.Indexer_Merge (LiveCache.buffers o) = gone /\
  LiveCache.importBuffer (LiveCache.Indexer o) = ls /\
  LiveCache.filter (LiveCache.Indexer o) = f /\ LiveCache.wfilter o = f.
Definition storage_holds (gone : list (string * option bytes)) (ls : list loc)
    (o : LiveStorage.LiveStorageWriter Codec.crdt cell bytes) : Prop :=
  (forall idx, idx ∈ LiveStorage.buffers o -> paired idx) /\
  encoded_entries (LiveStorage.buffers o) = gone /\
  LiveStorage.importBuffer (LiveStorage.Indexer o) = ls /\
  LiveStorage.codec (LiveStorage.Indexer o) = codec /\
  LiveStorage.filter (LiveStorage.Indexer o) = f /\ LiveStorage.wfilter o = f.
Definition eth_holds e (m : gmap bytes (loc * list loc)) (o : EthStorage.EthStorageWriter cell) : Prop :=
  (forall idx, idx ∈ EthStorage.buffer o -> EthStorage.Version idx = (-1)%Z /\
     forall l, l ∈ EthStorage.dirtyAccounts idx -> l ∈ cache_locs e) /\
  EthStorage.index (EthStorage.Indexer o) = m /\ EthStorage.Version (EthStorage.Indexer o) = (-1)%Z /\
  EthStorage.filter (EthStorage.Indexer o) = f /\ EthStorage.wfilter o = f.
Record writers_hold s wc we wd (gc : list loc) (gs : list (string * option bytes)) (ls : list loc)
    (m : gmap bytes (loc * list loc)) : Prop := {
  wh_cache : exists o, n_writers s !! wc = Some (WCache o) /\ cache_holds gc ls o;
  wh_eth : exists o, n_writers s !! we = Some (WEth o) /\ eth_holds (n_eth s) m o;
  wh_storage : exists o, n_writers s !! wd = Some (WStorage o) /\ storage_holds gs ls o;
}.

(** The writer of the execution store keeps the transitions of the block. *)
Definition exec_holds s wx (gx : list loc) : Prop := forall x, wx = Some x ->
  exists o, n_writers s !! x = Some (WExec o) /\ buffer o = gx.
(** A step of the three writers of the proxy. *)
Definition proxy_step wc we wd s s' : Prop :=
  (forall x, x ∉ [wc; we; wd] -> n_writers s' !! x = n_writers s !! x) /\ n_exec s' = n_exec s.

(** ** Calling a writer *)
Definition set_writer w o s : Node := with_heap (<[w := o]> (n_writers s)) s.
Lemma call_eq (m : NodeWriter cell -> Go Node (NodeWriter cell)) w o o' s s1 :
  n_writers s !! w = Some o -> m o s = Ret (o', s1) -> call_writer m w s = Ret (tt, set_writer w o' s1).
Proof.
  intros Ho Hm. unfold call_writer. rewrite (gbind_eq _ _ _ _ _ (deref_eq (H := node_writers) w s o Ho)).
  rewrite (gbind_eq _ _ _ _ _ Hm). by apply assign_ret.
Qed.
Lemma taken_kept s ts : importable (n_cells s) ts -> taken f s ts = kept f (n_cells s) ts.
Proof.
  intros Hi. apply filter_ext_in_b. intros l Hl. destruct (Hi l Hl) as (c & p & Hc & Hp & _).
  change (heap_of s) with (n_cells s). rewrite (cell_at_eq _ _ _ Hc). unfold no_path. by rewrite Hp.
Qed.

Lemma cache_import ts s gc o : valid (n_cells s) ts -> cache_holds gc [] o ->
  exists o', writer_Import ts (WCache o) s = Ret (WCache o', s) /\
    cache_holds gc (kept f (n_cells s) ts) o'.
Proof.
  intros Hv (Hg & Hb & Hf & Hw). eexists. unfold writer_Import, LiveCache.Import. rewrite gbind_assoc.
  rewrite (gbind_eq _ _ _ _ _ (Indexer_Import_eq (HL := node_cells) ts _ s Hv)). split; [reflexivity|].
  split; [exact Hg|]. split; [|done]. cbn. by rewrite Hb, Hf.
Qed.
Lemma storage_import ts s gs o : importable (n_cells s) ts -> storage_holds gs [] o ->
  exists o', writer_Import ts (WStorage o) s = Ret (WStorage o', s) /\
    storage_holds gs (kept f (n_cells s) ts) o'.
Proof.
  intros Hi (Hp & Hg & Hb & Hc & Hf & Hw). pose proof (importable_valid _ _ Hi) as Hv. eexists.
  unfold writer_Import, LiveStorage.Import. rewrite gbind_assoc.
  rewrite (gbind_eq _ _ _ _ _ (Stg_Indexer_Import_eq (HL := node_cells) ts _ s Hv)). split; [reflexivity|].
  split; [exact Hp|]. split; [exact Hg|]. split; [|done]. cbn. rewrite Hb, Hf. exact (taken_kept s ts Hi).
Qed.
Lemma eth_import ts s o : importable (n_cells s) ts -> eth_wf (n_eth s) -> eth_holds (n_eth s) ∅ o ->
  exists o' e' m, writer_Import ts (WEth o) s = Ret (WEth o', with_obj e' s) /\ eth_holds e' m o' /\
    eth_wf e' /\ index_ok e' m /\ (forall ad, snd <$> m !! ad = nonempty_opt (account_group (n_cells s) ts ad)) /\
    (forall ad, view_at e' ad = view_at (n_eth s) ad) /\ es_world e' = es_world (n_eth s).
Proof.
  intros Hi Hwf (Hb & Hm0 & Hver & Hf & Hw).
  destruct (EthStorage_Import_run (CH := node_cells) (EO := node_eth) ts (EthStorage.Indexer o) s Hwf
    (importable_valid (n_cells s) _ Hi) Hm0) as (m & e' & E & Hwf' & Hm & Hv & Hwd & Hg).
  eexists _, e', m. unfold writer_Import, EthStorage.Import. rewrite gbind_assoc.
  rewrite (gbind_eq _ _ _ _ _ E). split; [reflexivity|]. split; [|split; [done|split; [done|split; [|done]]]].
  - split; [|done]. intros idx Hi'. unfold cache_locs. rewrite Hwd. by apply Hb.
  - intros ad. cbn in Hg. rewrite Hg, Hf. rewrite (taken_kept s ts Hi).
    change (of_addr s ad (kept f (n_cells s) ts)) with (account_group (n_cells s) ts ad).
    by destruct (account_group _ _ _).
Qed.

(** ** The import of a generation *)
Lemma distinct3 (a b c : loc) : NoDup [a; b; c] -> a <> b /\ a <> c /\ b <> c.
Proof.
  rewrite !NoDup_cons, !not_elem_of_cons. intros ((H1 & H2 & _) & (H3 & _) & _). done.
Qed.
Lemma writer_kept s w w' o o' : n_writers s !! w = Some o -> w' <> w ->
  n_writers (set_writer w' o' s) !! w = Some o.
Proof. intros Ho Hne. cbn. by rewrite lookup_insert_ne. Qed.
Lemma writer_set s w o : n_writers (set_writer w o s) !! w = Some o.
Proof. apply lookup_insert_eq. Qed.

Lemma set_three wc we wd oc oe od s s' : n_exec s' = n_exec s -> n_writers s' =
  <[wd := od]> (<[we := oe]> (<[wc := oc]> (n_writers s))) -> proxy_step wc we wd s s'.
Proof.
  intros Hx E. split; [|exact Hx]. rewrite E. intros x Hn. rewrite !not_elem_of_cons in Hn.
  destruct Hn as (H1 & H2 & H3 & _). by rewrite !lookup_insert_ne by congruence.
Qed.
Lemma exec_step wx wc we wd s s' gx : (forall x, wx = Some x -> x ∉ [wc; we; wd]) ->
  proxy_step wc we wd s s' -> exec_holds s wx gx -> exec_holds s' wx gx.
Proof. intros Hn [Hw _] Hx x E. rewrite (Hw x (Hn x E)). by apply Hx. Qed.
Lemma writers_step s s' wc we wd gc gs ls m : (forall x, x ∈ [wc; we; wd] -> n_writers s' !! x = n_writers s !! x) ->
  n_eth s' = n_eth s -> writers_hold s wc we wd gc gs ls m -> writers_hold s' wc we wd gc gs ls m.
Proof.
  intros Hw He [H1 H2 H3]. constructor; rewrite ?He, Hw by (rewrite !elem_of_cons; auto); assumption.
Qed.

(** ** The writer of the execution store *)
Definition exec_state x (o : ExecutionCacheIndexer) (st : ExecutionStateStore Codec.crdt) s : Node :=
  set_writer x (WExec o) (with_obj st s).
Lemma exec_frame x o st s wc we wd gc gs ls m : x ∉ [wc; we; wd] -> writers_hold s wc we wd gc gs ls m ->
  writers_hold (exec_state x o st s) wc we wd gc gs ls m.
Proof.
  intros Hx. apply writers_step; [|done]. intros y Hy. apply lookup_insert_ne. by intros ->.
Qed.
(** The two phases and the import that concern it, before those of the proxy. *)
Lemma exec_import ts s wx wc we wd gx : exec_holds s wx gx -> (forall x, wx = Some x -> x ∉ [wc; we; wd]) ->
  exists s1, gforeach (call_writer (w_Import ts)) (option_list wx ++ [wc; we; wd]) s =
      gforeach (call_writer (w_Import ts)) [wc; we; wd] s1 /\
    exec_holds s1 wx (gx ++ ts) /\ n_cells s1 = n_cells s /\ n_cache s1 = n_cache s /\
    n_backend s1 = n_backend s /\ n_eth s1 = n_eth s /\ n_exec s1 = n_exec s /\
    (forall y, y ∈ [wc; we; wd] -> n_writers s1 !! y = n_writers s !! y).
Proof.
  intros Hx Hn. destruct wx as [x|]; [|by exists s]. destruct (Hx x eq_refl) as (o & Ho & Hb).
  set (o' := MkExecutionCacheIndexer (version o) (buffer o ++ ts) (filter o)).
  exists (set_writer x (WExec o') s). split; [|split; [|do 5 (split; [done|])]].
  - change (option_list (Some x) ++ [wc; we; wd]) with (x :: [wc; we; wd]).
    cbn [gforeach w_Import node_StoreWriter].
    by rewrite (gbind_eq _ _ _ _ _ (call_eq (writer_Import ts) x _ (WExec o') s s Ho eq_refl)).
  - intros y [= <-]. exists o'. split; [apply writer_set|]. cbn. by rewrite Hb.
  - intros y Hy. apply lookup_insert_ne. intros ->. by apply (Hn y).
Qed.

Lemma import_writers ts s wc we wd gc gs :
  writers_hold s wc we wd gc gs [] ∅ -> NoDup [wc; we; wd] -> importable (n_cells s) ts ->
  eth_wf (n_eth s) ->
  exists s' m, gforeach (call_writer (w_Import ts)) [wc; we; wd] s = Ret (tt, s') /\
    writers_hold s' wc we wd gc gs (kept f (n_cells s) ts) m /\
    n_cells s' = n_cells s /\ n_cache s' = n_cache s /\ n_backend s' = n_backend s /\
    eth_wf (n_eth s') /\ index_ok (n_eth s') m /\
    (forall ad, snd <$> m !! ad = nonempty_opt (account_group (n_cells s) ts ad)) /\
    (forall ad, view_at (n_eth s') ad = view_at (n_eth s) ad) /\ proxy_step wc we wd s s'.
Proof.
  intros [(oc & Hc & Hoc) (oe & He & Hoe) (od & Hd & Hod)] Hnd Hi Hwf.
  destruct (distinct3 _ _ _ Hnd) as (H1 & H2 & H3).
  destruct (cache_import ts s gc oc (importable_valid _ _ Hi) Hoc) as (oc' & Ec & Hoc').
  set (s1 := set_writer wc (WCache oc') s).
  destruct (eth_import ts s1 oe Hi Hwf Hoe) as (oe' & e' & m & Ee & Hoe' & Hwf' & Hm & Hg & Hv & Hw).
  set (s2 := set_writer we (WEth oe') (with_obj e' s1)).
  destruct (storage_import ts s2 gs od Hi Hod) as (od' & Ed & Hod').
  assert (Hd2 : n_writers s2 !! wd = Some (WStorage od))
    by (apply (writer_kept (with_obj e' s1)); [exact (writer_kept s wd wc _ _ Hd H2)|exact H3]).
  exists (set_writer wd (WStorage od') s2), m.
  split; [|split; [constructor|repeat (split; [done|]); by eapply set_three]].
  - cbn [gforeach w_Import node_StoreWriter].
    rewrite (gbind_eq _ _ _ _ _ (call_eq (writer_Import ts) wc _ (WCache oc') s s Hc Ec)).
    rewrite (gbind_eq _ _ _ _ _ (call_eq (writer_Import ts) we _ (WEth oe') s1 (with_obj e' s1)
      (writer_kept s we wc _ _ He H1) Ee)).
    by rewrite (gbind_eq _ _ _ _ _ (call_eq (writer_Import ts) wd _ (WStorage od') s2 s2 Hd2 Ed)).
  - exists oc'. split; [|exact Hoc']. do 2 (apply writer_kept; [|congruence]). apply writer_set.
  - exists oe'. split; [|exact Hoe']. apply writer_kept; [|congruence]. apply writer_set.
  - exists od'. split; [apply writer_set|exact Hod'].
Qed.

Lemma indexed_new h this : byPath this = ∅ -> byTxID this = ∅ -> indexed h [] this.
Proof.
  intros H1 H2. constructor; [by intros l ?%elem_of_nil|constructor| |];
    intros ?; by rewrite ?H1, ?H2, lookup_empty.
Qed.
Record imported ts this s wx wc we wd gc gs gx : Prop := {
  im_committer : committer_of this wx wc we wd;
  im_indexed : indexed (n_cells s) ts this;
  im_importable : importable (n_cells s) ts;
  im_wf : eth_wf (n_eth s);
  im_exec : exec_holds s wx (gx ++ ts);
  im_holds : exists m, writers_hold s wc we wd gc gs (kept f (n_cells s) ts) m /\ index_ok (n_eth s) m /\
    forall ad, snd <$> m !! ad = nonempty_opt (account_group (n_cells s) ts ad);
}.
(** What a step leaves alone. *)
Record same_stores s s' : Prop := {
  ss_cache : n_cache s' = n_cache s;
  ss_backend : n_backend s' = n_backend s;
}.
Lemma Node_import ts this s wx wc we wd gc gs gx :
  committer_of this wx wc we wd -> byPath this = ∅ -> byTxID this = ∅ ->
  writers_hold s wc we wd gc gs [] ∅ -> exec_holds s wx gx ->
  importable (n_cells s) ts -> NoDup ts -> eth_wf (n_eth s) ->
  exists this' s', Committer.Import ts this s = Ret (this', s') /\ imported ts this' s' wx wc we wd gc gs gx /\
    loaded ts (n_cells s) (n_cells s') /\ same_stores s s' /\ n_exec s' = n_exec s /\
    (forall ad, view_at (n_eth s') ad = view_at (n_eth s) ad).
Proof.
  intros Hco Hp Ht Hwh Hex Hi Hnd Hwf.
  destruct (Import_indexes (HL := node_cells) (HL0 := node_writers) [] ts this s
    (indexed_new _ _ Hp Ht) Hi Hnd) as (mp & mt & h2 & E & Hx & Em).
  set (s1 := with_heap h2 s) in E. pose proof (importable_meta _ _ _ (proj1 Em) Hi) as Hi2.
  pose proof Hco as [Hws _ _ Hd Hn]. rewrite Hws in E.
  destruct (exec_import ts s1 wx wc we wd gx Hex Hn) as (s2 & Ex & Hex2 & Hc2 & Hca2 & Hb2 & He2 & Hx2 & Hw2).
  assert (Hwh2 : writers_hold s2 wc we wd gc gs [] ∅)
    by (apply (writers_step s1); [done|done|]; destruct Hwh; by constructor).
  change h2 with (n_cells s1) in Hi2. rewrite <- Hc2 in Hi2. assert (Hwf2 : eth_wf (n_eth s2)) by (by rewrite He2).
  destruct (import_writers ts s2 wc we wd gc gs Hwh2 Hd Hi2 Hwf2)
    as (s' & m & Ew & Hwh' & Hcs & Hca & Hba & Hwf' & Hm & Hg & Hv & Hps).
  rewrite <- Ex in Ew. rewrite (gbind_eq _ _ _ _ _ Ew) in E.
  eexists _, s'. split; [exact E|]. rewrite Hc2 in *. change (n_cells s1) with h2 in *.
  split; [constructor; rewrite ?Hcs|rewrite Hcs; split; [done|]; split; [|split]].
  - by destruct Hco; constructor.
  - by destruct Hx; constructor.
  - exact Hi2.
  - exact Hwf'.
  - by apply (exec_step wx wc we wd s2).
  - by exists m.
  - constructor; [by rewrite Hca|by rewrite Hba].
  - by rewrite (proj2 Hps).
  - intros ad. by rewrite Hv, He2.
Qed.

(** ** The precommit of a generation *)
Lemma cache_phases gc ls o : cache_holds gc ls o ->
  exists o1, (forall s, writer_Precommit true (WCache o) s = Ret (WCache o1, s)) /\
    forall s, typed (n_cells s) ls ->
      exists o2, writer_Precommit false (WCache o1) s = Ret (WCache o2, s) /\
        cache_holds (gc ++ with_path (n_cells s) ls) [] o2.
Proof.
  intros (Hg & Hi & Hf & Hw). eexists. split; [intros s; reflexivity|]. intros s Ht. eexists. split.
  - unfold writer_Precommit, LiveCache.Precommit. rewrite gbind_assoc.
    erewrite gbind_eq by (apply (Indexer_Finalize_eq (HL := node_cells)); cbn; rewrite Hi; exact Ht).
    reflexivity.
  - rewrite Merge_eq in Hg. split; [|done]. cbn. rewrite Merge_eq, map_app, concat_app, Hg, Hi. cbn.
    by rewrite app_nil_r.
Qed.
Lemma storage_phases gs ls o : storage_holds gs ls o ->
  exists o1, (forall s, writer_Precommit true (WStorage o) s = Ret (WStorage o1, s)) /\
    forall s, typed (n_cells s) ls ->
      exists o2, writer_Precommit false (WStorage o1) s = Ret (WStorage o2, s) /\
        storage_holds (gs ++ map (encoded_entry codec) (entries (n_cells s) (with_path (n_cells s) ls))) [] o2.
Proof.
  intros (Hp & Hg & Hi & Hc & Hf & Hw). eexists. split; [intros s; reflexivity|]. intros s Ht. eexists. split.
  - unfold writer_Precommit, LiveStorage.Precommit. rewrite gbind_assoc.
    erewrite gbind_eq by (apply (Stg_Indexer_Finalize_eq (HL := node_cells)); cbn; rewrite Hi; exact Ht).
    reflexivity.
  - split; [|split; [|done]].
    + cbn. intros idx [Hb| ->%list_elem_of_singleton]%elem_of_app; [by apply Hp|].
      unfold paired. cbn. by rewrite !length_map.
    + unfold encoded_entries in *. cbn. rewrite map_app, concat_app, Hg. f_equal. cbn. rewrite Hi, Hc, app_nil_r.
      change (heap_of s) with (n_cells s). fold (with_path (n_cells s) ls).
      fold (entries (n_cells s) (with_path (n_cells s) ls)).
      generalize (entries (n_cells s) (with_path (n_cells s) ls)). intros es.
      induction es as [|x es IH]; [done|]. cbn. by rewrite IH.
Qed.

(** The cells once the committer has finalized a generation. *)
Definition finalized_heap h txs ts h' : Prop :=
  forall l, h' !! l = if decide (l ∈ ts) then finalized_cell h txs ts l else h !! l.
Lemma ents_account h txs ts s ad : finalized_heap h txs ts (n_cells s) ->
  ents s (account_group h ts ad) = account_entries h txs ts ad.
Proof.
  intros Hh. assert (Hin : forall l, l ∈ account_group h ts ad -> l ∈ ts)
    by (intros l' [[Hl _]%elem_of_filter_b _]%elem_of_filter_b; exact Hl).
  unfold ents, account_entries. revert Hin. generalize (account_group h ts ad). intros ls Hin.
  induction ls as [|l0 ls IH]; [done|]. cbn. change (heap_of s) with (n_cells s).
  rewrite (Hh l0), decide_True by (apply Hin; by left). rewrite <- IH; [done|].
  intros l1 Hl1. apply Hin. by right.
Qed.
(** The Ethereum transitions that are left have the types of their paths. *)
Lemma finalized_gen_ok h txs ts s m : importable h ts -> NoDup ts -> block_ready h txs ts (n_eth s) ->
  finalized_heap h txs ts (n_cells s) ->
  (forall ad, snd <$> m !! ad = nonempty_opt (account_group h ts ad)) -> gen_ok s m.
Proof.
  intros Hi Hnd (Hda & Hmt & He) Hh Hm ad l ls El. specialize (Hm ad). rewrite El in Hm. cbn in Hm.
  assert (ls = account_group h ts ad) as -> by (destruct (account_group h ts ad); [done|by injection Hm as ->]).
  assert (Hin : forall l, l ∈ account_group h ts ad -> l ∈ ts)
    by (intros l' [[Hl _]%elem_of_filter_b _]%elem_of_filter_b; exact Hl).
  split; [|].
  - intros l' Hl'. destruct (finalized_typed h (n_cells s) txs ts Hi Hnd Hda Hmt Hh l' (Hin _ Hl')) as (c & Hc & Hr).
    exists c. split; [exact Hc|]. unfold no_path, cell_kv. unfold is_raw in Hr.
    destruct (GetPath c); [|by left]. right. destruct (Value c) as [[]|]; [by eexists|done|by eexists].
  - rewrite (ents_account h txs) by done. exact (He ad).
Qed.

Lemma eth_phase h txs ts s o m : importable h ts -> NoDup ts -> block_ready h txs ts (n_eth s) ->
  finalized_heap h txs ts (n_cells s) -> eth_wf (n_eth s) -> eth_holds (n_eth s) m o ->
  index_ok (n_eth s) m -> (forall ad, snd <$> m !! ad = nonempty_opt (account_group h ts ad)) ->
  exists o' e', writer_Precommit false (WEth o) s = Ret (WEth o', with_obj e' s) /\
    eth_holds e' ∅ o' /\ eth_wf e' /\
    forall ad, view_at e' ad = account_spec h txs ts (view_at (n_eth s)) ad.
Proof.
  intros Hi Hnd Hbr Hh Hwf (Hb & Hm0 & Hver & Hf & Hw) Hidx Hm.
  destruct (Precommit_run (CH := node_cells) (EO := node_eth) false o s m Hm0 Hwf Hidx
    (finalized_gen_ok h txs ts s m Hi Hnd Hbr Hh Hm)) as (idx & e' & E & Hv & Hpc).
  eexists _, e'. unfold writer_Precommit. rewrite (gbind_eq _ _ _ _ _ E). split; [reflexivity|].
  destruct Hpc as [Hwf' Herr _ _ Hcache Hdirty _ Hviews]. split; [split; [|done]|split; [done|]].
  - cbn. intros i [Hi'| ->%list_elem_of_singleton]%elem_of_app.
    + destruct (Hb i Hi') as [H1 H2]. split; [done|]. intros l [ad Hl]%H2%elem_of_cache_locs.
      apply elem_of_cache_locs. exists ad. rewrite Hcache. by apply cache_with_grows.
    + split; [by rewrite Hv|]. intros l (ad & ls & El)%Hdirty. apply elem_of_cache_locs. exists ad.
      by rewrite Hcache, cache_with_lookup, El.
  - intros ad. rewrite Hviews. specialize (Hm ad). unfold account_spec.
    destruct (m !! ad) as [[l ls]|] eqn:El; cbn in Hm.
    + assert (Hls : ls = account_group h ts ad /\ ls <> [])
        by (destruct (account_group h ts ad); [done|by injection Hm as ->]).
      destruct Hls as [-> Hne]. rewrite (ents_account h txs) by done.
      by destruct (account_group h ts ad).
    + by destruct (account_group h ts ad).
Qed.

(** The bodies of the two loops. *)
Definition is_eth (o : NodeWriter cell) : bool := match o with WEth _ => true | _ => false end.
Definition is_exec (o : NodeWriter cell) : bool := match o with WExec _ => true | _ => false end.
Definition phase (skip : NodeWriter cell -> bool) (isSync : bool) w : Go Node unit :=
  let! o := deref (H := node_writers) w in
  if negb (skip o) then call_writer (writer_Precommit isSync) w else gret tt.
Lemma phase_eq skip b w o o' s s1 : n_writers s !! w = Some o -> skip o = false ->
  writer_Precommit b o s = Ret (o', s1) -> phase skip b w s = Ret (tt, set_writer w o' s1).
Proof.
  intros Ho Hs Hm. unfold phase. rewrite (gbind_eq _ _ _ _ _ (deref_eq (H := node_writers) w s o Ho)), Hs.
  by apply (call_eq (writer_Precommit b) w o).
Qed.
Lemma phase_skip skip b w o s : n_writers s !! w = Some o -> skip o = true -> phase skip b w s = Ret (tt, s).
Proof.
  intros Ho Hs. unfold phase. by rewrite (gbind_eq _ _ _ _ _ (deref_eq (H := node_writers) w s o Ho)), Hs.
Qed.

(** The execution store after a precommit: it shows the transitions of the
    block that still have their paths. *)
Definition exec_indexed wx (gx : list loc) h (st st' : ExecutionStateStore Codec.crdt) : Prop :=
  match wx with
  | None => st' = st
  | Some _ => fields st' = fields st /\ forall p, localCells st' !! p =
      match last_at h gx p with Some l => Some l | None => localCells st !! p end
  end.
Lemma exec_phase s wx wc we wd gx : exec_holds s wx gx -> (forall x, wx = Some x -> x ∉ [wc; we; wd]) ->
  valid (n_cells s) gx ->
  exists s1, gforeach (phase is_eth true) (option_list wx ++ [wc; we; wd]) s =
      gforeach (phase is_eth true) [wc; we; wd] s1 /\
    exec_holds s1 wx (with_path (n_cells s) gx) /\ exec_indexed wx gx (n_cells s) (n_exec s) (n_exec s1) /\
    n_cells s1 = n_cells s /\ same_stores s s1 /\ n_eth s1 = n_eth s /\
    (forall y, y ∈ [wc; we; wd] -> n_writers s1 !! y = n_writers s !! y).
Proof.
  intros Hx Hn Hv. destruct wx as [x|]; [|by exists s]. destruct (Hx x eq_refl) as (o & Ho & Hb).
  rewrite <- Hb in Hv. destruct (Writer_Precommit_eq (HL := node_cells) (OL := node_exec) true o s Hv)
    as (st & E & Hf & Hl). rewrite Hb in E, Hl.
  eexists (set_writer x (WExec _) (with_obj st s)). split; [|split; [|do 4 (split; [done|])]].
  - change (option_list (Some x) ++ [wc; we; wd]) with (x :: [wc; we; wd]). cbn [gforeach].
    by rewrite (gbind_eq _ _ _ _ _ (phase_eq is_eth true x (WExec o) (WExec _) s _ Ho eq_refl
      (gbind_eq _ _ _ _ _ E))).
  - intros y [= <-]. eexists. split; [apply writer_set|done].
  - intros y Hy. apply lookup_insert_ne. intros ->. by apply (Hn y).
Qed.
Lemma exec_skipped s wx wc we wd gx : exec_holds s wx gx ->
  gforeach (phase is_exec false) (option_list wx ++ [wc; we; wd]) s =
  gforeach (phase is_exec false) [wc; we; wd] s.
Proof.
  intros Hx. destruct wx as [x|]; [|done]. destruct (Hx x eq_refl) as (o & Ho & _).
  change (option_list (Some x) ++ [wc; we; wd]) with (x :: [wc; we; wd]). cbn [gforeach].
  by rewrite (gbind_eq _ _ _ _ _ (phase_skip is_exec false x (WExec o) s Ho eq_refl)).
Qed.

Lemma sync_phase s wc we wd oc oe od oc1 od1 : NoDup [wc; we; wd] ->
  n_writers s !! wc = Some (WCache oc) -> n_writers s !! we = Some (WEth oe) ->
  n_writers s !! wd = Some (WStorage od) ->
  (forall s, writer_Precommit true (WCache oc) s = Ret (WCache oc1, s)) ->
  (forall s, writer_Precommit true (WStorage od) s = Ret (WStorage od1, s)) ->
  gforeach (phase is_eth true) [wc; we; wd] s =
    Ret (tt, set_writer wd (WStorage od1) (set_writer wc (WCache oc1) s)).
Proof.
  intros Hdis Hc He Hd Ec Ed. destruct (distinct3 _ _ _ Hdis) as (H1 & H2 & H3). cbn [gforeach].
  rewrite (gbind_eq _ _ _ _ _ (phase_eq is_eth _ wc _ (WCache oc1) s s Hc eq_refl (Ec s))).
  rewrite (gbind_eq _ _ _ _ _ (phase_skip is_eth true we (WEth oe) _
    (writer_kept s we wc _ _ He H1) eq_refl)).
  set (s1 := set_writer wc (WCache oc1) s).
  by rewrite (gbind_eq _ _ _ _ _ (phase_eq is_eth _ wd _ (WStorage od1) s1 s1
    (writer_kept s wd wc _ _ Hd H2) eq_refl (Ed s1))).
Qed.

Lemma async_phase h txs ts s wc we wd gc gs oc1 oe od1 m : NoDup [wc; we; wd] ->
  importable h ts -> NoDup ts -> block_ready h txs ts (n_eth s) -> finalized_heap h txs ts (n_cells s) ->
  eth_wf (n_eth s) -> eth_holds (n_eth s) m oe -> index_ok (n_eth s) m ->
  (forall ad, snd <$> m !! ad = nonempty_opt (account_group h ts ad)) ->
  n_writers s !! wc = Some (WCache oc1) -> n_writers s !! we = Some (WEth oe) ->
  n_writers s !! wd = Some (WStorage od1) ->
  (forall s, typed (n_cells s) (kept f h ts) -> exists o2,
     writer_Precommit false (WCache oc1) s = Ret (WCache o2, s) /\
     cache_holds (gc ++ with_path (n_cells s) (kept f h ts)) [] o2) ->
  (forall s, typed (n_cells s) (kept f h ts) -> exists o2,
     writer_Precommit false (WStorage od1) s = Ret (WStorage o2, s) /\
     storage_holds (gs ++ map (encoded_entry codec) (entries (n_cells s)
       (with_path (n_cells s) (kept f h ts)))) [] o2) ->
  exists s', gforeach (phase is_exec false) [wc; we; wd] s = Ret (tt, s') /\
    writers_hold s' wc we wd (gc ++ with_path (n_cells s) (kept f h ts))
      (gs ++ map (encoded_entry codec) (entries (n_cells s) (with_path (n_cells s) (kept f h ts)))) [] ∅ /\
    n_cells s' = n_cells s /\ same_stores s s' /\ eth_wf (n_eth s') /\ proxy_step wc we wd s s' /\
    forall ad, view_at (n_eth s') ad = account_spec h txs ts (view_at (n_eth s)) ad.
Proof.
  intros Hdis Hi Hnd Hbr Hh Hwf Hoe Hidx Hm Hc He Hd HC HD.
  destruct (distinct3 _ _ _ Hdis) as (H1 & H2 & H3).
  assert (Ht : typed (n_cells s) (kept f h ts)).
  { destruct Hbr as (Hda & Hmt & _). intros l [Hl _]%elem_of_filter_b.
    by apply (finalized_typed h (n_cells s) txs ts Hi Hnd Hda Hmt Hh). }
  cbn [gforeach].
  destruct (HC s Ht) as (oc2 & Ec & Hoc2). set (s1 := set_writer wc (WCache oc2) s).
  destruct (eth_phase h txs ts s1 oe m Hi Hnd Hbr Hh Hwf Hoe Hidx Hm) as (oe' & e' & Ee & Hoe' & Hwf' & Hv).
  set (s2 := set_writer we (WEth oe') (with_obj e' s1)).
  assert (Hd2 : n_writers s2 !! wd = Some (WStorage od1))
    by (apply (writer_kept (with_obj e' s1)); [exact (writer_kept s wd wc _ _ Hd H2)|exact H3]).
  destruct (HD s2 Ht) as (od2 & Ed & Hod2). exists (set_writer wd (WStorage od2) s2).
  split; [|split; [constructor|do 3 (split; [done|]); split; [by eapply set_three|done]]].
  - rewrite (gbind_eq _ _ _ _ _ (phase_eq is_exec _ wc _ (WCache oc2) s s Hc eq_refl Ec)).
    rewrite (gbind_eq _ _ _ _ _ (phase_eq is_exec _ we (WEth oe) (WEth oe') s1 _
      (writer_kept s we wc _ _ He H1) eq_refl Ee)).
    by rewrite (gbind_eq _ _ _ _ _ (phase_eq is_exec _ wd (WStorage od1) (WStorage od2) s2 s2
      Hd2 eq_refl Ed)).
  - exists oc2. split; [|exact Hoc2]. do 2 (apply writer_kept; [|congruence]). apply writer_set.
  - exists oe'. split; [|exact Hoe']. apply writer_kept; [|congruence]. apply writer_set.
  - exists od2. split; [apply writer_set|exact Hod2].
Qed.

(** What a generation leaves for the commit of the block. *)
Lemma Node_precommit txs ts this s wx wc we wd gc gs gx : imported ts this s wx wc we wd gc gs gx ->
  block_ready (n_cells s) txs ts (n_eth s) -> valid (n_cells s) gx ->
  exists s', DebugPrecommit txs this s = Ret (cleared this, s') /\
    finalized_heap (n_cells s) txs ts (n_cells s') /\
    (let ls := with_path (n_cells s') (kept f (n_cells s) ts) in
     writers_hold s' wc we wd (gc ++ ls) (gs ++ map (encoded_entry codec) (entries (n_cells s') ls)) [] ∅) /\
    exec_holds s' wx (with_path (n_cells s') (gx ++ ts)) /\
    exec_indexed wx (gx ++ ts) (n_cells s') (n_exec s) (n_exec s') /\
    same_stores s s' /\ eth_wf (n_eth s') /\
    forall ad, view_at (n_eth s') ad = account_spec (n_cells s) txs ts (view_at (n_eth s)) ad.
Proof.
  intros [Hco Hx Hi Hwf Hex (m & Hwh & Hidx & Hm)] Hbr Hvx.
  destruct (Committer_Finalize_eq (HL := node_cells) txs ts this s Hx (proj1 Hbr))
    as (h' & E1 & Hh). set (s1 := with_heap h' s) in E1.
  assert (Hv : valid (n_cells s1) (gx ++ ts)).
  { intros l Hl. change (is_Some (h' !! l)). rewrite Hh. case_decide as Hin.
    - destruct Hbr as (Hda & Hmt & _).
      destruct (finalized_typed (n_cells s) h' txs ts Hi (ix_nodup _ _ _ Hx) Hda Hmt Hh l Hin) as (c & Hc & _).
      rewrite Hh, decide_True in Hc by done. by eexists.
    - apply Hvx. by apply elem_of_app in Hl as [?|?]. }
  pose proof Hco as [Hws _ _ Hd Hn].
  destruct (exec_phase s1 wx wc we wd (gx ++ ts) Hex Hn Hv) as (s2 & Ex & Hex2 & Hin2 & Hc2 & Hs2 & He2 & Hw2).
  assert (Hwh2 : writers_hold s2 wc we wd gc gs (kept f (n_cells s) ts) m)
    by (apply (writers_step s1); [done|done|]; destruct Hwh; by constructor).
  destruct Hwh2 as [(oc & Hc & Hoc) (oe & He & Hoe) (od & Hd' & Hod)].
  destruct (cache_phases _ _ _ Hoc) as (oc1 & Ec & HC). destruct (storage_phases _ _ _ Hod) as (od1 & Ed & HD).
  pose proof (sync_phase s2 wc we wd oc oe od oc1 od1 Hd Hc He Hd' Ec Ed) as E2. rewrite <- Ex in E2.
  destruct (distinct3 _ _ _ Hd) as (H1 & H2 & H3).
  set (s3 := set_writer wd (WStorage od1) (set_writer wc (WCache oc1) s2)) in E2.
  assert (Hp3 : proxy_step wc we wd s2 s3).
  { split; [|done]. intros x Hnx. rewrite !not_elem_of_cons in Hnx. destruct Hnx as (? & ? & ? & _). cbn.
    by rewrite !lookup_insert_ne by congruence. }
  assert (Heth : n_eth s3 = n_eth s) by exact He2. assert (Hcs : n_cells s3 = h') by exact Hc2.
  rewrite <- Heth in Hbr, Hwf, Hidx. rewrite <- Hcs in Hh. change (n_eth s2) with (n_eth s3) in Hoe.
  destruct (async_phase (n_cells s) txs ts s3 wc we wd gc gs oc1 oe od1 m)
    as (s' & E3 & Hwh' & Hcs' & Hst & Hwf' & Hp' & Hv'); try done.
  - apply (ix_nodup _ _ _ Hx).
  - apply writer_kept; [|congruence]. apply writer_set.
  - apply writer_kept; [|congruence]. by apply writer_kept.
  - apply writer_set.
  - assert (Hex3 : exec_holds s3 wx (with_path h' (gx ++ ts))) by (by apply (exec_step wx wc we wd s2)).
    rewrite <- (exec_skipped s3 wx wc we wd _ Hex3) in E3.
    exists s'. rewrite Hcs'. split; [|split; [exact Hh|split; [exact Hwh'|split; [|split; [|split; [|split; [done|]]]]]]].
    + unfold DebugPrecommit. rewrite (gbind_eq _ _ _ _ _ E1).
      assert (E2' : SyncPrecommit (cleared this) s1 = Ret (tt, s3)) by (unfold SyncPrecommit; cbn [writers cleared]; rewrite Hws; exact E2).
      assert (E3' : AsyncPrecommit (cleared this) s3 = Ret (tt, s')) by (unfold AsyncPrecommit; cbn [writers cleared]; rewrite Hws; exact E3).
      rewrite (gbind_eq _ _ _ _ _ E2'). by rewrite (gbind_eq _ _ _ _ _ E3').
    + rewrite Hcs. by apply (exec_step wx wc we wd s3).
    + rewrite (proj2 Hp'), (proj2 Hp3), Hcs. exact Hin2.
    + destruct Hs2, Hst. by constructor; etrans.
    + intros ad. by rewrite Hv', Heth.
Qed.

Lemma entries_ext h h' ls : (forall l, l ∈ ls -> h' !! l = h !! l) -> entries h' ls = entries h ls.
Proof.
  intros H. apply map_ext_in. intros l Hl%list_elem_of_In. unfold cell_at. by rewrite H.
Qed.
Lemma importable_ext h h' ls : (forall l, l ∈ ls -> h' !! l = h !! l) -> importable h ls -> importable h' ls.
Proof. intros H Hi l Hl. rewrite H by done. by apply Hi. Qed.

(** ** The commit of a block *)
(** The pool's reset leaves these transitions as they are. *)
Definition pool_keeps (ls : list loc) s : Prop := forall h, pool_Reset s = Ret (tt, with_heap h s) ->
  forall l, l ∈ ls -> h !! l = n_cells s !! l.
Definition exec_cleared wx (st st' : ExecutionStateStore Codec.crdt) : Prop :=
  match wx with None => st' = st | Some _ => localCells st' = ∅ /\ fields st' = fields st end.
Lemma exec_commit n s wx wc we wd gx : exec_holds s wx gx -> (forall x, wx = Some x -> x ∉ [wc; we; wd]) ->
  exists s1, gforeach (call_writer (w_Commit n)) (option_list wx ++ [wc]) s =
      gforeach (call_writer (w_Commit n)) [wc] s1 /\
    exec_holds s1 wx [] /\ exec_cleared wx (n_exec s) (n_exec s1) /\
    (forall ls, (is_Some wx -> pool_keeps ls s) -> forall l, l ∈ ls -> n_cells s1 !! l = n_cells s !! l) /\
    same_stores s s1 /\ n_eth s1 = n_eth s /\
    (forall y, y ∈ [wc; we; wd] -> n_writers s1 !! y = n_writers s !! y).
Proof.
  intros Hx Hn. destruct wx as [x|]; [|by exists s]. destruct (Hx x eq_refl) as (o & Ho & Hb).
  destruct (Writer_Commit_eq (HL := node_cells) (OL := node_exec) n o s) as (h & st & Er & E & Hl & Hf).
  eexists (set_writer x (WExec _) (with_obj st (with_heap h s))).
  split; [|split; [|split; [done|split; [|do 2 (split; [done|])]]]].
  - change (option_list (Some x) ++ [wc]) with [x; wc]. cbn [gforeach w_Commit node_StoreWriter].
    by rewrite (gbind_eq _ _ _ _ _ (call_eq (writer_Commit n) x (WExec o) (WExec _) s _ Ho
      (gbind_eq _ _ _ _ _ E))).
  - intros y [= <-]. eexists. split; [apply writer_set|done].
  - intros ls Hk l Hin. exact (Hk ltac:(by eexists) h Er l Hin).
  - intros y Hy. apply lookup_insert_ne. intros ->. by apply (Hn y).
Qed.

Lemma commit_phase n s wc we wd oc oe od oc' oe' od' (c' : LC) e' (d' : DS) :
  NoDup [wc; we; wd] -> n_writers s !! wc = Some (WCache oc) ->
  n_writers s !! we = Some (WEth oe) -> n_writers s !! wd = Some (WStorage od) ->
  let s1 := set_writer wc (WCache oc') (with_obj c' s) in
  let s2 := set_writer we (WEth oe') (with_obj e' s1) in
  writer_Commit n (WCache oc) s = Ret (WCache oc', with_obj c' s) ->
  writer_Commit n (WEth oe) s1 = Ret (WEth oe', with_obj e' s1) ->
  writer_Commit n (WStorage od) s2 = Ret (WStorage od', with_obj d' s2) ->
  gforeach (call_writer (w_Commit n)) [wc] s = Ret (tt, s1) /\
  gforeach (call_writer (w_Commit n)) [we; wd] s1 = Ret (tt, set_writer wd (WStorage od') (with_obj d' s2)).
Proof.
  intros Hdis Hc He Hd s1 s2 Ec Ee Ed. destruct (distinct3 _ _ _ Hdis) as (H1 & H2 & H3).
  assert (He1 : n_writers s1 !! we = Some (WEth oe)) by (by apply (writer_kept (with_obj _ s))).
  assert (Hd2 : n_writers s2 !! wd = Some (WStorage od))
    by (apply (writer_kept (with_obj _ s1)); [by apply (writer_kept (with_obj _ s))|done]).
  cbn [gforeach w_Commit node_StoreWriter]. split.
  - by rewrite (gbind_eq _ _ _ _ _ (call_eq (writer_Commit n) wc _ _ s _ Hc Ec)).
  - rewrite (gbind_eq _ _ _ _ _ (call_eq (writer_Commit n) we _ _ s1 _ He1 Ee)).
    by rewrite (gbind_eq _ _ _ _ _ (call_eq (writer_Commit n) wd _ _ s2 _ Hd2 Ed)).
Qed.


(** The Ethereum store after a block: the records of what it shows are in the
    trie database, under the root it recorded.  The version of a block is 0
    when it had no generation, 2^64 - 1 otherwise. *)
Definition eth_committed (shown : bytes -> option AccountView) e : Prop :=
  dbErr (es_world e) = None -> eth_wf e /\ (forall ad, view_at e ad = shown ad) /\
    exists v m, v ∈ [0%Z; MaxUint64] /\ stored (es_triedb e) (GetRootHash v (es_world e)) m /\
      forall ad vw, shown ad = Some vw ->
        exists a, view a = vw /\ m !! Keccak256 ad = Some (Account_Encode a).
Lemma eth_commit n s o m : eth_wf (n_eth s) -> eth_holds (n_eth s) m o ->
  exists o' e', writer_Commit n (WEth o) s = Ret (WEth o', with_obj e' s) /\
    eth_holds e' m o' /\ eth_committed (view_at (n_eth s)) e'.
Proof.
  intros Hwf (Hb & Hrest). destruct (Commit_run (EO := node_eth) n o s Hwf) as
    (v & e' & wt & roots & Hbv & E & Hwt & _ & Hr & Hok).
  { intros i l Hi Hl. by apply (Hb i Hi). }
  eexists _, e'. unfold writer_Commit. rewrite (gbind_eq _ _ _ _ _ E). split; [reflexivity|].
  split; [split; [by intros ? ?%elem_of_nil|exact Hrest]|]. intros Hn. destruct (Hok Hn) as (_ & Hwf' & Hv' & _ & Hst & _).
  split; [done|]. split; [done|]. exists (u64 v), (trie_map wt). split; [|split].
  - destruct (EthStorage.buffer o) as [|b0 bs]; [cbn in Hbv; rewrite Hbv; by left|].
    destruct Hbv as [(i & Hi & <-) _]. rewrite (proj1 (Hb i Hi)). right. by left.
  - unfold GetRootHash. by rewrite Hr, lookup_insert_eq.
  - intros ad vw Hvw. by apply (record_of_view (n_eth s)).
Qed.

Lemma Node_commit n this s wx wc we wd gc gs gx : committer_of this wx wc we wd ->
  writers_hold s wc we wd gc gs [] ∅ -> exec_holds s wx gx -> (is_Some wx -> pool_keeps gc s) ->
  importable (n_cells s) gc -> eth_wf (n_eth s) ->
  exists s' c errs, DebugCommit n this s = Ret (this, s') /\
    writers_hold s' wc we wd [] [] [] ∅ /\ exec_holds s' wx [] /\
    exec_cleared wx (n_exec s) (n_exec s') /\ n_cache s' = cache_Evict c /\
    (forall p, cache_Get c p = apply_batch (entries (n_cells s) gc) (cache_Get (n_cache s)) p) /\
    written_batch gs (n_backend s) errs (n_backend s') /\
    ((forall err, err ∈ errs -> err = None) -> forall p,
       rw_Get (n_backend s') p = apply_batch gs (rw_Get (n_backend s)) p) /\
    eth_committed (view_at (n_eth s)) (n_eth s').
Proof.
  intros [_ Hsy Has Hdis Hn] Hwh Hex Hpool Hi Hwf.
  destruct (exec_commit n s wx wc we wd gx Hex Hn) as (s0 & Ex & Hex0 & Hcl & Hk & [Hca Hba] & He0 & Hw0).
  assert (Hkc : forall l, l ∈ gc -> n_cells s0 !! l = n_cells s !! l) by exact (Hk gc Hpool).
  destruct (writers_step s s0 wc we wd _ _ _ _ Hw0 He0 Hwh) as
    [(oc & Hc & Hmc & Hoc) (oe & He & Hoe) (od & Hd & Hpd & Hes & Hod)].
  destruct (distinct3 _ _ _ Hdis) as (H1 & H2 & H3).
  assert (Hi0 : importable (n_cells s0) gc) by by apply (importable_ext (n_cells s)).
  rewrite <- (entries_ext (n_cells s) (n_cells s0) gc Hkc), <- Hca, <- Hba, <- He0. rewrite <- He0 in Hwf.
  destruct (LiveCache_Commit_eq (HL := node_cells) (OL := node_cache) n oc s0) as (c' & Ec & Hc').
  { by rewrite Hmc. }
  set (oc' := LiveCache.MkLiveCacheWriter _ _ _ _) in Ec.
  set (s1 := set_writer wc (WCache oc') (with_obj (cache_Evict c') s0)).
  destruct (eth_commit n s1 oe ∅ Hwf Hoe) as (oe' & e' & Ee & Hoe' & Her).
  set (s2 := set_writer we (WEth oe') (with_obj e' s1)).
  destruct (LiveStorage_Commit_eq (OL := node_backend) n od s2 Hpd) as (errs & d' & Ed & Hw & Hd').
  rewrite Hes in Hw, Hd'. rewrite Hmc in Hc'. set (od' := LiveStorage.MkLiveStorageWriter _ _ _ _) in Ed.
  destruct (commit_phase n s0 wc we wd oc oe od oc' oe' od' (cache_Evict c') e' d') as [EA EB]; try done;
    [exact (gbind_eq _ _ _ _ _ Ec)|exact (gbind_eq _ _ _ _ _ Ed)|].
  exists (set_writer wd (WStorage od') (with_obj d' s2)), c', errs.
  split; [|split; [constructor|split; [|split; [exact Hcl|do 2 (split; [done|]); split; [exact Hw|split; [exact Hd'|exact Her]]]]]].
  - rewrite <- Ex in EA. unfold DebugCommit, SyncCommit, AsyncCommit. rewrite Hsy, Has.
    rewrite (gbind_eq _ _ _ _ _ EA). by rewrite (gbind_eq _ _ _ _ _ EB).
  - exists oc'. split; [do 2 (apply writer_kept; [|congruence]); apply writer_set|].
    split; [apply Merge_eq|exact Hoc].
  - exists oe'. split; [apply writer_kept; [|congruence]; apply writer_set|exact Hoe'].
  - exists od'. split; [apply writer_set|]. split; [by intros ? ?%elem_of_nil|]. split; [done|exact Hod].
  - apply (exec_step wx wc we wd s0); [done| |done]. by eapply set_three.
Qed.
End node.
