(* ===== verification/NodeBlock.v ===== *)
(** * A block through all the writers of a node

    A block is any number of generations.  After it the live cache, the
    database of encodings and the Ethereum store show the same merged
    transitions, each in its own form; the execution store shows them after
    each generation, and nothing of them after the block. *)
From S2P Require Import Prelude ExecStore ExecStoreOps ExecStoreTheory ExecStoreOpsTheory Interfaces Heap Paths DeltaSequence DeltaSequenceTheory Committer CommitterTheory LiveCache LiveStorage LiveTheory Pipeline Codec EthLib EthAccount EthWorldState EthWriter EthAccountTheory EthWorldTheory EthWriterTheory EthBlockTheory EthStoreTheory Node NodeTheory.
Import PathTypes.

Section node.
Context `{CT : CrdtTypes} `{TT : TrieTypes} `{RL : !RlpLib} `{FI : FixedInt} `{UI : Uint256}
  `{CV : !CrdtValues} `{SL : SliceLib} `{SLL : !SliceLaws SL} `{ML : MapLib} `{MLW : !MapLaws ML}
  `{ES : EthSliceLib} `{ESL : !EthSliceLaws ES} `{IL : IndexerLib} `{ILL : !IndexerLaws IL}
  `{CrL : CryptoLib} `{EC : EthCommonLib}
  `{AL : !AddressLaws} `{SA : StateAccountLib} `{SAL : !StateAccountLaws SA} `{TL : !TrieLib}
  {DB : Type} `{DL : !DBLib DB} `{DW : !DBWrites DL} `{MD : !DBLib memorydb}
  `{TS : !TrieSpec} `{TLW : !TrieLaws TS}.
Context {cell LC DS : Type} `{CL : CellLib Codec.crdt cell} `{CLW : !CellLaws CL}
  `{CaL : CacheLib Codec.crdt LC} `{CaLL : !CacheLaws CaL}
  `{RW : RWStoreLib bytes DS} `{RWL : !RWStoreLaws RW}.
Abbreviation Node := (NodeState cell LC DS DB).
Context `{KV : !KVsLib Node Codec.crdt} `{KVL : !KVsLaws KV}
  `{PoL : !PoolLib Node} `{PL : !PoolLaws PoL node_cells}.
Context (f : cell -> bool) (codec : string -> Codec.crdt -> string * bytes * option string).
Abbreviation Entry := (string * option Codec.crdt)%type.
Implicit Types (s : Node) (h : gmap loc cell) (e : EthState DB) (l : loc) (ad : bytes)
  (ts : list loc) (this : StateCommitter Codec.crdt) (wx : option loc) (wc we wd : loc).

Record generation := MkGeneration {
  g_cells : gmap loc cell; (* the transitions once they are imported *)
  g_txs : list Z;
  g_ts : list loc;
}.
Implicit Types (g : generation) (gs : list generation).
Definition imported_locs gs : list loc := List.concat (map g_ts gs).
(** A generation of transitions that are new to the block. *)
Definition new_transitions gs s ts : Prop :=
  importable (n_cells s) ts /\ NoDup ts /\ forall l, l ∈ ts -> l ∉ imported_locs gs.

(** A committer between two blocks: it keeps the list of writers it was given,
    and they hold nothing. *)
Definition idle this s : Prop := exists wx wc we wd,
  committer_of this wx wc we wd /\ byPath this = ∅ /\ byTxID this = ∅ /\
  writers_hold f codec s wc we wd [] [] [] ∅ /\ exec_holds s wx [] /\ eth_wf (n_eth s).

(** Generations of a block that starts at [s], and in between any other work on
    other cells and any executions. *)
Inductive generations s : list generation -> StateCommitter Codec.crdt -> Node -> Prop :=
| generations_start this : idle this s -> generations s [] this s
| generations_work gs this s1 h st : generations s gs this s1 ->
    (forall l, l ∈ imported_locs gs -> h !! l = n_cells s1 !! l) ->
    generations s gs this (with_obj (st : ExecutionStateStore Codec.crdt) (with_heap h s1))
| generations_step gs this s1 txs ts this2 s2 this3 s3 : generations s gs this s1 ->
    new_transitions gs s1 ts -> Committer.Import ts this s1 = Ret (this2, s2) ->
    block_ready f (n_cells s2) txs ts (n_eth s2) ->
    DebugPrecommit txs this2 s2 = Ret (this3, s3) ->
    generations s (gs ++ [MkGeneration (n_cells s2) txs ts]) this3 s3.

(** What the generations of a block ask of a path, and of the accounts. *)
Definition path_entries (keep : cell -> bool) gs (p : string) : list Entry :=
  List.concat (map (fun g => block_entry keep (g_cells g) (g_txs g) (g_ts g) p) gs).
Definition cache_spec gs (get : string -> option Codec.crdt) (p : string) : option Codec.crdt :=
  apply_batch (path_entries f gs p) get p.
Definition storage_spec gs (get : string -> option bytes) (p : string) : option bytes :=
  apply_batch (map (encoded_entry codec) (path_entries f gs p)) get p.
Definition accounts_spec gs (shown : bytes -> option AccountView) : bytes -> option AccountView :=
  fold_left (fun v g => account_spec f (g_cells g) (g_txs g) (g_ts g) v) gs shown.
(** The execution store keeps everything; it is fed by the committer when its
    writer is one of the list. *)
Definition all (_ : cell) : bool := true.
Definition feeds_exec this s : bool :=
  existsb (fun w => match n_writers s !! w with Some (WExec _) => true | _ => false end) (writers this).
(** The index of the store [st] after the generations: at every path a cell
    with the last merged value, and elsewhere what it had. *)
Definition exec_spec gs h (st st' : ExecutionStateStore Codec.crdt) : Prop :=
  fields st' = fields st /\ forall p,
  match last (path_entries all gs p) with
  | Some e => exists l c, localCells st' !! p = Some l /\ h !! l = Some c /\ GetPath c = Some p /\ entry_of c = e
  | None => localCells st' !! p = localCells st !! p
  end.

(** ** A writer's transitions over the block *)
Record batch_of (keep : cell -> bool) gs h (ls : list loc) : Prop := {
  ba_importable : importable h ls;
  ba_locs : forall l, l ∈ ls -> l ∈ imported_locs gs;
  ba_entries : forall p, of_key p (entries h ls) = path_entries keep gs p;
}.
Lemma of_key_app {V} p (es es' : list (string * option V)) : of_key p (es ++ es') = of_key p es ++ of_key p es'.
Proof. apply List.filter_app. Qed.
Lemma entries_app h ls ls' : entries h (ls ++ ls') = entries h ls ++ entries h ls'.
Proof. apply map_app. Qed.
Lemma of_key_encoded p (es : list Entry) :
  of_key p (map (encoded_entry codec) es) = map (encoded_entry codec) (of_key p es).
Proof.
  unfold of_key. by rewrite <- (filter_map_swap (encoded_entry codec)
    (fun e : string * option bytes => bool_decide (e.1 = p))).
Qed.
Lemma path_entries_snoc keep gs g p :
  path_entries keep (gs ++ [g]) p = path_entries keep gs p ++ block_entry keep (g_cells g) (g_txs g) (g_ts g) p.
Proof. unfold path_entries. rewrite map_app, concat_app. cbn. by rewrite app_nil_r. Qed.
Lemma imported_locs_snoc gs g l : l ∈ imported_locs (gs ++ [g]) <-> l ∈ imported_locs gs \/ l ∈ g_ts g.
Proof. unfold imported_locs. rewrite map_app, concat_app, elem_of_app. cbn. by rewrite app_nil_r. Qed.
Lemma accounts_spec_snoc gs g shown :
  accounts_spec (gs ++ [g]) shown = account_spec f (g_cells g) (g_txs g) (g_ts g) (accounts_spec gs shown).
Proof. unfold accounts_spec. by rewrite fold_left_app. Qed.
Lemma account_spec_ext h txs ts (v v' : bytes -> option AccountView) ad :
  v ad = v' ad -> account_spec f h txs ts v ad = account_spec f h txs ts v' ad.
Proof. intros E. unfold account_spec. by rewrite E. Qed.

Lemma batch_new keep h : batch_of keep [] h [].
Proof. by constructor; [intros l ?%elem_of_nil| |]. Qed.
Lemma batch_ext keep gs h h' ls : (forall l, l ∈ imported_locs gs -> h' !! l = h !! l) ->
  batch_of keep gs h ls -> batch_of keep gs h' ls.
Proof.
  intros Hh [Hi Hl He]. assert (Hls : forall l, l ∈ ls -> h' !! l = h !! l) by auto.
  constructor; [by apply (importable_ext h)|done|]. intros p. by rewrite (entries_ext h).
Qed.
Lemma batch_step keep gs h2 h3 txs ts ls : batch_of keep gs h3 ls -> importable h2 ts -> NoDup ts ->
  deltas_apply h2 txs ts -> merged_typed h2 txs ts -> finalized_heap h2 txs ts h3 ->
  batch_of keep (gs ++ [MkGeneration h2 txs ts]) h3 (ls ++ with_path h3 (kept keep h2 ts)).
Proof.
  intros [Hi Hl He] Hi2 Hnd Hda Hmt Hh. constructor.
  - intros l [Hl'|Hl']%elem_of_app; [by apply Hi|].
    apply (typed_with_path h3 (kept keep h2 ts)); [|done].
    intros l' [Hl2 _]%elem_of_filter_b. by apply (finalized_typed h2 h3 txs ts).
  - intros l [Hl'|[[Hl' _]%elem_of_filter_b _]%elem_of_filter_b]%elem_of_app; apply imported_locs_snoc; auto.
  - intros p. rewrite entries_app, of_key_app, path_entries_snoc, He. f_equal.
    apply block_entries_of_key; try done. by apply importable_live.
Qed.
(** All transitions that have their paths. *)
Lemma kept_all h ls : kept all h ls = ls.
Proof. unfold kept, all. induction ls as [|l ls IH]; [done|]. cbn. by rewrite IH. Qed.
Lemma with_path_app h ls ls' : with_path h (ls ++ ls') = with_path h ls ++ with_path h ls'.
Proof. apply List.filter_app. Qed.
Lemma with_path_id h ls : importable h ls -> with_path h ls = ls.
Proof.
  intros Hi. unfold with_path. induction ls as [|l ls IH]; [done|]. cbn [List.filter].
  destruct (Hi l) as (c & p & Hc & Hp & _); [by left|]. rewrite (cell_at_eq _ _ _ Hc). unfold no_path.
  rewrite Hp. cbn. f_equal. apply IH. intros x Hx. apply Hi. by right.
Qed.
Lemma last_at_entries h ls p : importable h ls ->
  last (of_key p (entries h ls)) = (fun l => entry_of (cell_at h l)) <$> last_at h ls p.
Proof.
  intros Hi. induction ls as [|l ls IH] using rev_ind; [done|].
  rewrite entries_app, of_key_app. unfold last_at. rewrite rev_app_distr. cbn [rev app List.find].
  destruct (Hi l) as (c & q & Hc & Hq & _); [apply elem_of_app; right; by left|].
  assert (Ek : of_key p (entries h [l]) = if decide (q = p) then [entry_of (cell_at h l)] else []).
  { assert (E1 : (entry_of (cell_at h l)).1 = q) by (rewrite (cell_at_eq _ _ _ Hc); cbn; by rewrite Hq).
    unfold of_key, entries. cbn [map List.filter]. case_decide as Hd.
    - by rewrite bool_decide_eq_true_2 by congruence.
    - by rewrite bool_decide_eq_false_2 by congruence. }
  assert (Ep : path_at h l = Some q) by (unfold path_at; by rewrite (cell_at_eq _ _ _ Hc)). rewrite Ek, Ep.
  case_decide as Hd.
  - rewrite Hd, bool_decide_eq_true_2 by done. by rewrite last_snoc.
  - rewrite bool_decide_eq_false_2 by congruence. rewrite app_nil_r. apply IH.
    intros x Hx. apply Hi. apply elem_of_app. by left.
Qed.

(** ** The invariant of a block *)
Record gen_inv s gs this s1 wx wc we wd gc (es : list (string * option bytes)) gx : Prop := {
  gi_committer : committer_of this wx wc we wd;
  gi_empty : byPath this = ∅ /\ byTxID this = ∅;
  gi_writers : writers_hold f codec s1 wc we wd gc es [] ∅;
  gi_exec : exec_holds s1 wx gx;
  gi_wf : eth_wf (n_eth s1);
  gi_kept : batch_of f gs (n_cells s1) gc;
  gi_all : batch_of all gs (n_cells s1) gx;
  gi_encoded : forall p, of_key p es = map (encoded_entry codec) (path_entries f gs p);
  gi_stores : same_stores s s1;
  gi_views : forall ad, view_at (n_eth s1) ad = accounts_spec gs (view_at (n_eth s)) ad;
}.
Lemma feeds_exec_spec gs s this s1 wx wc we wd gc es gx : gen_inv s gs this s1 wx wc we wd gc es gx ->
  feeds_exec this s1 = bool_decide (is_Some wx).
Proof.
  intros [[Hws _ _ _ _] _ [(oc & Hc & _) (oe & He & _) (od & Hd & _)] Hx _ _ _ _ _ _].
  unfold feeds_exec. rewrite Hws. destruct wx as [x|].
  - destruct (Hx x eq_refl) as (o & Ho & _). cbn. by rewrite Ho.
  - cbn. by rewrite Hc, He, Hd.
Qed.

(** The import of the next generation keeps the cells of the others. *)
Lemma gen_loaded gs ts s1 s2 : (forall l, l ∈ ts -> l ∉ imported_locs gs) -> loaded ts (n_cells s1) (n_cells s2) ->
  forall l, l ∈ imported_locs gs -> n_cells s2 !! l = n_cells s1 !! l.
Proof. intros Hnew [_ Hout] l Hl. apply Hout. intros Hin. by apply (Hnew l Hin). Qed.

(** A generation keeps the invariant; the commit of the block uses it. *)
Lemma gen_precommit s gs this s1 wx wc we wd gc es gx txs ts this2 s2 :
  gen_inv s gs this s1 wx wc we wd gc es gx -> new_transitions gs s1 ts ->
  imported f codec ts this2 s2 wx wc we wd gc es gx -> loaded ts (n_cells s1) (n_cells s2) ->
  same_stores s1 s2 -> (forall ad, view_at (n_eth s2) ad = view_at (n_eth s1) ad) ->
  block_ready f (n_cells s2) txs ts (n_eth s2) ->
  exists s3 gc' es' gx', DebugPrecommit txs this2 s2 = Ret (cleared this2, s3) /\
    gen_inv s (gs ++ [MkGeneration (n_cells s2) txs ts]) (cleared this2) s3 wx wc we wd gc' es' gx' /\
    same_stores s1 s3 /\ exec_indexed wx gx' (n_cells s3) (n_exec s2) (n_exec s3).
Proof.
  intros [_ _ _ _ _ Hgc Hgx Henc Hst0 Hv0] (_ & Hnd & Hnew) Him Hlo Hst Hv Hbr.
  pose proof (gen_loaded gs ts s1 s2 Hnew Hlo) as Hkeep.
  assert (Hvx : valid (n_cells s2) gx).
  { intros l Hl. rewrite (Hkeep l) by (by apply (ba_locs _ _ _ _ Hgx)).
    destruct (ba_importable _ _ _ _ Hgx l Hl) as (c & _ & Hc & _). by eexists. }
  destruct (Node_precommit f codec txs ts this2 s2 wx wc we wd gc es gx Him Hbr Hvx)
    as (s3 & E & Hh & Hwh & Hex & Hin & Hst3 & Hwf3 & Hv3).
  destruct Him as [Hco Hx Hi Hwf _ _]. destruct Hbr as (Hda & Hmt & _).
  assert (Hh3 : forall l, l ∈ imported_locs gs -> n_cells s3 !! l = n_cells s1 !! l).
  { intros l Hl. rewrite (Hh l), decide_False by (intros Hin'; by apply (Hnew l Hin')). by apply Hkeep. }
  pose proof (batch_step f gs _ _ txs ts gc (batch_ext _ _ _ _ _ Hh3 Hgc) Hi Hnd Hda Hmt Hh) as Hgc3.
  pose proof (batch_ext _ _ _ _ _ Hh3 Hgx) as Hgx3.
  pose proof (batch_step all gs _ _ txs ts gx Hgx3 Hi Hnd Hda Hmt Hh) as Hgx4. rewrite kept_all in Hgx4.
  rewrite with_path_app, (with_path_id _ _ (ba_importable _ _ _ _ Hgx3)) in Hex.
  eexists s3, _, _, _. split; [exact E|]. split; [|split].
  - constructor; [by destruct Hco; constructor|done|exact Hwh|exact Hex|exact Hwf3|exact Hgc3|exact Hgx4| | |].
    + intros p. rewrite of_key_app, of_key_encoded, path_entries_snoc, map_app, Henc. do 2 f_equal.
      apply block_entries_of_key; try done. by apply importable_live.
    + destruct Hst0, Hst, Hst3. constructor; congruence.
    + intros ad. rewrite accounts_spec_snoc. cbn [g_cells g_txs g_ts]. rewrite Hv3.
      apply account_spec_ext. by rewrite Hv, Hv0.
  - destruct Hst, Hst3. constructor; congruence.
  - destruct wx as [x|]; [|exact Hin]. destruct Hin as [Hf Hl]. split; [exact Hf|]. intros p.
    rewrite (Hl p), <- last_at_with_path, with_path_app.
    by rewrite (with_path_id _ _ (ba_importable _ _ _ _ Hgx3)).
Qed.

Lemma generations_inv s gs this s1 : generations s gs this s1 ->
  exists wx wc we wd gc es gx, gen_inv s gs this s1 wx wc we wd gc es gx.
Proof.
  induction 1 as [this (wx & wc & we & wd & Hco & Hp & Ht & Hwh & Hx & Hwf)|gs this s1 h st _ IH Hh
    |gs this s1 txs ts this2 s2 this3 s3 _ IH Hnew EI Hbr EP].
  - exists wx, wc, we, wd, [], [], []. constructor; try done; apply batch_new.
  - destruct IH as (wx & wc & we & wd & gc & es & gx & [Hco He Hwh Hx Hwf Hgc Hgx Henc [H1 H2] Hv]).
    exists wx, wc, we, wd, gc, es, gx. constructor; try done.
    + by destruct Hwh; constructor.
    + by apply (batch_ext f gs (n_cells s1)).
    + by apply (batch_ext all gs (n_cells s1)).
  - destruct IH as (wx & wc & we & wd & gc & es & gx & Hinv).
    pose proof Hinv as [Hco [Hp Ht] Hwh Hx Hwf _ _ _ _ _].
    destruct (Node_import f codec ts this s1 wx wc we wd gc es gx Hco Hp Ht Hwh Hx (proj1 Hnew) (proj1 (proj2 Hnew)) Hwf)
      as (this2' & s2' & EI' & Him & Hlo & Hst & _ & Hv).
    rewrite EI in EI'. injection EI' as <- <-.
    destruct (gen_precommit s gs this s1 wx wc we wd gc es gx txs ts this2 s2 Hinv Hnew Him Hlo Hst Hv Hbr)
      as (s3' & gc' & es' & gx' & EP' & Hinv' & _).
    rewrite EP in EP'. injection EP' as -> <-. by eauto 10.
Qed.

(** The next generation of a block. *)
Lemma next_generation gs this s s1 ts : generations s gs this s1 -> new_transitions gs s1 ts ->
  exists this2 s2, Committer.Import ts this s1 = Ret (this2, s2) /\
    loaded ts (n_cells s1) (n_cells s2) /\
    (forall ad, view_at (n_eth s2) ad = view_at (n_eth s1) ad) /\
    forall txs, block_ready f (n_cells s2) txs ts (n_eth s2) ->
      exists this3 s3, DebugPrecommit txs this2 s2 = Ret (this3, s3) /\
        generations s (gs ++ [MkGeneration (n_cells s2) txs ts]) this3 s3 /\ same_stores s1 s3 /\
        if feeds_exec this s1
        then exec_spec (gs ++ [MkGeneration (n_cells s2) txs ts]) (n_cells s3) (n_exec s1) (n_exec s3)
        else n_exec s3 = n_exec s1.
Proof.
  intros Hg Hnew. destruct (generations_inv s gs this s1 Hg) as (wx & wc & we & wd & gc & es & gx & Hinv).
  pose proof Hinv as [Hco [Hp Ht] Hwh Hx Hwf _ _ _ _ _].
  destruct (Node_import f codec ts this s1 wx wc we wd gc es gx Hco Hp Ht Hwh Hx (proj1 Hnew) (proj1 (proj2 Hnew)) Hwf)
    as (this2 & s2 & EI & Him & Hlo & Hst & Hex & Hv).
  exists this2, s2. split; [done|]. split; [done|]. split; [done|]. intros txs Hbr.
  destruct (gen_precommit s gs this s1 wx wc we wd gc es gx txs ts this2 s2 Hinv Hnew Him Hlo Hst Hv Hbr)
    as (s3 & gc' & es' & gx' & EP & Hinv' & Hst3 & Hin).
  exists (cleared this2), s3. split; [done|].
  split; [by apply (generations_step s gs this s1 txs ts this2 s2)|]. split; [exact Hst3|].
  rewrite (feeds_exec_spec _ _ _ _ _ _ _ _ _ _ _ Hinv). rewrite Hex in Hin. destruct wx as [x|]; [|exact Hin].
  destruct Hin as [Hf Hl]. split; [exact Hf|]. intros p.
  pose proof (gi_all _ _ _ _ _ _ _ _ _ _ _ Hinv') as Hall.
  rewrite <- (ba_entries _ _ _ _ Hall p), (last_at_entries _ _ _ (ba_importable _ _ _ _ Hall)), (Hl p).
  destruct (last_at (n_cells s3) gx' p) as [l|] eqn:El; [|done]. cbn.
  apply List.find_some in El as [Hin' Hpa]. apply bool_decide_eq_true in Hpa.
  rewrite <- in_rev, <- list_elem_of_In in Hin'. destruct (ba_importable _ _ _ _ Hall l Hin') as (c & q & Hc & Hq & _).
  unfold path_at in Hpa. rewrite (cell_at_eq _ _ _ Hc) in *. by exists l, c.
Qed.

(** ** The theorems *)
(** The stores after a block: the cache up to evictions, the database when it
    accepted the values, the Ethereum store when no write of it has failed;
    what the execution store was fed is forgotten. *)
Record block_result gs this s s1 s' : Prop := {
  br_cache : exists c, n_cache s' = cache_Evict c /\
    forall p, cache_Get c p = cache_spec gs (cache_Get (n_cache s)) p;
  br_storage : exists (es : list (string * option bytes)) errs,
    written_batch es (n_backend s) errs (n_backend s') /\
    ((forall err, err ∈ errs -> err = None) -> forall p,
       rw_Get (n_backend s') p = storage_spec gs (rw_Get (n_backend s)) p);
  br_eth : eth_committed (accounts_spec gs (view_at (n_eth s))) (n_eth s');
  br_exec : if feeds_exec this s1 then localCells (n_exec s') = ∅ /\ fields (n_exec s') = fields (n_exec s1)
            else n_exec s' = n_exec s1;
}.
(** The reset of the pool, which comes before the other commits, leaves the
    transitions of the block as they are. *)
Definition reset_safe gs this s1 : Prop := feeds_exec this s1 = true -> pool_keeps (imported_locs gs) s1.

Lemma gen_commit n s gs this s1 wx wc we wd gc es gx : gen_inv s gs this s1 wx wc we wd gc es gx ->
  reset_safe gs this s1 ->
  exists s' c errs, DebugCommit n this s1 = Ret (this, s') /\
    writers_hold f codec s' wc we wd [] [] [] ∅ /\ exec_holds s' wx [] /\
    exec_cleared wx (n_exec s1) (n_exec s') /\ n_cache s' = cache_Evict c /\
    (forall p, cache_Get c p = apply_batch (entries (n_cells s1) gc) (cache_Get (n_cache s1)) p) /\
    written_batch es (n_backend s1) errs (n_backend s') /\
    ((forall err, err ∈ errs -> err = None) -> forall p,
       rw_Get (n_backend s') p = apply_batch es (rw_Get (n_backend s1)) p) /\
    eth_committed (view_at (n_eth s1)) (n_eth s').
Proof.
  intros Hinv Hsafe. pose proof Hinv as [Hco _ Hwh Hx Hwf [Hi Hl _] _ _ _ _].
  apply (Node_commit f codec n this s1 wx wc we wd gc es gx Hco Hwh Hx); [|done|done].
  intros Hs h Er l Hin. unfold reset_safe in Hsafe. rewrite (feeds_exec_spec _ _ _ _ _ _ _ _ _ _ _ Hinv) in Hsafe.
  rewrite bool_decide_eq_true_2 in Hsafe by done. exact (Hsafe eq_refl h Er l (Hl l Hin)).
Qed.

(** What the commit of a block leaves. *)
Lemma commit_result n gs this s s1 : generations s gs this s1 -> reset_safe gs this s1 ->
  exists s', DebugCommit n this s1 = Ret (this, s') /\ block_result gs this s s1 s' /\
    (dbErr (es_world (n_eth s')) = None -> idle this s').
Proof.
  intros (wx & wc & we & wd & gc & es & gx & Hinv)%generations_inv Hsafe.
  destruct (gen_commit n s gs this s1 wx wc we wd gc es gx Hinv Hsafe)
    as (s' & c & errs & E & Hwh' & Hx' & Hcl & Hc & Hget & Hw & Hrw & He).
  pose proof (feeds_exec_spec _ _ _ _ _ _ _ _ _ _ _ Hinv) as Hfe.
  destruct Hinv as [Hco [Hp Ht] _ _ _ [_ _ Hent] _ Henc [Hc0 Hd0] Hv].
  exists s'. split; [exact E|]. split; [constructor|].
  - exists c. split; [done|]. intros p. rewrite Hget, <- apply_batch_of_key, Hent. by rewrite Hc0.
  - exists es, errs. split; [by rewrite <- Hd0|]. intros Hn p.
    rewrite (Hrw Hn), <- apply_batch_of_key, Henc. by rewrite Hd0.
  - intros Hn. destruct (He Hn) as (Hwf' & Hv' & v & m & Hin & Hst & Hrec).
    split; [done|]. split; [intros ad; by rewrite Hv', Hv|]. exists v, m. split; [done|]. split; [done|].
    intros ad vw Hvw. apply Hrec. by rewrite Hv.
  - rewrite Hfe. by destruct wx.
  - intros Hn. exists wx, wc, we, wd. destruct (He Hn) as (Hwf' & _). done.
Qed.

(** C1: a block through the writers of the node.  After its generations, each
    imported, cleared of rejected transactions, merged path by path and taken
    through both precommit phases, the commit leaves in the three stores of the
    proxy what they ask for: in the live cache the merged values (up to
    evictions), in the database their encodings (if it accepted them), and in
    the Ethereum store every account with its merged transitions applied
    generation by generation, its record being stored under the root that was
    recorded (if no write failed).  The execution store, when its writer is one
    of the list, forgets the block.  The committer is then ready for the next
    block. *)
Theorem Node_block n gs this s s1 : generations s gs this s1 -> reset_safe gs this s1 ->
  exists s', DebugCommit n this s1 = Ret (this, s') /\ block_result gs this s s1 s' /\
    (dbErr (es_world (n_eth s')) = None -> idle this s').
Proof. apply commit_result. Qed.

(** C2: a node is never stuck.  In every state a block reaches the commit
    returns, and so does the import of any new transitions, which only loads
    their values and leaves the accounts alone; when the generation is
    well-typed both precommit phases return as well, in a state the block has
    reached. *)
Theorem Node_progress n gs this s s1 : generations s gs this s1 ->
  (reset_safe gs this s1 -> exists s', DebugCommit n this s1 = Ret (this, s')) /\
  forall ts, new_transitions gs s1 ts ->
    exists this2 s2, Committer.Import ts this s1 = Ret (this2, s2) /\
      loaded ts (n_cells s1) (n_cells s2) /\
      (forall ad, view_at (n_eth s2) ad = view_at (n_eth s1) ad) /\
      forall txs, block_ready f (n_cells s2) txs ts (n_eth s2) ->
        exists this3 s3, DebugPrecommit txs this2 s2 = Ret (this3, s3) /\
          generations s (gs ++ [MkGeneration (n_cells s2) txs ts]) this3 s3.
Proof.
  intros Hg. split.
  - intros Hsafe. destruct (generations_inv s gs this s1 Hg) as (wx & wc & we & wd & gc & es & gx & Hinv).
    destruct (gen_commit n s gs this s1 wx wc we wd gc es gx Hinv Hsafe) as (s' & _ & _ & E & _). by exists s'.
  - intros ts Hnew. destruct (next_generation gs this s s1 ts Hg Hnew) as (this2 & s2 & EI & Hlo & Hv & Hnext).
    exists this2, s2. split; [done|]. split; [done|]. split; [done|]. intros txs Hbr.
    destruct (Hnext txs Hbr) as (this3 & s3 & EP & Hg3 & _). eauto.
Qed.

(** C3: a generation becomes visible to the executions of the block, and to
    nobody else: after its precommit the execution store, when its writer is one
    of the list, has at every path that a generation of the block wrote a cell
    with the last merged value, and at the others what it had; the live cache
    and the database are as they were. *)
Theorem Node_visible gs this s s1 txs ts this2 s2 this3 s3 :
  generations s gs this s1 -> new_transitions gs s1 ts ->
  Committer.Import ts this s1 = Ret (this2, s2) -> block_ready f (n_cells s2) txs ts (n_eth s2) ->
  DebugPrecommit txs this2 s2 = Ret (this3, s3) ->
  same_stores s1 s3 /\
  if feeds_exec this s1
  then exec_spec (gs ++ [MkGeneration (n_cells s2) txs ts]) (n_cells s3) (n_exec s1) (n_exec s3)
  else n_exec s3 = n_exec s1.
Proof.
  intros Hg Hnew EI Hbr EP.
  destruct (next_generation gs this s s1 ts Hg Hnew) as (this2' & s2' & EI' & _ & _ & Hnext).
  rewrite EI in EI'. injection EI' as <- <-. destruct (Hnext txs Hbr) as (this3' & s3' & EP' & _ & H).
  rewrite EP in EP'. injection EP' as <- <-. exact H.
Qed.

(** ** The writers of a new node *)
(** The writers that the proxy makes. *)
Lemma GetWriters_idle store s : eth_wf (n_eth s) ->
  exists wc we wd s0, GetWriters f codec s = Ret ([wc; we; wd], s0) /\
    idle (MkStateCommitter store [wc; we; wd] [wc] [we; wd] ∅ ∅ store) s0 /\ n_cells s0 = n_cells s /\
    same_stores s s0 /\ n_eth s0 = n_eth s /\ n_exec s0 = n_exec s /\
    (forall x, is_Some (n_writers s !! x) -> x ∉ [wc; we; wd] /\ n_writers s0 !! x = n_writers s !! x).
Proof.
  intros Hwf.
  set (oc := LiveCache.NewLiveCacheWriter (crdt := Codec.crdt) (-1) f).
  set (oe := EthStorage.NewEthStorageWriter (-1) f).
  set (od := LiveStorage.NewLiveStorageWriter (-1) f codec).
  set (wc := fresh (dom (n_writers s))). set (s1 := set_writer wc (WCache oc) s).
  set (we := fresh (dom (n_writers s1))). set (s2 := set_writer we (WEth oe) s1).
  set (wd := fresh (dom (n_writers s2))).
  assert (Hwc : wc ∉ dom (n_writers s)) by apply is_fresh.
  assert (Hwe : we ∉ dom (n_writers s1)) by apply is_fresh.
  assert (Hwd : wd ∉ dom (n_writers s2)) by apply is_fresh.
  cbn in Hwe, Hwd. rewrite dom_insert_L in Hwe, Hwd. rewrite dom_insert_L in Hwd.
  assert (Hd : wc <> we /\ wc <> wd /\ we <> wd) by set_solver. destruct Hd as (H1 & H2 & H3).
  exists wc, we, wd, (set_writer wd (WStorage od) s2). split; [reflexivity|].
  split; [|do 4 (split; [done|])].
  - exists None, wc, we, wd. split; [|split; [done|split; [done|split; [constructor|by split]]]].
    + constructor; try done. rewrite !NoDup_cons, !not_elem_of_cons.
      repeat split; try done; try apply not_elem_of_nil. apply NoDup_nil_2.
    + exists oc. split; [do 2 (apply writer_kept; [|congruence]); apply writer_set|]. split; [apply Merge_eq|done].
    + exists oe. split; [apply writer_kept; [|congruence]; apply writer_set|]. split; [by intros ? ?%elem_of_nil|done].
    + exists od. split; [apply writer_set|]. split; [by intros ? ?%elem_of_nil|done].
  - intros x Hx%elem_of_dom. split; [rewrite !not_elem_of_cons; split_and!; [set_solver..|apply not_elem_of_nil]|].
    cbn. rewrite !lookup_insert_ne; [done|set_solver..].
Qed.
(** With that of the execution store in front. *)
Lemma Exec_GetWriters_idle store s st : eth_wf (n_eth s) -> committedStore (n_exec s) = Some st ->
  exists x wc we wd s0, Exec_GetWriters f codec s = Ret ([x; wc; we; wd], s0) /\
    idle (MkStateCommitter store [x; wc; we; wd] [x; wc] [we; wd] ∅ ∅ store) s0 /\ n_cells s0 = n_cells s /\
    same_stores s s0 /\ n_eth s0 = n_eth s /\ n_exec s0 = n_exec s /\
    feeds_exec (MkStateCommitter store [x; wc; we; wd] [x; wc] [we; wd] ∅ ∅ store) s0 = true.
Proof.
  intros Hwf Hst. set (o := NewExecutionCacheIndexer (cell := cell) (i64 (stateVersion (n_exec s))) None).
  set (x := fresh (dom (n_writers s))). set (s1 := set_writer x (WExec o) s).
  destruct (GetWriters_idle store s1 Hwf) as (wc & we & wd & s0 & E & Hi & Hc & Hs & He & Hx & Hk).
  assert (Hs1 : n_writers s1 !! x = Some (WExec o)) by apply writer_set.
  destruct (Hk x) as [Hn Ho]; [by eexists|]. rewrite Hs1 in Ho.
  exists x, wc, we, wd, s0. split.
  - unfold Exec_GetWriters, this. rewrite gbind_assoc. unfold gget, gbind at 1. rewrite (gbind_eq _ _ _ _ _ (gret_eq _ s)).
    change (obj_of s) with (n_exec s). rewrite Hst.
    assert (Ea : alloc (WExec o) s = Ret (x, s1)) by reflexivity.
    rewrite (gbind_eq _ _ _ _ _ Ea). by rewrite (gbind_eq _ _ _ _ _ E).
  - split; [|split; [done|split; [destruct Hs; by constructor|do 2 (split; [done|])]]].
    + destruct Hi as (wx & wc' & we' & wd' & [Hws _ _ Hd Hne] & _ & _ & Hwh & _ & Hwf0).
      destruct wx as [x'|]; [cbn in Hws; discriminate Hws|]. cbn in Hws. injection Hws as <- <- <-.
      exists (Some x), wc, we, wd. split; [|split; [done|split; [done|split; [done|split; [|done]]]]].
      * constructor; try done. by intros ? [= <-].
      * intros y [= <-]. exists o. split; [exact Ho|done].
    + unfold feeds_exec. cbn. by rewrite Ho.
Qed.
End node.
