(* ===== verification/NodeRead.v ===== *)
(** * What a block leaves to read

    The live cache is in front of its backend: a value that was evicted is read
    from its encoding.  As long as the two agree, nobody sees an eviction, and
    what the next block reads is what the generations of the last one left. *)
From S2P Require Import Prelude ExecStore ExecStoreOps ExecStoreTheory ExecStoreOpsTheory Interfaces Heap Paths DeltaSequence DeltaSequenceTheory Committer CommitterTheory LiveCache LiveStorage LiveTheory Pipeline Codec CodecTheory Proxy EthLib EthAccount EthWorldState EthWriter EthAccountTheory EthWorldTheory EthWriterTheory EthBlockTheory EthStoreTheory Node NodeTheory NodeBlock.
Import PathTypes.

(** A database that takes every write. *)
Class RWWrites {V C} (RW : RWStoreLib V C) : Prop := {
  rw_SetBatch_ok : forall ks vs c err, err ∈ (rw_SetBatch ks vs c).1 -> err = None;
}.

Section node.
Context `{CT : CrdtTypes} `{TT : TrieTypes} `{RL : !RlpLib} `{FI : FixedInt} `{UI : Uint256}
  `{CV : !CrdtValues} `{SL : SliceLib} `{SLL : !SliceLaws SL} `{ML : MapLib} `{MLW : !MapLaws ML}
  `{ES : EthSliceLib} `{ESL : !EthSliceLaws ES} `{IL : IndexerLib} `{ILL : !IndexerLaws IL}
  `{CrL : CryptoLib} `{EC : EthCommonLib}
  `{AL : !AddressLaws} `{SA : StateAccountLib} `{SAL : !StateAccountLaws SA} `{TL : !TrieLib}
  {DB : Type} `{DL : !DBLib DB} `{DW : !DBWrites DL} `{MD : !DBLib memorydb}
  `{TS : !TrieSpec} `{TLW : !TrieLaws TS}.
Context {cell LC DS : Type} `{CL : CellLib Codec.crdt cell} `{CLW : !CellLaws CL}
  `{CaL : CacheLib Codec.crdt LC} `{CaLL : !CacheLaws CaL}
  `{RW : RWStoreLib bytes DS} `{RWL : !RWStoreLaws RW} `{RWO : !RWWrites RW}.
Abbreviation Node := (NodeState cell LC DS DB).
Context `{KV : !KVsLib Node Codec.crdt} `{KVL : !KVsLaws KV}
  `{PoL : !PoolLib Node} `{PL : !PoolLaws PoL node_cells}.
Context (f : cell -> bool) (codec : string -> Codec.crdt -> string * bytes * option string)
  (decode : string -> bytes -> option Codec.crdt).
Abbreviation Entry := (string * option Codec.crdt)%type.
Implicit Types (s : Node) (h : gmap loc cell) (e : EthState DB) (l : loc) (ad : bytes)
  (ts : list loc) (this : StateCommitter Codec.crdt) (wx : option loc) (wc we wd : loc).

Implicit Types (gs : list (generation (cell := cell))) (c : LC) (d : DS) (p : string) (v : Codec.crdt) (es : list Entry).

(** ** Cache and backend *)
Definition backed_value d p : option Codec.crdt := rw_Get d p ≫= decode p.
(** What the cached store answers. *)
Definition shown c d p : option Codec.crdt :=
  match cache_Get c p with Some v => Some v | None => backed_value d p end.
Definition coherent c d : Prop := forall p v, cache_Get c p = Some v -> backed_value d p = Some v.
(** A value that is decoded as it was encoded. *)
Definition survives p v : Prop := LiveStorage.encode codec p (Some v) ≫= decode p = Some v.

Lemma shown_backed c d p : coherent c d -> shown c d p = backed_value d p.
Proof. intros Hc. unfold shown. destruct (cache_Get c p) as [v|] eqn:E; [|done]. by rewrite (Hc p v E). Qed.
Lemma apply_batch_ext {V} (es : list (string * option V)) g g' p : g p = g' p -> apply_batch es g p = apply_batch es g' p.
Proof. intros E. unfold apply_batch. by rewrite E. Qed.

Lemma sets_encoded es k : last_set (map (encoded_entry codec) es) k = last_set es k ≫= fun v => LiveStorage.encode codec k (Some v).
Proof.
  induction es as [|[k0 o] es IH] using rev_ind; [done|]. rewrite map_app. cbn [map].
  unfold encoded_entry at 2. cbn [fst snd]. rewrite last_set_snoc. destruct o as [v|].
  - rewrite last_set_snoc. cbn [LiveStorage.encode]. destruct (codec k0 v) as [[k1 b] err] eqn:E. rewrite IH.
    case_bool_decide as Hk; [|done]. subst k0. cbn. by rewrite E.
  - cbn [LiveStorage.encode]. by rewrite last_set_snoc.
Qed.
Lemma dels_encoded es : dels (map (encoded_entry codec) es) = dels es.
Proof.
  unfold dels. induction es as [|[k [v|]] es IH]; [done| |]; cbn; [|by rewrite IH].
  destruct (codec k v) as [[? ?] ?]. exact IH.
Qed.
(** Decoding what a batch of encodings leaves. *)
Lemma decoded_batch es d p : (forall v, (p, Some v) ∈ es -> survives p v) ->
  apply_batch (map (encoded_entry codec) es) (rw_Get d) p ≫= decode p = apply_batch es (backed_value d) p.
Proof.
  intros Hs. unfold apply_batch. rewrite sets_encoded, dels_encoded.
  destruct (last_set es p) as [v|] eqn:E.
  - pose proof (Hs v (last_set_elem _ _ _ E)) as Hv. unfold survives in Hv.
    change (Some v ≫= fun v => LiveStorage.encode codec p (Some v)) with (LiveStorage.encode codec p (Some v)).
    by destruct (LiveStorage.encode codec p (Some v)).
  - cbn. by case_decide.
Qed.

(** A store that reads through the cached store as it is in [s]. *)
Definition reads_through (ro : ROStore Codec.crdt) s : Prop :=
  forall p T, ro_GetAs ro p T = (IsCRDT <$> shown (n_cache s) (n_backend s) p, None).

(** The cached store after a block. *)
Lemma block_shown n gs this s s1 this' s' :
  generations f codec s gs this s1 -> reset_safe gs this s1 -> coherent (n_cache s) (n_backend s) ->
  (forall p v, (p, Some v) ∈ path_entries f gs p -> survives p v) ->
  DebugCommit n this s1 = Ret (this', s') ->
  coherent (n_cache s') (n_backend s') /\
  (forall p, shown (n_cache s') (n_backend s') p = cache_spec f gs (shown (n_cache s) (n_backend s)) p) /\
  block_result f codec gs this s s1 s'.
Proof.
  intros Hg Hsafe Hco Hsv Ecm.
  destruct (commit_result f codec n gs this s s1 Hg Hsafe) as (s2 & E & Hres & _). pose proof Hres as [Hcache Hstg _ _].
  rewrite Ecm in E. injection E as -> ->. destruct Hcache as (c & Ec & Hc). destruct Hstg as (es & errs & Hw & Hd).
  assert (Hok : forall err, err ∈ errs -> err = None).
  { intros err Herr. apply (rw_SetBatch_ok (map fst (sets es)) (map snd (sets es)) (rw_DeleteBatch (dels es) (n_backend s))).
    unfold written_batch in Hw. by rewrite Hw. }
  specialize (Hd Hok).
  assert (Hback : forall p, backed_value (n_backend s2) p = cache_spec f gs (shown (n_cache s) (n_backend s)) p).
  { intros p. unfold backed_value at 1. rewrite (Hd p). unfold storage_spec, cache_spec.
    rewrite decoded_batch by apply Hsv. apply apply_batch_ext. by rewrite shown_backed. }
  assert (Hco' : coherent (n_cache s2) (n_backend s2)).
  { intros p v Hv. rewrite Hback. rewrite Ec in Hv. apply cache_Get_Evict in Hv. rewrite Hc in Hv.
    unfold cache_spec, apply_batch in *. destruct (last_set _ p); [done|]. case_decide; [done|].
    unfold shown. by rewrite Hv. }
  assert (Hsh : forall p, shown (n_cache s2) (n_backend s2) p = cache_spec f gs (shown (n_cache s) (n_backend s)) p)
    by (intros p; rewrite shown_backed by done; apply Hback).
  by split_and!.
Qed.

(** C4: what a block leaves to read.  If the live cache agreed with its backend
    before the block, and the values that the block writes survive their
    encoding, then they agree after it, and the cached store answers every path
    with what the generations left there, or with what it answered before,
    whatever the cache has evicted; and so does, in the next block, the
    execution store, whose pointers to the cells of the block are gone, when it
    reads through the cached store. *)
Theorem Node_reads n gs this s s1 this' s' :
  generations f codec s gs this s1 -> reset_safe gs this s1 -> coherent (n_cache s) (n_backend s) ->
  (forall p v, (p, Some v) ∈ path_entries f gs p -> survives p v) ->
  DebugCommit n this s1 = Ret (this', s') ->
  coherent (n_cache s') (n_backend s') /\
  (forall p, shown (n_cache s') (n_backend s') p = cache_spec f gs (shown (n_cache s) (n_backend s)) p) /\
  (feeds_exec this s1 = true -> pendingWildcardDeletes (n_exec s1) = [] ->
   forall ro s'', reads_through ro s' -> SetCommittedStore (SO := node_exec) (Some ro) s' = Ret (tt, s'') ->
   forall p T, ExecStoreTheory.view (HL := node_cells) (OL := node_exec) s'' p T =
     IsCRDT <$> cache_spec f gs (shown (n_cache s) (n_backend s)) p).
Proof.
  intros Hg Hsafe Hco Hsv Ecm. destruct (block_shown n gs this s s1 this' s' Hg Hsafe Hco Hsv Ecm) as (Hco' & Hsh & [_ _ _ Hexec]).
  split; [exact Hco'|]. split; [exact Hsh|]. intros Hf Hpend ro s'' Hro Eset p T. rewrite Hf in Hexec.
  destruct Hexec as [Hl Hfl]. injection Eset as <-. unfold ExecStoreTheory.view, wildcarded, fetch. cbn.
  injection Hfl as _ Hp _ _ _. rewrite Hl, lookup_empty, Hp, Hpend. cbn. rewrite Hro. cbn. by rewrite Hsh.
Qed.
End node.

(** ** The codec of the proxy *)
Section codec.
Context `{TI : TypeIDs} `{CT : CrdtTypes} `{CC : !CrdtCodec} `{KL : !KindLaws}.

(** [newLiveCacheCodec], as the writer of the backend and the cached store use
    it; neither function panics on what the other gives. *)
Definition proxy_codec (key : string) (v : Codec.crdt) : string * bytes * option string :=
  match cache_encode key (Some v) with
  | Ret (k, inl b) => (k, b, None)
  | Ret (k, inr err) => (k, [], Some err)
  | Panic => (key, [], None)
  end.
Definition proxy_decode (key : string) (b : bytes) : option Codec.crdt :=
  match cache_decode key b with Ret (_, v, None) => v | _ => None end.

Lemma proxy_survives key v : native_decodes (kind v) = true -> CRDT_Decode (kind v) (CRDT_Encode v) = v ->
  survives proxy_codec proxy_decode key v.
Proof.
  intros Hn Hv. unfold survives, proxy_codec, proxy_decode, cache_encode, cache_decode. cbn [fmap option_fmap option_map].
  unfold Codec_Encode. cbn. by rewrite Codec_Decode_kind, Hn, Hv.
Qed.
End codec.
