(* ===== verification/NodeAgree.v ===== *)
(** * The Ethereum store and the live stores over a block

    Both get the same transitions.  The Ethereum store applies them generation
    by generation; the live stores apply the deletions of the block before its
    values.  A slot shows the same in both after a block, unless one generation
    sets it and a later one deletes it. *)
From S2P Require Import Prelude GoString ExecStore ExecStoreOps ExecStoreTheory ExecStoreOpsTheory Interfaces Heap Paths DeltaSequence DeltaSequenceTheory Committer CommitterTheory LiveCache LiveStorage LiveTheory Pipeline Codec CodecTheory Proxy EthLib EthAccount EthWorldState EthWriter EthAccountTheory EthWorldTheory EthWriterTheory EthBlockTheory EthStoreTheory Node NodeTheory NodeBlock NodeRead.
Import Constants PathTypes.

Section node.
Context `{CT : CrdtTypes} `{TT : TrieTypes} `{RL : !RlpLib} `{FI : FixedInt} `{UI : Uint256}
  `{CV : !CrdtValues} `{SL : SliceLib} `{SLL : !SliceLaws SL} `{ML : MapLib} `{MLW : !MapLaws ML}
  `{ES : EthSliceLib} `{ESL : !EthSliceLaws ES} `{IL : IndexerLib} `{ILL : !IndexerLaws IL}
  `{CrL : CryptoLib} `{EC : EthCommonLib}
  `{AL : !AddressLaws} `{SA : StateAccountLib} `{SAL : !StateAccountLaws SA} `{TL : !TrieLib}
  {DB : Type} `{DL : !DBLib DB} `{DW : !DBWrites DL} `{MD : !DBLib memorydb}
  `{TS : !TrieSpec} `{TLW : !TrieLaws TS}.
Context {cell LC DS : Type} `{CL : CellLib Codec.crdt cell} `{CLW : !CellLaws CL}
  `{CaL : CacheLib Codec.crdt LC} `{CaLL : !CacheLaws CaL}
  `{RW : RWStoreLib bytes DS} `{RWL : !RWStoreLaws RW} `{RWO : !RWWrites RW}.
Abbreviation Node := (NodeState cell LC DS DB).
Context `{KV : !KVsLib Node Codec.crdt} `{KVL : !KVsLaws KV}
  `{PoL : !PoolLib Node} `{PL : !PoolLaws PoL node_cells}.
Context (f : cell -> bool) (codec : string -> Codec.crdt -> string * bytes * option string)
  (decode : string -> bytes -> option Codec.crdt).
Abbreviation Entry := (string * option Codec.crdt)%type.
Implicit Types (s : Node) (h : gmap loc cell) (e : EthState DB) (l : loc) (ad : bytes)
  (ts : list loc) (this : StateCommitter Codec.crdt) (wx : option loc) (wc we wd : loc).

Implicit Types (gs : list (generation (cell := cell))) (c : LC) (d : DS) (p : string) (v : Codec.crdt) (es : list Entry).

(** ** The entries of an account and those of a path *)
Definition path_addr p : bytes := BytesToAddress (hexutil_Decode (GetAccountAddr p)).1.

Lemma finalized_exists h txs ts : DeltaSequenceTheory.live h ts -> exists h', finalized_heap h txs ts h'.
Proof.
  intros Hl. exists (map_imap (fun l x => if decide (l ∈ ts) then finalized_cell h txs ts l else Some x) h).
  intros l. rewrite map_lookup_imap. case_decide as Hin.
  - destruct (Hl l Hin) as (c & p & Hc & _). by rewrite Hc.
  - by destruct (h !! l).
Qed.
Lemma kv_entries h ls : typed h ls ->
  omap (fun l => h !! l ≫= cell_kv) ls = entries h (with_path h ls).
Proof.
  intros Ht. induction ls as [|l ls IH]; [done|]. destruct (Ht l) as (c & Hc & Hr); [by left|].
  cbn [omap list_omap]. rewrite IH by (intros x Hx; apply Ht; by right).
  unfold with_path. cbn [List.filter]. rewrite (cell_at_eq _ _ _ Hc), Hc. cbn [mbind option_bind].
  unfold cell_kv, no_path. unfold is_raw in Hr. destruct (GetPath c) as [p|] eqn:Ep; [|done].
  cbn [negb entries map]. unfold entry_of. rewrite (cell_at_eq _ _ _ Hc), Ep. by destruct (Value c) as [[]|].
Qed.
Lemma finalized_keeps_path h h' txs ts l p : DeltaSequenceTheory.live h ts -> NoDup ts -> deltas_apply h txs ts ->
  finalized_heap h txs ts h' -> l ∈ ts -> path_at h' l = Some p -> path_at h l = Some p.
Proof.
  intros Hl Hnd Hda Hh Hin Hp. pose proof (finalized_path h txs ts l Hl Hnd Hda Hin) as Hf.
  specialize (Hh l). rewrite decide_True in Hh by done. rewrite <- Hh in Hf.
  destruct (h' !! l) as [c|] eqn:Ec; [|done]. unfold path_at in Hp. rewrite (cell_at_eq _ _ _ Ec) in Hp.
  cbn in Hf. rewrite Hp in Hf. destruct (is_winner h txs ts l); [|done]. by injection Hf as ->.
Qed.
(** What is left of a generation at a path is left for its account. *)
Lemma account_entries_of_key h txs ts p :
  importable h ts -> NoDup ts -> deltas_apply h txs ts -> merged_typed h txs ts ->
  of_key p (account_entries f h txs ts (path_addr p)) = block_entry f h txs ts p.
Proof.
  intros Hi Hnd Hda Hmt. pose proof (importable_live _ _ Hi) as Hl.
  destruct (finalized_exists h txs ts Hl) as [h' Hh].
  assert (Ht : typed h' ts) by by apply (finalized_typed h h' txs ts).
  assert (Hin : forall l, l ∈ account_group f h ts (path_addr p) -> l ∈ ts)
    by (intros l [[? _]%elem_of_filter_b _]%elem_of_filter_b; done).
  assert (Ea : account_entries f h txs ts (path_addr p) = entries h' (with_path h' (account_group f h ts (path_addr p)))).
  { rewrite <- kv_entries by (intros l Hl'; apply Ht, Hin, Hl'). unfold account_entries.
    revert Hin. generalize (account_group f h ts (path_addr p)). intros ls Hin.
    induction ls as [|l ls IH]; [done|]. cbn [omap list_omap]. rewrite IH by (intros x Hx; apply Hin; by right).
    by rewrite (Hh l), decide_True by (apply Hin; by left). }
  rewrite Ea, of_key_entries, <- (block_entries_of_key f h h' txs ts p Hl Hnd Hda Hh), of_key_entries.
  f_equal. unfold group, account_group. rewrite filter_filter_b. apply filter_ext_in_b. intros l [Hlt _]%elem_of_filter_b.
  destruct (bool_decide (path_at h' l = Some p)) eqn:Hp; [|by rewrite ?andb_false_r]. apply bool_decide_eq_true in Hp.
  pose proof (finalized_keeps_path h h' txs ts l p Hl Hnd Hda Hh Hlt Hp) as Hpa.
  unfold addr_of, path_addr. unfold path_at in Hpa. rewrite Hpa. by rewrite bool_decide_eq_true_2.
Qed.

(** ** Slots *)
(** A path whose transitions go to the storage trie of its account. *)
Definition is_slot p : bool :=
  negb (isAccountRoot p) && negb (HasSuffix p PATH_NONCE) && negb (HasSuffix p PATH_BALANCE) &&
  negb (HasSuffix p PATH_CODE).
(** No other path among the entries has the slot of [p]. *)
Definition unshared p es : Prop := forall x, x ∈ es -> slot_key x.1 = slot_key p -> x.1 = p.
(** What a slot holds: the encoding of a value, nothing for a deletion or for a
    value without an encoding. *)
Definition slot_holds (o : option Codec.crdt) : option bytes := written (slot_value o).
(** The last entry of a path decides. *)
Definition last_entry {A} es (g : option Codec.crdt -> A) (old : A) : A :=
  match last es with Some x => g x.2 | None => old end.

Lemma elem_of_key {V} p (es : list (string * option V)) x : x ∈ of_key p es <-> x ∈ es /\ x.1 = p.
Proof. unfold of_key. by rewrite elem_of_filter_b, bool_decide_eq_true. Qed.
Lemma take_first_of_key (q : Entry -> bool) es p : (forall x, q x = true -> x.1 <> p) ->
  of_key p (take_first q es).2 = of_key p es /\ forall x, x ∈ (take_first q es).2 -> x ∈ es.
Proof.
  intros Hq. destruct (take_first_spec q es) as [[-> _]|(l1 & x & l2 & -> & -> & Hx & _)]; [done|].
  cbn [snd]. split.
  - rewrite !of_key_app. f_equal. unfold of_key. cbn [List.filter].
    by rewrite bool_decide_eq_false_2 by (by apply Hq).
  - intros y. rewrite !elem_of_app, elem_of_cons. tauto.
Qed.
Lemma plan_slots es en eb ec rest p : plan es = (en, eb, ec, rest) -> is_slot p = true ->
  of_key p rest = of_key p es /\ forall x, x ∈ rest -> x ∈ es.
Proof.
  intros Hp Hs. unfold is_slot in Hs. rewrite !andb_true_iff, !negb_true_iff in Hs. destruct Hs as (((H1 & H2) & H3) & H4).
  assert (Hf : forall suffix, HasSuffix p suffix = false -> forall x : Entry, is_field suffix x = true -> x.1 <> p)
    by (unfold is_field; intros suffix Hn x He <-; congruence).
  unfold plan in Hp.
  destruct (take_first_of_key (fun kv => isAccountRoot kv.1) es p) as [K1 I1]; [by intros x He <-; congruence|].
  set (r1 := (take_first (fun kv => isAccountRoot kv.1) es).2) in *.
  destruct (take_first_of_key (is_field PATH_NONCE) r1 p) as [K2 I2]; [by apply Hf|].
  destruct (take_first (is_field PATH_NONCE) r1) as [e2 r2]. cbn [snd] in *.
  destruct (take_first_of_key (is_field PATH_BALANCE) r2 p) as [K3 I3]; [by apply Hf|].
  destruct (take_first (is_field PATH_BALANCE) r2) as [e3 r3]. cbn [snd] in *.
  destruct (take_first_of_key (is_field PATH_CODE) r3 p) as [K4 I4]; [by apply Hf|].
  destruct (take_first (is_field PATH_CODE) r3) as [e4 r4]. cbn [snd] in *. injection Hp as <- <- <- <-.
  split; [congruence|]. intros x He. by apply I1, I2, I3, I4.
Qed.
Lemma apply_slots es (v v' : AccountView) p : apply_entries es v = Some v' -> entries_ok es -> is_slot p = true -> unshared p es ->
  v_slots v' !! slot_key p = last_entry (of_key p es) slot_holds (v_slots v !! slot_key p).
Proof.
  unfold apply_entries, entries_ok. destruct (plan es) as [[[en eb] ec] rest] eqn:Hp. intros Ha [_ Hnd] Hs Hu.
  destruct (plan_slots es en eb ec rest p Hp Hs) as [Hk Hin].
  assert (Hv : v_slots v' = fold_left trie_put (map slot rest) (v_slots v)).
  { destruct (field _ en _); [|done]. destruct (field _ eb _); [|done]. cbn in Ha.
    destruct (match ec with None => _ | Some _ => _ end) as [ch|]; [|done]. by injection Ha as <-. }
  assert (Hfst : map fst (map slot rest) = map (fun kv => slot_key kv.1) rest) by by rewrite map_map.
  rewrite Hv, <- Hk. unfold last_entry. destruct (last (of_key p rest)) as [x|] eqn:El.
  - apply last_Some_elem_of, elem_of_key in El as [Hr <-].
    apply (trie_puts_lookup _ _ _ (slot_value x.2)); [by rewrite Hfst|].
    change (slot_key x.1, slot_value x.2) with (slot x). by apply list_elem_of_fmap; eexists.
  - apply last_None in El. apply trie_puts_other. rewrite Hfst. intros (x & Ek & He)%list_elem_of_fmap.
    assert (He' : x ∈ of_key p rest) by (apply elem_of_key; split; [done|]; apply Hu; [by apply Hin|done]).
    rewrite El in He'. by apply elem_of_nil in He'.
Qed.

(** ** The slot of a path over the block *)
Definition slot_at (w : option AccountView) p : option bytes := w ≫= fun x => v_slots x !! slot_key p.

Lemma last_entry_app {A} es es' (g : option Codec.crdt -> A) old :
  last_entry (es ++ es') g old = last_entry es' g (last_entry es g old).
Proof. unfold last_entry. rewrite last_app. by destruct (last es'). Qed.
Lemma path_entries_key keep gs p x : x ∈ path_entries keep gs p -> x.1 = p.
Proof.
  unfold path_entries. intros Hx. apply list_elem_of_In, in_concat in Hx as (es & Hes & Hx%list_elem_of_In).
  apply in_map_iff in Hes as (g & <- & _). unfold block_entry in Hx.
  destruct (winner _ _ _ p); [|by apply elem_of_nil in Hx]. destruct (merged_cell _ _ _ p); [|by apply elem_of_nil in Hx].
  destruct (keep _); [|by apply elem_of_nil in Hx]. by apply list_elem_of_singleton in Hx as ->.
Qed.
Definition account_of (g : generation) p : list Entry :=
  account_entries f (g_cells g) (g_txs g) (g_ts g) (path_addr p).

Lemma account_slot h txs ts (st : EthState DB) (w : bytes -> option AccountView) p :
  importable h ts -> NoDup ts -> block_ready f h txs ts st -> w (path_addr p) = view_at st (path_addr p) ->
  is_slot p = true -> unshared p (account_entries f h txs ts (path_addr p)) ->
  slot_at (account_spec f h txs ts w (path_addr p)) p =
    last_entry (block_entry f h txs ts p) slot_holds (slot_at (w (path_addr p)) p).
Proof.
  intros Hi Hnd (Hda & Hmt & Hes) Hw Hs Hu. rewrite <- account_entries_of_key by done.
  destruct (Hes (path_addr p)) as (Hok & x & Ex & _). unfold old_view in Ex. rewrite <- Hw in Ex.
  unfold account_spec. destruct (account_group f h ts (path_addr p)) as [|l ls] eqn:Eg.
  - unfold account_entries. by rewrite Eg.
  - rewrite Ex. cbn. rewrite (apply_slots _ _ _ p Ex Hok Hs Hu). f_equal.
    destruct (w (path_addr p)); [done|]. apply lookup_empty.
Qed.
Lemma generations_slot gs this s s1 p : generations f codec s gs this s1 -> is_slot p = true ->
  Forall (fun g => unshared p (account_of g p)) gs ->
  slot_at (accounts_spec f gs (view_at (n_eth s)) (path_addr p)) p =
    last_entry (path_entries f gs p) slot_holds (slot_at (view_at (n_eth s) (path_addr p)) p).
Proof.
  intros Hg Hs. induction Hg as [this Hi|gs this s1 h st Hg IH Hh|gs this s1 txs ts this2 s2 this3 s3 Hg IH Hnew EI Hbr EP];
    intros Hu; [done|by apply IH|].
  apply Forall_app in Hu as [Hu1 Hu2]. apply Forall_inv in Hu2. specialize (IH Hu1).
  destruct (next_generation f codec gs this s s1 ts Hg Hnew) as (t2 & s2' & EI' & Hlo & Hv & _).
  rewrite EI in EI'. injection EI' as <- <-.
  destruct (generations_inv f codec s gs this s1 Hg) as (wx & wc & we & wd & gc & es & gx & Hinv).
  pose proof (gi_views _ _ _ _ _ _ _ _ _ _ _ _ _ Hinv) as Hv1.
  rewrite accounts_spec_snoc, path_entries_snoc, last_entry_app, <- IH. cbn [g_cells g_txs g_ts].
  apply (account_slot _ _ _ (n_eth s2)).
  - exact (importable_meta _ _ _ (proj1 Hlo) (proj1 Hnew)).
  - apply Hnew.
  - exact Hbr.
  - by rewrite Hv, Hv1.
  - exact Hs.
  - exact Hu2.
Qed.

(** ** The two stores *)
(** The Ethereum store and the cached store show the same at a path. *)
Definition agree s p : Prop :=
  slot_at (view_at (n_eth s) (path_addr p)) p = slot_holds (shown decode (n_cache s) (n_backend s) p).
(** The last generation to write the path deletes it, an earlier one sets it. *)
Definition undone gs p : Prop :=
  (exists x, last (path_entries f gs p) = Some x /\ x.2 = None) /\ exists v, (p, Some v) ∈ path_entries f gs p.

Lemma last_set_key es p v : last es = Some (p, Some v) -> last_set es p = Some v.
Proof.
  destruct es as [|[k o] es _] using rev_ind; [done|]. rewrite last_snoc. intros [= -> ->].
  by rewrite last_set_snoc, bool_decide_eq_true_2.
Qed.
Lemma spec_last gs (get : string -> option Codec.crdt) p : ~ undone gs p ->
  cache_spec f gs get p = last_entry (path_entries f gs p) (fun o => o) (get p).
Proof.
  intros Hn. unfold cache_spec, last_entry. destruct (last (path_entries f gs p)) as [[k o]|] eqn:El.
  - pose proof (last_Some_elem_of _ _ El) as Hin. pose proof (path_entries_key _ _ _ _ Hin) as Hk. cbn in Hk. subst k.
    unfold apply_batch. destruct o as [v|]; [by rewrite (last_set_key _ _ _ El)|]. cbn.
    destruct (last_set _ p) as [v|] eqn:Es.
    + exfalso. apply Hn. split; [by eexists|]. exists v. by apply last_set_elem.
    + rewrite decide_True; [done|]. apply list_elem_of_omap. by exists (p, None).
  - apply last_None in El. by rewrite El.
Qed.

(** C5: the Ethereum store and the live stores over a block without a failed
    write.  At the path of a slot that shares its slot with no other path they
    show the same after the block if they did before, unless one generation
    sets the path and the last one to write it deletes it: then the slot is
    empty, and the cached store still shows a value the block has set. *)
Theorem Node_agree n gs this s s1 this' s' p :
  generations f codec s gs this s1 -> reset_safe gs this s1 -> coherent decode (n_cache s) (n_backend s) ->
  (forall p v, (p, Some v) ∈ path_entries f gs p -> survives codec decode p v) ->
  DebugCommit n this s1 = Ret (this', s') -> dbErr (es_world (n_eth s')) = None ->
  is_slot p = true -> Forall (fun g => unshared p (account_of g p)) gs ->
  (~ undone gs p -> agree s p -> agree s' p) /\
  (undone gs p -> slot_at (view_at (n_eth s') (path_addr p)) p = None /\
     exists v, (p, Some v) ∈ path_entries f gs p /\ shown decode (n_cache s') (n_backend s') p = Some v).
Proof.
  intros Hg Hsafe Hco Hsv Ecm Hn Hs Hu.
  destruct (block_shown f codec decode n gs this s s1 this' s' Hg Hsafe Hco Hsv Ecm) as (_ & Hsh & [_ _ Heth _]).
  destruct (Heth Hn) as (_ & Hv & _). pose proof (generations_slot gs this s s1 p Hg Hs Hu) as Hslot.
  rewrite <- Hv in Hslot. unfold agree. split.
  - intros Hnu Ha. rewrite Hslot, Hsh, spec_last, Ha by done. unfold last_entry. by destruct (last _).
  - intros ((x & El & Hx) & (v & Hin)). rewrite Hslot, Hsh. unfold last_entry. rewrite El, Hx. split; [done|].
    unfold cache_spec, apply_batch. destruct (last_set_some _ _ _ Hin) as [v' Ev]. exists v'. rewrite Ev.
    split; [by apply last_set_elem|done].
Qed.
End node.
