(* ===== verification/NodeExec.v ===== *)
(** * Executions in a node

    Executions run side by side, each on a store of its own.  What they leave in
    the indexes of their stores is exported and becomes one generation of the
    block: at each path the cells of the accepted ones are merged in the order
    of their transactions.  After the commit the executions of the next block
    read it. *)
From S2P Require Import Prelude GoString ExecStore ExecStoreOps ExecStoreTheory ExecStoreOpsTheory GoSort Interfaces Heap Paths DeltaSequence DeltaSequenceTheory Committer CommitterTheory LiveCache LiveStorage LiveTheory Pipeline Codec EthLib EthAccount EthWorldState EthWriter EthAccountTheory EthWorldTheory EthWriterTheory EthBlockTheory EthStoreTheory Node NodeTheory NodeBlock NodeRead.

Section node.
Context `{TI : TypeIDs} `{CT : CrdtTypes} `{TT : TrieTypes} `{RL : !RlpLib} `{FI : FixedInt} `{UI : Uint256}
  `{CV : !CrdtValues} `{SL : SliceLib} `{SLL : !SliceLaws SL} `{ML : MapLib} `{MLW : !MapLaws ML}
  `{ES : EthSliceLib} `{ESL : !EthSliceLaws ES} `{IL : IndexerLib} `{ILL : !IndexerLaws IL}
  `{CrL : CryptoLib} `{EC : EthCommonLib}
  `{AL : !AddressLaws} `{SA : StateAccountLib} `{SAL : !StateAccountLaws SA} `{TL : !TrieLib}
  {DB : Type} `{DL : !DBLib DB} `{DW : !DBWrites DL} `{MD : !DBLib memorydb}
  `{TS : !TrieSpec} `{TLW : !TrieLaws TS}.
Context {cell LC DS : Type} `{CL : CellLib Codec.crdt cell} `{CLW : !CellLaws CL}
  `{CaL : CacheLib Codec.crdt LC} `{CaLL : !CacheLaws CaL}
  `{RW : RWStoreLib bytes DS} `{RWL : !RWStoreLaws RW} `{RWO : !RWWrites RW}.
Abbreviation Node := (NodeState cell LC DS DB).
Context `{KV : !KVsLib Node Codec.crdt} `{KVL : !KVsLaws KV}
  `{PoL : !PoolLib Node} `{PL : !PoolLaws PoL node_cells}
  `{CB : !CellBatchLib Node} `{SoL : !SorterLaws (HL := node_cells) (CB := CB)}.
Context (f : cell -> bool) (codec : string -> Codec.crdt -> string * bytes * option string)
  (decode : string -> bytes -> option Codec.crdt).
Abbreviation Entry := (string * option Codec.crdt)%type.
Implicit Types (s : Node) (h : gmap loc cell) (l : loc) (ts : list loc) (p : string)
  (this : StateCommitter Codec.crdt) (gs : list (generation (cell := cell)))
  (st : ExecutionStateStore Codec.crdt) (execs : list (ExecutionStateStore Codec.crdt)).

(** ** What executions ask of a path *)
(** The cells of an execution are typed, and under their own paths. *)
Definition exec_typed st h : Prop := forall p l, localCells st !! p = Some l ->
  exists c, h !! l = Some c /\ GetPath c = Some p /\ is_raw c = false.
Definition exec_ready h st : Prop := exec_typed st h /\ pendingWildcardDeletes st = [].
(** The cell at [p], when it was accessed. *)
Definition accessed h p st : option loc :=
  l ← localCells st !! p; if PathLookupOnly (cell_at h l) then None else Some l.
(** No cell belongs to two executions. *)
Fixpoint separate h execs : Prop :=
  match execs with
  | [] => True
  | st :: rest => (forall p l, accessed h p st = Some l -> forall st' q, st' ∈ rest -> accessed h q st' <> Some l) /\
                  separate h rest
  end.
(** The accepted transitions of [p] in the imported cells [h], in the order of
    their transactions. *)
Definition accepted_at execs h0 h (txs : list Z) p : list loc :=
  order_of h (List.filter (fun l => negb (rejected h txs l)) (omap (accessed h0 p) execs)).
(** Their merge into the first, if the filter keeps it. *)
Definition executions_entry (keep : cell -> bool) execs h0 h (txs : list Z) p : list Entry :=
  match accepted_at execs h0 h txs p with
  | l :: rest =>
      if keep (cell_at h l) then
        match ApplyDelta (cell_at h l) (map (cell_at h) rest) with
        | Some c => [(p, (entry_of c).2)]
        | None => []
        end
      else []
  | [] => []
  end.
(** Exported transitions: one for each accessed path. *)
Definition exports h st ts : Prop := NoDup ts /\ forall l, l ∈ ts <-> exists p, accessed h p st = Some l.
Definition exports_all h execs ts : Prop :=
  NoDup ts /\ exists tss, ts = List.concat tss /\ Forall2 (exports h) execs tss.

Lemma exec_typed_by_path st s : exec_typed st (n_cells s) ->
  by_path (HL := node_cells) (OL := node_exec) (with_obj st s).
Proof. intros Ht p l Hp. destruct (Ht p l Hp) as (c & ? & ? & _). by exists c. Qed.
Lemma accessed_typed st h p l : exec_typed st h -> accessed h p st = Some l ->
  exists c, h !! l = Some c /\ GetPath c = Some p /\ is_raw c = false.
Proof. intros Ht (l' & Hp & E)%bind_Some. case_match; [done|]. injection E as <-. by apply Ht. Qed.
Lemma Export_exports procs st s : exec_ready (n_cells s) st -> export_order procs ->
  exists ts, Export procs (with_obj st s) = Ret (ts, with_obj st s) /\ exports (n_cells s) st ts.
Proof.
  intros [Ht Hp] Hprocs.
  destruct (Export_run (HL := node_cells) (OL := node_exec) procs (with_obj st s) (exec_typed_by_path st s Ht) Hp Hprocs)
    as (ts & E & Hnd & Hin).
  exists ts. split; [exact E|]. split; [exact Hnd|]. intros l. rewrite Hin. unfold accessed. split.
  - intros [[p Hl] Hn]. exists p. change (localCells st !! p = Some l) in Hl. rewrite Hl. cbn.
    change (PathLookupOnly (cell_at (n_cells s) l) = false) in Hn. by rewrite Hn.
  - intros [p (l' & Hl & E')%bind_Some]. destruct (PathLookupOnly (cell_at (n_cells s) l')) eqn:En; [done|].
    injection E' as <-. split; [by exists p|exact En].
Qed.
Lemma separate_NoDup h execs tss : separate h execs -> Forall2 (exports h) execs tss -> NoDup (List.concat tss).
Proof.
  intros Hs HF. induction HF as [|st ts execs tss [Hnd Hin] HF IH]; [apply NoDup_nil_2|].
  destruct Hs as [Hst Hs]. cbn. apply NoDup_app. split; [done|]. split; [|by apply IH].
  intros l [p Hp]%Hin (ts' & Ht' & Hl)%list_elem_of_In%in_concat.
  apply list_elem_of_In, list_elem_of_lookup in Ht' as [i Hi].
  destruct (Forall2_lookup_r _ _ _ _ _ HF Hi) as (st' & Hst' & [_ Hin']).
  apply list_elem_of_In in Hl. destruct (proj1 (Hin' l) Hl) as [q Hq]. apply (Hst p l Hp st' q); [|done].
  apply list_elem_of_lookup. by exists i.
Qed.
Lemma export_all procs execs s : Forall (exec_ready (n_cells s)) execs -> separate (n_cells s) execs ->
  export_order procs -> exists tss,
    Forall2 (fun st ts => Export procs (with_obj st s) = Ret (ts, with_obj st s)) execs tss /\
    exports_all (n_cells s) execs (List.concat tss).
Proof.
  intros Hr Hs Hprocs.
  assert (H : exists tss, Forall2 (fun st ts => Export procs (with_obj st s) = Ret (ts, with_obj st s)) execs tss /\
    Forall2 (exports (n_cells s)) execs tss).
  { clear Hs. induction Hr as [|st execs Hr _ (tss & H1 & H2)]; [by exists []|].
    destruct (Export_exports procs st s Hr Hprocs) as (ts & E & Hx). exists (ts :: tss).
    split; by constructor. }
  destruct H as (tss & H1 & H2). exists tss. split; [done|]. split; [by eapply separate_NoDup|]. by exists tss.
Qed.
Lemma exports_all_elem h execs ts l : exports_all h execs ts -> l ∈ ts ->
  exists st p, st ∈ execs /\ accessed h p st = Some l.
Proof.
  intros (_ & tss & -> & HF) (ts' & Ht' & Hl)%list_elem_of_In%in_concat.
  apply list_elem_of_In, list_elem_of_lookup in Ht' as [i Hi].
  destruct (Forall2_lookup_r _ _ _ _ _ HF Hi) as (st' & Hst' & [_ Hin']).
  apply list_elem_of_In in Hl. destruct (proj1 (Hin' l) Hl) as [q Hq]. exists st', q. split; [|done]. apply list_elem_of_lookup. by exists i.
Qed.
Lemma exports_importable h execs ts : Forall (exec_ready h) execs -> exports_all h execs ts -> importable h ts.
Proof.
  intros Hr Hx l Hl. destruct (exports_all_elem h execs ts l Hx Hl) as (st & p & Hst & Hp).
  rewrite Forall_forall in Hr. destruct (accessed_typed st h p l (proj1 (Hr st Hst)) Hp) as (c & ? & ? & ?).
  by exists c, p.
Qed.

(** ** The transitions of a path *)
Lemma exports_group st h0 h ts p : exec_typed st h0 -> exports h0 st ts -> meta_eq h0 h ->
  group h ts p = option_list (accessed h0 p st).
Proof.
  intros Ht [Hnd Hin] Hm.
  assert (Hpath : forall l, l ∈ ts -> path_at h l = Some p <-> accessed h0 p st = Some l).
  { intros l [q Hq]%Hin. destruct (accessed_typed st h0 q l Ht Hq) as (c & Hc & Hcp & _).
    pose proof (meta_at _ _ l Hm ltac:(by eexists)) as E. rewrite (cell_at_eq _ _ _ Hc) in E. injection E as E _ _ _.
    unfold path_at. rewrite <- E, Hcp. split; [by intros [= <-]|]. intros Hp. f_equal.
    destruct (accessed_typed st h0 p l Ht Hp) as (c' & Hc' & Hcp' & _). congruence. }
  unfold group. destruct (accessed h0 p st) as [l|] eqn:E.
  - apply filter_unique; [done|by apply Hin; exists p|]. intros y Hy. rewrite bool_decide_eq_true, (Hpath y Hy).
    split; [by intros [= ->]|by intros ->].
  - apply filter_none. intros y Hy. apply bool_decide_eq_false. by rewrite (Hpath y Hy).
Qed.
Lemma executions_group execs h0 h ts p : Forall (exec_ready h0) execs -> exports_all h0 execs ts -> meta_eq h0 h ->
  group h ts p = omap (accessed h0 p) execs.
Proof.
  intros Hr (_ & tss & -> & HF) Hm. induction HF as [|st ts execs tss Hx HF IH]; [done|].
  apply Forall_cons in Hr as [[Ht _] Hr]. cbn [List.concat omap list_omap].
  unfold group in *. rewrite List.filter_app, (IH Hr).
  fold (group h ts p). rewrite (exports_group st h0 h ts p Ht Hx Hm). by destruct (accessed h0 p st).
Qed.
Lemma executions_block_entry keep execs h0 h txs ts p : Forall (exec_ready h0) execs -> exports_all h0 execs ts ->
  meta_eq h0 h -> block_entry keep h txs ts p = executions_entry keep execs h0 h txs p.
Proof.
  intros Hr Hx Hm. pose proof (executions_group execs h0 h ts p Hr Hx Hm) as Hg.
  unfold block_entry, executions_entry, accepted_at, winner, merged_cell, survivors. rewrite Hg.
  destruct (order_of _ _) as [|l rest]; [done|]. cbn [head].
  by destruct (ApplyDelta _ _), (keep (cell_at h l)).
Qed.

(** C6: executions become a generation of the block.  Their exports have one
    transition for each path an execution accessed, leave everything as it is,
    and can be imported together; after the precommit every path has been asked
    for the merge of the cells that the accepted executions have there, in the
    order of their transactions, if the filter keeps the first of them, and for
    nothing otherwise. *)
Theorem Executions_generation procs execs gs this s s1 :
  generations f codec s gs this s1 -> Forall (exec_ready (n_cells s1)) execs -> separate (n_cells s1) execs ->
  export_order procs -> (forall st p l, st ∈ execs -> accessed (n_cells s1) p st = Some l -> l ∉ imported_locs gs) ->
  exists tss this2 s2,
    Forall2 (fun st ts => Export procs (with_obj st s1) = Ret (ts, with_obj st s1)) execs tss /\
    new_transitions gs s1 (List.concat tss) /\
    Committer.Import (List.concat tss) this s1 = Ret (this2, s2) /\ loaded (List.concat tss) (n_cells s1) (n_cells s2) /\
    (forall ad, view_at (n_eth s2) ad = view_at (n_eth s1) ad) /\
    forall txs, block_ready f (n_cells s2) txs (List.concat tss) (n_eth s2) ->
      exists this3 s3, DebugPrecommit txs this2 s2 = Ret (this3, s3) /\
        generations f codec s (gs ++ [MkGeneration (n_cells s2) txs (List.concat tss)]) this3 s3 /\
        forall keep p, path_entries keep (gs ++ [MkGeneration (n_cells s2) txs (List.concat tss)]) p =
          path_entries keep gs p ++ executions_entry keep execs (n_cells s1) (n_cells s2) txs p.
Proof.
  intros Hg Hr Hsep Hprocs Hnew. destruct (export_all procs execs s1 Hr Hsep Hprocs) as (tss & EX & Hx).
  assert (Hn : new_transitions gs s1 (List.concat tss)).
  { split; [by apply (exports_importable _ execs)|]. split; [apply Hx|]. intros l Hl.
    destruct (exports_all_elem _ _ _ l Hx Hl) as (st & p & Hst & Hp). by apply (Hnew st p). }
  destruct (next_generation f codec gs this s s1 _ Hg Hn) as (this2 & s2 & EI & Hlo & Hv & Hnext).
  exists tss, this2, s2. do 5 (split; [done|]).
  intros txs Hbr. destruct (Hnext txs Hbr) as (this3 & s3 & EP & Hg3 & _).
  exists this3, s3. split; [done|]. split; [done|]. intros keep p.
  by rewrite path_entries_snoc, (executions_block_entry _ execs (n_cells s1)) by (done || apply Hlo).
Qed.

(** ** What the next block reads of them *)
(** The value the executions leave at [p], over what is there. *)
Definition executions_spec execs h0 h txs (get : string -> option Codec.crdt) p : option Codec.crdt :=
  match last (executions_entry f execs h0 h txs p) with Some e => e.2 | None => get p end.
Lemma executions_entry_shape keep execs h0 h txs p e : e ∈ executions_entry keep execs h0 h txs p ->
  executions_entry keep execs h0 h txs p = [e] /\ e.1 = p.
Proof.
  unfold executions_entry. repeat case_match; try by intros ?%elem_of_nil. by intros ->%list_elem_of_singleton.
Qed.
Lemma executions_spec_batch execs h0 h txs get p :
  apply_batch (executions_entry f execs h0 h txs p) get p = executions_spec execs h0 h txs get p.
Proof.
  unfold executions_spec. destruct (last (executions_entry f execs h0 h txs p)) as [e|] eqn:El.
  - apply last_Some_elem_of in El. destruct (executions_entry_shape f execs h0 h txs p e El) as [-> <-].
    destruct e as [k o]. apply apply_one.
  - apply last_None in El. by rewrite El.
Qed.

(** Exported transitions through a whole block: the cached store then answers
    every path with the merge of the executions, or with what it answered
    before. *)
Lemma exported_block n execs ts this s :
  idle f codec this s -> Forall (exec_ready (n_cells s)) execs -> exports_all (n_cells s) execs ts ->
  coherent decode (n_cache s) (n_backend s) ->
  exists this2 s2, Committer.Import ts this s = Ret (this2, s2) /\ loaded ts (n_cells s) (n_cells s2) /\
    (forall ad, view_at (n_eth s2) ad = view_at (n_eth s) ad) /\
    forall txs, block_ready f (n_cells s2) txs ts (n_eth s2) ->
      (forall p v, (p, Some v) ∈ executions_entry f execs (n_cells s) (n_cells s2) txs p -> survives codec decode p v) ->
      exists this3 s3, DebugPrecommit txs this2 s2 = Ret (this3, s3) /\
        generations f codec s [MkGeneration (n_cells s2) txs ts] this3 s3 /\
        (reset_safe [MkGeneration (n_cells s2) txs ts] this3 s3 ->
         exists s', DebugCommit n this3 s3 = Ret (this3, s') /\ coherent decode (n_cache s') (n_backend s') /\
           forall p, shown decode (n_cache s') (n_backend s') p =
             executions_spec execs (n_cells s) (n_cells s2) txs (shown decode (n_cache s) (n_backend s)) p).
Proof.
  intros Hi Hr Hx Hco.
  assert (Hn : new_transitions [] s ts).
  { split; [by apply (exports_importable _ execs)|]. split; [apply Hx|]. by intros l _ ?%elem_of_nil. }
  pose proof (generations_start f codec s this Hi) as Hg.
  destruct (next_generation f codec [] this s s ts Hg Hn) as (this2 & s2 & EI & Hlo & Hv & Hnext).
  exists this2, s2. do 3 (split; [done|]). intros txs Hbr Hsv.
  destruct (Hnext txs Hbr) as (this3 & s3 & EP & Hg3 & _). exists this3, s3. split; [exact EP|].
  set (g := MkGeneration (n_cells s2) txs ts) in *. split; [exact Hg3|]. intros Hsafe.
  assert (Hent : forall p, path_entries f [g] p = executions_entry f execs (n_cells s) (n_cells s2) txs p).
  { intros p. unfold path_entries. cbn [map List.concat g_cells g_txs g_ts g]. rewrite app_nil_r.
    apply executions_block_entry; [done|done|apply Hlo]. }
  destruct (commit_result f codec n [g] this3 s s3 Hg3 Hsafe) as (s' & ECm & _).
  destruct (block_shown f codec decode n [g] this3 s s3 this3 s' Hg3 Hsafe Hco) as (Hco' & Hsh & _); [|exact ECm|].
  { intros p v. rewrite Hent. apply Hsv. }
  exists s'. split; [exact ECm|]. split; [exact Hco'|]. intros p.
  rewrite Hsh. unfold cache_spec. by rewrite Hent, executions_spec_batch.
Qed.
(** A new execution over a store that reads through the cached store. *)
Lemma next_view ro s s' get : reads_through decode ro s ->
  (forall p, shown decode (n_cache s) (n_backend s) p = get p) -> n_exec s' = NewExecutionStateStore (Some ro) ->
  forall p T, ExecStoreTheory.view (HL := node_cells) (OL := node_exec) s' p T = IsCRDT <$> get p.
Proof.
  intros Hro Hsh Hx p T. unfold ExecStoreTheory.view, wildcarded, fetch. cbn. rewrite Hx. cbn.
  by rewrite lookup_empty, Hro, Hsh.
Qed.

(** Whether a read gets to a path, in a store that shows [get]: it is a child of a
    built-in path, or the container above it lists it. *)
Context {raw : Type} `{CR : CrdtLib Codec.crdt raw} `{PaL : PathLib}
  (RlpCodec_Decode : bytes -> Codec.crdt -> option (any Codec.crdt)).
Definition listed_at (get : string -> option Codec.crdt) p : outcome bool :=
  if Platform.IsImmediateChildOfSysPath Platform.NewPlatform p then Ret true
  else let parent := (PathTypes.GetParentPath p).1 in
       listed_in RlpCodec_Decode (IsCRDT <$> get parent) (str_drop (len parent) p).
(** What [ReadCell] then returns. *)
Definition reads_as (get : string -> option Codec.crdt) s : Prop := forall tx p T do, do_ok (HL := node_cells) do ->
  match listed_at get p with
  | Ret listed => exists l s2 err, ReadCell RlpCodec_Decode tx p T do s =
        Ret ((if listed then IsCRDT <$> get p else None, l, err), s2) /\
      (listed = false -> err = Some ErrNotInParent)
  | Panic => ReadCell RlpCodec_Decode tx p T do s = Panic
  end.
Lemma next_read ro s s' get : reads_through decode ro s ->
  (forall p, shown decode (n_cache s) (n_backend s) p = get p) -> n_exec s' = NewExecutionStateStore (Some ro) ->
  reads_as get s'.
Proof.
  intros Hro Hsh Hx tx p T do Hdo. pose proof (next_view ro s s' get Hro Hsh Hx) as Hv.
  assert (Hwf : wf (HL := node_cells) (OL := node_exec) s').
  { intros q l Hl. change (obj_of s') with (n_exec s') in Hl. rewrite Hx in Hl. cbn in Hl. by rewrite lookup_empty in Hl. }
  pose proof (ReadCell_eq RlpCodec_Decode tx p T do s' Hwf Hdo) as Hr.
  assert (El : exists_spec RlpCodec_Decode s' p = listed_at get p).
  { unfold exists_spec, listed_at. change (obj_of s') with (n_exec s'). by rewrite Hv, Hx. }
  rewrite El in Hr. destruct (listed_at get p) as [[]|]; [| |exact Hr].
  - destruct Hr as (l & s2 & err & E & _). exists l, s2, err. by rewrite E, Hv.
  - destruct Hr as (l & s2 & E & _). by exists l, s2, (Some ErrNotInParent).
Qed.

(** C7: executions are read back.  When their exports are imported, taken
    through the precommit and committed, a new execution shows at every path the
    merge of the cells that the accepted executions have there, in the order of
    their transactions (nothing, when it is a deletion), if the filter keeps
    it, and at every other path what the cached store answered before; and a
    read of it returns that, for the paths whose container, as it is by then,
    lists them and for the children of built-in paths, and the error of a path
    that is not listed for the others. *)
Theorem Executions_block n procs execs this s :
  idle f codec this s -> Forall (exec_ready (n_cells s)) execs -> separate (n_cells s) execs ->
  export_order procs -> coherent decode (n_cache s) (n_backend s) ->
  exists tss this2 s2,
    Forall2 (fun st ts => Export procs (with_obj st s) = Ret (ts, with_obj st s)) execs tss /\
    Committer.Import (List.concat tss) this s = Ret (this2, s2) /\ loaded (List.concat tss) (n_cells s) (n_cells s2) /\
    (forall ad, view_at (n_eth s2) ad = view_at (n_eth s) ad) /\
    forall txs, block_ready f (n_cells s2) txs (List.concat tss) (n_eth s2) ->
      (forall p v, (p, Some v) ∈ executions_entry f execs (n_cells s) (n_cells s2) txs p -> survives codec decode p v) ->
      exists this3 s3, DebugPrecommit txs this2 s2 = Ret (this3, s3) /\
        (reset_safe [MkGeneration (n_cells s2) txs (List.concat tss)] this3 s3 ->
         exists s', DebugCommit n this3 s3 = Ret (this3, s') /\
           forall ro s'', reads_through decode ro s' -> n_exec s'' = NewExecutionStateStore (Some ro) ->
           let get := executions_spec execs (n_cells s) (n_cells s2) txs (shown decode (n_cache s) (n_backend s)) in
           (forall p T, ExecStoreTheory.view (HL := node_cells) (OL := node_exec) s'' p T = IsCRDT <$> get p) /\
           reads_as get s'').
Proof.
  intros Hi Hr Hsep Hprocs Hco. destruct (export_all procs execs s Hr Hsep Hprocs) as (tss & EX & Hx).
  destruct (exported_block n execs _ this s Hi Hr Hx Hco) as (this2 & s2 & EI & Hlo & Hv & Hrun).
  exists tss, this2, s2. do 4 (split; [done|]). intros txs Hbr Hsv.
  destruct (Hrun txs Hbr Hsv) as (this3 & s3 & EP & _ & Hc). exists this3, s3. split; [exact EP|]. intros Hsafe.
  destruct (Hc Hsafe) as (s' & ECm & _ & Hsh). exists s'. split; [exact ECm|]. intros ro s'' Hro Hx'.
  split; [by apply (next_view ro s')|by apply (next_read ro s')].
Qed.



End node.
