(* ===== verification/Proxies.v ===== *)
(** * The proxies a node can run on, and its start

    state_proxy.go, the constructors, with those of livecache/live_cache.go and
    livebackend/live_storage.go that they call; a node over one of them starts
    idle and empty. *)
From S2P Require Import Prelude ExecStore ExecStoreOps ExecStoreTheory Interfaces Heap Paths Committer CommitterTheory LiveCache LiveStorage Codec EthLib EthAccount EthWorldState EthWriter EthAccountTheory EthWorldTheory EthNode Node NodeTheory NodeBlock.
Import Platform.

(** ** cachedstore, memdb, filedb, pebble *)
Class CachedStoreLib (V C : Type) := {
  (* NewCachedStore(backend, codec, capacity, sizeOf): the cache in front of
     the backend *)
  cachedstore_New : Z -> (option V -> Z) -> C;
}.
Class CachedStoreLaws {V C} `{CacheLib V C} (CS : CachedStoreLib V C) : Prop := {
  cachedstore_New_Get : forall cap sizeOf k, cache_Get (cachedstore_New cap sizeOf) k = None;
}.
(** The databases that a backend can be. *)
Class BackendLib (DS : Type) := {
  memdb_NewMemoryDB : DS;
  (* NewFileDB(path, 2, 1) *)
  filedb_NewFileDB : string -> DS + string;
  pebbledb_NewPebbleDB : string -> DS + string;
}.

Section constructors.
Context `{TI : TypeIDs} `{CT : CrdtTypes} `{TT : TrieTypes} `{CrL : CryptoLib} `{TL : !TrieLib} {DB : Type}
  `{DL : !DBLib DB} `{LD : !LevelDBLib DB}.
Context {LC DS raw : Type} `{CR : CrdtLib Codec.crdt raw} `{CSt : CachedStoreLib Codec.crdt LC} `{BL : BackendLib DS}.

(** The size of a value in the cache. *)
Definition sizeOf (v : option Codec.crdt) : Z := match v with None => 0 | Some v => MemSize v end.
Definition NewLiveCache (cacheCap : Z) : LC := cachedstore_New cacheCap sizeOf.
Definition NewLiveStorage (size : option Codec.crdt -> Z) : LC := cachedstore_New 1024 size.
(** [initLiveStorage], less its codec, which is in Proxy.v. *)
Definition initLiveStorage : LC := NewLiveStorage sizeOf.
(** [initByteLiveStorage], a cache of encodings, in the same way. *)
Definition initByteLiveStorage {LB} `{!CachedStoreLib bytes LB} : LB :=
  cachedstore_New 1024 (fun v : option bytes => Z.of_nat (length (default [] v))).

(** The cached store is its cache and its backend, which may be nil; the
    codecs are in Proxy.v. *)
Record StorageProxy := MkStorageProxy {
  platform : gmap string Z;
  cache : LC;
  backend : option DS;
  ethStorage : option (EthState DB);
}.
Definition NewCacheOnlyStoreProxy : StorageProxy :=
  MkStorageProxy NewPlatform (NewLiveCache MaxUint64) None (Some NewParallelEthMemDataStore).
Definition NewMemDBStoreProxy : StorageProxy :=
  MkStorageProxy NewPlatform (NewLiveCache MaxUint64) (Some memdb_NewMemoryDB)
    (Some NewParallelEthMemDataStore).
Definition NewFileStoreProxy (ethDBPath execDBPath : string) (cacheCap : Z) : option StorageProxy :=
  match filedb_NewFileDB execDBPath with
  | inr _ => None
  | inl fileDB =>
      Some (MkStorageProxy NewPlatform (NewLiveCache cacheCap) (Some fileDB) (NewLevelDBDataStore ethDBPath))
  end.
Definition NewPebbleDBProxy (ethDBPath execDBPath : string) (cacheCap : Z) : option StorageProxy :=
  match pebbledb_NewPebbleDB execDBPath with
  | inr _ => None
  | inl pebbleDB =>
      Some (MkStorageProxy NewPlatform (NewLiveCache cacheCap) (Some pebbleDB) (NewLevelDBDataStore ethDBPath))
  end.

(** A proxy as one of the constructors with a backend makes it. *)
Inductive made : StorageProxy -> Prop :=
| made_mem : made NewMemDBStoreProxy
| made_file p ethDBPath execDBPath cap : NewFileStoreProxy ethDBPath execDBPath cap = Some p -> made p
| made_pebble p ethDBPath execDBPath cap : NewPebbleDBProxy ethDBPath execDBPath cap = Some p -> made p.

(** [SetVersion] of the proxy does nothing. *)
Definition SetVersion (_ : bytes) (this : StorageProxy) : option string := None.

(** The state of a node on a proxy, with the cells, the writers and the
    execution store there are: it needs a backend and an Ethereum store. *)
Definition node_on {cell} (cells : gmap loc cell) (ws : gmap loc (NodeWriter cell))
    (st : ExecutionStateStore Codec.crdt) (p : StorageProxy) : option (NodeState cell LC DS DB) :=
  match backend p, ethStorage p with
  | Some d, Some e => Some (MkNodeState cells ws (cache p) d e st)
  | _, _ => None
  end.
End constructors.
Arguments StorageProxy {TT} DB LC DS.

(** The Ethereum store of the proxy is reached through the proxy. *)
Section preload.
Context `{CT : CrdtTypes} `{TT : TrieTypes} `{RL : !RlpLib} `{FI : FixedInt} `{UI : Uint256}
  `{CV : !CrdtValues} `{SL : SliceLib} `{ML : MapLib} `{ES : EthSliceLib} `{CrL : CryptoLib}
  `{EC : EthCommonLib} `{SA : StateAccountLib} `{TL : !TrieLib} {DB : Type} `{DL : !DBLib DB}
  {cell LC DS : Type}.
Definition Proxy_Preload (data : bytes) : Go (NodeState cell LC DS DB) loc := EthStorage.in_eth (EO := node_eth) (Preload data).
End preload.

Section theory.
Context `{TI : TypeIDs} `{CT : CrdtTypes} `{TT : TrieTypes} `{RL : !RlpLib} `{FI : FixedInt} `{UI : Uint256}
  `{CV : !CrdtValues} `{SL : SliceLib} `{SLL : !SliceLaws SL} `{ML : MapLib} `{MLW : !MapLaws ML}
  `{ES : EthSliceLib} `{ESL : !EthSliceLaws ES} `{IL : IndexerLib} `{ILL : !IndexerLaws IL}
  `{CrL : CryptoLib} `{EC : EthCommonLib}
  `{AL : !AddressLaws} `{SA : StateAccountLib} `{SAL : !StateAccountLaws SA} `{TL : !TrieLib}
  {DB : Type} `{DL : !DBLib DB} `{DW : !DBWrites DL} `{LD : !LevelDBLib DB} `{MD : !DBLib memorydb}
  `{TS : !TrieSpec} `{TLW : !TrieLaws TS}.
Context {cell LC DS raw : Type} `{CL : CellLib Codec.crdt cell} `{CLW : !CellLaws CL}
  `{CaL : CacheLib Codec.crdt LC} `{CaLL : !CacheLaws CaL} `{CR : CrdtLib Codec.crdt raw}
  `{CSt : CachedStoreLib Codec.crdt LC} `{CSL : !CachedStoreLaws CSt} `{BL : BackendLib DS}
  `{RW : RWStoreLib bytes DS} `{RWL : !RWStoreLaws RW}.
Abbreviation Node := (NodeState cell LC DS DB).
Context `{KV : !KVsLib Node Codec.crdt} `{KVL : !KVsLaws KV}
  `{PoL : !PoolLib Node} `{PL : !PoolLaws PoL node_cells}.
Context (f : cell -> bool) (codec : string -> Codec.crdt -> string * bytes * option string).
Implicit Types (p : StorageProxy DB LC DS) (s : Node).

Lemma made_stores p : made p ->
  (forall k, cache_Get (cache p) k = None) /\ (forall e, ethStorage p = Some e -> just_made e).
Proof.
  destruct 1 as [|p ed xd cap E|p ed xd cap E]; cycle 1.
  1: unfold NewFileStoreProxy in E; destruct (filedb_NewFileDB xd); [|done]; injection E as <-.
  2: unfold NewPebbleDBProxy in E; destruct (pebbledb_NewPebbleDB xd); [|done]; injection E as <-.
  all: split; [intros k; apply cachedstore_New_Get|]; cbn; intros e He;
    first [right; by exists ed|left; by injection He].
Qed.
Lemma just_made_wf (e : EthState DB) : just_made e -> eth_wf e /\ forall ad, view_at e ad = None.
Proof. intros [-> |[dir E]]; [apply new_store_wf|by apply (leveldb_store_wf dir)]. Qed.

(** The committer that is made for a list of writers, with the list that
    slice.MoveIf has worked on. *)
Definition committer_for (store : string -> option (any Codec.crdt)) wx wc we wd ws : StateCommitter Codec.crdt :=
  MkStateCommitter store ws (option_list wx ++ [wc]) [we; wd] ∅ ∅ store.
Definition left_by_MoveIf (objs : list (loc * NodeWriter cell)) : list loc :=
  map fst (slice_MoveIf_alias (fun w => w_IsSync w.2) objs).
Lemma NewStateCommitter_run (store : string -> option (any Codec.crdt)) s wx wc we wd gc gs ls m gx :
  writers_hold f codec s wc we wd gc gs ls m -> exec_holds s wx gx ->
  exists objs, map fst objs = option_list wx ++ [wc; we; wd] /\
    NewStateCommitter store (option_list wx ++ [wc; we; wd]) s =
      Ret (committer_for store wx wc we wd (left_by_MoveIf objs), s).
Proof.
  intros [(oc & Ec & _) (oe & Ee & _) (od & Ed & _)] Hx. unfold NewStateCommitter.
  assert (E3 : Forall2 (fun l lo => lo.1 = l /\ n_writers s !! l = Some lo.2) [wc; we; wd]
    [(wc, WCache oc); (we, WEth oe); (wd, WStorage od)]) by (by repeat constructor).
  destruct wx as [x|].
  - destruct (Hx x eq_refl) as (o & Eo & _).
    exists [(x, WExec o); (wc, WCache oc); (we, WEth oe); (wd, WStorage od)]. split; [done|].
    assert (ED : deref_all (H := node_writers) (option_list (Some x) ++ [wc; we; wd]) s
      = Ret ([(x, WExec o); (wc, WCache oc); (we, WEth oe); (wd, WStorage od)], s))
      by (apply deref_all_ret; split; [done|]; by constructor).
    by rewrite (gbind_eq _ _ _ _ _ ED), MoveIf_spec.
  - exists [(wc, WCache oc); (we, WEth oe); (wd, WStorage od)]. split; [done|].
    assert (ED : deref_all (H := node_writers) (option_list None ++ [wc; we; wd]) s
      = Ret ([(wc, WCache oc); (we, WEth oe); (wd, WStorage od)], s)) by (by apply deref_all_ret).
    by rewrite (gbind_eq _ _ _ _ _ ED), MoveIf_spec.
Qed.

(** The writers of the proxy, or those of the execution store, and the committer
    of a node made for them. *)
Definition node_writers_of (exec : bool) : Go Node (list loc) :=
  if exec then Exec_GetWriters f codec else GetWriters f codec.
Definition new_committer (exec : bool) (store : string -> option (any Codec.crdt))
    : Go Node (StateCommitter Codec.crdt) :=
  let! l := node_writers_of exec in NewStateCommitter store l.
Definition with_writers ws (this : StateCommitter Codec.crdt) : StateCommitter Codec.crdt :=
  MkStateCommitter (readonlyStore this) ws (syncWriters this) (asyncWriters this) (byPath this) (byTxID this)
    (pathStore this).

(** A committer for writers is idle if it has them on its list. *)
Lemma idle_writers store s0 wx wc we wd ws : idle f codec (committer_for store wx wc we wd (option_list wx ++ [wc; we; wd])) s0 ->
  (generations f codec s0 [] (committer_for store wx wc we wd ws) s0 <-> ws = option_list wx ++ [wc; we; wd]).
Proof.
  intros Hi. split; [|intros ->; by apply generations_start].
  intros (wx' & wc' & we' & wd' & gc & es & gx & [[Hw Hsy Has _ _] _ _ _ _ _ _ _ _ _])%generations_inv.
  cbn in *. injection Has as <- <-. rewrite Hw. change [wc'; we; wd] with ([wc'] ++ [we; wd]).
  by rewrite app_assoc, <- Hsy, <- app_assoc.
Qed.
Lemma node_writers_idle exec store s ro : eth_wf (n_eth s) -> committedStore (n_exec s) = Some ro ->
  exists wx wc we wd s0, node_writers_of exec s = Ret (option_list wx ++ [wc; we; wd], s0) /\
    let this := committer_for store wx wc we wd (option_list wx ++ [wc; we; wd]) in
    idle f codec this s0 /\ feeds_exec this s0 = exec /\
    n_cells s0 = n_cells s /\ same_stores s s0 /\ n_eth s0 = n_eth s.
Proof.
  intros Hwf Hro. destruct exec; unfold node_writers_of.
  - destruct (Exec_GetWriters_idle f codec store s ro Hwf Hro)
      as (x & wc & we & wd & s0 & EW & Hi & Hc & Hs & He & _ & Hfe).
    by exists (Some x), wc, we, wd, s0.
  - destruct (GetWriters_idle f codec store s Hwf) as (wc & we & wd & s0 & EW & Hi & Hc & Hs & He & _).
    exists None, wc, we, wd, s0. split; [exact EW|]. split; [exact Hi|]. split; [|done].
    destruct Hi as (wx & wc' & we' & wd' & [Hws _ _ _ _] & _ & _ & Hwh & _).
    destruct wx as [x'|]; [discriminate Hws|]. injection Hws as <- <- <-.
    destruct Hwh as [(oc & Ec & _) (oe & Ee & _) (od & Ed & _)]. unfold feeds_exec. cbn. by rewrite Ec, Ee, Ed.
Qed.

(** C38: the start of a node on a proxy with a backend: nothing is in the cache,
    the Ethereum store shows no account, and the committer made for the writers
    has them in its phases.  A block can start with that committer exactly if
    its list of writers, the array that slice.MoveIf has worked on, still is the
    list of writers it was given, and then it feeds the execution store exactly
    when the writers are those of that store; nothing is assumed on what
    slice.MoveIf leaves in that array. *)
Theorem node_start exec p cells ws st s store :
  made p -> node_on cells ws st p = Some s -> is_Some (committedStore st) ->
  exists l objs this s0, node_writers_of exec s = Ret (l, s0) /\ new_committer exec store s = Ret (this, s0) /\
    map fst objs = l /\ writers this = left_by_MoveIf objs /\ syncWriters this ++ asyncWriters this = l /\
    (generations f codec s0 [] this s0 <-> writers this = l) /\
    generations f codec s0 [] (with_writers l this) s0 /\ feeds_exec (with_writers l this) s0 = exec /\
    n_cells s0 = cells /\
    (forall k, cache_Get (n_cache s0) k = None) /\ (forall ad, view_at (n_eth s0) ad = None).
Proof.
  intros Hp Hs [ro Hro]. destruct (made_stores p Hp) as [Hc He]. unfold node_on in Hs.
  destruct (backend p) as [d|]; [|done]. destruct (ethStorage p) as [e|] eqn:E; [|done].
  injection Hs as <-. destruct (just_made_wf e (He e eq_refl)) as [Hwf Hv].
  destruct (node_writers_idle exec store (MkNodeState cells ws (cache p) d e st) ro Hwf Hro)
    as (wx & wc & we & wd & s0 & EW & Hi & Hfe & Hcells & [Hcache _] & Heth).
  pose proof Hi as (wx' & wc' & we' & wd' & [Hws Hsy Has _ _] & _ & _ & Hwh & Hx & _).
  cbn in Has. injection Has as <- <-. cbn in Hsy.
  assert (Hxc : wx' = wx /\ wc' = wc) by (destruct wx, wx'; by injection Hsy as <- || injection Hsy as <- <-).
  destruct Hxc as [-> ->].
  destruct (NewStateCommitter_run store s0 wx wc we wd [] [] [] ∅ [] Hwh Hx) as (objs & Hobjs & EN).
  exists (option_list wx ++ [wc; we; wd]), objs, (committer_for store wx wc we wd (left_by_MoveIf objs)), s0.
  split; [exact EW|]. split; [unfold new_committer; by rewrite (gbind_eq _ _ _ _ _ EW)|].
  split; [exact Hobjs|]. split; [done|]. split; [cbn; by rewrite <- app_assoc|].
  split; [by apply idle_writers|]. split; [by apply generations_start|]. split; [exact Hfe|].
  by rewrite Hcells, Hcache, Heth.
Qed.
(** There is no node on a proxy without a backend. *)
Theorem cache_only_no_node cells ws st :
  node_on (cell := cell) cells ws st (NewCacheOnlyStoreProxy : StorageProxy DB LC DS) = None.
Proof. done. Qed.

(** When the directory of the Ethereum store cannot be opened, a proxy is
    returned all the same, without that store. *)
Theorem proxy_without_ethStorage ethDBPath execDBPath cap (db : DS) err :
  filedb_NewFileDB execDBPath = inl db -> pebbledb_NewPebbleDB execDBPath = inl db ->
  rawdb_NewLevelDBDatabase (DB := DB) ethDBPath = inr err ->
  exists p, NewFileStoreProxy ethDBPath execDBPath cap = Some p /\
    NewPebbleDBProxy ethDBPath execDBPath cap = Some p /\ ethStorage p = None /\
    forall cells ws st, node_on (cell := cell) cells ws st p = None.
Proof.
  intros Hf Hp He. unfold NewFileStoreProxy, NewPebbleDBProxy, NewLevelDBDataStore, NewEthShardLvlDB.
  rewrite Hf, Hp, He. by eexists.
Qed.
End theory.
