(* ===== verification/Harness.v ===== *)
(** * test/harness/util.go: accounts and values put into the stores of a node

    Two routines that take an execution through a block of its own: they write
    into an execution store, export it, and drive a committer made for the
    writers of the proxy below it. *)
From S2P Require Import Prelude GoString ExecStore ExecStoreOps ExecStoreTheory ExecStoreOpsTheory GoSort Interfaces Heap Paths PathsTheory Accounts AccountsTheory DeltaSequence DeltaSequenceTheory Committer CommitterTheory LiveCache LiveStorage LiveTheory Pipeline Codec CodecTheory EthLib EthAccount EthWorldState EthWriter EthAccountTheory EthWorldTheory EthWriterTheory EthBlockTheory EthStoreTheory Node NodeTheory NodeBlock NodeRead NodeExec Proxies.
Import Constants.

(** statecell, on batches, and hexutil. *)
Class HarnessLib (S : Type) := {
  To_InterProcTransition : list loc -> Go S (list loc);
  StateCells_Encode : list loc -> Go S bytes;
  StateCells_Decode : bytes -> Go S (list loc);
  hexutil_Encode : bytes -> string;
}.

Section harness.
Context `{TI : TypeIDs} `{CT : CrdtTypes} `{TT : TrieTypes} `{RL : !RlpLib} `{FI : FixedInt} `{UI : Uint256}
  `{CV : !CrdtValues} `{SL : SliceLib} `{ML : MapLib} `{ES : EthSliceLib} `{IL : IndexerLib}
  `{CrL : CryptoLib} `{EC : EthCommonLib} `{SA : StateAccountLib} `{TL : !TrieLib} {DB : Type}
  `{DL : !DBLib DB}.
Context {cell LC DS raw : Type} `{CL : CellLib Codec.crdt cell} `{CaL : CacheLib Codec.crdt LC}
  `{RW : RWStoreLib bytes DS} `{CR : CrdtLib Codec.crdt raw} `{CSt : CachedStoreLib Codec.crdt LC}
  `{BL : BackendLib DS} `{PaL : PathLib} `{DV : DefaultValues Codec.crdt}.
Abbreviation Node := (NodeState cell LC DS DB).
Context `{KV : !KVsLib Node Codec.crdt} `{PoL : !PoolLib Node} `{CE : !CellEffects Node raw Codec.crdt}
  `{CB : !CellBatchLib Node} `{HaL : !HarnessLib Node}.
Context (RlpCodec_Decode : bytes -> Codec.crdt -> option (any Codec.crdt))
  (f : cell -> bool) (codec : string -> Codec.crdt -> string * bytes * option string)
  (open : LC -> DS -> ROStore Codec.crdt).

(** The execution store holds the proxy itself: it reads the stores as they are
    by now. *)
Definition reread : Go Node unit :=
  let! s := gget in SetCommittedStore (Some (open (n_cache s) (n_backend s))).
(** The execution store as the read-only store of a committer. *)
Definition readonly : Go Node (string -> option (any Codec.crdt)) :=
  let! s := gget in
  gret (fun p => match ExecStore.Get RlpCodec_Decode p s with Ret (v, _) => v | Panic => None end).

(** The end of both routines: the committer and its import, and the block. *)
Definition load_debug (ts : list loc) : Go Node (StateCommitter Codec.crdt) :=
  let! ws := GetWriters f codec in
  let! store := readonly in
  let! committer := NewStateCommitter store ws in Committer.Import ts committer.
Definition commit_debug (ts : list loc) : Go Node unit :=
  let! committer := load_debug ts in
  let! committer := DebugPrecommit [1%Z] committer in
  DebugCommit 10 committer ;;; reread.

(** A new in-memory proxy, with an execution store over it. *)
Definition new_store : Go Node unit :=
  let proxy : StorageProxy DB LC DS := NewMemDBStoreProxy in
  let! d := gsome (backend proxy) in
  let! e := gsome (ethStorage proxy) in
  gmodify (fun s => MkNodeState (n_cells s) (n_writers s) (cache proxy) d e
    (NewDefaultExecutionStateStore (Some (open (cache proxy) d)))).

Fixpoint create_accounts (accts : list bytes) : Go Node (option string) :=
  match accts with
  | [] => gret None
  | sender :: accts =>
      let! '(_, err) := CreateDefaultPaths RlpCodec_Decode 1 (hexutil_Encode sender) in
      match err with
      | Some _ => gret (Some ("Failed to create default paths for " +:+ hexutil_Encode sender))
      | None => create_accounts accts
      end
  end.

(** The store it returns is that of the state; nil with an error. *)
Definition CreateAccountInStore (accts : list bytes) : Go Node (option string) :=
  new_store ;;;
  let! err := create_accounts accts in
  match err with
  | Some _ => gret err
  | None =>
      let! raw := Export [Some Sorter] in
      let! acctTrans := To_InterProcTransition raw in
      (* the result of the round trip is dropped *)
      let! buffer := StateCells_Encode acctTrans in
      let! _ := StateCells_Decode buffer in
      let! committed := CommittedStore in
      match committed with
      | None => gret (Some "failed to get storage proxy from execution state store")
      | Some _ => commit_debug acctTrans ;;; gret None
      end
  end.

(** [for i := range keys]: a key without a value panics. *)
Fixpoint inject_all (keys : list string) (vals : list (option Codec.crdt)) (aggregatedErr : option string)
    : Go Node (option string) :=
  match keys, vals with
  | [], _ => gret aggregatedErr
  | k :: keys, v :: vals =>
      let! '(_, err) := Inject SYSTEM k v in inject_all keys vals (errors_Join aggregatedErr err)
  | _, [] => gpanic
  end.
Definition InjectTransitions (keys : list string) (vals : list (option Codec.crdt))
    : Go Node (option string) :=
  let! committed := CommittedStore in
  match committed with
  | None => gret (Some "failed to get storage proxy from execution state store")
  | Some _ =>
      let! aggregatedErr := inject_all keys vals None in
      let! acctTrans := Export [Some Sorter] in
      commit_debug acctTrans ;;; gret aggregatedErr
  end.
End harness.

(** A [20]byte, and hexutil.Encode of it. *)
Definition byte20 (b : bytes) : Prop := length b = 20 /\ byte_range b.
Class HexutilLaws {S} (HaL : HarnessLib S) : Prop := {
  hexutil_Encode_address : forall b, byte20 b -> account_name (hexutil_Encode b);
}.

(** ** The accounts of a new store *)
Section creation.
Context `{TI : TypeIDs} `{CT : CrdtTypes} `{TT : TrieTypes}
  `{SLL : SliceLaws} `{MLW : MapLaws} `{CrL : CryptoLib} `{TL : !TrieLib} {DB : Type} `{DL : !DBLib DB}.
Context {cell LC DS raw : Type} `{CL : CellLib Codec.crdt cell} `{CLW : !CellLaws CL} `{CR : CrdtLib Codec.crdt raw}
  `{CSt : CachedStoreLib Codec.crdt LC} `{BL : BackendLib DS} `{PaL : PathLib} `{DV : DefaultValues Codec.crdt}
  `{DVL : !DefaultLaws CR DV}.
Abbreviation Node := (NodeState cell LC DS DB).
Context `{PoL : !PoolLib Node} `{PL : !PoolLaws PoL node_cells} `{CE : !CellEffects Node raw Codec.crdt}
  `{HaL : !HarnessLib Node} `{HxL : !HexutilLaws HaL}.
Context (RlpCodec_Decode : bytes -> Codec.crdt -> option (any Codec.crdt)) (open : LC -> DS -> ROStore Codec.crdt)
  (EL : EffectLaws (S := Node) (HL := node_cells) (OL := node_exec))
  (FS : FreshSet (S := Node) (HL := node_cells) (OL := node_exec)).
Implicit Types (s : Node) (accts : list bytes).
Abbreviation nwf := (wf (HL := node_cells) (OL := node_exec)).
Abbreviation shows := (ExecStoreTheory.view (HL := node_cells) (OL := node_exec)).
Abbreviation names accts := (map hexutil_Encode accts).
Abbreviation made := (account_made (S := Node) (HL := node_cells) (OL := node_exec)).
Abbreviation missing := (account_absent (S := Node) (HL := node_cells) (OL := node_exec)).

Lemma create_accounts_run accts : forall s, Forall byte20 accts -> nwf s ->
  ExecStore.platform (n_exec s) = Platform.NewPlatform ->
  (forall a, account_name a -> missing s a \/ made s a) ->
  exists s', create_accounts RlpCodec_Decode accts s = Ret (None, s') /\ nwf s' /\
    (forall a, account_name a -> made s a \/ a ∈ names accts -> made s' a) /\
    forall q, (forall a, a ∈ names accts -> ~ under_account a q) -> forall T,
      shows s' q T = shows s q T.
Proof.
  induction accts as [|b accts IH]; intros s Hlen Hwf Hpf Hs.
  { exists s. split; [done|]. split; [done|]. split; [|done]. intros a _ [Ha|Ha]; [done|by apply elem_of_nil in Ha]. }
  apply Forall_cons in Hlen as [Hb Hlen]. pose proof (hexutil_Encode_address b Hb) as Hn. cbn [create_accounts map].
  assert (Hstep : exists ls s1, CreateDefaultPaths RlpCodec_Decode 1 (hexutil_Encode b) s = Ret ((ls, None), s1) /\
    nwf s1 /\ ExecStore.platform (n_exec s1) = Platform.NewPlatform /\ made s1 (hexutil_Encode b) /\
    forall q, ~ under_account (hexutil_Encode b) q -> localCells (n_exec s1) !! q = localCells (n_exec s) !! q /\
      has_spec (HL := node_cells) (OL := node_exec) s1 q = has_spec (HL := node_cells) (OL := node_exec) s q /\
      forall T, shows s1 q T = shows s q T).
  { destruct (Hs _ Hn) as [Hm|Hm].
    - destruct (CreateDefaultPaths_run RlpCodec_Decode EL FS 1 (hexutil_Encode b) s Hn Hwf Hpf Hm)
        as (ls & s1 & E & _ & Hwf1 & Hf & Hm1 & Ho). exists ls, s1. do 2 (split; [done|]).
      unfold fields in Hf. injection Hf as _ _ Hp _ _. split; [|by split]. by etrans; [exact Hp|].
    - exists [], s. split; [by apply CreateDefaultPaths_done|]. by do 3 (split; [done|]). }
  destruct Hstep as (ls & s1 & E & Hwf1 & Hpf1 & Hm1 & Ho). rewrite (gbind_eq _ _ _ _ _ E).
  assert (Hkeep : forall a, account_name a -> a <> hexutil_Encode b ->
    (made s a -> made s1 a) /\ (missing s a -> missing s1 a))
    by (intros a Ha Hne; by apply (account_made_kept s s1 a (hexutil_Encode b))).
  destruct (IH s1 Hlen Hwf1 Hpf1) as (s' & E' & Hwf' & Hm' & Ho').
  { intros a Ha. destruct (decide (a = hexutil_Encode b)) as [->|Hne]; [by right|].
    destruct (Hkeep a Ha Hne) as [H1 H2]. destruct (Hs a Ha) as [?|?]; [left|right]; auto. }
  exists s'. split; [exact E'|]. split; [done|]. split.
  - intros a Ha Hin. destruct (decide (a = hexutil_Encode b)) as [->|Hne]; [by apply Hm'; [|left]|].
    apply Hm'; [done|]. destruct Hin as [Hin|Hin]; [left; by apply Hkeep|].
    apply elem_of_cons in Hin as [?|?]; [done|by right].
  - intros q Hq T. rewrite Ho'; [|intros a Ha; apply Hq; by right]. apply Ho, Hq. by left.
Qed.

(** What a new proxy holds. *)
Definition nothing_in (ro : ROStore Codec.crdt) : Prop :=
  forall p T, ro_Has ro p = false /\ (ro_GetAs ro p T).1 = None.
Definition new_ro : ROStore Codec.crdt := open (NewLiveCache (raw := raw) MaxUint64) memdb_NewMemoryDB.

(** C9: the first half of [CreateAccountInStore], in whatever state it is
    called: over a new in-memory proxy, which shows nothing, the loop over the
    accounts returns no error; every account of the list, also one that is
    repeated, then has its eight built-in paths, each with the empty value of its
    type, and nothing else is shown at any path. *)
Theorem accounts_created accts s : Forall byte20 accts -> nothing_in new_ro ->
  exists s', (new_store open ;;; create_accounts RlpCodec_Decode accts) s = Ret (None, s') /\
    (forall b, b ∈ accts -> forall e, e ∈ default_table ->
       Has (account_root (hexutil_Encode b) +:+ e.1) s' = Ret (true, s') /\
       exists v, default_value e.2 = Some v /\
         forall T, shows s' (account_root (hexutil_Encode b) +:+ e.1) T = Some (IsCRDT v)) /\
    forall q, (forall b e, b ∈ accts -> e ∈ default_table -> q <> account_root (hexutil_Encode b) +:+ e.1) ->
      forall T, shows s' q T = None.
Proof.
  intros Hlen Hro. set (s0 := MkNodeState (n_cells s) (n_writers s) (NewLiveCache (raw := raw) MaxUint64) memdb_NewMemoryDB
    (NewParallelEthMemDataStore) (NewDefaultExecutionStateStore (Some new_ro)) : Node).
  assert (Hv : forall q T, shows s0 q T = None).
  { intros q T. unfold ExecStoreTheory.view, wildcarded, fetch. cbn. rewrite lookup_empty. apply Hro. }
  destruct (create_accounts_run accts s0 Hlen) as (s' & E & _ & Hm & Ho).
  - intros p l Hl. cbn in Hl. by rewrite lookup_empty in Hl.
  - done.
  - intros a Ha. left. intros e He. split; [apply lookup_empty|]. split; [|intros T; apply Hv].
    unfold has_spec. cbn [at_account fst]. rewrite (proj2 (Nat.leb_gt _ _)).
    + cbn. rewrite lookup_empty. apply (Hro _ None).
    + rewrite len_app, (len_account_root a Ha). unfold ETH_ACCOUNT_FULL_LENGTH, ETH_ACCOUNT_LENGTH. lia.
  - exists s'. split; [exact E|]. split.
    + intros b Hb. apply Hm; [|right; by apply list_elem_of_fmap_2].
      apply hexutil_Encode_address. rewrite Forall_forall in Hlen. by apply Hlen.
    + intros q Hq T. rewrite Ho; [apply Hv|]. intros a (b & -> & Hb)%list_elem_of_fmap (e & He & ->). by apply (Hq b e).
Qed.
End creation.

Section theory.
Context `{TI : TypeIDs} `{CT : CrdtTypes} `{TT : TrieTypes} `{RL : !RlpLib} `{FI : FixedInt} `{UI : Uint256}
  `{CV : !CrdtValues} `{SL : SliceLib} `{SLL : !SliceLaws SL} `{ML : MapLib} `{MLW : !MapLaws ML}
  `{ES : EthSliceLib} `{ESL : !EthSliceLaws ES} `{IL : IndexerLib} `{ILL : !IndexerLaws IL}
  `{CrL : CryptoLib} `{EC : EthCommonLib}
  `{AL : !AddressLaws} `{SA : StateAccountLib} `{SAL : !StateAccountLaws SA} `{TL : !TrieLib}
  {DB : Type} `{DL : !DBLib DB} `{DW : !DBWrites DL} `{MD : !DBLib memorydb}
  `{TS : !TrieSpec} `{TLW : !TrieLaws TS}.
Context {cell LC DS raw : Type} `{CL : CellLib Codec.crdt cell} `{CLW : !CellLaws CL}
  `{CaL : CacheLib Codec.crdt LC} `{CaLL : !CacheLaws CaL} `{CR : CrdtLib Codec.crdt raw}
  `{RW : RWStoreLib bytes DS} `{RWL : !RWStoreLaws RW} `{RWO : !RWWrites RW}.
Abbreviation Node := (NodeState cell LC DS DB).
Context `{KV : !KVsLib Node Codec.crdt} `{KVL : !KVsLaws KV}
  `{PoL : !PoolLib Node} `{PL : !PoolLaws PoL node_cells} `{CE : !CellEffects Node raw Codec.crdt}
  `{CB : !CellBatchLib Node} `{SoL : !SorterLaws (HL := node_cells) (CB := CB)}.
Context (RlpCodec_Decode : bytes -> Codec.crdt -> option (any Codec.crdt))
  (f : cell -> bool) (codec : string -> Codec.crdt -> string * bytes * option string)
  (decode : string -> bytes -> option Codec.crdt) (open : LC -> DS -> ROStore Codec.crdt).
Implicit Types (s : Node) (ts : list loc) (p : string) (this : StateCommitter Codec.crdt).
(** For a slice.MoveIf that leaves the array of the list of writers as it is: by
    [Proxies.node_start] a block can start with the committer only then. *)
Context (Halias : forall objs, slice_MoveIf_alias (fun w : loc * NodeWriter cell => w_IsSync w.2) objs = objs).

(** ** The committer of the routines *)
Lemma debug_committer s : eth_wf (n_eth s) ->
  exists this s0, (let! ws := GetWriters f codec in let! store := readonly RlpCodec_Decode in
      NewStateCommitter store ws) s = Ret (this, s0) /\
    idle f codec this s0 /\ length (writers this) = 3 /\ n_cells s0 = n_cells s /\ same_stores s s0 /\
    n_eth s0 = n_eth s /\ n_exec s0 = n_exec s.
Proof.
  intros Hwf. destruct (GetWriters_idle f codec (fun _ => None) s Hwf)
    as (wc & we & wd & s0 & EW & _ & Hc & Hs & He & Hx & _).
  destruct (GetWriters_idle f codec
    (fun p => match ExecStore.Get RlpCodec_Decode p s0 with Ret (v, _) => v | Panic => None end) s Hwf)
    as (wc' & we' & wd' & s0' & EW' & Hi & _).
  rewrite EW in EW'. injection EW' as <- <- <- <-.
  eexists _, s0. split; [|split; [exact Hi|by split_and!]].
  rewrite (gbind_eq _ _ _ _ _ EW). unfold readonly. rewrite gbind_assoc.
  unfold gget, gbind at 1. rewrite (gbind_eq _ _ _ _ _ (gret_eq _ s0)).
  destruct Hi as (wx & x1 & x2 & x3 & [Hws _ _ _ _] & _ & _ & Hwh & Hxh & _).
  destruct wx as [x|]; [discriminate Hws|]. injection Hws as <- <- <-.
  destruct (NewStateCommitter_run f codec (fun p => match ExecStore.Get RlpCodec_Decode p s0 with Ret (v, _) => v | Panic => None end)
    s0 None wc we wd [] [] [] ∅ [] Hwh Hxh) as (objs & Hobjs & EN).
  unfold left_by_MoveIf in EN. rewrite Halias, Hobjs in EN. exact EN.
Qed.
(** Neither an import nor a precommit changes the list of writers. *)
Lemma keeps_writers ts txs this this2 this3 s s2 s3 :
  Committer.Import ts this s = Ret (this2, s2) -> DebugPrecommit txs this2 s2 = Ret (this3, s3) ->
  writers this3 = writers this.
Proof.
  intros EI EP. unfold Committer.Import in EI. apply gbind_ret in EI as (mp & s1 & _ & EI).
  apply gbind_ret in EI as (mt & s1' & _ & EI). apply gbind_ret in EI as (? & ? & _ & [<- _]%gret_ret).
  unfold DebugPrecommit, Finalize in EP. apply gbind_ret in EP as (t & s4 & EF & EP).
  apply gbind_ret in EF as (? & ? & _ & EF). apply gbind_ret in EF as (? & ? & _ & [<- _]%gret_ret).
  apply gbind_ret in EP as (? & ? & _ & EP). by apply gbind_ret in EP as (? & ? & _ & [<- _]%gret_ret).
Qed.
(** The writers of the proxy do not feed the execution store. *)
Lemma proxy_feeds_none s gs this s1 : generations f codec s gs this s1 -> length (writers this) = 3 ->
  feeds_exec this s1 = false.
Proof.
  intros (wx & wc & we & wd & gc & es & gx & Hinv)%generations_inv Hl.
  rewrite (feeds_exec_spec _ _ _ _ _ _ _ _ _ _ _ _ _ Hinv).
  pose proof (co_writers _ _ _ _ _ (gi_committer _ _ _ _ _ _ _ _ _ _ _ _ _ Hinv)) as Hw.
  rewrite Hw in Hl. by destruct wx.
Qed.

(** ** The block of the routines *)
(** What the exported transitions [ts] leave to read. *)
Lemma commit_debug_run ts s : eth_wf (n_eth s) -> exec_ready (n_cells s) (n_exec s) ->
  exports (n_cells s) (n_exec s) ts -> coherent decode (n_cache s) (n_backend s) ->
  exists this2 s2, load_debug RlpCodec_Decode f codec ts s = Ret (this2, s2) /\
    loaded ts (n_cells s) (n_cells s2) /\ (forall ad, view_at (n_eth s2) ad = view_at (n_eth s) ad) /\
    (block_ready f (n_cells s2) [1%Z] ts (n_eth s2) ->
     (forall p v, (p, Some v) ∈ executions_entry f [n_exec s] (n_cells s) (n_cells s2) [1%Z] p ->
        survives codec decode p v) ->
     exists s', commit_debug RlpCodec_Decode f codec open ts s = Ret (tt, s') /\
       coherent decode (n_cache s') (n_backend s') /\
       committedStore (n_exec s') = Some (open (n_cache s') (n_backend s')) /\
       forall p, shown decode (n_cache s') (n_backend s') p =
         executions_spec f [n_exec s] (n_cells s) (n_cells s2) [1%Z] (shown decode (n_cache s) (n_backend s)) p).
Proof.
  intros Hwf Hr Hx Hco. destruct (debug_committer s Hwf) as (this & s0 & EN & Hi & Hl & Hc & [Hca Hba] & He & _).
  destruct (exported_block f codec decode 10 [n_exec s] ts this s0 Hi) as (this2 & s2 & EI & Hlo & Hv & Hrun).
  { rewrite Hc. by apply Forall_cons_2. }
  { rewrite Hc. split; [apply Hx|]. exists [ts]. split; [by cbn; rewrite app_nil_r|].
    constructor; [exact Hx|constructor]. }
  { by rewrite Hca, Hba. }
  rewrite Hc, Hca, Hba in Hrun. rewrite Hc in Hlo.
  assert (EL : load_debug RlpCodec_Decode f codec ts s = Ret (this2, s2)).
  { unfold load_debug. rewrite <- EI. transitivity ((let! c := (let! ws := GetWriters f codec in
      let! store := readonly RlpCodec_Decode in NewStateCommitter store ws) in Committer.Import ts c) s);
      [|by rewrite (gbind_eq _ _ _ _ _ EN)].
    rewrite gbind_assoc. apply gbind_ext. intros ws s1. by rewrite gbind_assoc. }
  exists this2, s2. split; [exact EL|]. split; [exact Hlo|].
  split; [intros ad; by rewrite Hv, He|]. intros Hbr Hsv.
  destruct (Hrun [1%Z] Hbr Hsv) as (this3 & s3 & EP & Hg3 & Hcm).
  destruct Hcm as (s4 & ECm & Hco4 & Hsh).
  { intros Hf. rewrite (proxy_feeds_none s0 _ this3 s3 Hg3) in Hf; [done|].
    by rewrite (keeps_writers ts [1%Z] this this2 this3 s0 s2 s3 EI EP). }
  eexists. split; [unfold commit_debug;
    rewrite (gbind_eq _ _ _ _ _ EL), (gbind_eq _ _ _ _ _ EP), (gbind_eq _ _ _ _ _ ECm); reflexivity|].
  split; [exact Hco4|]. split; [reflexivity|]. exact Hsh.
Qed.

(** An accepted transition: one that skips the conflict check, or of the
    transaction 1, the only one the routines accept. *)
Definition harness_accepts (h : gmap loc cell) (l : loc) : bool := skip_at h l || (tx_at h l =? 1)%Z.
Lemma harness_rejected h l : rejected h [1%Z] l = negb (harness_accepts h l).
Proof.
  unfold rejected, harness_accepts, in_whitelist. cbn [length Nat.eqb negb andb].
  destruct (skip_at h l); [done|]. cbn [negb orb andb]. f_equal.
  destruct (Z.eqb_spec (tx_at h l) 1) as [->|Hn]; [done|].
  apply bool_decide_eq_false. by intros ?%list_elem_of_singleton.
Qed.
Lemma execution_rejected ts st h0 h get p : exec_typed st h0 -> loaded ts h0 h ->
  (forall l, accessed h0 p st = Some l -> harness_accepts h0 l = false) ->
  executions_spec f [st] h0 h [1%Z] get p = get p.
Proof.
  intros Ht [Hm _] Hr. unfold executions_spec, executions_entry, accepted_at. cbn [omap list_omap].
  destruct (accessed h0 p st) as [l|] eqn:E; [|done].
  destruct (accessed_typed st h0 p l Ht E) as (c & Hc & _). specialize (Hr l eq_refl).
  pose proof (meta_at _ _ l Hm ltac:(by eexists)) as Em. injection Em as _ Etx Esk _.
  cbn [List.filter]. rewrite harness_rejected. unfold harness_accepts, skip_at, tx_at in *.
  by rewrite <- Etx, <- Esk, Hr.
Qed.

(** [InjectTransitions] takes what it injected through a block of its own:
    it returns the joined errors of the injections, the execution store reads
    the stores as they are after the block, and there every path of an accepted
    cell has what merging no deltas into that cell gives, if the filter keeps
    it, and the others what they had.  Only the
    transaction 1 is on the list of the block, while the cells are injected as
    SYSTEM: a cell that does not skip the conflict check leaves nothing, and no
    error tells so. *)
Theorem InjectTransitions_commits keys vals err s s1 :
  is_Some (committedStore (n_exec s)) -> inject_all keys vals None s = Ret (err, s1) ->
  eth_wf (n_eth s1) -> exec_ready (n_cells s1) (n_exec s1) -> coherent decode (n_cache s1) (n_backend s1) ->
  exists ts this2 s2, Export [Some Sorter] s1 = Ret (ts, s1) /\
    load_debug RlpCodec_Decode f codec ts s1 = Ret (this2, s2) /\
    (forall ad, view_at (n_eth s2) ad = view_at (n_eth s1) ad) /\
    (block_ready f (n_cells s2) [1%Z] ts (n_eth s2) ->
     (forall p v, (p, Some v) ∈ executions_entry f [n_exec s1] (n_cells s1) (n_cells s2) [1%Z] p ->
        survives codec decode p v) ->
     exists s', InjectTransitions RlpCodec_Decode f codec open keys vals s = Ret (err, s') /\
       committedStore (n_exec s') = Some (open (n_cache s') (n_backend s')) /\
       (forall p, shown decode (n_cache s') (n_backend s') p =
          executions_spec f [n_exec s1] (n_cells s1) (n_cells s2) [1%Z] (shown decode (n_cache s1) (n_backend s1)) p) /\
       forall p, (forall l, accessed (n_cells s1) p (n_exec s1) = Some l -> harness_accepts (n_cells s1) l = false) ->
         shown decode (n_cache s') (n_backend s') p = shown decode (n_cache s1) (n_backend s1) p).
Proof.
  intros [ro Hro] EJ Hwf Hr Hco.
  destruct (Export_exports [Some Sorter] (n_exec s1) s1 Hr (or_intror eq_refl)) as (ts & EX & Hx).
  change (n_exec s1) with (obj_of s1) in EX. rewrite with_obj_obj in EX.
  destruct (commit_debug_run ts s1 Hwf Hr Hx Hco) as (this2 & s2 & EL & Hlo & Hv & Hrun).
  exists ts, this2, s2. do 3 (split; [done|]). intros Hbr Hsv.
  destruct (Hrun Hbr Hsv) as (s' & ECm & _ & Hopen & Hsh). exists s'. split; [|split; [exact Hopen|split; [exact Hsh|]]].
  - unfold InjectTransitions, CommittedStore, this. rewrite !gbind_assoc. unfold gget, gbind at 1.
    rewrite !(gbind_eq _ _ _ _ _ (gret_eq _ s)).
    change (obj_of s) with (n_exec s). rewrite Hro.
    by rewrite (gbind_eq _ _ _ _ _ EJ), (gbind_eq _ _ _ _ _ EX), (gbind_eq _ _ _ _ _ ECm).
  - intros p Hrj. rewrite Hsh. by apply (execution_rejected ts); [apply Hr| |].
Qed.
End theory.
