(* ===== verification/Reference.v ===== *)
(** * A reference instance of the interfaces

    A small concrete implementation of every class of Interfaces.v and of the
    store, with the proof of its laws: the laws are consistent, and the model
    can be evaluated.  Nothing here describes the packages themselves. *)
From S2P Require Import Prelude GoString GoSort Interfaces Heap PathBuilder.

#[export] Instance ref_types : TypeIDs := {|
  PATH := 101; UINT64 := 102; UINT256 := 103; INT64 := 104;
  STRING := 105; BIGINT := 106; BYTES := 107; INT64_NC := 108 |}%Z.

(** ** Slices and maps *)

(** Filtering in place: the old header still sees all the slots. *)
Definition ref_alias {A} (p : A -> bool) (l : list A) : list A :=
  let kept := List.filter (fun x => negb (p x)) l in kept ++ drop (length kept) l.

#[export] Instance ref_slice : SliceLib := {|
  slice_RemoveIf A p l := List.filter (fun x => negb (p x)) l;
  slice_RemoveIf_alias A p l := ref_alias p l;
  slice_MoveIf A p l := (List.filter p l, List.filter (fun x => negb (p x)) l);
  slice_MoveIf_alias A p l := ref_alias p l;
  slice_MoveBothIf A B p ks vs :=
    (split (List.filter (fun kv => p kv.1 kv.2) (combine ks vs)),
     split (List.filter (fun kv => negb (p kv.1 kv.2)) (combine ks vs)));
  slice_SortBy1st A B lt ks vs := split (SliceStable (fun x y => lt x.1 y.1) (combine ks vs));
  slice_ParallelTransform S A B f l := gmap_list f l;
  slice_ConcateDo A B l size f := List.concat (map f l) |}.

Lemma filter_all {A} (p : A -> bool) l :
  (forall x, List.In x l -> p x = true) -> List.filter p l = l.
Proof.
  induction l as [|x l IH]; intros Hp; simpl; [done|].
  rewrite Hp by (by left). f_equal. apply IH. intros y Hy. apply Hp. by right.
Qed.

Lemma ref_alias_id {A} (p : A -> bool) l :
  (forall x, List.In x l -> p x = false) -> ref_alias p l = l.
Proof.
  intros Hp. unfold ref_alias.
  rewrite filter_all; [by rewrite drop_all, app_nil_r|]. intros x Hx. by rewrite Hp.
Qed.

Lemma sorted_fst {A B} (R : A -> A -> Prop) (l : list (A * B)) :
  StronglySorted (fun x y => R x.1 y.1) l -> StronglySorted R (split l).1.
Proof.
  induction l as [|[a b] l IH]; intros Hs; simpl; [constructor|].
  apply StronglySorted_inv in Hs as [Hs HF]. specialize (IH Hs).
  destruct (split l) as [la lb] eqn:E. simpl in *. constructor; [done|].
  clear -HF E. revert la lb E. induction l as [|[a' b'] l IH]; intros la lb E; simpl in E; simplify_eq; [done|].
  destruct (split l) as [la' lb']. simplify_eq. inversion HF; subst. constructor; [done|]. by eapply IH.
Qed.

#[export] Instance ref_slice_laws : SliceLaws ref_slice.
Proof.
  constructor; try done.
  - intros A p l Hp. by apply ref_alias_id.
  - intros A p l Hp. by apply ref_alias_id.
  - intros A B lt ks vs Hl. cbn. set (l := SliceStable _ _).
    rewrite length_fst_split, length_snd_split.
    split; [done|]. destruct (split l) as [ka va] eqn:E. cbn.
    rewrite (split_combine _ E). apply SliceStable_perm.
  - intros A B lt ks vs Hl Htr Hirr Htot. cbn. apply (sorted_fst (fun x y => lt y x = false)).
    apply SliceStable_sorted.
    + intros [x ?] [y ?] [z ?] H1 H2. simpl in *. destruct (lt z x) eqn:E; [|done].
      destruct (lt x y) eqn:E2; [by rewrite (Htr z x y) in H2|].
      rewrite (Htot x y) in E by done. congruence.
    + intros [x ?] [y ?] H1. simpl in *. destruct (lt y x) eqn:E; [|done].
      rewrite <- (Hirr x). symmetry. by eapply Htr.
    + done.
  - intros S A B f g l s Hf. cbn. unfold gmap_list.
    enough (H : forall acc, gfold (fun acc x => let! b := f x in gret (acc ++ [b])) acc l s
                  = Ret (acc ++ map g l, s)) by apply H.
    induction l as [|x l IH]; intros acc; cbn [gfold map]; [by rewrite app_nil_r|].
    unfold gbind at 1 2. rewrite Hf by (by left). unfold gret at 1. rewrite IH.
    + by rewrite <- app_assoc.
    + intros y Hy. apply Hf. by right.
Qed.

#[export] Instance ref_map : MapLib := {|
  map_KVs K A _ _ m := split (map_to_list m) |}.
#[export] Instance ref_map_laws : MapLaws ref_map.
Proof.
  constructor.
  - intros. cbn. by rewrite length_fst_split, length_snd_split.
  - intros. cbn. destruct (split _) as [ks vs] eqn:E. cbn. by rewrite (split_combine _ E).
Qed.

#[export] Instance ref_indexer : IndexerLib := {|
  idx_Import S K V T _ _ key init upd ts m :=
    gfold (fun m v =>
      let! '(k, ok) := key v in
      if ok : bool then
        match m !! k with
        | Some x => gret (<[k := upd k v x]> m)
        | None => let! x := init k v in gret (<[k := x]> m)
        end
      else gret m) m ts;
  idx_order K V _ _ m := map fst (map_to_list m) |}.
#[export] Instance ref_indexer_laws : IndexerLaws ref_indexer.
Proof. by constructor. Qed.

(** ** Stores *)
#[export] Instance ref_cache V : CacheLib V (gmap string V) := {|
  cache_Get m k := m !! k;
  cache_DeleteBatch ks m := fold_left (fun m k => delete k m) ks m;
  cache_SetBatch ks vs m := fold_left (fun m kv => <[kv.1 := kv.2]> m) (combine ks vs) m;
  cache_Evict m := m |}.

Lemma fold_delete_lookup {V} ks (m : gmap string V) k :
  fold_left (fun m k => delete k m) ks m !! k = if decide (k ∈ ks) then None else m !! k.
Proof.
  revert m. induction ks as [|k0 ks IH]; intros m; simpl; [done|]. rewrite IH.
  destruct (decide (k0 = k)) as [->|Hne].
  - rewrite lookup_delete_eq, (decide_True (P := k ∈ k :: ks)) by (by left). by case_decide.
  - rewrite lookup_delete_ne by done. apply decide_ext. rewrite elem_of_cons. naive_solver.
Qed.
Lemma fold_insert_lookup {V} (kvs : list (string * V)) (m : gmap string V) k :
  fold_left (fun m kv => <[kv.1 := kv.2]> m) kvs m !! k =
    match List.find (fun kv => bool_decide (kv.1 = k)) (rev kvs) with
    | Some kv => Some kv.2
    | None => m !! k
    end.
Proof.
  induction kvs as [|[k0 v] kvs IH] using rev_ind; [done|].
  rewrite fold_left_app, rev_app_distr. cbn [rev app List.find fold_left fst snd].
  case_bool_decide as Hk; [subst; apply lookup_insert_eq|]. by rewrite lookup_insert_ne.
Qed.

#[export] Instance ref_cache_laws V : CacheLaws (ref_cache V).
Proof.
  constructor; cbn.
  - intros. apply fold_delete_lookup.
  - intros. apply fold_insert_lookup.
  - done.
Qed.

#[export] Instance ref_store V : RWStoreLib V (gmap string V) := {|
  rw_Get m k := m !! k;
  rw_DeleteBatch ks m := fold_left (fun m k => delete k m) ks m;
  rw_SetBatch ks vs m :=
    (map (fun _ => None) ks, fold_left (fun m kv => <[kv.1 := kv.2]> m) (combine ks vs) m) |}.
#[export] Instance ref_store_laws V : RWStoreLaws (ref_store V).
Proof.
  constructor; cbn.
  - intros. apply fold_delete_lookup.
  - intros ks vs c c' errs k Hl [= <- <-] _. apply fold_insert_lookup.
Qed.

(** ** Cells *)
(** A counter, a text, and a container: its keys, and whether it is bound to
    the block. *)
Inductive rcrdt := RCounter (z : Z) | RText (t : string) | RPath (ks : list string) (bound : bool).
Record rcell := MkRCell {
  rc_path : option string;
  rc_tx : Z;
  rc_value : option (any rcrdt);
  rc_reads : Z; rc_writes : Z; rc_deltas : Z;
  rc_preexist : bool; rc_skip : bool; rc_bound : bool;
}.

Definition ref_merge (v w : option (any rcrdt)) : option (option (any rcrdt)) :=
  match v, w with
  | Some (IsCRDT (RCounter a)), Some (IsCRDT (RCounter b)) => Some (Some (IsCRDT (RCounter (a + b))))
  | _, Some (IsBytes _) => None
  | _, w => Some w
  end.

#[export] Instance ref_cell : CellLib rcrdt rcell := {|
  cell_zero := MkRCell None 0 None 0 0 0 false false false;
  cell_Init tx p r w d v b c := MkRCell (Some p) tx v r w d b false false;
  NewStateCell tx p r w d v := MkRCell (Some p) tx (IsCRDT <$> v) r w d false false false;
  GetPath := rc_path;
  SetPath p c := MkRCell p (rc_tx c) (rc_value c) (rc_reads c) (rc_writes c) (rc_deltas c)
    (rc_preexist c) (rc_skip c) (rc_bound c);
  GetTx := rc_tx;
  Value := rc_value;
  SetValue v c := MkRCell (rc_path c) (rc_tx c) v (rc_reads c) (rc_writes c) (rc_deltas c)
    (rc_preexist c) (rc_skip c) (rc_bound c);
  IncrementWrites n c := MkRCell (rc_path c) (rc_tx c) (rc_value c) (rc_reads c) (rc_writes c + n)
    (rc_deltas c) (rc_preexist c) (rc_skip c) (rc_bound c);
  IsBlockBound := rc_bound;
  SetBlockBound b c := MkRCell (rc_path c) (rc_tx c) (rc_value c) (rc_reads c) (rc_writes c)
    (rc_deltas c) (rc_preexist c) (rc_skip c) b;
  IsCommitted := rc_preexist;
  PathLookupOnly c := (rc_writes c =? 0)%Z && (rc_deltas c =? 0)%Z && (rc_reads c =? 0)%Z;
  IfSkipConflictCheck := rc_skip;
  DebugSetPreexist b c := MkRCell (rc_path c) (rc_tx c) (rc_value c) (rc_reads c) (rc_writes c)
    (rc_deltas c) b (rc_skip c) (rc_bound c);
  ApplyDelta c ds :=
    v ← fold_left (fun v d => v ≫= fun v => ref_merge v (rc_value d)) ds (Some (rc_value c));
    Some (MkRCell (rc_path c) (rc_tx c) v (rc_reads c) (rc_writes c) (rc_deltas c)
      (rc_preexist c) (rc_skip c) (rc_bound c));
  crdt_Preload get k v := v |}%Z.
#[export] Instance ref_cell_laws : CellLaws ref_cell.
Proof.
  constructor; try done.
  intros c ds c'. cbn. destruct (fold_left _ _ _) as [v|]; [|done]. simpl. by intros [= <-].
Qed.

(** ** hexutil *)
Definition hex_digit (n : Z) : ascii :=
  ascii_of_nat (Z.to_nat (if (n <? 10)%Z then 48 + n else 87 + n)).
Fixpoint hex_digits (bs : bytes) : string :=
  match bs with
  | [] => ""
  | b :: r => String (hex_digit (b / 16)) (String (hex_digit (b mod 16)) (hex_digits r))
  end.
#[export] Instance ref_hex : HexCodecLib := {|
  hexutil_Encode bs := "0x" +:+ hex_digits bs;
  codec_Uint64_FromBytes bs := fold_right (fun b acc => b + 256 * acc)%Z 0%Z bs |}.
#[export] Instance ref_hex_laws : HexCodecLaws ref_hex.
Proof.
  constructor.
  - intros bs. apply HasPrefix_spec. by eexists.
  - intros bs. cbn. do 2 f_equal. induction bs as [|b bs IH]; simpl; [done|].
    rewrite IH. lia.
Qed.

(** ** The store: the cells, the writers [W], and two stores *)
Record RWorld (W : Type) := MkRWorld {
  rw_cells : gmap loc rcell;
  rw_writers : gmap loc W;
  rw_cache : gmap string rcrdt;
  rw_db : gmap string string;
}.
Arguments MkRWorld {W}. Arguments rw_cells {W}. Arguments rw_writers {W}.
Arguments rw_cache {W}. Arguments rw_db {W}.

#[export] Instance ref_heap W : HeapLens (RWorld W) rcell := {|
  heap_of := rw_cells;
  with_heap h s := MkRWorld h (rw_writers s) (rw_cache s) (rw_db s) |}.
#[export] Instance ref_heap_laws W : HeapLensLaws (ref_heap W).
Proof. constructor; by intros; destruct s. Qed.
#[export] Instance ref_writers W : HeapLens (RWorld W) W := {|
  heap_of := rw_writers;
  with_heap h s := MkRWorld (rw_cells s) h (rw_cache s) (rw_db s) |}.
#[export] Instance ref_writers_laws W : HeapLensLaws (ref_writers W).
Proof. constructor; by intros; destruct s. Qed.
#[export] Instance ref_indep W : LensIndep (ref_heap W) (ref_writers W).
Proof. by constructor. Qed.
#[export] Instance ref_cache_obj W : ObjLens (RWorld W) (gmap string rcrdt) := {|
  obj_of := rw_cache;
  with_obj c s := MkRWorld (rw_cells s) (rw_writers s) c (rw_db s) |}.
#[export] Instance ref_cache_obj_laws W : ObjLensLaws (ref_cache_obj W).
Proof. constructor; by intros; destruct s. Qed.
#[export] Instance ref_db_obj W : ObjLens (RWorld W) (gmap string string) := {|
  obj_of := rw_db;
  with_obj c s := MkRWorld (rw_cells s) (rw_writers s) (rw_cache s) c |}.
#[export] Instance ref_db_obj_laws W : ObjLensLaws (ref_db_obj W).
Proof. constructor; by intros; destruct s. Qed.
#[export] Instance ref_cells_cache W : ObjIndep (ref_heap W) (ref_cache_obj W).
Proof. by constructor. Qed.
#[export] Instance ref_writers_cache W : ObjIndep (ref_writers W) (ref_cache_obj W).
Proof. by constructor. Qed.

Definition ref_cell_at (p : string) (tx : Z) (v : option rcrdt) : rcell :=
  MkRCell (Some p) tx (IsCRDT <$> v) 0 1 0 false false false.
Definition ref_world {W} (cs : list rcell) (ws : list W) : RWorld W :=
  MkRWorld (list_to_map (imap pair cs)) (list_to_map (imap pair ws)) ∅ ∅.
