(* ===== verification/Witnesses.v ===== *)
(** * The theorems at concrete inputs

    For each theorem with hypotheses, an instance of it where they hold, with
    the interfaces instantiated by Reference.v. *)
From S2P Require Import Prelude GoString Interfaces Heap Paths PathsTheory PathBuilder DeltaSequence DeltaSequenceTheory Committer CommitterTheory LiveCache LiveStorage LiveTheory Pipeline Reference.
Import Constants PathTypes Platform.

Definition acct1 : string := "0x1111111111111111111111111111111111111111".
Definition acct2 : string := "0x2222222222222222222222222222222222222222".

(** ** Paths *)
Lemma acct1_name : account_name acct1.
Proof. split; [reflexivity|]. vm_compute. congruence. Qed.

Lemma GetParentPath_child_witness : GetParentPath ("a/b/" +:+ "c/") = ("a/b/", "c/").
Proof. apply (GetParentPath_child "a/b/" "c/"); [reflexivity|]. split; [done|]. vm_compute. done. Defined.

Lemma ShouldPersistToEth_spec_witness :
  ShouldPersistToEth (account_root acct1 +:+ String slash "storage/native/x") = true.
Proof. rewrite ShouldPersistToEth_spec; [reflexivity|apply acct1_name|done]. Defined.

Lemma ShouldPersistToEth_container_field_witness :
  ShouldPersistToEth (account_root acct1 +:+ (PATH_STORAGE_CONTAINER +:+ ("ctn" +:+ PATH_BALANCE))) = true.
Proof.
  apply (ShouldPersistToEth_container_field acct1 "ctn" PATH_BALANCE);
    [apply acct1_name|right; left; reflexivity].
Defined.

Lemma GetDefault_spec_witness :
  (GetDefault NewPlatform acct1).1 !! 1 = Some (ETH_ACCOUNT_PREFIX +:+ (acct1 +:+ PATH_BALANCE)).
Proof. rewrite GetDefault_spec. reflexivity. Defined.

Lemma IsImmediateChildOfSysPath_account_witness :
  IsImmediateChildOfSysPath NewPlatform (account_root acct1 +:+ ("/storage/container/ctn/" +:+ "k")) = false.
Proof.
  rewrite IsImmediateChildOfSysPath_account; [|apply acct1_name|reflexivity|].
  - vm_compute. reflexivity.
  - split; [done|]. vm_compute. done.
Defined.

Lemma ETHAccountShard_bounds_witness :
  exists i, ETHAccountShard (fun c => Z.of_nat (nat_of_ascii c)) 4 acct1 = Some i /\ (0 <= i < 4)%Z.
Proof. apply (ETHAccountShard_bounds (fun c => Z.of_nat (nat_of_ascii c))); [lia|lia|vm_compute; lia]. Defined.

Lemma ETHAccountShard_constant_witness :
  ETHAccountShard (fun c => Z.of_nat (nat_of_ascii c)) 4 (account_root acct1 +:+ "/nonce") =
  ETHAccountShard (fun c => Z.of_nat (nat_of_ascii c)) 4 (account_root acct2 +:+ "/code").
Proof. apply ETHAccountShard_constant; reflexivity. Defined.

(** ** The path builder *)
Lemma ParseAddressAndSelector_0x_witness :
  DeriveUIDFromPath (ETH_ACCOUNT_PREFIX +:+ (acct1 +:+ "/profiles/aabbccdd/x")) NewEthPathBuilder
    = (0%Z, NewEthPathBuilder).
Proof. apply (ParseAddressAndSelector_0x acct1); reflexivity. Defined.

Lemma ProfileField_not_parsed_witness :
  (NewPathBuilderFromPath (ProfileField "parallelism" NewEthPathBuilder)).2 <> None.
Proof. apply ProfileField_not_parsed. reflexivity. Defined.

(** ** Delta sequences and the committer.  Transaction 1 counts 1 on "a" and 5
    on "b"; the system then adds 10 to "a", transaction 2 adds 2 to "a"; the
    last transition is exempt from conflict checking. *)
Definition w_cells : list rcell :=
  [ref_cell_at "a" 1 (Some (RCounter 1)); ref_cell_at "b" 1 (Some (RCounter 5));
   ref_cell_at "a" SYSTEM (Some (RCounter 10)); ref_cell_at "a" 2 (Some (RCounter 2));
   MkRCell (Some "a") SYSTEM (Some (IsCRDT (RCounter 20))) 0 1 0 false true false].
Definition w_ts : list loc := [0; 1; 2; 3; 4].
Abbreviation Wr := (LiveCache.LiveCacheWriter rcrdt rcell).
Definition all_cells : rcell -> bool := fun _ => true.
Definition w_writer : Wr := LiveCache.MkLiveCacheWriter
  (LiveCache.MkLiveCacheIndexer 0 [] w_ts [] [] all_cells) [] 0 all_cells.
Definition w_world : RWorld Wr := ref_world w_cells [w_writer].
Abbreviation w_heap := (heap_of w_world : gmap loc rcell).

Ltac each_loc := repeat match goal with
  | H : _ ∈ _ :: _ |- _ => apply elem_of_cons in H as [H|H]; [try subst|]
  | H : _ ∈ [] |- _ => by apply elem_of_nil in H
  end.

Lemma w_live : live w_heap w_ts.
Proof. intros l Hl. unfold w_ts in Hl. each_loc; by repeat eexists. Qed.
Lemma w_NoDup : NoDup w_ts.
Proof. apply (bool_decide_unpack _). vm_compute. done. Qed.
Lemma w_valid : valid w_heap w_ts.
Proof. apply live_valid, w_live. Qed.

Lemma sort_spec_witness : exists q, DeltaSequence.sort w_ts w_world = Ret (q, w_world) /\
  Permutation q w_ts.
Proof. destruct (sort_spec w_ts w_world w_valid) as (q & E & Hp & _). by exists q. Defined.

Lemma sort_reverses_system_witness : exists q, DeltaSequence.sort w_ts w_world = Ret (q, w_world) /\
  List.filter (fun l => tx_at w_heap l =? SYSTEM)%Z q = [4; 2].
Proof.
  destruct (sort_reverses_system w_ts w_world w_valid) as (q & E & Hf). exists q.
  split; [exact E|]. etrans; [exact Hf|]. vm_compute. reflexivity.
Defined.

Lemma Finalize_spec_witness : exists h', DeltaSequence.Finalize [0; 2; 3] w_world =
    Ret (Some 2, with_heap (h' : gmap loc rcell) w_world) /\
  h' !! 2 = Some (MkRCell (Some "a") SYSTEM (Some (IsCRDT (RCounter 13))) 0 1 0 false false false).
Proof.
  destruct (Finalize_spec [0; 2; 3] w_world) as (h' & E & H2 & _).
  - intros l Hl. apply w_live. unfold w_ts. set_solver.
  - apply (bool_decide_unpack _). vm_compute. done.
  - exists h'. split; [exact E|exact H2].
Defined.

Definition no_store : string -> option (any rcrdt) := fun _ => None.
Definition w_committer : StateCommitter rcrdt :=
  MkStateCommitter no_store [0] [0] [] {["a" := [0; 2; 3; 4]; "b" := [1]]}
    {[1%Z := [0; 1]; 2%Z := [3]; SYSTEM := [2]]} no_store.
Definition w_empty : StateCommitter rcrdt := MkStateCommitter no_store [0] [0] [] ∅ ∅ no_store.

Lemma w_importable : importable w_heap w_ts.
Proof. intros l Hl. unfold w_ts in Hl. each_loc; by repeat eexists. Qed.
Lemma w_indexed : indexed w_heap w_ts w_committer.
Proof.
  constructor; [apply w_live|apply w_NoDup| |].
  - intros p. destruct (decide (p = "a")) as [->|Ha]; [vm_compute; reflexivity|].
    destruct (decide (p = "b")) as [->|Hb]; [vm_compute; reflexivity|].
    unfold w_committer. cbn [byPath]. rewrite lookup_insert_ne, lookup_singleton_ne by congruence.
    unfold group. rewrite filter_none; [done|]. intros l Hl. apply bool_decide_eq_false.
    unfold w_ts in Hl. each_loc; vm_compute; congruence.
  - intros t. destruct (decide (t = 1%Z)) as [->|H1]; [vm_compute; reflexivity|].
    destruct (decide (t = 2%Z)) as [->|H2]; [vm_compute; reflexivity|].
    destruct (decide (t = SYSTEM)) as [->|H3]; [vm_compute; reflexivity|].
    unfold w_committer. cbn [byTxID]. rewrite !lookup_insert_ne, lookup_singleton_ne by congruence.
    unfold txgroup. rewrite filter_none; [done|]. intros l Hl.
    apply andb_false_iff. unfold w_ts in Hl.
    each_loc; [right|right|right|right|by left]; by apply Z.eqb_neq; intros <-.
Qed.
Lemma w_empty_indexed : indexed w_heap [] w_empty.
Proof. constructor; [by intros l ?%elem_of_nil|constructor|done|done]. Qed.

Lemma ref_ApplyDelta_total (c : rcell) ds :
  is_raw c = false -> (forall d, d ∈ ds -> is_raw d = false) ->
  exists c', ApplyDelta c ds = Some c' /\ is_raw c' = false.
Proof.
  intros Hc Hds. cbn.
  assert (H : forall v, match v with Some (IsBytes _) => true | _ => false end = false ->
    exists v', fold_left (fun v d => v ≫= fun v => ref_merge v (rc_value d)) ds (Some v) = Some v' /\
      match v' with Some (IsBytes _) => true | _ => false end = false).
  { clear Hc. induction ds as [|d ds IH]; intros v Hv; cbn [fold_left]; [eauto|].
    pose proof (Hds d ltac:(by left)) as Hd. unfold is_raw in Hd. cbn in Hd.
    destruct (ref_merge v (rc_value d)) as [v1|] eqn:E.
    - cbn [mbind option_bind]. rewrite E. apply IH; [intros x Hx; apply Hds; by right|].
      destruct v as [[[]|]|], (rc_value d) as [[[]|]|]; simpl in *; simplify_eq; done.
    - destruct v as [[[]|]|], (rc_value d) as [[[]|]|]; simpl in *; done. }
  destruct (H (rc_value c) Hc) as (v & -> & Hv). eexists. by split.
Qed.
Lemma w_not_raw l : is_raw (cell_at w_heap l) = false.
Proof.
  unfold cell_at. destruct (w_heap !! l) as [c|] eqn:E; [|done].
  apply elem_of_list_to_map_2 in E. cbn in E. each_loc; simplify_eq; done.
Qed.
Lemma w_deltas_apply txs ts : deltas_apply w_heap txs ts.
Proof.
  intros p. unfold merge_deltas. destruct (order_of _ _) as [|l0 rest]; [eauto|].
  destruct (ref_ApplyDelta_total (cell_at w_heap l0) (map (cell_at w_heap) rest)) as (c & -> & _);
    [apply w_not_raw| |eauto].
  intros d Hd. apply list_elem_of_In, in_map_iff in Hd as (l & <- & _). apply w_not_raw.
Qed.
Lemma w_merged_typed txs ts : merged_typed w_heap txs ts.
Proof.
  intros p c. unfold merged_cell. destruct (order_of _ _) as [|l0 rest]; [done|].
  destruct (ref_ApplyDelta_total (cell_at w_heap l0) (map (cell_at w_heap) rest)) as (c' & E & Hr);
    [apply w_not_raw| |congruence].
  intros d Hd. apply list_elem_of_In, in_map_iff in Hd as (l & <- & _). apply w_not_raw.
Qed.

Lemma Import_indexed_witness : exists this' s', Committer.Import w_ts w_empty w_world = Ret (this', s') /\
  indexed (heap_of s') w_ts this'.
Proof.
  destruct (Import_indexed (HL := ref_heap Wr) (SW := LiveCache_StoreWriter (OL := ref_cache_obj Wr))
    [] w_ts w_empty w_world)
    as (this' & s' & E & Hx & _).
  - apply w_empty_indexed.
  - apply w_importable.
  - apply w_NoDup.
  - intros l ->%list_elem_of_singleton. by eexists.
  - by exists this', s'.
Defined.

Lemma whitelist_spec_witness : exists h', whitelist [2]%Z w_committer w_world = Ret (tt, with_heap h' w_world) /\
  path_at h' 0 = None /\ path_at h' 3 <> None /\ path_at h' 4 <> None.
Proof.
  destruct (whitelist_spec [2]%Z w_ts w_committer w_world w_indexed) as (h' & E & Hp & _).
  exists h'. split; [exact E|]. rewrite !Hp by (apply list_elem_of_In; vm_compute; tauto).
  split; [|split].
  - vm_compute. split; [done|]. split; [done|]. intros H. by apply list_elem_of_In in H as [|[]].
  - intros (_ & _ & H). apply H. vm_compute. left.
  - intros (_ & H & _). discriminate H.
Defined.

Lemma Finalize_one_per_path_witness : exists h',
  Committer.Finalize [1; 2]%Z w_committer w_world = Ret (cleared w_committer, with_heap h' w_world) /\
  group h' w_ts "a" = [4] /\ group h' w_ts "b" = [1] /\ group h' w_ts "c" = [].
Proof.
  destruct (Finalize_one_per_path [1; 2]%Z w_ts w_committer w_world w_indexed (w_deltas_apply _ _))
    as (h' & E & Hg & _).
  exists h'. split; [exact E|]. rewrite !Hg.
  split; [vm_compute; reflexivity|split; vm_compute; reflexivity].
Defined.

Lemma Finalize_merges_witness : exists h',
  Committer.Finalize [1; 2]%Z w_committer w_world = Ret (cleared w_committer, with_heap h' w_world) /\
  (Value <$> h' !! 4) = Some (Some (IsCRDT (RCounter 23))).
Proof.
  destruct (Finalize_merges [1; 2]%Z w_ts w_committer w_world "a" 4 [0; 3] w_indexed (w_deltas_apply _ _))
    as (h' & E & Hm); [vm_compute; reflexivity|].
  exists h'. split; [exact E|]. rewrite Hm. vm_compute. reflexivity.
Defined.

Lemma finalize_order_irrelevant_witness : exists h1 : gmap loc rcell,
  gforeach (finalize_path w_committer) ["a"; "b"] (with_heap h1 w_world) =
  gforeach (finalize_path w_committer) ["b"; "a"] (with_heap h1 w_world).
Proof.
  destruct (whitelist_eq [1; 2]%Z w_ts w_committer w_world w_indexed) as (h1 & E & _). exists h1.
  apply (finalize_order_irrelevant [1; 2]%Z w_ts w_committer w_world ["a"; "b"] ["b"; "a"] h1);
    [apply w_indexed|apply w_deltas_apply|exact E| |].
  - vm_compute. solve_Permutation.
  - apply perm_swap.
Defined.

(** ** The writers *)
Definition v_cells : list rcell :=
  [ref_cell_at "a" 1 (Some (RCounter 1)); ref_cell_at "b" 1 (Some (RText "x"));
   ref_cell_at "a" 2 None].
Definition v_writer (bufs : list (list loc)) : Wr := LiveCache.MkLiveCacheWriter
  (LiveCache.NewLiveCacheIndexer 0 all_cells)
  (map (fun b => LiveCache.MkLiveCacheIndexer 0 b [] [] [] all_cells) bufs) 0 all_cells.
Definition v_world : RWorld Wr := ref_world v_cells [].
Abbreviation v_heap := (heap_of v_world : gmap loc rcell).
Lemma v_importable ls : (forall l, l ∈ ls -> l < 3) -> importable v_heap ls.
Proof.
  intros Hls l Hl. apply Hls in Hl.
  do 3 (destruct l as [|l]; [by repeat eexists|]). lia.
Qed.
Ltac small_locs := let H := fresh in intros ? H; cbn in H; each_loc; lia.

Lemma LiveCache_Commit_spec_witness : exists c',
  LiveCache.Commit 7 (v_writer [[0; 1]]) v_world =
    Ret (v_writer [], with_obj (c' : gmap string rcrdt) v_world) /\ c' !! "b" = Some (RText "x").
Proof.
  destruct (LiveCache_Commit_spec 7 (v_writer [[0; 1]]) v_world) as (c' & E & Hb & _).
  - apply v_importable. small_locs.
  - exists c'. split; [exact E|]. etrans; [apply Hb|]. vm_compute. reflexivity.
Defined.

Lemma LiveCache_Commit_resurrects_witness : exists c',
  LiveCache.Commit 7 (v_writer [[0; 1]; [2]]) v_world =
    Ret (v_writer [], with_obj (c' : gmap string rcrdt) v_world) /\ is_Some (c' !! "a").
Proof.
  destruct (LiveCache_Commit_resurrects 7 (v_writer [[0; 1]; [2]]) v_world [] 0 [1] 2 "a" (RCounter 1))
    as (_ & c' & E & Ha); [|reflexivity..|exists c'; by split].
  apply v_importable. small_locs.
Defined.

Lemma LiveCache_generation_witness : exists this1 this2 idx,
  LiveCache.Import [0; 1] (v_writer []) v_world = Ret (this1, v_world) /\
  (let! w := LiveCache.Precommit true this1 in LiveCache.Precommit false w) v_world = Ret (this2, v_world) /\
  LiveCache.buffers this2 = [idx] /\
  combine (LiveCache.keys idx) (LiveCache.values idx) = [("a", Some (RCounter 1)); ("b", Some (RText "x"))].
Proof.
  destruct (LiveCache_generation [0; 1] (v_writer []) v_world v_world)
    as (this1 & this2 & idx & E1 & E2 & Hb & Hi & Hk & _).
  - apply importable_valid, v_importable. small_locs.
  - intros l [Hl _]%elem_of_filter_b. each_loc; by eexists.
  - reflexivity.
  - exists this1, this2, idx. split; [exact E1|]. split; [exact E2|]. split; [exact Hb|].
    rewrite Hk, Hi. vm_compute. reflexivity.
Defined.

Definition text_codec (k : string) (v : rcrdt) : string * string * option string :=
  (k, match v with RText t => "T" +:+ t | _ => "C" end, None).
Definition s_writer : LiveStorage.LiveStorageWriter rcrdt rcell string :=
  LiveStorage.NewLiveStorageWriter 0 all_cells text_codec.
Definition s_block : LiveStorage.LiveStorageWriter rcrdt rcell string :=
  LiveStorage.MkLiveStorageWriter (LiveStorage.NewLiveStgIndexer text_codec all_cells)
    [LiveStorage.MkLiveStgIndexer [1] [] [] ["b"] [Some (RText "x")] [Some "Tx"] all_cells text_codec]
    0 all_cells.

Lemma LiveStorage_Commit_spec_witness : exists c',
  LiveStorage.Commit 7 s_block v_world =
    Ret ((LiveStorage.MkLiveStorageWriter (LiveStorage.Indexer s_block) [] 0 all_cells, []),
         with_obj (c' : gmap string string) v_world) /\ c' !! "b" = Some "Tx".
Proof.
  destruct (LiveStorage_Commit_spec 7 s_block v_world) as (errs & c' & E & Hk).
  - intros idx Hi. cbn in Hi. each_loc. reflexivity.
  - exists c'. assert (errs = []) as ->.
    { assert (H : exists w, LiveStorage.Commit 7 s_block v_world = Ret ((w, []), with_obj (c' : gmap string string) v_world)).
      { cbn in E. injection E as <- <-. by eexists. }
      destruct H as [w H]. rewrite E in H. by injection H as _ ->. }
    split; [exact E|]. etrans; [exact (Hk eq_refl "b")|]. vm_compute. reflexivity.
Defined.

Lemma LiveStorage_generation_witness : exists this1 this2 this3 errs (c' : gmap string string),
  LiveStorage.Import [0; 1] s_writer v_world = Ret (this1, v_world) /\
  (let! w := LiveStorage.Precommit true this1 in LiveStorage.Precommit false w) v_world
    = Ret (this2, v_world) /\
  LiveStorage.Commit 7 this2 v_world = Ret ((this3, errs), with_obj c' v_world) /\
  (errs = [] -> c' !! "b" = Some "Tx").
Proof.
  destruct (LiveStorage_generation 7 [0; 1] s_writer v_world v_world v_world)
    as (this1 & this2 & this3 & errs & c' & E1 & E2 & E3 & _ & Hk); [reflexivity|reflexivity| | |].
  - apply importable_valid, v_importable. small_locs.
  - intros l [Hl _]%elem_of_filter_b. each_loc; by eexists.
  - exists this1, this2, this3, errs, c'. split; [exact E1|]. split; [exact E2|].
    split; [exact E3|]. intros He. etrans; [exact (Hk He "b")|]. vm_compute. reflexivity.
Defined.

Lemma Block_to_live_cache_witness : exists this' s' c',
  (let! t := DebugPrecommit [1; 2]%Z w_committer in DebugCommit 7 t) w_world = Ret (this', s') /\
  rw_cache s' = cache_Evict c' /\ cache_Get c' "a" = Some (RCounter 23).
Proof.
  destruct (Block_to_live_cache (HL := ref_heap Wr) (HL0 := ref_writers Wr) (OL := ref_cache_obj Wr) 7 [1; 2]%Z w_ts w_committer w_world 0 w_writer all_cells)
    as (this' & s' & c' & E & Hc & Hk); try reflexivity.
  - apply w_indexed.
  - apply w_importable.
  - apply w_deltas_apply.
  - apply w_merged_typed.
  - exists this', s', c'. split; [exact E|]. split; [exact Hc|].
    etrans; [apply Hk|]. vm_compute. reflexivity.
Defined.
