(* ===== verification/RefStore.v ===== *)
(** * A reference instance for the execution state store *)
From S2P Require Import Prelude GoString Interfaces Heap Paths ExecStore ExecStoreOps ExecStoreTheory ExecStoreOpsTheory StoreDigest Reference.

Inductive rraw := RawKeys (ks : list string) | RawValue (v : rcrdt).

#[export] Instance ref_crdt : CrdtLib rcrdt rraw := {|
  TypeID v := match v with RCounter _ => 102 | RText _ => 105 | RPath _ _ => 101 end;
  MemSize v := match v with
               | RCounter _ => 8 | RText t => Z.of_nat (len t)
               | RPath ks _ => 32 * Z.of_nat (length ks) end;
  IsDeltaApplied v := true;
  crdt_Get v := Some (match v with RPath ks _ => RawKeys ks | v => RawValue v end);
  Limits v := (None, None);
  crdt_New v r l := v;
  crdt_Clone v := v;
  as_Bytes v := None;
  is_Path v := match v with RPath _ _ => true | _ => false end;
  new_Path := RPath [] false;
  Path_Exists k v := match v with RPath ks _ => bool_decide (k ∈ ks) | _ => false end;
  Path_IsBlockBound v := match v with RPath _ b => b | _ => false end;
  Path_View v := match v with RPath ks _ => RawKeys ks | v => RawValue v end;
  is_DeltaSet r := match r with RawKeys _ => true | RawValue _ => false end;
  ds_Length r := match r with RawKeys ks => Z.of_nat (length ks) | RawValue _ => 0 end;
  ds_KeyAt i r := match r with RawKeys ks => ks !! Z.to_nat i | RawValue _ => None end;
  ds_Last r := match r with RawKeys ks => last ks | RawValue _ => None end;
  ds_IdxOf k r := match r with
                  | RawKeys ks => match list_find (k =.) ks with Some (i, _) => Z.of_nat i | None => MaxUint64 end
                  | RawValue _ => MaxUint64 end |}%Z.

#[export] Instance ref_paths : PathLib := {| IsPath p := HasSuffix p "/" |}.
#[export] Instance ref_path_laws : PathLaws ref_paths.
Proof. by constructor. Qed.

Record XWorld := MkXWorld {
  x_cells : gmap loc rcell;
  x_store : ExecutionStateStore rcrdt;
}.
#[export] Instance x_heap : HeapLens XWorld rcell := {|
  heap_of := x_cells; with_heap h s := MkXWorld h (x_store s) |}.
#[export] Instance x_heap_laws : HeapLensLaws x_heap.
Proof. constructor; by intros; destruct s. Qed.
#[export] Instance x_obj : ObjLens XWorld (ExecutionStateStore rcrdt) := {|
  obj_of := x_store; with_obj o s := MkXWorld (x_cells s) o |}.
#[export] Instance x_obj_laws : ObjLensLaws x_obj.
Proof. constructor; by intros; destruct s. Qed.
#[export] Instance x_indep : ObjIndep x_heap x_obj.
Proof. by constructor. Qed.

#[export] Instance x_pool : PoolLib XWorld := {|
  pool_New := alloc (cell_zero (cell := rcell));
  pool_Reset := gret tt |}.
#[export] Instance x_pool_laws : PoolLaws x_pool x_heap.
Proof.
  constructor.
  - intros s. destruct (alloc_put (cell_zero (cell := rcell)) s) as (l & Hl & E).
    exists l, cell_zero. by split.
  - intros s. exists (x_cells s). by destruct s.
Qed.

(** Setting a cell under the path it is indexed at replaces the value; under
    another path it updates a container's keys, which fails when the container
    is bound to the block and on anything else. *)
Definition x_Set (tx : Z) (path : string) (v : option (any rcrdt)) (l : loc) : Go XWorld (option string) :=
  let! c := deref (cell := rcell) l in
  let! s := gget in
  if bool_decide (localCells (x_store s) !! path = Some l) then
    update_cell (SetValue v) l ;;; gret None
  else match rc_value c with
       | Some (IsCRDT (RPath ks true)) => gret (Some "bound")
       | Some (IsCRDT (RPath ks false)) =>
           let k := str_drop (len (default "" (rc_path c))) path in
           let ks := match v with
                     | Some _ => ks ++ [k]
                     | None => List.filter (fun x => bool_decide (x <> k)) ks
                     end in
           update_cell (SetValue (Some (IsCRDT (RPath ks false)))) l ;;; gret None
       | _ => gret (Some "not a container")
       end.
Definition x_CopyTo (l : loc) : Go XWorld unit :=
  let! c := deref (cell := rcell) l in
  let! p := gsome (rc_path c) in
  let! s := gget in
  match localCells (x_store s) !! p with
  | Some l' => update_cell (SetValue (rc_value c)) l'
  | None => addToLocalCache l
  end.
#[export] Instance x_effects : CellEffects XWorld rraw rcrdt := {|
  cell_Set := x_Set;
  cell_Get tx p l := let! c := deref (cell := rcell) l in
    gret (match rc_value c with Some (IsCRDT v) => crdt_Get v | _ => None end);
  cell_Do A tx p f l := gret (f l).2;
  cell_CopyTo := x_CopyTo |}.

Lemma x_effect_laws : EffectLaws.
Proof.
  constructor.
  - intros tx p v l s e s' E. cbn in E. unfold x_Set in E.
    apply gbind_ret in E as (c & s1 & [_ ->]%deref_ret & E).
    apply gbind_ret in E as (s2 & s1 & Eg & E). unfold gget in Eg. simplify_eq. case_match.
    + apply gbind_ret in E as (? & ? & (d & _ & ->)%update_cell_ret & [_ <-]%gret_ret). apply ext_insert.
    + repeat case_match; try (apply gret_ret in E as [_ <-]; done).
      all: apply gbind_ret in E as (? & ? & (d & _ & ->)%update_cell_ret & [_ <-]%gret_ret);
        apply ext_insert.
  - intros tx p l s r s' E. cbn in E. by apply gbind_ret in E as (c & s1 & [_ ->]%deref_ret & [_ <-]%gret_ret).
  - intros A tx p f l s r s' E. cbn in E. by apply gret_ret in E as [_ <-].
  - intros l s u s' E. cbn in E. unfold x_CopyTo in E.
    apply gbind_ret in E as (c & s1 & [Hc ->]%deref_ret & E).
    apply gbind_ret in E as (p & s1 & [Hp <-]%gsome_ret & E).
    apply gbind_ret in E as (s2 & s1 & Eg & E). unfold gget in Eg. simplify_eq.
    destruct (localCells (x_store s1) !! p) as [l'|] eqn:El.
    + apply update_cell_ret in E as (d & _ & ->). apply ext_insert.
    + rewrite (addToLocalCache_eq l c p) in E by done.
      apply (f_equal (fun o => match o with Ret (_, s) => s | Panic => s1 end)) in E.
      change (index_at p l s1 = s') in E. subst s'.
      apply ext_index; [exact El|]. exists c. exact Hc.
Qed.

#[export] Instance x_batch : CellBatchLib XWorld := {|
  Sorter ls := gret ls; To_InterThreadAccess ls := gret ls; To_InterThreadTransition ls := gret ls |}.
Lemma x_batch_laws : BatchLaws.
Proof.
  constructor; try (intros ls s r s' E; cbn in E; by apply gret_ret in E as [_ <-]).
  intros A B f ls s r s' Hf. cbn. unfold gmap_list.
  enough (Hgen : forall s acc, gfold (fun acc x => let! b := f x in gret (acc ++ [b])) acc ls s
    = Ret (r, s') -> ext s s') by apply Hgen.
  clear s. induction ls as [|x ls IH]; intros s acc E; cbn [gfold] in E.
  - by apply gret_ret in E as [_ <-].
  - apply gbind_ret in E as (acc' & s1 & E1 & E).
    apply gbind_ret in E1 as (y & s2 & E1 & [_ <-]%gret_ret).
    etrans; [exact (Hf _ _ _ _ E1)|exact (IH _ _ E)].
Qed.

(** ** Comparing cells, and a checksum that counts them *)
#[export] Instance rcrdt_eq : EqDecision rcrdt.
Proof. solve_decision. Defined.
#[export] Instance ref_digest : DigestLib rcell := {|
  DeepEqual c d := bool_decide (rc_path c = rc_path d) && (rc_writes c =? rc_writes d)%Z &&
    match rc_value c, rc_value d with
    | Some (IsCRDT v), Some (IsCRDT w) => bool_decide (v = w)
    | None, None => true
    | _, _ => false
    end;
  StateCells_Checksum cs := [Z.of_nat (length cs)] |}.
#[export] Instance ref_digest_laws : DigestLaws ref_digest.
Proof.
  constructor. intros c d. cbn. intros [[H _]%andb_true_iff _]%andb_true_iff. by apply bool_decide_eq_true in H.
Qed.
