(* ===== verification/WitnessesStore.v ===== *)
(** * The theorems of the execution state store at concrete inputs *)
From S2P Require Import Prelude GoString Interfaces Heap Paths PathsTheory DeltaSequence DeltaSequenceTheory ExecStore ExecStoreOps ExecStoreTheory ExecStoreOpsTheory StoreDigest Accounts AccountsTheory Reference RefStore Witnesses.
Import Constants PathTypes Platform.

(** A committed state with one account: a container [ctn/] with an element [k],
    and a native slot [x]. *)
Definition native (k : string) : string := account_root acct1 +:+ (PATH_STORAGE_NATIVE +:+ k).
Definition container (k : string) : string := account_root acct1 +:+ (PATH_STORAGE_CONTAINER +:+ k).
Definition x_committed (bound : bool) : gmap string rcrdt :=
  {[ native "" := RPath ["x"] false; native "x" := RText "abc";
     container "" := RPath ["ctn/"] bound; container "ctn/" := RPath ["k"] false;
     container "ctn/k" := RCounter 5 ]}.
Definition x_ro (m : gmap string rcrdt) : ROStore rcrdt :=
  MkROStore (fun p => bool_decide (is_Some (m !! p))) (fun p => IsCRDT <$> m !! p)
    (fun p _ => (IsCRDT <$> m !! p, None)).
Definition xs (bound : bool) : XWorld :=
  MkXWorld ∅ (NewExecutionStateStore (Some (x_ro (x_committed bound)))).
Definition no_rlp : bytes -> rcrdt -> option (any rcrdt) := fun _ _ => None.

(** A run at a concrete input, without computing the state it ends in. *)
Definition result_of {S A} (m : Go S A) (s : S) : option A :=
  match m s with Ret (a, _) => Some a | Panic => None end.
Definition state_of {S A} (m : Go S A) (s : S) : S :=
  match m s with Ret (_, s') => s' | Panic => s end.
Lemma run_eq {S A} (m : Go S A) s a : result_of m s = Some a -> m s = Ret (a, state_of m s).
Proof. unfold result_of, state_of. by destruct (m s) as [[? ?]|]; [intros [= ->]|]. Qed.

Lemma xs_wf b : wf (xs b).
Proof. intros p l Hp. cbn in Hp. by rewrite lookup_empty in Hp. Qed.

Lemma ReadCell_spec_witness : exists l s' err,
  ReadCell no_rlp 1 (container "ctn/k") None None (xs false) = Ret ((Some (IsCRDT (RCounter 5)), l, err), s') /\
  view s' (container "ctn/k") None = Some (IsCRDT (RCounter 5)).
Proof.
  pose proof (ReadCell_spec no_rlp 1 (container "ctn/k") None None (xs false) (xs_wf false)
    ltac:(by left)) as Hs.
  assert (He : exists_spec no_rlp (xs false) (container "ctn/k") = Ret true)
    by (vm_compute; reflexivity).
  rewrite He in Hs. destruct Hs as (l & s' & err & E & _ & _ & _ & _ & _ & Hv).
  assert (Hx : view (xs false) (container "ctn/k") None = Some (IsCRDT (RCounter 5)))
    by (vm_compute; reflexivity).
  rewrite Hx in E, Hv. exists l, s', err. split; [exact E|exact Hv].
Defined.

Lemma Has_spec_witness : Has (native "x") (xs false) = Ret (true, xs false).
Proof. rewrite Has_spec; [vm_compute; reflexivity|apply xs_wf]. Defined.

Definition missing : string := account_root acct2 +:+ (PATH_STORAGE_NATIVE +:+ "x").
Lemma write_refused_witness : exists l s',
  write no_rlp 1 missing (Some (RText "v")) (xs false) = Ret ((l, Some (parent_error missing)), s') /\
  view s' missing None = None.
Proof.
  destruct (write_refused no_rlp 1 missing (Some (RText "v")) (xs false)) as (l & s' & E & _ & _ & Hv).
  - apply xs_wf.
  - done.
  - vm_compute. reflexivity.
  - exists l, s'. split; [exact E|]. rewrite Hv. vm_compute. reflexivity.
Defined.

Lemma write_slot_witness : exists l s1, localCells (x_store s1) !! native "y" = Some l /\
  write no_rlp 1 (native "y") (Some (RText "v")) (xs false) =
    (let! err := x_Set 1 (native "y") (Some (IsCRDT (RText "v"))) l in gret (l, err)) s1.
Proof.
  destruct (write_slot no_rlp x_effect_laws 1 (native "y") (Some (RText "v")) (xs false))
    as (l & s1 & _ & Hl & _ & E).
  - apply xs_wf.
  - left. vm_compute. reflexivity.
  - vm_compute. reflexivity.
  - vm_compute. reflexivity.
  - exists l, s1. split; [exact Hl|exact E].
Defined.

Lemma Write_size_after_write_witness : exists s',
  Write no_rlp 1 (native "y") (Some (RText "a long value")) None (xs false) = Ret ((0%Z, None), s').
Proof.
  apply (Write_size_after_write no_rlp x_effect_laws).
  - apply xs_wf.
  - left. vm_compute. reflexivity.
  - vm_compute. reflexivity.
  - vm_compute. reflexivity.
  - vm_compute. reflexivity.
  - done.
  - intros l s1 c0 Hl Hc. eexists _, (SetValue (Some (IsCRDT (RText "a long value"))) c0).
    split; [|split].
    + cbn. unfold x_Set. rewrite (gbind_eq _ _ _ _ _ (deref_eq _ _ _ Hc)).
      unfold gbind at 1, gget. cbn in Hl. rewrite bool_decide_true by exact Hl.
      apply gbind_ret. eexists tt, _. split; [|done]. apply update_cell_ret. eauto.
    + cbn. apply lookup_insert_eq.
    + done.
Defined.

(** Setting the cell of an indexed path, exactly. *)
Lemma x_Set_own tx path v l c s :
  heap_of s !! l = Some c -> localCells (x_store s) !! path = Some l ->
  x_Set tx path v l s = Ret (None, with_heap (<[l := SetValue v c]> (heap_of s)) s).
Proof.
  intros Hc Hl. unfold x_Set. rewrite (gbind_eq _ _ _ _ _ (deref_eq _ _ _ Hc)).
  unfold gbind at 1, gget. rewrite bool_decide_true by exact Hl.
  apply gbind_ret. eexists tt, _. split; [|done]. apply update_cell_ret. eauto.
Qed.

(** The container is bound to the block, so that its key set refuses the key,
    and [write] still reports success. *)
Lemma write_container_root_witness : exists l s',
  write no_rlp 1 (container "new") (Some (RText "v")) (xs true) = Ret ((l, None), s').
Proof.
  assert (E : exists l e s', write no_rlp 1 (container "new") (Some (RText "v")) (xs true)
    = Ret ((l, e), s')).
  { destruct (result_of (write no_rlp 1 (container "new") (Some (RText "v"))) (xs true))
      as [[l e]|] eqn:E; [|vm_compute in E; discriminate E].
    exists l, e, (state_of (write no_rlp 1 (container "new") (Some (RText "v"))) (xs true)).
    exact (run_eq _ _ _ E). }
  destruct E as (l & e & s' & E).
  destruct (write_container_root no_rlp x_effect_laws 1 acct1 "new" (Some (RText "v")) (xs true))
    as (l0 & s1 & c & Hl & Hc & Hset).
  - apply acct1_name.
  - split; [done|]. vm_compute. done.
  - reflexivity.
  - apply xs_wf.
  - left. vm_compute. reflexivity.
  - reflexivity.
  - exists l, s'. rewrite E. do 3 f_equal. eapply Hset; [|exact E].
    apply x_Set_own; [exact Hc|exact Hl].
Defined.

(** A write, then the commit of the block. *)
Definition run_write : Go XWorld (Z * option string) :=
  Write no_rlp 1 (native "y") (Some (RText "v")) None.
Definition run_commit : Go XWorld ExecutionCacheIndexer :=
  Writer_Commit (cell := rcell) 1 (NewExecutionCacheWriter 0).
Definition after_write : XWorld := state_of run_write (xs false).
Definition after_commit : XWorld := state_of run_commit after_write.

Lemma store_reachable_witness :
  bool_decide (dom (localCells (x_store after_write)) = {[ native "y" ]}) = true /\
  wf after_commit /\ pendingWildcardDeletes (x_store after_commit) = [].
Proof.
  split; [vm_compute; reflexivity|].
  eapply (store_reachable no_rlp x_effect_laws x_batch_laws _ (xs false)); [reflexivity|].
  eapply rtc_l; [|eapply rtc_l; [|apply rtc_refl]].
  - eapply step_api; [by apply (api_Write no_rlp 1 (native "y") (Some (RText "v")) None)|].
    apply (run_eq run_write (xs false) (0%Z, None)). vm_compute. reflexivity.
  - eapply step_api; [apply (api_Commit no_rlp 1 (NewExecutionCacheWriter 0))|].
    apply (run_eq run_commit after_write (NewExecutionCacheWriter 1)). vm_compute. reflexivity.
Defined.

(** Two transitions of one path and one whose path was erased. *)
Definition transitions : list loc := [1; 2; 3].
Definition xs_cells : XWorld :=
  MkXWorld (<[1 := NewStateCell 1 (native "y") 0 1 0 (Some (RText "old"))]> (<[2 := NewStateCell 2 (native "y") 0 1 0 (Some (RText "new"))]>
    {[ 3 := SetPath None (NewStateCell 3 (native "z") 0 1 0 (Some (RText "z"))) ]}))
    (NewExecutionStateStore (Some (x_ro (x_committed false)))).
Lemma xs_cells_valid : valid (heap_of xs_cells) transitions.
Proof.
  intros l Hl. unfold transitions in Hl.
  repeat (apply elem_of_cons in Hl as [->|Hl]; [by vm_compute; eauto|]). by apply elem_of_nil in Hl.
Qed.
Lemma xs_cells_wf : wf xs_cells.
Proof. intros p l Hp. cbn in Hp. by rewrite lookup_empty in Hp. Qed.

Lemma ExecutionCache_generation_witness : exists idx' s',
  (let! i := Indexer_Import (cell := rcell) transitions (NewExecutionCacheWriter 0) in
   Writer_Precommit true i) xs_cells = Ret (idx', s') /\
  view s' (native "y") None = Some (IsCRDT (RText "new")) /\
  view s' (native "x") None = Some (IsCRDT (RText "abc")).
Proof.
  destruct (ExecutionCache_generation true transitions (NewExecutionCacheWriter 0) xs_cells)
    as (idx' & s' & E & _ & _ & Hv).
  - exact xs_cells_valid.
  - reflexivity.
  - exact xs_cells_wf.
  - exists idx', s'. split; [exact E|]. rewrite !Hv. split; vm_compute; reflexivity.
Defined.

Lemma ExecutionCache_Commit_witness : exists s',
  Writer_Commit (cell := rcell) 1 (NewExecutionCacheWriter 0) xs_cells =
    Ret (NewExecutionCacheWriter 1, s') /\ view s' (native "x") None = Some (IsCRDT (RText "abc")).
Proof.
  destruct (ExecutionCache_Commit 1 (NewExecutionCacheWriter 0) xs_cells) as (s' & E & _ & Hv).
  exists s'. split; [exact E|]. rewrite Hv. vm_compute. reflexivity.
Defined.

Definition xs_indexed : XWorld :=
  MkXWorld (x_cells xs_cells)
    (MkExecutionStateStore None {[ native "y" := 2 ]} [] NewPlatform 0 0).
Lemma Export_spec_witness : exists ls ws s',
  Export (cell := rcell) [] xs_indexed = Ret (ls ++ ws, s') /\ Permutation ls [2] /\ ws = [].
Proof.
  destruct (Export_spec xs_indexed) as (ls & ws & s' & E & Hp & Hw & _).
  - intros p l Hl. cbn in Hl. apply lookup_singleton_Some in Hl as [_ <-]. vm_compute. eauto.
  - exists ls, ws, s'. split; [exact E|]. split.
    + etrans; [exact Hp|]. vm_compute. reflexivity.
    + by inversion Hw.
Defined.

Definition run_missing : Go XWorld (option rraw * loc * Z) :=
  Read no_rlp 1 (container "none/") (Some new_Path).
Lemma container_missing_panics_witness : exists l n s',
  run_missing (xs false) = Ret ((None, l, n), s') /\
  ReadAt no_rlp 1 (container "none/") 0 None (xs false) = Panic.
Proof.
  destruct (result_of run_missing (xs false)) as [[[[r|] l] n]|] eqn:E;
    try (vm_compute in E; discriminate E).
  apply run_eq in E. eexists l, n, _. split; [exact E|].
  eapply (container_missing_panics no_rlp 1 (container "none/") 0 None (xs false)); [|exact E].
  vm_compute. reflexivity.
Defined.

(** ** An account is created *)
#[export] Instance ref_defaults : DefaultValues rcrdt := {|
  NewPath := RPath [] false; NewString_empty := RText ""; NewUnboundedU256 := RCounter 0; NewUnboundedUint64 := RCounter 0;
  new_NInt64 := RCounter 0; NewBytes_empty := RText "" |}.
#[export] Instance ref_default_laws : DefaultLaws ref_crdt ref_defaults.
Proof. constructor. by repeat constructor. Qed.
Lemma x_fresh_set : FreshSet.
Proof.
  intros tx p v l c s Hl Hc _. exists (SetValue (Some (IsCRDT v)) c). split; [|done].
  by apply (x_Set_own tx p (Some (IsCRDT v)) l c s).
Qed.

Lemma CreateDefaultPaths_creates_witness : exists ls s',
  CreateDefaultPaths no_rlp 1 acct2 (xs false) = Ret ((ls, None), s') /\ length ls = 8 /\
  Has (account_root acct2 +:+ PATH_STORAGE_NATIVE) s' = Ret (true, s') /\
  view s' (native "x") None = Some (IsCRDT (RText "abc")).
Proof.
  destruct (CreateDefaultPaths_creates no_rlp x_effect_laws x_fresh_set 1 acct2 (xs false))
    as (ls & s' & E & Hl & _ & Hall & Hout & _).
  - split; vm_compute; done.
  - apply xs_wf.
  - reflexivity.
  - intros e He. unfold default_table in He.
    repeat (apply elem_of_cons in He as [->|He]; [split; [done|split; [vm_compute; done|]];
      intros T; vm_compute; done|]). by apply elem_of_nil in He.
  - exists ls, s'. split; [exact E|]. split; [exact Hl|]. split.
    + apply (Hall (PATH_STORAGE_NATIVE, PATH)). unfold default_table.
      rewrite !elem_of_cons. do 7 right. left. reflexivity.
    + rewrite Hout; [vm_compute; reflexivity|]. intros e _ Ee. apply (f_equal (str_take 64)) in Ee.
      vm_compute in Ee. done.
Defined.

(** ** Two stores with a cell each: the same path, and another value *)
Definition digest_store (l : loc) : ExecutionStateStore rcrdt :=
  MkExecutionStateStore None {[ native "x" := l ]} [] ∅ 0 0.
Definition digest_world : XWorld :=
  MkXWorld {[ 1 := ref_cell_at (native "x") 1 (Some (RCounter 5));
              2 := ref_cell_at (native "x") 1 (Some (RCounter 5));
              3 := ref_cell_at (native "x") 1 (Some (RText "abc")) ]} (digest_store 1).
Lemma digest_at l p x : localCells (digest_store l) !! p = Some x <-> native "x" = p /\ l = x.
Proof. apply (lookup_singleton_Some (M := gmap string)). Qed.
Lemma digest_paths l c : x_cells digest_world !! l = Some c -> rc_path c = Some (native "x") ->
  paths_ok digest_world (digest_store l).
Proof. intros Hc Hp p l' [<- <-]%digest_at. exists c. by split. Qed.
Lemma digest_cell l p c : cell_of digest_world (digest_store l) p c -> x_cells digest_world !! l = Some c.
Proof. by intros (l' & [_ <-]%digest_at & Hc). Qed.
Lemma digest_dom l l' p : is_Some (localCells (digest_store l) !! p) <-> is_Some (localCells (digest_store l') !! p).
Proof. split; intros [x [<- _]%digest_at]; [exists l'|exists l]; by apply digest_at. Qed.

Lemma digest_ok1 : paths_ok digest_world (digest_store 1).
Proof. by apply (digest_paths 1 (ref_cell_at (native "x") 1 (Some (RCounter 5)))). Qed.
Lemma digest_ok2 : paths_ok digest_world (digest_store 2).
Proof. by apply (digest_paths 2 (ref_cell_at (native "x") 1 (Some (RCounter 5)))). Qed.
Lemma digest_ok3 : paths_ok digest_world (digest_store 3).
Proof. by apply (digest_paths 3 (ref_cell_at (native "x") 1 (Some (RText "abc")))). Qed.

Lemma Equal_spec_witness :
  Equal (digest_store 1) (digest_store 2) digest_world = Ret (true, digest_world) /\
  Equal (digest_store 1) (digest_store 3) digest_world = Ret (false, digest_world).
Proof.
  split.
  - destruct (Equal_spec digest_world (digest_store 1) (digest_store 2) digest_ok1 digest_ok2) as (b & E & Hb).
    rewrite (proj2 Hb) in E; [exact E|]. split; [apply digest_dom|].
    intros p c d [= <-]%digest_cell [= <-]%digest_cell. vm_compute. reflexivity.
  - destruct (Equal_spec digest_world (digest_store 1) (digest_store 3) digest_ok1 digest_ok3) as (b & E & Hb).
    destruct b; [|exact E]. destruct (proj1 Hb eq_refl) as [_ Hd]. exfalso.
    assert (Hf : DeepEqual (ref_cell_at (native "x") 1 (Some (RCounter 5)))
      (ref_cell_at (native "x") 1 (Some (RText "abc"))) = true)
      by (apply (Hd (native "x")); [exists 1|exists 3];
          (split; [apply digest_at; split; reflexivity|reflexivity])).
    vm_compute in Hf. discriminate.
Defined.

Lemma Checksum_spec_witness : exists sum,
  Checksum (digest_store 1) digest_world = Ret (sum, digest_world) /\
  Checksum (digest_store 2) digest_world = Ret (sum, digest_world).
Proof.
  apply (Checksum_spec digest_world digest_world (digest_store 1) (digest_store 2) digest_ok1 digest_ok2).
  intros p c. split; intros (l & [<- <-]%digest_at & Hc); [exists 2|exists 1];
    (split; [apply digest_at; split; reflexivity|exact Hc]).
Defined.
