(* ===== verification/RefCodec.v ===== *)
(** * A reference instance for the codecs

    Concrete versions of the packages the codecs are built on: an encoding of
    strings and lists of strings with explicit lengths in place of RLP, 8-byte
    little-endian integers, 256-bit arithmetic, and the CRDT types as plain
    values with limits. *)
From S2P Require Import Prelude GoString Interfaces Paths Codec CodecTheory Reference.

(** ** rlp: a string is [0] and its bytes, a list [-1] and its strings, each
    with its length first *)
Fixpoint parse_strings (n : nat) (b : bytes) : list bytes :=
  match n, b with
  | S n, h :: r => take (Z.to_nat h) r :: parse_strings n (drop (Z.to_nat h) r)
  | _, _ => []
  end.
Definition put_strings (l : list bytes) : bytes :=
  List.concat (map (fun b => Z.of_nat (length b) :: b) l).
Lemma parse_put l n : length (put_strings l) <= n -> parse_strings n (put_strings l) = l.
Proof.
  revert n. induction l as [|b l IH]; intros n Hn; [by destruct n|].
  unfold put_strings in *. cbn [map List.concat] in *. cbn in Hn. rewrite length_app in Hn.
  destruct n as [|n]; [lia|]. cbn. rewrite Nat2Z.id, take_app_length, drop_app_length. f_equal.
  apply IH. lia.
Qed.

Definition ref_rlp (i : rlp_item) : bytes :=
  match i with Str b => 0%Z :: b | Lst l => (-1)%Z :: put_strings l end.
Definition ref_unrlp (b : bytes) : option rlp_item :=
  match b with
  | 0%Z :: r => Some (Str r)
  | (-1)%Z :: r => Some (Lst (parse_strings (length r) r))
  | _ => None
  end.
Lemma ref_unrlp_rlp i : ref_unrlp (ref_rlp i) = Some i.
Proof. destruct i; cbn; [done|]. by rewrite parse_put. Qed.

Definition ref_unstr (b : bytes) : bytes + string :=
  match ref_unrlp b with Some (Str r) => inl r | _ => inr "not a string" end.
Definition ref_unlist (b : bytes) : list bytes + string :=
  match ref_unrlp b with Some (Lst l) => inl l | _ => inr "not a list" end.
Definition sum_map {A B} (f : A -> B) (x : A + string) : B + string :=
  match x with inl a => inl (f a) | inr e => inr e end.
Definition ascii_bytes (s : string) : bytes :=
  map (fun c => Z.of_N (N_of_ascii c)) (list_ascii_of_string s).
Definition bytes_ascii (b : bytes) : string :=
  string_of_list_ascii (map (fun z => ascii_of_N (Z.to_N z)) b).
Lemma bytes_ascii_bytes s : bytes_ascii (ascii_bytes s) = s.
Proof.
  unfold bytes_ascii, ascii_bytes. rewrite map_map.
  rewrite (map_ext _ (fun c => c)) by (intros c; by rewrite N2Z.id, ascii_N_embedding).
  by rewrite map_id, string_of_list_ascii_of_string.
Qed.

#[export] Instance ref_rlp_lib : RlpLib := {|
  rlp := ref_rlp;
  Encode_uint64 n := inl (ref_rlp (Str (big_Bytes n)));
  Encode_big z := if (z <? 0)%Z then inr "negative" else inl (ref_rlp (Str (big_Bytes z)));
  Encode_bytes b := inl (ref_rlp (Str b));
  Encode_string s := inl (ref_rlp (Str (ascii_bytes s)));
  Encode_bigs l := inl (ref_rlp (Lst (map big_Bytes l)));
  Encode_anys_bytes l := inl (ref_rlp (Lst l));
  Encode_anys_u256 l := inl (ref_rlp (Lst (map big_Bytes l)));
  Encode_struct n := inl (ref_rlp (Str (big_Bytes n)));
  Decode_big b := sum_map big_SetBytes (ref_unstr b);
  Decode_bytes b := ref_unstr b;
  Decode_string b := sum_map bytes_ascii (ref_unstr b);
  Decode_bigs b := sum_map (map big_SetBytes) (ref_unlist b);
  Decode_anys b := sum_map (map RlpBytes) (ref_unlist b);
  Decode_struct w b := sum_map big_SetBytes (ref_unstr b) |}.
#[export] Instance ref_rlp_laws : RlpLaws ref_rlp_lib.
Proof.
  constructor; cbn -[ref_rlp ref_unrlp big_SetBytes big_Bytes Z.pow];
    unfold ref_unstr, ref_unlist; intros; rewrite ?ref_unrlp_rlp; try done; try by eauto.
  - by rewrite (proj2 (Z.ltb_ge _ _)).
  - rewrite (proj2 (Z.ltb_lt _ _)); eauto.
  - eexists. split; [done|]. by rewrite ref_unrlp_rlp; cbn; rewrite bytes_ascii_bytes.
  - eexists. split; [done|]. rewrite ref_unrlp_rlp. cbn -[big_SetBytes big_Bytes].
    match goal with H : _ /\ _ |- _ => destruct H as [Hn _] end. by rewrite SetBytes_Bytes.
  - cbn. f_equal. unfold put_strings. clear. induction l as [|b l IH]; [done|].
    cbn. rewrite length_app, IH. unfold list_sum. cbn. lia.
Qed.

(** ** 8-byte integers *)
Fixpoint fix_bytes (n : nat) (z : Z) : bytes :=
  match n with O => [] | S n => (z mod 256)%Z :: fix_bytes n (z / 256) end.
Lemma fix_bytes_value n z : le_value (fix_bytes n z) = (z mod 256 ^ Z.of_nat n)%Z.
Proof.
  revert z. induction n as [|n IH]; intros z; [by rewrite Z.mod_1_r|].
  cbn [fix_bytes le_value fold_right]. fold (le_value (fix_bytes n (z / 256))).
  rewrite IH, Nat2Z.inj_succ, Z.pow_succ_r by lia. rewrite Z.rem_mul_r by lia. done.
Qed.
#[export] Instance ref_fixed : FixedInt := {|
  Int64_Encode z := fix_bytes 8 z; Int64_Decode b := Ret (i64 (le_value b)) |}.
#[export] Instance ref_fixed_laws : FixedIntLaws ref_fixed.
Proof.
  constructor; [done|]. intros z Hz. cbn -[fix_bytes]. rewrite fix_bytes_value.
  change (256 ^ Z.of_nat 8)%Z with (2 ^ 64)%Z. rewrite <- (i64_small z) at 2 by done.
  unfold i64. by rewrite Z.mod_mod.
Qed.
#[export] Instance ref_u256 : Uint256 := {|
  u256_ToBig z := z; u256_SetFromBig z := (z mod 2 ^ 256)%Z;
  u256_SetBytes b := (big_SetBytes b mod 2 ^ 256)%Z; u256_AllOne := (2 ^ 256 - 1)%Z |}.
#[export] Instance ref_u256_laws : Uint256Laws ref_u256.
Proof.
  constructor; intros; cbn -[Z.pow big_SetBytes big_Bytes]; try done.
  - by rewrite Z.mod_small.
  - rewrite SetBytes_Bytes by lia. by rewrite Z.mod_small.
Qed.

(** ** The CRDT types *)
Record rint := MkRInt { ri_value : Z; ri_limits : option (Z * Z) }.
Definition ref_bounded (lo hi : Z) : Bounded rint := {|
  bValue := ri_value;
  HasLimits t := bool_decide (is_Some (ri_limits t));
  bLimits t := default (lo, hi) (ri_limits t);
  NewUnbounded := MkRInt 0 None;
  NewBounded mn mx := if (mn <=? mx)%Z then Some (MkRInt mn (Some (mn, mx))) else None;
  bSetValue v t := MkRInt v (ri_limits t);
  bSetLimits mn mx t := MkRInt (ri_value t) (Some (mn, mx)) |}.
#[export] Instance ref_crdts : CrdtTypes := {|
  Uint64 := rint; Uint64_ops := ref_bounded 0 (2 ^ 64 - 1);
  U256 := rint; U256_ops := ref_bounded 0 (2 ^ 256 - 1);
  Int64 := rint; Int64_ops := ref_bounded (- 2 ^ 63) (2 ^ 63 - 1);
  Path := list bytes; Path_Encode := put_strings; Path_Decode b := parse_strings (length b) b;
  Bytes := bytes; Bytes_Value b := b; NewBytes b := b |}%Z.
#[export] Instance ref_bounded_laws lo hi : BoundedLaws (ref_bounded lo hi).
Proof.
  constructor; try done. intros mn mx t. cbn. destruct (mn <=? mx)%Z; [|done]. by intros [= <-].
Qed.

Definition kind_number (k : Kind) : Z :=
  match k with
  | KUint64 => 102 | KU256 => 103 | KInt64 => 104 | KPath => 101 | KNInt64 => 108
  | KNUint64 => 109 | KNUint32 => 110 | KNBigint => 106 | KNBytes => 107 | KNString => 105
  end.
#[export] Instance ref_crdt_codec : CrdtCodec := {|
  CRDT_Encode v := match v with
                   | CUint64 t | CU256 t | CInt64 t => [ri_value (t : rint)]
                   | NInt64 z | NUint64 z | NUint32 z | NBigint z => [z]
                   | CPath p => put_strings p | NBytes b => b | NString s => ascii_bytes s
                   end;
  CRDT_Decode k b :=
    let z := default 0%Z (head b) in
    match k with
    | KUint64 => CUint64 (MkRInt z None : Uint64) | KU256 => CU256 (MkRInt z None : U256)
    | KInt64 => CInt64 (MkRInt z None : Int64)
    | KPath => CPath (parse_strings (length b) b : Path) | KNInt64 => NInt64 z | KNUint64 => NUint64 z
    | KNUint32 => NUint32 z | KNBigint => NBigint z | KNBytes => NBytes (b : Bytes)
    | KNString => NString (bytes_ascii b)
    end;
  kind_id := kind_number |}.
#[export] Instance ref_kind_laws : KindLaws.
Proof. constructor; [done|]. by intros [] []. Qed.
