(* ===== verification/WitnessesCodec.v ===== *)
(** * The theorems of the codecs and of the proxy at concrete inputs *)
From S2P Require Import Prelude GoString Interfaces Heap Paths PathsTheory Codec CodecTheory Proxy ExecStore Reference RefCodec RefStore Witnesses WitnessesStore.
Import Constants PathTypes Platform.

(** A number with limits. *)
Definition limited : Uint64 := MkRInt 7 (Some (1, 300)%Z).
Lemma RlpCodec_roundtrip_witness : exists b r,
  RlpCodec_Encode "" (Some (VCrdt (CUint64 limited))) = Ret (inl b) /\
  RlpCodec_Decode "" b (Some (VCrdt (CUint64 NewUnbounded))) = Ret (Some r, None) /\
  decoded_as (CUint64 limited) r.
Proof.
  apply (RlpCodec_roundtrip "" (CUint64 limited) (CUint64 NewUnbounded)); [|reflexivity].
  cbn. split; [cbn; lia|]. split; [done|]. intros _. cbn.
  split; [lia|]. split; [lia|]. by eexists.
Defined.

(** A number decodes as the number it is asked for, not as the bytes it is. *)
(** A value, and a list of two elements where three are expected. *)
Example RlpCodec_Decode_value :
  exists r, RlpCodec_Decode "" [0; 7]%Z (Some (VCrdt (CUint64 NewUnbounded))) = Ret (Some r, None) /\
    decode_panics (CUint64 NewUnbounded) [0; 7]%Z = false /\ typed_like (CUint64 NewUnbounded) r.
Proof. eexists. split; [vm_compute; reflexivity|]. split; vm_compute; reflexivity. Qed.

Definition padded : Bytes := [0; 0; 5; 0]%Z.
Definition unpadded : Bytes := [5; 0]%Z.
Lemma BytesRLP_collision_witness : padded <> unpadded /\
  BytesRLP_Encode padded = BytesRLP_Encode unpadded /\
  exists e, BytesRLP_Encode padded = inl e /\ BytesRLP_Decode e = ok (NBytes unpadded).
Proof.
  split; [done|]. apply (BytesRLP_collision 2 unpadded padded); [|reflexivity].
  repeat constructor; lia.
Defined.

Lemma RlpCodec_refuses_witness :
  (exists e, RlpCodec_Encode "" (Some (VCrdt (NInt64 (-1)))) = Ret (inr e)) /\
  (exists e, RlpCodec_Encode "" (Some (VCrdt (NBigint (-1)))) = Ret (inr e)).
Proof.
  destruct (RlpCodec_refuses "" (-1) 0 ltac:(lia)) as (H1 & H2 & _). split; [exact H1|exact H2].
Defined.

Lemma Codec_roundtrip_witness : exists b,
  Codec_Encode "k" (Some (VCrdt (NUint64 3))) = Ret (inl b) /\ Codec_Decode 0 "k" b = Panic.
Proof.
  destruct (Codec_roundtrip "k" (NUint64 3)) as ((b & E & D) & _). exists b. split; [exact E|exact D].
Defined.

(** A native slot is under the RLP codec, an element of a container is not. *)
Lemma StorageCodec_roundtrip_witness :
  (exists b, StorageCodec_Encode (native "x") (Some (VCrdt (NString "abc"))) = Ret (inl b) /\
    StorageCodec_Decode (native "x") b (Some (VCrdt (NString ""))) = Ret (Some (VCrdt (NString "abc")), None)) /\
  (exists b, StorageCodec_Encode (container "ctn/k") (Some (VCrdt (NString "abc"))) = Ret (inl b) /\
    StorageCodec_Decode (container "ctn/k") b (Some (VCrdt (NUint64 0))) = Ret (Some (VCrdt (NString "abc")), None)) /\
  exists b, StorageCodec_Encode (container "ctn/k") (Some (VCrdt (NUint64 7))) = Ret (inl b) /\
    StorageCodec_Decode (container "ctn/k") b (Some (VCrdt (NUint64 0))) = Panic.
Proof.
  assert (Hn : ShouldPersistToEth (native "x") = true) by (vm_compute; reflexivity).
  assert (Hc : ShouldPersistToEth (container "ctn/k") = false) by (vm_compute; reflexivity).
  split; [|split].
  - destruct (StorageCodec_roundtrip (native "x") (NString "abc") (NString "")) as (b & E & D); [done|].
    rewrite Hn in D. destruct D as (r & D & Hr). cbn in Hr. exists b. split; [exact E|].
    destruct r; [by subst|done|done].
  - destruct (StorageCodec_roundtrip (container "ctn/k") (NString "abc") (NUint64 0)) as (b & E & D);
      [by rewrite Hc|]. rewrite Hc in D. exists b. split; [exact E|]. exact D.
  - destruct (StorageCodec_roundtrip (container "ctn/k") (NUint64 7) (NUint64 0)) as (b & E & D);
      [by rewrite Hc|]. rewrite Hc in D. exists b. split; [exact E|]. exact D.
Defined.

Lemma stored_codec_roundtrip_witness : exists b,
  cache_encode (container "ctn/k") (Some (NString "abc")) = Ret (container "ctn/k", inl b) /\
  cache_decode (container "ctn/k") b = Ret (container "ctn/k", Some (NString "abc"), None).
Proof.
  destruct (stored_codec_roundtrip (container "ctn/k") (NString "abc")) as ((b & E & _ & D & _) & _).
  - reflexivity.
  - vm_compute. reflexivity.
  - exists b. split; [exact E|exact D].
Defined.

(** ** The filter of the proxy *)
#[export] Instance ref_reset : PathReset rcrdt := {|
  Path_Reset v := match v with RPath ks b => RPath [] b | v => v end |}.
Definition bound_cell (path : string) : rcell :=
  NewStateCell 1 path 0 1 0 (Some (RPath ["k"] true)).
Definition xs_bound (path : string) : XWorld :=
  MkXWorld {[ 1 := bound_cell path ]} (NewExecutionStateStore None).

Lemma NonTransientOnly_spec_witness : exists s',
  NonTransientOnly (Some NewPlatform) 1 (xs_bound (container "")) = Ret (true, s') /\
  x_cells s' !! 1 = Some (SetValue (Some (IsCRDT (RPath [] true))) (bound_cell (container ""))).
Proof.
  eexists. split.
  - rewrite (NonTransientOnly_spec NewPlatform 1 (bound_cell (container ""))).
    + replace (to_reset NewPlatform (bound_cell (container ""))) with (Some (RPath ["k"] true))
        by (vm_compute; reflexivity). reflexivity.
    + reflexivity.
    + split; [by eexists|done].
  - reflexivity.
Defined.

Lemma snapshot_filter_panics_witness :
  snapshot_filter (cell := rcell) 1 (xs_bound (container "ctn/")) = Panic.
Proof.
  apply (snapshot_filter_panics 1 (bound_cell (container "ctn/")) (RPath ["k"] true)
    (container "ctn/")); try reflexivity.
  vm_compute. lia.
Defined.
