(* ===== verification/RefEth.v ===== *)
(** * A reference instance for the Ethereum store

    A database of tries that keeps every trie under its root, where the root of
    a trie is an encoding of all it holds, so that the trie has one node; the
    hash functions are the identity.  The state has cells of typed values, the
    Ethereum store and the proof providers. *)
From S2P Require Import Prelude GoString Interfaces Heap PathBuilder Codec CodecTheory EthLib EthAccount EthWorldState EthWriter EthWorldTheory EthProof OpVerifier EthProofTheory Reference RefCodec.

(** ** Slices *)
Definition ref_find {A} (l : list A) (p : A -> bool) : Z * option A :=
  match list_find p l with Some (i, x) => (Z.of_nat i, Some x) | None => ((-1)%Z, None) end.
Definition ref_pick {A} (better : A -> A -> bool) (l : list A) : option A :=
  match l with
  | [] => None
  | x :: l => Some (fold_left (fun b y => if better y b then y else b) l x)
  end.
#[export] Instance ref_eth_slice : EthSliceLib := {|
  slice_FindFirstIf A l p := ref_find l p;
  slice_RemoveAt A l i := take i l ++ drop (S i) l;
  slice_CopyIf A l p := List.filter p l;
  slice_Min l := (0%Z, default 0%Z (ref_pick Z.ltb l));
  slice_MaxIf A l f := (0%Z, ref_pick (fun x y => (f y <? f x)%Z) l);
  slice_ParallelForeach S A f l := gforeach (fun ix => f ix.1 ix.2) (imap pair l);
  idx_Values K V _ _ m := map snd (map_to_list m) |}.

(** The pick is an element that no other one is better than. *)
Lemma ref_pick_spec {A} (better : A -> A -> bool) (R : A -> A -> Prop) l :
  (forall x, R x x) -> (forall x y z, R x y -> R y z -> R x z) ->
  (forall x y, if better y x then R y x else R x y) -> l <> [] ->
  exists x, ref_pick better l = Some x /\ x ∈ l /\ forall y, y ∈ l -> R x y.
Proof.
  intros Hr Ht Hb Hl. destruct l as [|x l]; [done|]. clear Hl. cbn [ref_pick]. revert x.
  induction l as [|y l IH]; intros x; cbn [fold_left].
  - exists x. split; [done|]. split; [by left|]. intros y Hy%list_elem_of_singleton. by subst.
  - specialize (Hb x y). destruct (better y x) eqn:E.
    + destruct (IH y) as (z & Ez & Hin & Hz). exists z. rewrite Ez. split; [done|]. split; [by right|].
      intros w [->|Hw]%elem_of_cons; [|by apply Hz]. eapply Ht; [apply Hz; by left|done].
    + destruct (IH x) as (z & Ez & Hin & Hz). exists z. rewrite Ez. split; [done|].
      split; [apply elem_of_cons in Hin as [->|Hin]; [by left|by do 2 right]|].
      intros w [->|[->|Hw]%elem_of_cons]%elem_of_cons; [apply Hz; by left| |apply Hz; by right].
      eapply Ht; [apply Hz; by left|done].
Qed.

#[export] Instance ref_eth_slice_laws : EthSliceLaws ref_eth_slice.
Proof.
  constructor; cbn.
  - intros A l p Hp. unfold ref_find. destruct (list_find p l) as [[i x]|] eqn:E; [|done].
    apply list_find_Some in E as (Hx & Hpx & _). apply list_elem_of_lookup_2, list_elem_of_In in Hx.
    rewrite (Hp x) in Hpx; [done|exact Hx].
  - intros A l1 l2 x p Hp Hx. unfold ref_find.
    replace (list_find p (l1 ++ x :: l2)) with (Some (length l1, x)); [done|].
    symmetry. apply list_find_Some. split; [by apply list_lookup_middle|]. split; [by rewrite Hx|].
    intros j y Hj Hlt. rewrite lookup_app_l in Hj by done.
    apply list_elem_of_lookup_2, list_elem_of_In in Hj. rewrite (Hp y Hj). by intros [].
  - intros A l1 l2 x. rewrite take_app_length. f_equal.
    rewrite drop_app_ge by lia. by replace (S (length l1) - length l1) with 1 by lia.
  - done.
  - intros l Hl. destruct (ref_pick_spec Z.ltb Z.le l) as (x & -> & Hin & Hx); try done; try lia.
    intros x y. destruct (Z.ltb_spec y x); lia.
  - intros A l f Hl.
    destruct (ref_pick_spec (fun x y => (f y <? f x)%Z) (fun x y => (f y <= f x)%Z) l)
      as (x & -> & Hin & Hx); try done; try lia.
    + intros x y. destruct (Z.ltb_spec (f x) (f y)); lia.
    + exists x. split; [done|]. split; [done|]. exact Hx.
  - intros S A f l s. by exists (imap pair l).
  - done.
Qed.

(** ** Hashes and encodings *)
#[export] Instance ref_crypto : CryptoLib := {|
  Keccak256 b := b; LegacyKeccak256 b := b; Bytes32_Encode b := b; Bytes32_Decode b := b |}.

Definition ref_unhex (s : string) : option bytes :=
  if HasPrefix s "0x" then hex_DecodeString (str_drop 2 s) else None.
#[export] Instance ref_eth_common : EthCommonLib := {|
  BytesToAddress b := drop (length b - 20) (replicate (20 - length b) 0%Z ++ b);
  BytesToHash b := drop (length b - 32) (replicate (32 - length b) 0%Z ++ b);
  Hash_Big h := big_SetBytes h;
  hexutil_Decode s := match ref_unhex s with Some b => (b, None) | None => ([], Some "hex") end;
  hexutil_MustDecode s := match ref_unhex s with Some b => Ret b | None => Panic end;
  hexutil_EncodeBig n :=
    let s := hex_digits (big_Bytes n) in
    if (n =? 0)%Z then "0x0"
    else if Z.even (Z.log2 n / 4) then "0x" +:+ str_drop 1 s else "0x" +:+ s |}.
#[export] Instance ref_address_laws : AddressLaws.
Proof.
  constructor; cbn.
  - intros b. rewrite length_drop, length_app, length_replicate. lia.
  - intros b Hb. rewrite Hb. by cbn.
  - done.
Qed.
Lemma hex_digit_back d : (0 <= d < 16)%Z -> fromHexChar (hex_digit d) = Some d.
Proof.
  intros Hd.
  assert (Hf : forallb (fun d => bool_decide (fromHexChar (hex_digit d) = Some d)) (seqZ 0 16) = true)
    by (vm_compute; reflexivity).
  rewrite forallb_forall in Hf. apply (bool_decide_eq_true_1 _), Hf, list_elem_of_In, elem_of_seqZ. lia.
Qed.
Lemma hex_digits_back b : byte_range b -> hex_DecodeString (hex_digits b) = Some b.
Proof.
  induction 1 as [|d b Hd _ IH]; [done|]. cbn [hex_digits hex_DecodeString].
  rewrite !hex_digit_back; [|apply Z.mod_pos_bound; lia|split; [apply Z.div_pos|apply Z.div_lt_upper_bound]; lia].
  rewrite IH. do 2 f_equal. pose proof (Z.div_mod d 16). lia.
Qed.
Lemma hex_DecodeString_odd s : Nat.odd (len s) = true -> hex_DecodeString s = None.
Proof.
  enough (H : forall n s, len s <= n -> Nat.odd (len s) = true -> hex_DecodeString s = None) by eauto.
  clear s. induction n as [|n IH]; intros [|c [|c' s]] Hl Ho; try done; [cbn in Hl; lia|].
  cbn [hex_DecodeString]. rewrite IH; [by destruct (fromHexChar c), (fromHexChar c')|cbn in Hl; lia|done].
Qed.
Lemma len_hex_digits b : len (hex_digits b) = 2 * length b.
Proof.
  induction b as [|d b IH]; [done|].
  change (S (S (len (hex_digits b))) = 2 * S (length b)). lia.
Qed.
Lemma big_Bytes_range z : byte_range (big_Bytes z).
Proof.
  unfold big_Bytes. apply Forall_rev. generalize (S (Z.to_nat (Z.log2 z))). intros n. revert z.
  induction n as [|n IH]; intros z; cbn [le_bytes]; [constructor|].
  destruct (z =? 0)%Z; [constructor|]. constructor; [apply Z.mod_pos_bound; lia|apply IH].
Qed.
Lemma ref_unhex_0x s : ref_unhex ("0x" +:+ s) = hex_DecodeString s.
Proof.
  unfold ref_unhex. rewrite (proj2 (HasPrefix_spec _ _)) by (by eexists).
  by rewrite str_drop_app by done.
Qed.
#[export] Instance ref_hash_laws : HashLaws.
Proof.
  constructor.
  - intros b Hb. cbn -[replicate Nat.sub]. by replace (length b - 32) with 0 by lia.
  - done.
  - intros b Hb. cbn -[String.append ref_unhex]. by rewrite ref_unhex_0x, hex_digits_back.
  - intros n Hn. cbn -[String.append ref_unhex Z.div Z.even str_drop big_Bytes].
    destruct (Z.eqb_spec n 0) as [->|H0]; [reflexivity|].
    destruct (Z.even (Z.log2 n / 4)); rewrite ref_unhex_0x.
    + rewrite hex_DecodeString_odd; [done|]. rewrite len_drop, len_hex_digits.
      destruct (big_Bytes n) as [|d b] eqn:E.
      * exfalso. apply H0. rewrite <- (SetBytes_Bytes n Hn), E. done.
      * cbn [length].
        apply Nat.odd_spec. exists (length b). lia.
    + by rewrite hex_digits_back by apply big_Bytes_range.
Qed.
#[export] Instance ref_rlp_empty : RlpEmpty ref_rlp_lib.
Proof. constructor; intros; cbn; by eexists. Qed.

(** ** Accounts *)
Definition ref_trie_node (m : gmap bytes bytes) : bytes :=
  replicate 32 0%Z ++ put_strings (flat_map (fun kv => [kv.1; kv.2]) (map_to_list m)).
Fixpoint pair_up (l : list bytes) : list (bytes * bytes) :=
  match l with k :: v :: l => (k, v) :: pair_up l | _ => [] end.
Definition ref_trie_decode (b : bytes) : gmap bytes bytes :=
  list_to_map (pair_up (parse_strings (length (drop 32 b)) (drop 32 b))).
Lemma ref_trie_decode_node m : ref_trie_decode (ref_trie_node m) = m.
Proof.
  unfold ref_trie_decode, ref_trie_node. rewrite drop_app_length' by (by rewrite length_replicate).
  rewrite parse_put by lia. rewrite <- (list_to_map_to_list m) at 2. f_equal.
  induction (map_to_list m) as [|[k v] l IH]; [done|]. cbn. by rewrite IH.
Qed.

#[export] Instance ref_state_account : StateAccountLib := {|
  EmptyRootHash := ref_trie_node ∅;
  Encode_StateAccount a :=
    (put_strings [big_Bytes (Nonce a); big_Bytes (Balance a); Root a; CodeHash a], None);
  Decode_StateAccount b :=
    match parse_strings (length b) b with
    | [n; z; r; c] => inl (MkStateAccount (big_SetBytes n) (big_SetBytes z) r c)
    | _ => inr "rlp: not an account"
    end |}.
#[export] Instance ref_state_account_laws : StateAccountLaws ref_state_account.
Proof.
  constructor. intros a [Hn Hb]. eexists. split; [reflexivity|]. split; [done|].
  cbn -[put_strings parse_strings length big_Bytes big_SetBytes]. rewrite parse_put by lia.
  rewrite !SetBytes_Bytes by lia. by destruct a.
Qed.
#[export] Instance ref_claim : ClaimLib := {|
  Encode_claim n b r c := inl (put_strings [big_Bytes n; b; r; c]) |}.
#[export] Instance ref_claim_laws : ClaimLaws ref_claim.
Proof. by constructor. Qed.

(** ** Databases *)
#[export] Instance ref_bytes_db : DBLib (gmap bytes bytes) := {|
  db_New := ∅;
  db_Get k d := match d !! k with Some v => (Some v, None) | None => (None, Some "not found") end;
  db_Put k v d := (None, <[k := v]> d) |}.
#[export] Instance ref_bytes_db_laws : DBLaws ref_bytes_db.
Proof.
  constructor. intros k v d d' k' _ [= <-]. cbn. case_decide as Hk; [subst; by rewrite lookup_insert_eq|].
  by rewrite lookup_insert_ne by done.
Qed.
#[export] Instance ref_bytes_db_writes : DBWrites ref_bytes_db.
Proof. by constructor. Qed.

(** ** Tries.  The database keeps what was written under each root. *)
Record rtriedb := MkRTrieDB { td_disks : list loc; td_tries : gmap bytes (gmap bytes bytes) }.
#[export] Instance ref_trie_types : TrieTypes := {|
  trie := gmap bytes bytes; triedb := rtriedb; NodeSet := gmap bytes bytes;
  memorydb := gmap bytes bytes |}.
Definition ref_open (root : bytes) (d : rtriedb) : option (gmap bytes bytes) * option string :=
  if decide (root = ref_trie_node ∅) then (Some ∅, None)
  else match td_tries d !! root with
       | Some m => if decide (root = ref_trie_node m) then (Some m, None) else (None, Some "missing")
       | None => (None, Some "missing")
       end.
#[export] Instance ref_trie : TrieLib := {|
  trie_Get t k := (default [] (t !! k), None);
  trie_ThreadSafeGet t k := (default [] (t !! k), None);
  trie_Hash t := ref_trie_node t;
  trie_ParallelUpdate ks vs t := (map (fun _ => None) ks, trie_puts ks vs t);
  trie_Commit t := (ref_trie_node t, if decide (t = ∅) then None else Some t, None);
  triedb_Update root b n d := (None, MkRTrieDB (td_disks d) (<[ref_trie_node n := n]> (td_tries d)));
  trie_New := ref_open;
  trie_NewParallel := ref_open;
  trie_NewEmptyParallel d := ∅;
  triedb_NewParallelDatabase ds := MkRTrieDB ds ∅;
  triedb_DBs := td_disks;
  trie_Prove t k := (if decide (t = ∅) then [] else [(ref_trie_node t, ref_trie_node t)], None);
  trie_VerifyProof root k db :=
    match db_Get root db with
    | (Some n, None) => ((ref_trie_decode n : gmap bytes bytes) !! k, None)
    | _ => (None, Some "missing node")
    end |}.
(** Any named directory can be opened, and is empty. *)
#[export] Instance ref_leveldb : LevelDBLib (gmap bytes bytes) := {|
  rawdb_NewLevelDBDatabase dir :=
    if decide (dir = "") then inr "no directory" else inl (∅, fun ds => MkRTrieDB ds ∅) |}.
#[export] Instance ref_trie_spec : TrieSpec := {|
  trie_map t := t;
  backed d t := map_Forall (fun _ v => v <> []) t |}.

Lemma ref_node_inj m m' : ref_trie_node m = ref_trie_node m' -> m = m'.
Proof. intros E. by rewrite <- (ref_trie_decode_node m), E, ref_trie_decode_node. Qed.
Lemma ref_open_at root d m :
  fst (ref_open root d) = Some m -> ref_open root d = (Some m, None) /\ root = ref_trie_node m.
Proof.
  unfold ref_open. case_decide as H1; [intros [= <-]; done|].
  destruct (td_tries d !! root); [|done]. case_decide as H2; [|done]. by intros [= <-].
Qed.
Lemma ref_stored d root m :
  stored d root m <-> fst (ref_open root d) = Some m /\ map_Forall (fun _ v => v <> []) m.
Proof.
  split.
  - intros [(t & E & Hb & <-) _]. split; [|exact Hb].
    change (ref_open root d = (Some t, None)) in E. by rewrite E.
  - intros [[E _]%ref_open_at Hb]. split; by exists m.
Qed.
Lemma ref_open_write n d : fst (ref_open (ref_trie_node n)
  (MkRTrieDB (td_disks d) (<[ref_trie_node n := n]> (td_tries d)))) = Some n.
Proof.
  unfold ref_open. case_decide as H1; [by apply ref_node_inj in H1 as ->|]. cbn [td_tries].
  rewrite lookup_insert_eq. by rewrite decide_True by done.
Qed.
Lemma ref_open_keeps n d root m : fst (ref_open root d) = Some m ->
  fst (ref_open root (MkRTrieDB (td_disks d) (<[ref_trie_node n := n]> (td_tries d)))) = Some m.
Proof.
  intros E. pose proof E as [_ ->]%ref_open_at. destruct (decide (m = n)) as [->|Hn]; [apply ref_open_write|].
  revert E. unfold ref_open. case_decide as H1; [done|]. cbn [td_tries].
  rewrite lookup_insert_ne; [done|]. intros E%ref_node_inj. by subst.
Qed.
Lemma trie_puts_values ks vs m :
  map_Forall (fun _ v => v <> []) m -> map_Forall (fun _ v => v <> []) (trie_puts ks vs m).
Proof.
  unfold trie_puts. generalize (combine ks vs). intros kvs. revert m.
  induction kvs as [|[k [|x v]] kvs IH]; intros m Hm; [done| |]; cbn [fold_left trie_put fst snd]; apply IH.
  - by apply map_Forall_delete.
  - by apply map_Forall_insert_2.
Qed.

Lemma ref_backed_empty : map_Forall (fun (_ v : bytes) => v <> []) (∅ : gmap bytes bytes).
Proof. apply map_Forall_empty. Qed.
#[export] Instance ref_trie_laws : TrieLaws ref_trie_spec.
Proof.
  constructor.
  - done.
  - done.
  - intros d t k v Hb Hk. exact (Hb k v Hk).
  - intros d t ks vs Hb _ _. do 2 eexists. split; [reflexivity|]. split; [|split; [|done]].
    + apply Forall_forall. intros e He. apply list_elem_of_fmap in He as (? & -> & _). done.
    + by apply trie_puts_values.
  - intros t t' E. change (ref_trie_node t = ref_trie_node t'). by rewrite (E : t = t').
  - intros t E. change (ref_trie_node t = ref_trie_node ∅). by rewrite (E : t = ∅).
  - intros d. apply ref_stored. split; [|exact ref_backed_empty].
    cbn. unfold ref_open. by rewrite decide_True.
  - intros d t root nodes Hb. cbn. case_decide as Ht; intros [= <- <-]; (split; [done|]).
    + subst. apply ref_stored. split; [|done]. unfold ref_open. by rewrite decide_True.
    + intros b d' [= <-]. apply ref_stored. split; [apply ref_open_write|done].
  - intros root b n d e d' [= <- <-]. split; [done|]. intros r m [H1 H2]%ref_stored. apply ref_stored.
    split; [by apply ref_open_keeps|done].
  - intros d. split; [exact ref_backed_empty|done].
  - intros d t k Hb Ht. exists [(ref_trie_node t, ref_trie_node t)]. cbn. rewrite decide_False by done.
    split; [done|]. split; [by repeat constructor|]. split.
    + intros h n n' H1%list_elem_of_singleton H2%list_elem_of_singleton. by simplify_eq.
    + intros db Hdb. specialize (Hdb _ _ (proj2 (list_elem_of_singleton _ _) eq_refl)). cbn in Hdb. rewrite Hdb.
      f_equal. change ((ref_trie_decode (ref_trie_node t) : gmap bytes bytes) !! k = t !! k).
      by rewrite ref_trie_decode_node.
Qed.

(** ** The typed values and the cells that carry them *)
#[export] Instance ref_crdt_values : CrdtValues := {|
  Value_uint64 v := match v with CUint64 t => Some (bValue t) | _ => None end;
  Value_uint256 v := match v with CU256 t => Some (bValue t) | _ => None end;
  Value_bytes v := match v with NBytes b => Some (Bytes_Value b) | _ => None end |}.
#[export] Instance ref_crdt_values_laws : CrdtValuesLaws ref_crdt_values.
Proof. by constructor. Qed.

Record ecell := MkECell {
  ec_path : option string;
  ec_tx : Z;
  ec_value : option (any Codec.crdt);
}.
#[export] Instance ref_ecell : CellLib Codec.crdt ecell := {|
  cell_zero := MkECell None 0 None;
  cell_Init tx p r w d v b c := MkECell (Some p) tx v;
  NewStateCell tx p r w d v := MkECell (Some p) tx (IsCRDT <$> v);
  GetPath := ec_path;
  SetPath p c := MkECell p (ec_tx c) (ec_value c);
  GetTx := ec_tx;
  Value := ec_value;
  SetValue v c := MkECell (ec_path c) (ec_tx c) v;
  IncrementWrites n c := c;
  IsBlockBound c := false;
  SetBlockBound b c := c;
  IsCommitted c := false;
  PathLookupOnly c := false;
  IfSkipConflictCheck c := false;
  DebugSetPreexist b c := c;
  ApplyDelta c ds := Some (match last ds with Some d => MkECell (ec_path c) (ec_tx c) (ec_value d) | None => c end);
  crdt_Preload get k v := v |}%Z.
#[export] Instance ref_ecell_laws : CellLaws ref_ecell.
Proof. constructor; try done. intros c ds c' [= <-]. by destruct (last ds). Qed.

(** ** The state *)
Record EWorld := MkEWorld {
  ew_cells : gmap loc ecell;
  ew_providers : gmap loc ProofProvider;
  ew_eth : EthState (gmap bytes bytes);
}.
#[export] Instance ew_heap : HeapLens EWorld ecell := {|
  heap_of := ew_cells; with_heap h s := MkEWorld h (ew_providers s) (ew_eth s) |}.
#[export] Instance ew_heap_laws : HeapLensLaws ew_heap.
Proof. constructor; by intros; destruct s. Qed.
#[export] Instance ew_providers_heap : HeapLens EWorld ProofProvider := {|
  heap_of := ew_providers; with_heap h s := MkEWorld (ew_cells s) h (ew_eth s) |}.
#[export] Instance ew_providers_laws : HeapLensLaws ew_providers_heap.
Proof. constructor; by intros; destruct s. Qed.
#[export] Instance ew_obj : ObjLens EWorld (EthState (gmap bytes bytes)) := {|
  obj_of := ew_eth; with_obj e s := MkEWorld (ew_cells s) (ew_providers s) e |}.
#[export] Instance ew_obj_laws : ObjLensLaws ew_obj.
Proof. constructor; by intros; destruct s. Qed.
#[export] Instance ew_indep : ObjIndep ew_heap ew_obj.
Proof. by constructor. Qed.
#[export] Instance ew_providers_indep : ObjIndep ew_providers_heap ew_obj.
Proof. by constructor. Qed.

(** statecell.StateCells.KVs, over any state with such cells. *)
Definition kvs_of {S} `{HL : HeapLens S ecell} : KVsLib S Codec.crdt := {|
  StateCells_KVs ls :=
    let! kvs := gmap_list (fun l => let! c := deref (cell := ecell) l in gsome (cell_kv c)) ls in
    gret (map fst kvs, map snd kvs) |}.
Lemma kvs_of_laws {S} `{HLL : HeapLensLaws S ecell} : KVsLaws (kvs_of (S := S)).
Proof.
  constructor. intros ls kvs s H. cbn [StateCells_KVs kvs_of].
  assert (E : gmap_list (fun l => let! c := deref (cell := ecell) l in gsome (cell_kv c)) ls s = Ret (kvs, s)).
  { apply gmap_list_Forall2. eapply Forall2_impl; [exact H|].
    intros l kv E. cbn beta in E. apply bind_Some in E as (c & Hl & Hc).
    rewrite (gbind_eq _ _ _ _ _ (deref_eq _ _ _ Hl)). by rewrite Hc. }
  gstep E. done.
Qed.
#[export] Instance ew_kvs : KVsLib EWorld Codec.crdt := kvs_of.
#[export] Instance ew_kvs_laws : KVsLaws ew_kvs := kvs_of_laws.

#[export] Instance ref_float : FloatLib := {|
  float := (Z * Z)%type;
  float_ratio a b := (a, b);
  float_lt x y := (x.1 * y.2 <? y.1 * x.2)%Z;
  slice_Extreme l lt := match l with [] => ((-1)%Z, None) | x :: _ => (0%Z, Some x) end |}.
#[export] Instance ref_float_laws : FloatLaws ref_float.
Proof. constructor. intros [|x l] lt Hl; [done|]. cbn. lia. Qed.
