(* ===== verification/WitnessesEth.v ===== *)
(** * The theorems of the Ethereum store at concrete inputs

    With the instance of RefEth.v: a new store, an account with three
    transitions, and the proofs of its slots. *)
From S2P Require Import Prelude GoString Interfaces Heap Paths PathsTheory Codec CodecTheory EthLib EthAccount EthWorldState EthWriter EthAccountTheory EthWorldTheory EthWriterTheory EthBlockTheory EthStoreTheory EthNode EthProof OpVerifier EthProofTheory EthCacheTheory Snapshot Reference RefCodec RefEth Witnesses WitnessesStore.
Import Constants PathTypes EthStorage.

(** ** One account *)
Definition field_path (f : string) : string := account_root acct1 +:+ f.
Definition addr1 : bytes := replicate 20 17%Z.
Definition e_new : EthState (gmap bytes bytes) := NewParallelEthMemDataStore.
Definition account1 (d : bool) : Account :=
  MkAccount addr1 EmptyAccountState None (Some ∅) (Some (trieDB (es_world e_new))) None d.
Definition e_one (d : bool) : EthState (gmap bytes bytes) := put_account 5 (account1 d) e_new.
Definition nonce5 : Codec.crdt := CUint64 (MkRInt 5 None : Uint64).
Definition balance9 : Codec.crdt := CU256 (MkRInt 9 None : U256).
Definition text (s : string) : Codec.crdt := NString s.
Definition entries1 : list (string * option Codec.crdt) :=
  [(field_path PATH_NONCE, Some nonce5); (native "0x01", Some (text "abc"));
   (container "ctn/k", None)].

Lemma entries1_ok : entries_ok entries1.
Proof.
  unfold entries_ok. replace (plan entries1) with
    (Some (field_path PATH_NONCE, Some nonce5), @None (string * option Codec.crdt),
      @None (string * option Codec.crdt),
      [(native "0x01", Some (text "abc")); (container "ctn/k", None)])
    by (vm_compute; reflexivity).
  split; [repeat constructor; vm_compute; discriminate|].
  apply (bool_decide_eq_true_1 _). vm_compute. reflexivity.
Qed.

Lemma UpdateAccountStorageTrie_spec_witness : exists s' t',
  UpdateAccountStorageTrie (map fst entries1) (map snd entries1) 5 (e_one false) = Ret (None, s') /\
  trie_map t' !! [1%Z] = Some [0; 97; 98; 99]%Z.
Proof.
  pose proof entries1_ok as Hok. unfold entries_ok in Hok.
  destruct (UpdateAccountStorageTrie_spec entries1 5 (account1 false) ∅ (e_one false)
    (plan entries1).1.1.1 (plan entries1).1.1.2 (plan entries1).1.2 (plan entries1).2
    5 0 None (CodeHash EmptyAccountState) (es_dbs e_new)) as (t' & E & Hs & _).
  - reflexivity.
  - reflexivity.
  - apply ref_backed_empty.
  - by destruct (plan entries1) as [[[] ?] ?].
  - vm_compute. reflexivity.
  - vm_compute. reflexivity.
  - vm_compute. reflexivity.
  - by destruct (plan entries1) as [[[] ?] ?].
  - eexists _, t'. split; [exact E|].
    specialize (Hs (native "0x01") (Some (text "abc"))).
    replace (slot_key (native "0x01")) with [1%Z] in Hs by (vm_compute; reflexivity).
    rewrite Hs; [vm_compute; reflexivity|]. vm_compute. left.
Defined.

(** A negative integer written to a slot that holds a value. *)
Definition account_slot : Account :=
  MkAccount addr1 EmptyAccountState None (Some {[ [1%Z] := [7%Z] ]}) (Some (trieDB (es_world e_new))) None false.
Lemma slot_backed d : backed d ({[ [1%Z] := [7%Z] ]} : gmap bytes bytes).
Proof.
  intros k v Hk. change (({[ [1%Z] := [7%Z] ]} : gmap bytes bytes) !! k = Some v) in Hk.
  apply lookup_singleton_Some in Hk as [_ <-]. discriminate.
Qed.
Lemma unencodable_deletes_witness : exists s' a' t',
  UpdateAccountStorageTrie [native "0x01"] [Some (NInt64 (-1))] 5 (put_account 5 account_slot e_new) =
    Ret (None, s') /\
  es_accounts s' !! 5 = Some a' /\ storageTrie a' = Some t' /\
  trie_map t' !! slot_key (native "0x01") = None.
Proof.
  apply (unencodable_deletes (native "0x01") (NInt64 (-1)) 5 account_slot {[ [1%Z] := [7%Z] ]} _ "negative").
  - reflexivity.
  - reflexivity.
  - apply slot_backed.
  - vm_compute; reflexivity.
  - vm_compute; reflexivity.
  - vm_compute; reflexivity.
  - vm_compute; reflexivity.
  - vm_compute; discriminate.
  - vm_compute; reflexivity.
Defined.

Lemma balance_by_suffix_witness :
  (exists s' a' t', UpdateAccountStorageTrie [container "ctn/balance"] [Some balance9] 5 (e_one false)
      = Ret (None, s') /\ es_accounts s' !! 5 = Some a' /\ Balance (state a') = 9%Z /\
      storageTrie a' = Some t' /\ trie_map t' = trie_map (∅ : gmap bytes bytes)) /\
  UpdateAccountStorageTrie [container "ctn/balance"] [Some (text "abc")] 5 (e_one false) = Panic.
Proof.
  split.
  - refine (balance_by_suffix (container "ctn/balance") balance9 5 (account1 false) ∅ (e_one false) _ _ _ _ _ _);
      first [by apply ref_backed_empty|vm_compute; reflexivity].
  - refine (balance_by_suffix (container "ctn/balance") (text "abc") 5 (account1 false) ∅ (e_one false) _ _ _ _ _ _);
      first [by apply ref_backed_empty|vm_compute; reflexivity].
Defined.

Lemma trieDirty_overwritten_witness : exists s' s'',
  UpdateAccountStorageTrie [field_path PATH_NONCE] [Some nonce5] 5 (e_one true) = Ret (None, s') /\
  Account_Commit 1 5 s' = Ret (None, s'') /\ s'' = s' /\ es_triedb s'' = es_triedb (e_one true).
Proof.
  apply (trieDirty_overwritten 1 [(field_path PATH_NONCE, Some nonce5)] 5 (account1 true) ∅ (e_one true)
    (Some (field_path PATH_NONCE, Some nonce5)) None None 5 0 None (CodeHash EmptyAccountState) (es_dbs e_new));
    first [by apply ref_backed_empty|vm_compute; reflexivity].
Defined.

(** ** A generation *)
Definition ecells : gmap loc ecell :=
  {[ 1 := MkECell (Some (field_path PATH_NONCE)) 1 (Some (IsCRDT nonce5));
     2 := MkECell (Some (native "0x01")) 1 (Some (IsCRDT (text "abc")));
     3 := MkECell (Some (container "ctn/k")) 1 None;
     4 := MkECell None 2 (Some (IsCRDT (text "abc"))) ]}.
Definition ew (e : EthState (gmap bytes bytes)) : EWorld := MkEWorld ecells ∅ e.
Definition writer0 : EthStorageWriter ecell := NewEthStorageWriter (-1) (fun _ => true).
Definition group1 (ad : bytes) : list loc :=
  of_addr (ew e_new) ad (taken (filter (Indexer writer0)) (ew e_new) [1; 2; 3; 4]).

Lemma group1_eq ad : group1 ad = if decide (ad = addr1) then [1; 2; 3] else [].
Proof.
  unfold group1. replace (taken (filter (Indexer writer0)) (ew e_new) [1; 2; 3; 4]) with [1; 2; 3]
    by (vm_compute; reflexivity).
  unfold of_addr. cbn [List.filter].
  replace (addr_at (ew e_new) 1) with addr1 by (vm_compute; reflexivity).
  replace (addr_at (ew e_new) 2) with addr1 by (vm_compute; reflexivity).
  replace (addr_at (ew e_new) 3) with addr1 by (vm_compute; reflexivity).
  case_decide as Hd; [subst; by rewrite bool_decide_eq_true_2|]. by rewrite bool_decide_eq_false_2 by congruence.
Qed.
Lemma ents1_eq e : ents (ew e) [1; 2; 3] = entries1.
Proof. reflexivity. Qed.
Lemma typed1 e : cells_typed (ew e) [1; 2; 3].
Proof.
  intros l [->|[->|[->|[]%elem_of_nil]%elem_of_cons]%elem_of_cons]%elem_of_cons;
    eexists; (split; [reflexivity|]); right; by eexists.
Qed.
Lemma valid1 e : valid (heap_of (cell := ecell) (ew e)) [1; 2; 3; 4].
Proof.
  intros l [->|[->|[->|[->|[]%elem_of_nil]%elem_of_cons]%elem_of_cons]%elem_of_cons]%elem_of_cons; by eexists.
Qed.
Lemma applied1 : exists v, apply_entries entries1 empty_view = Some v /\ view_in_range v /\
  v_slots v !! slot_key (native "0x01") = written (slot_value (Some (text "abc"))).
Proof. eexists. split; [vm_compute; reflexivity|]. by repeat split. Qed.
Lemma new_store_view ad : view_at e_new ad = None.
Proof. apply new_store_wf. Qed.

Lemma EthStorage_Import_spec_witness : exists m s',
  Indexer_Import [1; 2; 3; 4] (Indexer writer0) (ew e_new) =
    Ret (MkEthIndexer (fun _ => true) (-1) m [], s') /\ snd <$> m !! addr1 = Some [1; 2; 3].
Proof.
  destruct (EthStorage_Import_spec [1; 2; 3; 4] (Indexer writer0) (ew e_new)) as (m & e' & E & _ & _ & _ & _ & Hg).
  - apply new_store_wf.
  - apply valid1.
  - reflexivity.
  - exists m. eexists. split; [exact E|]. rewrite Hg. change (of_addr _ _ _) with (group1 addr1).
    by rewrite group1_eq.
Defined.

(** The state after the import: the account is at 5 and not cached yet. *)
Lemma e_one_frame : frame e_new (e_one false).
Proof. by repeat split. Qed.
Lemma e_one_wf : eth_wf (e_one false).
Proof.
  apply (wf_extend e_new); [apply e_one_frame| |apply new_store_wf].
  intros l [a Hl]. change ((∅ : gmap loc Account) !! l = Some a) in Hl. by rewrite lookup_empty in Hl.
Qed.
Lemma e_one_index ls : index_ok (e_one false) {[ addr1 := (5, ls) ]}.
Proof.
  intros ad l ls' [<- [= <- <-]]%lookup_singleton_Some. split; [reflexivity|]. split.
  - exists (account1 false). split; [reflexivity|]. split; [|reflexivity].
    split; [done|]. split; [done|]. split; [by split; cbn|].
    eexists. split; [reflexivity|]. split; [apply ref_backed_empty|reflexivity].
  - intros l' Hl. change ((∅ : gmap bytes loc) !! addr1 = Some l') in Hl. by rewrite lookup_empty in Hl.
Qed.
Definition indexed1 (ls : list loc) : EthStorageWriter ecell :=
  MkEthStorageWriter (MkEthIndexer (fun _ => true) (-1) {[ addr1 := (5, ls) ]} []) [] (fun _ => true).
Lemma gen1_ok : gen_ok (ew (e_one false)) {[ addr1 := (5, [1; 2; 3]) ]}.
Proof.
  intros ad l ls [<- [= <- <-]]%lookup_singleton_Some. split; [apply typed1|].
  rewrite ents1_eq. split; [apply entries1_ok|]. destruct applied1 as (v & E & Hr & _). by exists v.
Qed.

Lemma EthStorage_Precommit_spec_witness : exists r s' v,
  Precommit false (indexed1 [1; 2; 3]) (ew (e_one false)) = Ret (r, s') /\
  view_at (obj_of s') addr1 = Some v /\ v_nonce v = 5%Z.
Proof.
  destruct (EthStorage_Precommit_spec false (indexed1 [1; 2; 3]) (ew (e_one false)))
    as (idx & s' & E & _ & _ & Hv).
  - apply e_one_wf.
  - apply e_one_index.
  - apply gen1_ok.
  - eexists _, s', _. split; [exact E|]. rewrite Hv. cbn [index Indexer indexed1].
    rewrite lookup_singleton_eq, ents1_eq. split; [vm_compute; reflexivity|reflexivity].
Defined.

Lemma gen4_ok : gen_ok (ew (e_one false)) {[ addr1 := (5, [4]) ]}.
Proof.
  intros ad l ls [<- [= <- <-]]%lookup_singleton_Some. split.
  - intros l ->%list_elem_of_singleton. eexists. split; [reflexivity|by left].
  - split; [split; by constructor|]. exists empty_view. split; [reflexivity|by split].
Qed.
Lemma phantom_account_witness : exists r s' wt a,
  Precommit false (indexed1 [4]) (ew (e_one false)) = Ret (r, s') /\
  worldStateTrie (es_world (obj_of s')) = Some wt /\
  cached (obj_of s') addr1 = Some a /\ EthWorldTheory.view a = empty_view /\
  trie_map wt !! Keccak256 addr1 = Some (Account_Encode a).
Proof.
  apply (phantom_account false (indexed1 [4]) (ew (e_one false)) addr1 5 [4]).
  - apply e_one_wf.
  - apply e_one_index.
  - apply gen4_ok.
  - apply lookup_singleton_eq.
  - reflexivity.
  - reflexivity.
Defined.

(** ** A cached account with the slots [m] *)
Definition account_with (m : gmap bytes bytes) (d : bool) : Account :=
  MkAccount addr1 (MkStateAccount 5 9 (ref_trie_node m) (CodeHash EmptyAccountState)) None (Some m)
    (Some (trieDB (es_world e_new))) None d.
Definition world_with (m : gmap bytes bytes) (d : bool) : EthWorldState :=
  MkEthWorldState (Some {[ addr1 := Account_Encode (account_with m d) ]}) {[ addr1 := 5 ]} false
    (trieDB (es_world e_new)) None ∅.
Definition e_with (m : gmap bytes bytes) (d : bool) : EthState (gmap bytes bytes) :=
  with_world (world_with m d) (put_account 5 (account_with m d) e_new).
Lemma single_backed d (k v : bytes) : v <> [] -> backed d ({[ k := v ]} : gmap bytes bytes).
Proof.
  intros Hv k' v' Hk. change (({[ k := v ]} : gmap bytes bytes) !! k' = Some v') in Hk.
  by apply lookup_singleton_Some in Hk as [_ <-].
Qed.
Lemma e_with_wf m d : backed (es_triedb e_new) m -> eth_wf (e_with m d).
Proof.
  intros Hm. split; [apply new_store_wf|]. split.
  - intros ad l Hl. change (({[ addr1 := 5 ]} : gmap bytes loc) !! ad = Some l) in Hl.
    apply lookup_singleton_Some in Hl as [<- <-]. split; [reflexivity|].
    exists (account_with m d). split; [reflexivity|]. split; [done|]. split; [done|].
    split; [by split; cbn|]. by exists m.
  - eexists. split; [reflexivity|]. split.
    + by apply single_backed.
    + intros ad _. unfold cached. cbn [es_world e_with with_world world_with accountCache].
      change (({[ addr1 := Account_Encode (account_with m d) ]} : gmap bytes bytes) !! ad =
        Account_Encode <$> (({[ addr1 := 5 ]} : gmap bytes loc) !! ad ≫= fun l => es_accounts (e_with m d) !! l)).
      destruct (decide (addr1 = ad)) as [<-|Hn]; [by rewrite !lookup_singleton_eq|].
      by rewrite !lookup_singleton_ne by done.
Qed.
Definition slots1 : gmap bytes bytes := {[ [1%Z] := slot_value (Some (text "abc")) ]}.
Lemma slots1_backed d : backed d slots1.
Proof. apply single_backed. vm_compute. discriminate. Qed.

Lemma slot_path1 : slot_path (native "0x01") addr1.
Proof.
  split; [vm_compute; discriminate|]. split; [eexists; split; vm_compute; reflexivity|].
  repeat split; try (vm_compute; reflexivity). vm_compute. discriminate.
Qed.
Lemma World_GetAs_spec_witness : exists r,
  World_GetAs (native "0x01") (Some (VCrdt (text ""))) (es_world (e_with slots1 false)) (e_with slots1 false)
    = Ret ((Some r, None), e_with slots1 false) /\ decoded_as (text "abc") r.
Proof.
  apply (World_GetAs_spec (native "0x01") addr1 (e_with slots1 false) (EthWorldTheory.view (account_with slots1 false))).
  - apply e_with_wf, slots1_backed.
  - apply slot_path1.
  - reflexivity.
  - vm_compute. reflexivity.
  - exact I.
  - reflexivity.
Defined.

(** The commit of a block that wrote the slots. *)
Definition committing1 : EthStorageWriter ecell :=
  MkEthStorageWriter (NewEthIndexer (-1) (fun _ => true))
    [MkEthIndexer (fun _ => true) (-1) ∅ [5]] (fun _ => true).
Lemma committing1_cached idx l : idx ∈ buffer committing1 -> l ∈ dirtyAccounts idx ->
  l ∈ cache_locs (e_with slots1 true).
Proof.
  intros ->%list_elem_of_singleton ->%list_elem_of_singleton. apply elem_of_cache_locs. exists addr1.
  change (({[ addr1 := 5 ]} : gmap bytes loc) !! addr1 = Some 5). apply lookup_singleton_eq.
Qed.
Lemma EthStorage_Commit_spec_witness : exists v s' wt,
  Commit 3 committing1 (ew (e_with slots1 true)) =
    Ret ((MkEthStorageWriter (Indexer committing1) [] (fun _ => true), None), s') /\
  GetRootHash v (es_world (obj_of s')) = trie_Hash wt /\
  stored (es_triedb (obj_of s')) (trie_Hash wt) (trie_map wt).
Proof.
  destruct (EthStorage_Commit_spec 3 committing1 (ew (e_with slots1 true)))
    as (v & s' & wt & roots & _ & E & _ & _ & Hb & _ & Hok).
  - apply e_with_wf, slots1_backed.
  - exact committing1_cached.
  - assert (Hn : snd <$> result_of (Commit 3 committing1) (ew (e_with slots1 true)) = Some None)
      by (vm_compute; reflexivity).
    unfold result_of in Hn. rewrite E in Hn. cbn [fmap option_fmap option_map snd] in Hn.
    apply (inj Some) in Hn. rewrite Hn in E.
    exists (u64 v), s', wt. split; [exact E|]. split.
    + unfold GetRootHash. rewrite Hb. by rewrite lookup_insert_eq.
    + by apply Hok.
Defined.

Lemma block_number_unused_witness : exists r s' wt,
  Commit 3 committing1 (ew (e_with slots1 true)) = Ret (r, s') /\
  GetRootHash 3 (es_world (obj_of s')) = EmptyHash /\
  GetRootHash MaxUint64 (es_world (obj_of s')) = trie_Hash wt.
Proof.
  pose proof (fun k => block_number_unused 3 k committing1 (ew (e_with slots1 true))
    (e_with_wf _ true (slots1_backed _)) eq_refl ltac:(discriminate)
    ltac:(by intros idx ->%list_elem_of_singleton) committing1_cached) as H.
  destruct (H 3%Z) as (r & s' & wt & E & Hw & H3).
  destruct (H MaxUint64) as (r2 & s2 & wt2 & E2 & Hw2 & H4).
  assert (s2 = s') as -> by (rewrite E in E2; by injection E2). assert (wt2 = wt) as -> by congruence.
  exists r, s', wt. split; [exact E|]. split; [exact H3|exact H4].
Defined.

(** ** A block from a new store, read back at its root *)
Lemma block1_ok ad : cells_typed (ew e_new) (group1 ad) /\ entries_ok (ents (ew e_new) (group1 ad)) /\
  exists v, apply_entries (ents (ew e_new) (group1 ad)) (old_view e_new ad) = Some v /\ view_in_range v.
Proof.
  unfold old_view. rewrite group1_eq, new_store_view. case_decide.
  - rewrite ents1_eq. split; [apply typed1|]. split; [apply entries1_ok|].
    destruct applied1 as (v & E & Hr & _). by exists v.
  - split; [by intros l Hl%elem_of_nil|]. split; [split; constructor|].
    exists empty_view. split; [reflexivity|by split].
Qed.
Lemma generation1_ok : generation_ok writer0 (ew e_new) [1; 2; 3; 4].
Proof. split; [apply valid1|exact block1_ok]. Qed.
Lemma EthStorage_block_witness : exists r s' w v e,
  one_generation 1 [1; 2; 3; 4] writer0 (ew e_new) = Ret (r, s') /\
  LoadEthTrieByRoot (GetRootHash MaxUint64 (es_world (obj_of s'))) (obj_of s') = Ret ((Some w, None), obj_of s') /\
  World_GetAs (native "0x01") (Some (VCrdt (text ""))) w (obj_of s') = Ret ((Some v, None), e) /\
  decoded_as (text "abc") v.
Proof.
  destruct (EthStorage_block 1 [1; 2; 3; 4] writer0 (ew e_new)) as (r & s' & E & H).
  - apply new_store_wf.
  - reflexivity.
  - reflexivity.
  - exact generation1_ok.
  - assert (Hn : snd <$> result_of (one_generation 1 [1; 2; 3; 4] writer0) (ew e_new) = Some None /\
      triedb_DBs (es_triedb (obj_of (state_of (one_generation 1 [1; 2; 3; 4] writer0) (ew e_new)))) !! 0 = Some 0 /\
      es_dbs (obj_of (state_of (one_generation 1 [1; 2; 3; 4] writer0) (ew e_new))) !! 0 = Some ∅)
      by (split; [|split]; vm_compute; reflexivity).
    unfold result_of, state_of in Hn. rewrite E in Hn. destruct Hn as (Hn & Hd1 & Hd2). cbn in Hn.
    injection Hn as Hn. destruct (H Hn) as (_ & Hv & Hs). clear H.
    destruct applied1 as (vw & Ea & _ & Hslot).
    destruct (Hs ltac:(by exists 0; split; [|eexists]) addr1 (native "0x01") (text "abc") (text "") vw)
      as (w & v & e & H1 & H2 & H3).
    + change (group_of _ _ _ _) with (group1 addr1). rewrite group1_eq. vm_compute. reflexivity.
    + rewrite Hv. unfold generation_view. change (group_of _ _ _ _) with (group1 addr1). rewrite group1_eq.
      rewrite decide_True by done. rewrite ents1_eq. unfold old_view. rewrite new_store_view. exact Ea.
    + apply slot_path1.
    + exact Hslot.
    + exact I.
    + reflexivity.
    + exists r, s', w, v, e. repeat split; assumption.
Defined.

(** ** The life of a node: one generation *)
Lemma EthStorage_trace_witness : exists w s v,
  node_trace [Generation (transitions_of writer0 (ew e_new) [1; 2; 3; 4])] (w, s) /\
  view_at (obj_of s) addr1 = Some v /\ v_nonce v = 5%Z.
Proof.
  destruct (generation_run [1; 2; 3; 4] writer0 (ew e_new)) as (idx & e2 & E & _);
    [apply new_store_wf|reflexivity|exact generation1_ok|].
  set (w := MkEthStorageWriter _ _ _) in E. destruct applied1 as (v & Ea & _).
  assert (Ht : node_trace [Generation (transitions_of writer0 (ew e_new) [1; 2; 3; 4])]
    (w, with_obj e2 (ew e_new))).
  { eapply (trace_step [] _ (writer0, ew e_new)); [by apply trace_new; left|].
    eapply node_generation; [exact generation1_ok|exact E]. }
  exists w, (with_obj e2 (ew e_new)), v. split; [exact Ht|].
  destruct (EthStorage_trace _ _ Ht) as [_ Hv]. rewrite Hv. cbn [fold_left spec_step].
  assert (Ht1 : transitions_of writer0 (ew e_new) [1; 2; 3; 4] addr1 = Some entries1).
  { unfold transitions_of. change (group_of _ _ _ _) with (group1 addr1). by rewrite group1_eq. }
  rewrite Ht1. cbn [default]. change (default empty_view None) with empty_view. split; [exact Ea|].
  assert (Hn : v_nonce <$> apply_entries entries1 empty_view = Some 5%Z) by (vm_compute; reflexivity).
  rewrite Ea in Hn. by injection Hn.
Defined.
Lemma EthStorage_progress_witness :
  (exists w s, generation [1; 2; 3; 4] writer0 (ew e_new) = Ret ((w, None), s)) /\
  exists w err s, Commit 7 writer0 (ew e_new) = Ret ((w, err), s).
Proof.
  destruct (EthStorage_progress [] (writer0, ew e_new)) as [H1 H2]; [by apply trace_new; left|]. split.
  - apply (H1 [1; 2; 3; 4]). exact generation1_ok.
  - destruct (H2 7%Z) as (w & err & s & E & _). by exists w, err, s.
Defined.

(** ** Proofs: an account with a number in the slot 1 *)
Definition key32 (c : string) : string := "0x000000000000000000000000000000000000000000000000000000000000000" +:+ c.
Definition slots2 : gmap bytes bytes := {[ replicate 31 0%Z ++ [1%Z] := rlp (Str (big_Bytes 5)) ]}.
Lemma slots2_backed d : backed d slots2.
Proof. apply single_backed. vm_compute. discriminate. Qed.
Definition e_prove : EthState (gmap bytes bytes) := e_with slots2 false.
Definition world_trie2 : gmap bytes bytes := {[ addr1 := Account_Encode (account_with slots2 false) ]}.

Definition proof_ok (t : gmap bytes bytes) : bool :=
  let n := ref_trie_node t in
  (32 <=? length n) && forallb (fun d => (0 <=? d)%Z && (d <? 256)%Z) n.
Lemma proof_ok_wf (t : trie) k : proof_ok t = true -> proof_wf t k.
Proof.
  unfold proof_ok. intros [H1%Nat.leb_le H2]%andb_true_iff. unfold proof_wf.
  change (trie_Prove t k) with ((if decide (t = ∅) then [] else [(ref_trie_node t, ref_trie_node t)]), @None string).
  cbn [fst]. case_decide; [constructor|]. constructor; [|constructor]. split; [exact H1|].
  apply Forall_forall. intros d Hd%list_elem_of_In. rewrite forallb_forall in H2. specialize (H2 d Hd).
  apply andb_true_iff in H2 as [Ha%Z.leb_le Hb%Z.ltb_lt]. split; assumption.
Qed.
Lemma provable1 : provable (es_world e_prove) addr1 e_prove 5 e_prove world_trie2 (account_with slots2 false) slots2.
Proof.
  split. { apply GetAccount_cached; [reflexivity|]. apply lookup_singleton_eq. }
  split; [reflexivity|]. split; [reflexivity|]. split; [by apply single_backed|].
  split; [apply proof_ok_wf; vm_compute; reflexivity|]. split; [by split; cbn|].
  split; [apply lookup_singleton_eq|]. split; [reflexivity|]. split; [apply slots2_backed|].
  split; [|reflexivity]. change (slots2 <> ∅). apply map_non_empty_singleton.
Qed.
Lemma key32_wf k : (decodeHash k).2 = None -> key_wf slots2 k.
Proof. intros H. split; [exact H|]. apply proof_ok_wf. vm_compute. reflexivity. Qed.
Ltac each_key tac := repeat (apply Forall_cons; split; [tac|]); apply Forall_nil; exact I.

Lemma GetProof_Validate_witness :
  (exists r, get_proof (es_world e_prove) addr1 [key32 "1"] e_prove = Ret ((Some r, None), e_prove) /\
     Validate (trie_Hash world_trie2) r = Ret None) /\
  (exists r, get_proof (es_world e_prove) addr1 [key32 "1"; key32 "2"] e_prove = Ret ((Some r, None), e_prove) /\
     Validate (trie_Hash world_trie2) r = Ret (Some "failed to verify storage value")).
Proof.
  split.
  - destruct (GetProof_Validate _ _ _ _ _ _ _ _ [key32 "1"] provable1) as (r & E & H).
    + each_key ltac:(split; [apply key32_wf|]; vm_compute; reflexivity).
    + exists r. split; [exact E|]. rewrite H. vm_compute. reflexivity.
  - destruct (GetProof_Validate _ _ _ _ _ _ _ _ [key32 "1"; key32 "2"] provable1) as (r & E & H).
    + each_key ltac:(split; [apply key32_wf|]; vm_compute; reflexivity).
    + exists r. split; [exact E|]. rewrite H. vm_compute. reflexivity.
Defined.

Lemma Validate_quantity_panics_witness : exists r,
  get_proof (es_world e_prove) addr1 ["0x1"] e_prove = Ret ((Some r, None), e_prove) /\
  Validate (trie_Hash world_trie2) r = Panic.
Proof.
  apply (Validate_quantity_panics _ _ _ _ _ _ _ _ "0x1" provable1).
  - apply key32_wf. vm_compute. reflexivity.
  - vm_compute. discriminate.
  - vm_compute. reflexivity.
Defined.

(** Two keys in full, of a slot that holds a number and of an empty one; and a
    key that comes back as a quantity of one digit. *)
Lemma converted_proof_verifies_witness :
  (exists r o, get_proof (es_world e_prove) addr1 [key32 "1"; key32 "2"] e_prove = Ret ((Some r, None), e_prove) /\
    Convertible_New r = Ret o /\ Verify (trie_Hash world_trie2) o = None) /\
  exists r, get_proof (es_world e_prove) addr1 ["0x1"] e_prove = Ret ((Some r, None), e_prove) /\
    Convertible_New r = Panic.
Proof.
  split.
  - destruct (converted_proof_verifies _ _ _ _ _ _ _ _ [key32 "1"; key32 "2"] provable1) as (r & E & Hc & Hn).
    + reflexivity.
    + each_key ltac:(apply key32_wf; vm_compute; reflexivity).
    + replace (forallb readable_key [key32 "1"; key32 "2"]) with true in Hc by (vm_compute; reflexivity).
      destruct Hc as (o & Eo & V). exists r, o. split; [exact E|]. split; [exact Eo|]. apply (proj2 V), Hn.
      each_key ltac:(first [left; vm_compute; reflexivity|right; exists 5%Z; split; [by split|]; vm_compute; reflexivity]).
  - destruct (converted_proof_verifies _ _ _ _ _ _ _ _ ["0x1"] provable1) as (r & E & Hc & _).
    + reflexivity.
    + each_key ltac:(apply key32_wf; vm_compute; reflexivity).
    + replace (forallb readable_key ["0x1"]) with false in Hc by (vm_compute; reflexivity). exists r. split; [exact E|exact Hc].
Defined.

(** ** The providers: a cache of one, and a second root *)
Definition pcache : MerkleProofCache := MkMerkleProofCache 1 {[ [9%Z] := 3 ]}.
Definition pworld : EWorld :=
  MkEWorld ∅ {[ 3 := MkProofProvider _ [9%Z] 4 2 (es_world e_new) ]} e_new.
Lemma pcache_inv : cache_inv pworld pcache.
Proof.
  split; [|vm_compute; discriminate]. intros root l Hl.
  change (({[ [9%Z] := 3 ]} : gmap bytes loc) !! root = Some l) in Hl.
  apply lookup_singleton_Some in Hl as [<- <-]. eexists. split; [reflexivity|done].
Qed.
Lemma GetProofProvider_spec_witness : exists this' l s',
  GetProofProvider EmptyRootHash pcache pworld = Ret ((this', (Some l, None)), s') /\
  cache_inv s' this' /\ provider_at s' EmptyRootHash l.
Proof.
  destruct (GetProofProvider_spec EmptyRootHash pcache pworld pcache_inv)
    as (this' & [[l|] err] & s' & E & Hi & _ & _ & H).
  - destruct H as [-> H]. exists this', l, s'. split; [exact E|]. split; [exact Hi|exact H].
  - exfalso. destruct H as (_ & _ & _ & Hl & Hne).
    assert (Hr : snd <$> result_of (in_eth (LoadEthTrieByRoot EmptyRootHash)) pworld = Some None)
      by (vm_compute; reflexivity).
    unfold result_of in Hr. rewrite Hl in Hr. cbn in Hr. injection Hr as Hr. by apply Hne.
Defined.

(** ** Snapshots: a database that holds the account's tries *)
Definition a_code : bytes := [1; 2; 3]%Z.
Definition account_code : Account :=
  MkAccount addr1 (MkStateAccount 5 9 (ref_trie_node slots2) (Hash a_code)) None (Some slots2) None None false.
Definition world_code : gmap bytes bytes := {[ addr1 := Account_Encode account_code ]}.
Definition e_stored : EthState (gmap bytes bytes) :=
  MkEthState _ ∅
    (MkRTrieDB [0] {[ ref_trie_node slots2 := slots2; ref_trie_node world_code := world_code ]})
    {[ 0 := {[ Hash a_code := a_code ]} ]} (es_world e_new).
Lemma stored_slots : stored (es_triedb e_stored) (Root (state account_code)) (v_slots (EthWorldTheory.view account_code)).
Proof. apply ref_stored. split; [vm_compute; reflexivity|apply (slots2_backed (es_triedb e_stored))]. Qed.
Lemma stored_world : stored (es_triedb e_stored) (ref_trie_node world_code) world_code.
Proof.
  apply ref_stored. split; [vm_compute; reflexivity|].
  apply (single_backed (es_triedb e_stored)). vm_compute. discriminate.
Qed.
Lemma reopened_account_panics_witness : exists w l e1 e2,
  LoadEthTrieByRoot (ref_trie_node world_code) e_stored = Ret ((Some w, None), e_stored) /\
  GetAccount addr1 w e_stored = Ret ((Some l, None), e1) /\
  (forall c, UpdateAccountStorageTrie [field_path PATH_CODE] [Some (NBytes c)] l e1 = Panic) /\
  UpdateAccountStorageTrie [native "0x01"] [Some (text "abc")] l e1 = Ret (None, e2) /\
  forall e3, Account_Commit 1 l e2 <> Ret (None, e3).
Proof.
  destruct (reopened_account_panics e_stored (ref_trie_node world_code) world_code account_code addr1
    (native "0x01") (Some (text "abc")) 1) as (w & l & e1 & e2 & E1 & E2 & H1 & E3 & H2).
  - exists 0. split; [reflexivity|by eexists].
  - apply stored_world.
  - reflexivity.
  - apply lookup_singleton_eq.
  - by split; cbn.
  - apply stored_slots.
  - repeat split; try (vm_compute; reflexivity). vm_compute. discriminate.
  - exists w, l, e1, e2. split; [exact E1|]. split; [exact E2|]. split; [|split; [exact E3|exact H2]].
    intros c. apply H1. repeat split; vm_compute; reflexivity.
Defined.

Lemma SetVersion_failed_witness : exists this err,
  SetVersion [1%Z] (MkEthStateSnapshot (Some (es_world e_new))) e_new = Ret ((this, Some err), e_new) /\
  SetVersion EmptyRootHash this e_new = Panic /\ Snapshot_Get (native "0x01") this e_new = Panic.
Proof.
  destruct (SetVersion_failed [1%Z] (es_world e_new) e_new) as (this & err & E & H1 & H2).
  - vm_compute. reflexivity.
  - exists this, err. split; [exact E|]. split; [apply H1|]. exact (H2 _ _ slot_path1).
Defined.

Lemma snapshot_Has_misses_code_witness : exists w e1,
  LoadEthTrieByRoot (ref_trie_node world_code) e_stored = Ret ((Some w, None), e_stored) /\
  World_Has (field_path PATH_CODE) w e_stored = Ret (false, e_stored) /\
  World_Get (field_path PATH_CODE) w e_stored = Ret ((Some (VCrdt (NBytes (NewBytes a_code))), None), e1).
Proof.
  apply (snapshot_Has_misses_code e_stored (ref_trie_node world_code) world_code account_code addr1
    (field_path PATH_CODE) 0 {[ Hash a_code := a_code ]} a_code).
  - reflexivity.
  - reflexivity.
  - vm_compute. reflexivity.
  - apply stored_world.
  - reflexivity.
  - apply lookup_singleton_eq.
  - by split; cbn.
  - apply stored_slots.
  - repeat split; vm_compute; reflexivity.
  - vm_compute. discriminate.
  - vm_compute. discriminate.
  - eexists. split; vm_compute; reflexivity.
Defined.

(** ** Pruning *)
(** The roots of 1030 blocks. *)
Definition many_roots : gmap Z bytes :=
  list_to_map (map (fun n => (Z.of_nat n, [Z.of_nat n])) (seq 0 1030)).
Lemma prune_terminates_witness : exists roots',
  prune_loop (size many_roots) many_roots = Some roots' /\ (Z.of_nat (size roots') < 1024)%Z /\
  (forall k r, roots' !! k = Some r -> many_roots !! k = Some r).
Proof.
  destruct (prune_terminates many_roots) as (roots' & E & Hs & Hsub & _).
  exists roots'. split; [exact E|]. split; [exact Hs|exact Hsub].
Defined.
