(* ===== verification/WitnessesNode.v ===== *)
(** * A block through all the writers, at a concrete input

    A new node and two generations: three transitions of a first transaction
    with one of a second that is rejected, then another value for a path of the
    first. *)
From S2P Require Import Prelude ExecStore ExecStoreOps ExecStoreTheory ExecStoreOpsTheory GoString Interfaces Heap Paths DeltaSequence DeltaSequenceTheory Committer CommitterTheory LiveCache LiveStorage LiveTheory Pipeline Codec CodecTheory Proxy EthLib EthAccount EthWorldState EthWriter EthAccountTheory EthWorldTheory EthWriterTheory EthBlockTheory EthStoreTheory Node NodeTheory NodeBlock NodeRead NodeAgree Proxies Reference RefCodec RefEth Witnesses WitnessesStore WitnessesEth.
Import Constants PathTypes.

Abbreviation RefNode := (NodeState ecell (gmap string Codec.crdt) (gmap string bytes) (gmap bytes bytes)).
#[export] Instance node_kvs : KVsLib RefNode Codec.crdt := kvs_of.
#[export] Instance node_kvs_laws : KVsLaws node_kvs := kvs_of_laws.

#[export] Instance node_pool : PoolLib RefNode := {|
  pool_New := alloc (H := node_cells) (cell_zero (cell := ecell));
  pool_Reset := gret tt |}.
#[export] Instance node_pool_laws : PoolLaws node_pool node_cells.
Proof.
  constructor.
  - intros s. destruct (alloc_put (HL := node_cells) (cell_zero (cell := ecell)) s) as (l & Hl & E).
    exists l, cell_zero. by split.
  - intros s. exists (n_cells s). by destruct s.
Qed.
(** An execution store over a store that has nothing. *)
Definition nd_exec : ExecutionStateStore Codec.crdt :=
  NewExecutionStateStore (Some (MkROStore (fun _ => false) (fun _ => None) (fun _ _ => (None, None)))).

Definition nd_cells : gmap loc ecell :=
  <[5 := MkECell (Some (native "0x01")) 3 (Some (IsCRDT (text "def")))]>
  (<[4 := MkECell (Some (native "0x01")) 2 (Some (IsCRDT (text "zzz")))]> ecells).
Definition nd_world : RefNode := MkNodeState nd_cells ∅ ∅ ∅ e_new nd_exec.
Definition nd_ts : list loc := [1; 2; 3; 4].
Definition nd_filter (c : ecell) : bool := true.
Definition nd_codec : string -> Codec.crdt -> string * bytes * option string := proxy_codec.
Definition entries2 : list (string * option Codec.crdt) := [(native "0x01", Some (text "def"))].

(** ** A generation of typed transitions of one account *)
Definition untyped_free (h : gmap loc ecell) : Prop := map_Forall (fun _ c => is_raw c = false) h.
Lemma one_account (h : gmap loc ecell) (txs : list Z) (ts : list loc) (es : list (string * option Codec.crdt))
    (e : EthState (gmap bytes bytes)) v :
  untyped_free h -> kept nd_filter h ts = ts -> Forall (fun l => addr_of h l = addr1) ts ->
  (omap (fun l => finalized_cell h txs ts l ≫= cell_kv) ts : list (string * option Codec.crdt)) = es -> entries_ok es ->
  apply_entries es (old_view e addr1) = Some v -> view_in_range v ->
  (forall ad, ad <> addr1 -> view_at e ad = None) ->
  block_ready nd_filter h txs ts e /\
  forall w ad, account_spec nd_filter h txs ts w ad =
    if decide (ad = addr1) then (if ts is [] then w ad else apply_entries es (default empty_view (w ad))) else w ad.
Proof.
  intros Hu Hk Hall Hes Hok Happ Hr Hnone.
  assert (Hg : forall ad, account_group nd_filter h ts ad = if decide (ad = addr1) then ts else []).
  { intros ad. unfold account_group. rewrite Hk. clear -Hall.
    induction Hall as [|l ts Hl _ IH]; cbn [List.filter]; [by case_decide|]. rewrite Hl, IH.
    case_decide as Hd; [subst; by rewrite bool_decide_eq_true_2|]. by rewrite bool_decide_eq_false_2 by congruence. }
  assert (He : forall ad, account_entries nd_filter h txs ts ad = if decide (ad = addr1) then es else []).
  { intros ad. unfold account_entries. rewrite Hg. by case_decide. }
  assert (Ht : forall l, is_raw (cell_at h l) = false).
  { intros l. unfold cell_at. destruct (h !! l) as [c|] eqn:E; [exact (Hu l c E)|reflexivity]. }
  split; [split; [|split]|].
  - intros p. unfold merge_deltas. destruct (order_of _ _); by eexists.
  - intros p c Hc. unfold merged_cell in Hc. destruct (order_of _ _) as [|l0 rest] eqn:E; [done|].
    injection Hc as <-. destruct (last (map (cell_at h) rest)) as [d|] eqn:El; [|apply Ht].
    apply last_Some_elem_of, list_elem_of_fmap in El as (l & -> & _). exact (Ht l).
  - intros ad. rewrite He. case_decide as Hd; [subst ad; split; [done|by exists v]|].
    unfold old_view. rewrite (Hnone ad Hd). split; [split; constructor|]. exists empty_view. by split.
  - intros w ad. unfold account_spec. rewrite Hg, He. by case_decide.
Qed.

(** ** The runs *)
Definition nd_committer (ws : list loc) : StateCommitter Codec.crdt :=
  match ws with
  | [x; wc; we; wd] => MkStateCommitter (fun _ => None) [x; wc; we; wd] [x; wc] [we; wd] ∅ ∅ (fun _ => None)
  | _ => MkStateCommitter (fun _ => None) [] [] [] ∅ ∅ (fun _ => None)
  end.
Definition nd_start : Go RefNode (StateCommitter Codec.crdt) :=
  let! ws := Exec_GetWriters nd_filter nd_codec in gret (nd_committer ws).
Definition nd_import1 : Go RefNode (StateCommitter Codec.crdt) :=
  let! this := nd_start in Committer.Import nd_ts this.
Definition nd_generation1 : Go RefNode (StateCommitter Codec.crdt) :=
  let! this := nd_import1 in DebugPrecommit [1%Z] this.
Definition nd_import2 : Go RefNode (StateCommitter Codec.crdt) :=
  let! this := nd_generation1 in Committer.Import [5] this.
Definition nd_generation2 : Go RefNode (StateCommitter Codec.crdt) :=
  let! this := nd_import2 in DebugPrecommit [3%Z] this.
Definition nd_block : Go RefNode (StateCommitter Codec.crdt) :=
  let! this := nd_generation2 in DebugCommit 1 this.
Definition nd_cells1 : gmap loc ecell := n_cells (state_of nd_import1 nd_world).
Definition nd_cells1' : gmap loc ecell := n_cells (state_of nd_generation1 nd_world).
Definition nd_cells2 : gmap loc ecell := n_cells (state_of nd_import2 nd_world).
Definition nd_g1 : generation := MkGeneration nd_cells1 [1%Z] nd_ts.
Definition nd_g2 : generation := MkGeneration nd_cells2 [3%Z] [5].

Lemma nd_block_err : dbErr (es_world (n_eth (state_of nd_block nd_world))) = None.
Proof. vm_compute. reflexivity. Qed.
Lemma state_of_ret {S A} (m : Go S A) s a s' : m s = Ret (a, s') -> state_of m s = s'.
Proof. unfold state_of. by intros ->. Qed.
Lemma bind_run {S A B} (m : Go S A) (k : A -> Go S B) s a s' b s2 :
  m s = Ret (a, s') -> k a s' = Ret (b, s2) -> (let! x := m in k x) s = Ret (b, s2).
Proof. intros E1 E2. by rewrite (gbind_eq _ _ _ _ _ E1). Qed.

Lemma nd_importable1 : importable nd_cells nd_ts.
Proof. intros l Hl. unfold nd_ts in Hl. each_loc; eexists _, _; (split; [vm_compute; reflexivity|by split]). Qed.
Lemma nd_importable2 : importable nd_cells1' [5].
Proof. intros l Hl. each_loc; eexists _, _; (split; [vm_compute; reflexivity|by split]). Qed.
Lemma nd_ready1 (e : EthState (gmap bytes bytes)) : (forall ad, view_at e ad = None) ->
  block_ready nd_filter nd_cells1 [1%Z] nd_ts e /\ forall w ad, account_spec nd_filter nd_cells1 [1%Z] nd_ts w ad =
    if decide (ad = addr1) then apply_entries entries1 (default empty_view (w ad)) else w ad.
Proof.
  intros Hn. destruct applied1 as (v & Ea & Hr & _). apply (one_account nd_cells1 [1%Z] nd_ts entries1 e v).
  - apply (bool_decide_eq_true_1 _). vm_compute. reflexivity.
  - vm_compute. reflexivity.
  - unfold nd_ts. repeat apply Forall_cons_2; try (vm_compute; reflexivity). apply Forall_nil_2.
  - vm_compute. reflexivity.
  - apply entries1_ok.
  - unfold old_view. by rewrite Hn.
  - exact Hr.
  - intros ad _. apply Hn.
Qed.
Lemma entries2_ok : entries_ok entries2.
Proof.
  unfold entries_ok.
  replace (plan entries2) with (@None (string * option Codec.crdt), @None (string * option Codec.crdt),
    @None (string * option Codec.crdt), entries2) by (vm_compute; reflexivity).
  split; [repeat constructor; vm_compute; discriminate|].
  apply (bool_decide_eq_true_1 _). vm_compute. reflexivity.
Qed.
Lemma applied2 : exists v v', apply_entries entries1 empty_view = Some v /\ apply_entries entries2 v = Some v' /\
  view_in_range v' /\ v_nonce v' = 5%Z /\
  v_slots v' !! slot_key (native "0x01") = written (slot_value (Some (text "def"))).
Proof.
  destruct applied1 as (v & E & _). exists v. vm_compute in E. injection E as <-. eexists.
  split; [vm_compute; reflexivity|]. split; [vm_compute; reflexivity|]. by repeat split.
Qed.

(** ** The two generations *)
Lemma nd_idle : exists s0 this0, nd_start nd_world = Ret (this0, s0) /\
  idle nd_filter nd_codec this0 s0 /\ n_cells s0 = nd_cells /\ n_eth s0 = e_new /\
  same_stores nd_world s0 /\ n_exec s0 = nd_exec.
Proof.
  destruct (Exec_GetWriters_idle nd_filter nd_codec (fun _ => None) nd_world
    (MkROStore (fun _ => false) (fun _ => None) (fun _ _ => (None, None))))
    as (x & wc & we & wd & s0 & EW & Hi & Hc & Hs & He & Hx & _); [apply new_store_wf|reflexivity|].
  exists s0, (MkStateCommitter (fun _ => None) [x; wc; we; wd] [x; wc] [we; wd] ∅ ∅ (fun _ => None)).
  split; [exact (bind_run _ _ _ _ _ _ _ EW eq_refl)|]. by split_and!.
Qed.
(** The execution store is fed throughout. *)
Definition feeds_after (m : Go RefNode (StateCommitter Codec.crdt)) : bool :=
  match m nd_world with Ret (this, s) => feeds_exec this s | Panic => false end.
Lemma feeds_ret m this s : feeds_after m = true -> m nd_world = Ret (this, s) -> feeds_exec this s = true.
Proof. unfold feeds_after. by intros H E; rewrite E in H. Qed.
Lemma nd_reset_safe (gs : list generation) (this : StateCommitter Codec.crdt) (s : RefNode) : reset_safe gs this s.
Proof. intros _ h E l _. injection E as E. apply (f_equal n_cells) in E. cbn in E. by rewrite E. Qed.
Lemma nd_first s0 this0 : nd_start nd_world = Ret (this0, s0) -> idle nd_filter nd_codec this0 s0 ->
  n_cells s0 = nd_cells -> n_eth s0 = e_new ->
  exists this1 s1, nd_generation1 nd_world = Ret (this1, s1) /\
    generations nd_filter nd_codec s0 [nd_g1] this1 s1.
Proof.
  intros E0 Hi Hc He. pose proof (generations_start nd_filter nd_codec s0 this0 Hi) as Hg.
  destruct (next_generation nd_filter nd_codec [] this0 s0 s0 nd_ts Hg) as (t2 & s2 & EI & _ & Hv & Hnext).
  { unfold new_transitions. rewrite Hc. split; [exact nd_importable1|].
    split; [apply (bool_decide_eq_true_1 _); vm_compute; reflexivity|by intros l _ ?%elem_of_nil]. }
  pose proof (bind_run _ (Committer.Import nd_ts) _ _ _ _ _ E0 EI : nd_import1 nd_world = _) as E1.
  assert (Hcs : n_cells s2 = nd_cells1) by (unfold nd_cells1; by rewrite (state_of_ret _ _ _ _ E1)).
  rewrite Hcs in Hnext. destruct (Hnext [1%Z]) as (t3 & s3 & EP & Hg3 & _).
  { apply nd_ready1. intros ad. rewrite Hv, He. apply new_store_view. }
  exists t3, s3. split; [exact (bind_run _ (DebugPrecommit [1%Z]) _ _ _ _ _ E1 EP)|exact Hg3].
Qed.
Lemma nd_ready2 (e : EthState (gmap bytes bytes)) v v' : apply_entries entries1 empty_view = Some v ->
  apply_entries entries2 v = Some v' -> view_in_range v' ->
  (forall ad, view_at e ad = if decide (ad = addr1) then Some v else None) ->
  block_ready nd_filter nd_cells2 [3%Z] [5] e /\ forall w ad, account_spec nd_filter nd_cells2 [3%Z] [5] w ad =
    if decide (ad = addr1) then apply_entries entries2 (default empty_view (w ad)) else w ad.
Proof.
  intros E1 E2 Hr Hv. apply (one_account nd_cells2 [3%Z] [5] entries2 e v').
  - apply (bool_decide_eq_true_1 _). vm_compute. reflexivity.
  - vm_compute. reflexivity.
  - repeat apply Forall_cons_2; try (vm_compute; reflexivity). apply Forall_nil_2.
  - vm_compute. reflexivity.
  - apply entries2_ok.
  - unfold old_view. by rewrite Hv, decide_True.
  - exact Hr.
  - intros ad Hd. by rewrite Hv, decide_False.
Qed.
Lemma nd_second s0 this1 s1 v v' : nd_generation1 nd_world = Ret (this1, s1) ->
  generations nd_filter nd_codec s0 [nd_g1] this1 s1 -> n_eth s0 = e_new ->
  apply_entries entries1 empty_view = Some v -> apply_entries entries2 v = Some v' -> view_in_range v' ->
  new_transitions [nd_g1] s1 [5] /\
  exists this2 s2 this3 s3, nd_import2 nd_world = Ret (this2, s2) /\
    Committer.Import [5] this1 s1 = Ret (this2, s2) /\ n_cells s2 = nd_cells2 /\
    block_ready nd_filter (n_cells s2) [3%Z] [5] (n_eth s2) /\
    DebugPrecommit [3%Z] this2 s2 = Ret (this3, s3) /\
    generations nd_filter nd_codec s0 [nd_g1; nd_g2] this3 s3 /\
    accounts_spec nd_filter [nd_g1; nd_g2] (view_at (n_eth s0)) addr1 = Some v'.
Proof.
  intros E1 Hg He Ea Eb Hr.
  assert (Hnew : new_transitions [nd_g1] s1 [5]).
  { unfold new_transitions. replace (n_cells s1) with nd_cells1'
      by (unfold nd_cells1'; by rewrite (state_of_ret _ _ _ _ E1)).
    split; [exact nd_importable2|]. split; [apply NoDup_singleton|]. intros l ->%list_elem_of_singleton.
    apply (bool_decide_eq_true_1 _). vm_compute. reflexivity. }
  split; [exact Hnew|].
  destruct (generations_inv _ _ s0 _ _ _ Hg) as (wx & wc & we & wd & gc & es & gx & Hinv).
  pose proof (gi_views _ _ _ _ _ _ _ _ _ _ _ _ _ Hinv) as Hv1.
  destruct (next_generation _ _ _ _ _ _ _ Hg Hnew) as (t2 & s2 & EI & _ & Hv & Hnext).
  pose proof (bind_run _ (Committer.Import [5]) _ _ _ _ _ E1 EI : nd_import2 nd_world = _) as E2.
  assert (Hcs : n_cells s2 = nd_cells2) by (unfold nd_cells2; by rewrite (state_of_ret _ _ _ _ E2)).
  assert (Hone : forall ad, accounts_spec nd_filter [nd_g1] (view_at (n_eth s0)) ad =
      if decide (ad = addr1) then Some v else None).
  { intros ad. rewrite He. etrans; [apply (proj2 (nd_ready1 e_new new_store_view))|].
    rewrite new_store_view. by case_decide. }
  destruct (nd_ready2 (n_eth s2) v v' Ea Eb Hr) as [Hready Hspec].
  { intros ad. by rewrite Hv, Hv1, Hone. }
  rewrite Hcs in Hnext. destruct (Hnext [3%Z] Hready) as (t3 & s3 & EP & Hg3 & _).
  exists t2, s2, t3, s3. split; [exact E2|]. split; [exact EI|]. split; [exact Hcs|].
  split; [by rewrite Hcs|]. split; [exact EP|]. split; [exact Hg3|].
  rewrite (accounts_spec_snoc nd_filter [nd_g1] nd_g2). unfold nd_g2. cbn [g_cells g_txs g_ts].
  rewrite Hspec, Hone, !decide_True by done. exact Eb.
Qed.

(** All three stores show the second value, and the account the nonce of the
    first generation. *)
Lemma Node_block_witness : exists this2 s' v,
  nd_block nd_world = Ret (this2, s') /\
  n_cache s' !! native "0x01" = Some (text "def") /\
  (n_backend s' !! native "0x01" ≫= proxy_decode (native "0x01")) = Some (text "def") /\
  view_at (n_eth s') addr1 = Some v /\ v_nonce v = 5%Z /\
  v_slots v !! slot_key (native "0x01") = written (slot_value (Some (text "def"))) /\
  localCells (n_exec s') = ∅ /\ idle nd_filter nd_codec this2 s'.
Proof.
  destruct nd_idle as (s0 & this0 & E0 & Hi & Hc & He & Hs & Hx).
  destruct applied2 as (v & v' & Ea & Eb & Hr & Hnonce & Hslot).
  destruct (nd_first s0 this0 E0 Hi Hc He) as (this1 & s1 & E1 & Hg1).
  destruct (nd_second s0 this1 s1 v v' E1 Hg1 He Ea Eb Hr) as (_ & t2 & s2' & this2 & s2 & E2' & _ & _ & _ & EP & Hg2 & Hacc).
  pose proof (bind_run _ (DebugPrecommit [3%Z]) _ _ _ _ _ E2' EP : nd_generation2 nd_world = _) as E2.
  destruct (Node_block nd_filter nd_codec 1 [nd_g1; nd_g2] this2 s0 s2 Hg2 (nd_reset_safe _ _ _))
    as (s' & E & [Hcache Hstg Heth Hexec] & Hidle).
  rewrite (feeds_ret nd_generation2 this2 s2 ltac:(vm_compute; reflexivity) E2) in Hexec.
  pose proof (bind_run _ (DebugCommit 1) _ _ _ _ _ E2 E : nd_block nd_world = _) as E3.
  assert (Hn : dbErr (es_world (n_eth s')) = None) by (rewrite <- (state_of_ret _ _ _ _ E3); exact nd_block_err).
  destruct Hcache as (c & Ec & Hcache). destruct Hstg as (es & errs & Ew & Hstg).
  destruct (Heth Hn) as (_ & Hv & _). specialize (Hv addr1). rewrite Hacc in Hv.
  exists this2, s', v'. split; [exact E3|]. split; [|split; [|split; [exact Hv|split; [exact Hnonce|split; [exact Hslot|split; [exact (proj1 Hexec)|exact (Hidle Hn)]]]]]].
  - rewrite Ec. etrans; [exact (Hcache (native "0x01"))|]. unfold cache_spec.
    replace (path_entries nd_filter [nd_g1; nd_g2] (native "0x01"))
      with [(native "0x01", Some (text "abc")); (native "0x01", Some (text "def"))] by (vm_compute; reflexivity).
    reflexivity.
  - assert (Hb : n_backend s' !! native "0x01" = Some (proxy_codec (native "0x01") (text "def")).1.2).
    { etrans; [refine (Hstg _ (native "0x01"))|].
      + unfold written_batch in Ew. cbn in Ew. injection Ew as <- _.
        intros err (x & -> & _)%list_elem_of_fmap. reflexivity.
      + unfold storage_spec.
        replace (path_entries nd_filter [nd_g1; nd_g2] (native "0x01"))
          with [(native "0x01", Some (text "abc")); (native "0x01", Some (text "def"))] by (vm_compute; reflexivity).
        vm_compute. reflexivity. }
    rewrite Hb. vm_compute. reflexivity.
Defined.

(** After the first generation the block can be committed, and can go on with
    the second. *)
Lemma Node_progress_witness : exists s0 this1 s1 this2 s2,
  nd_generation1 nd_world = Ret (this1, s1) /\
  (exists s', DebugCommit 1 this1 s1 = Ret (this1, s')) /\
  Committer.Import [5] this1 s1 = Ret (this2, s2) /\
  exists this3 s3, DebugPrecommit [3%Z] this2 s2 = Ret (this3, s3) /\
    generations nd_filter nd_codec s0 [nd_g1; nd_g2] this3 s3.
Proof.
  destruct nd_idle as (s0 & this0 & E0 & Hi & Hc & He & Hs & Hx).
  destruct applied2 as (v & v' & Ea & Eb & Hr & _).
  destruct (nd_first s0 this0 E0 Hi Hc He) as (this1 & s1 & E1 & Hg1).
  destruct (nd_second s0 this1 s1 v v' E1 Hg1 He Ea Eb Hr)
    as (Hnew & this2 & s2 & _ & _ & _ & EI & Hcs & Hready & _).
  destruct (Node_progress nd_filter nd_codec 1 [nd_g1] this1 s0 s1 Hg1) as [Hcommit Hnext].
  destruct (Hnext [5] Hnew) as (this2' & s2' & EI' & _ & _ & Hpre). rewrite EI in EI'. injection EI' as <- <-.
  destruct (Hpre [3%Z] Hready) as (this3 & s3 & EP & Hg3). rewrite Hcs in Hg3.
  exists s0, this1, s1, this2, s2. split; [exact E1|]. split; [exact (Hcommit (nd_reset_safe _ _ _))|].
  split; [exact EI|]. exists this3, s3. split; [exact EP|exact Hg3].
Defined.

(** The executions after the second generation find its value, in a cell of
    the store. *)
Lemma Node_visible_witness : exists this3 s3 l c,
  nd_generation2 nd_world = Ret (this3, s3) /\ n_cache s3 !! native "0x01" = None /\
  localCells (n_exec s3) !! native "0x01" = Some l /\ n_cells s3 !! l = Some c /\
  entry_of c = (native "0x01", Some (text "def")).
Proof.
  destruct nd_idle as (s0 & this0 & E0 & Hi & Hc & He & Hs & Hx).
  destruct applied2 as (v & v' & Ea & Eb & Hr & _).
  destruct (nd_first s0 this0 E0 Hi Hc He) as (this1 & s1 & E1 & Hg1).
  destruct (nd_second s0 this1 s1 v v' E1 Hg1 He Ea Eb Hr)
    as (Hnew & this2 & s2 & this3 & s3 & E2 & EI & Hcs & Hready & EP & _).
  destruct (Node_visible nd_filter nd_codec [nd_g1] this1 s0 s1 [3%Z] [5] this2 s2 this3 s3 Hg1 Hnew EI Hready EP)
    as [Hst Hexec].
  rewrite (feeds_ret nd_generation1 this1 s1 ltac:(vm_compute; reflexivity) E1), Hcs in Hexec.
  destruct Hexec as [_ Hexec]. specialize (Hexec (native "0x01")).
  replace (path_entries all ([nd_g1] ++ [nd_g2]) (native "0x01"))
    with [(native "0x01", Some (text "abc")); (native "0x01", Some (text "def"))] in Hexec by (vm_compute; reflexivity).
  cbn [last] in Hexec. destruct Hexec as (l & c & Hl & Hc3 & _ & Hent).
  exists this3, s3, l, c. split; [exact (bind_run _ (DebugPrecommit [3%Z]) _ _ _ _ _ E2 EP)|].
  split; [|by split_and!]. rewrite (ss_cache _ _ Hst), <- (state_of_ret _ _ _ _ E1). vm_compute. reflexivity.
Defined.

(** ** The start of a node on a proxy in memory *)
(** Slices whose older headers do not see the moves. *)
Definition keep_slices : SliceLib := {|
  slice_RemoveIf := @slice_RemoveIf ref_slice; slice_RemoveIf_alias := @slice_RemoveIf_alias ref_slice;
  slice_MoveIf := @slice_MoveIf ref_slice; slice_MoveIf_alias A p l := l;
  slice_MoveBothIf := @slice_MoveBothIf ref_slice; slice_SortBy1st := @slice_SortBy1st ref_slice;
  slice_ParallelTransform := @slice_ParallelTransform ref_slice;
  slice_ConcateDo := @slice_ConcateDo ref_slice |}.
Lemma keep_slices_laws : SliceLaws keep_slices.
Proof. destruct ref_slice_laws. by constructor. Qed.
#[export] Instance nd_cachedstore : CachedStoreLib Codec.crdt (gmap string Codec.crdt) := {|
  cachedstore_New _ _ := ∅ |}.
#[export] Instance nd_cachedstore_laws : CachedStoreLaws nd_cachedstore.
Proof. constructor. intros. apply lookup_empty. Qed.
#[export] Instance nd_backend : BackendLib (gmap string bytes) := {|
  memdb_NewMemoryDB := ∅;
  filedb_NewFileDB dir := if decide (dir = "") then inr "no directory" else inl ∅;
  pebbledb_NewPebbleDB dir := if decide (dir = "") then inr "no directory" else inl ∅ |}.
(** Of the values only the size is asked. *)
#[export] Instance nd_crdt : CrdtLib Codec.crdt unit := {|
  TypeID _ := STRING; MemSize _ := 32%Z; IsDeltaApplied _ := true; crdt_Get _ := None; Limits _ := (None, None);
  crdt_New v _ _ := v; crdt_Clone v := v; as_Bytes _ := None; is_Path _ := false; new_Path := text "";
  Path_Exists _ _ := false; Path_IsBlockBound _ := false; Path_View _ := tt; is_DeltaSet _ := false;
  ds_Length _ := 0%Z; ds_KeyAt _ _ := None; ds_Last _ := None; ds_IdxOf _ _ := 0%Z |}.

Lemma node_start_witness : exists s l this s0,
  node_on nd_cells ∅ nd_exec NewMemDBStoreProxy = Some s /\
  node_writers_of nd_filter nd_codec true s = Ret (l, s0) /\
  new_committer nd_filter nd_codec true (fun _ => None) s = Ret (this, s0) /\
  syncWriters this ++ asyncWriters this = l /\
  generations nd_filter nd_codec s0 [] (with_writers l this) s0 /\ n_cells s0 = nd_cells.
Proof.
  destruct (node_start nd_filter nd_codec true NewMemDBStoreProxy nd_cells ∅ nd_exec nd_world (fun _ => None))
    as (l & objs & this & s0 & EW & E & _ & _ & Hl & _ & Hg & _ & Hc & _).
  - apply made_mem.
  - reflexivity.
  - by eexists.
  - exists nd_world, l, this, s0. split; [reflexivity|]. by split_and!.
Defined.
(** A slice.MoveIf that leaves the array as it is, and one that moves the other
    elements to its front: with the first a block can start with the committer. *)
Lemma node_start_lists : exists s l this s0,
  node_on nd_cells ∅ nd_exec NewMemDBStoreProxy = Some s /\
  new_committer (SL := keep_slices) nd_filter nd_codec true (fun _ => None) s = Ret (this, s0) /\
  writers this = l /\ length l = 4 /\
  exists this' s0', new_committer nd_filter nd_codec true (fun _ => None) s = Ret (this', s0') /\ writers this' <> l.
Proof.
  exists nd_world. eexists _, _, _. split; [reflexivity|]. split; [vm_compute; reflexivity|].
  split; [reflexivity|]. split; [reflexivity|]. eexists _, _. split; [vm_compute; reflexivity|].
  cbn. discriminate.
Qed.

(** ** What the block leaves to read *)
#[export] Instance ref_store_writes V : RWWrites (ref_store V).
Proof. constructor. intros ks vs c err (x & -> & _)%list_elem_of_fmap. reflexivity. Qed.

Lemma block_entry_path keep h txs ts p e : e ∈ block_entry keep (h : gmap loc ecell) txs ts p ->
  exists l, l ∈ ts /\ path_at h l = Some p.
Proof.
  unfold block_entry. destruct (winner h txs ts p) as [l|] eqn:E; [|by intros ?%elem_of_nil].
  intros _. apply winner_in in E. exists l.
  apply elem_of_filter_b in E as [E _]. apply elem_of_filter_b in E as [Hin Hp].
  by apply bool_decide_eq_true in Hp.
Qed.
Lemma nd_paths p e : e ∈ path_entries nd_filter [nd_g1; nd_g2] p ->
  p = field_path PATH_NONCE \/ p = native "0x01" \/ p = container "ctn/k".
Proof.
  rewrite (path_entries_snoc nd_filter [nd_g1] nd_g2), (path_entries_snoc nd_filter [] nd_g1).
  change (path_entries nd_filter [] p) with (@nil (string * option Codec.crdt)). rewrite app_nil_l.
  assert (Hps : forall h ts, Forall (fun l => path_at h l ∈
      [Some (field_path PATH_NONCE); Some (native "0x01"); Some (container "ctn/k")]) ts ->
    forall l, l ∈ ts -> path_at h l = Some p ->
    p = field_path PATH_NONCE \/ p = native "0x01" \/ p = container "ctn/k").
  { intros h ts Hall l Hl Hp. rewrite Forall_forall in Hall. specialize (Hall l Hl). rewrite Hp in Hall.
    rewrite !elem_of_cons, elem_of_nil in Hall. destruct Hall as [Ha|[Ha|[Ha|[]]]]; injection Ha as ->; auto. }
  intros [H|H]%elem_of_app; apply block_entry_path in H as (l & Hl & Hp).
  - apply (Hps nd_cells1 nd_ts) with (l := l); [|exact Hl|exact Hp].
    apply (bool_decide_eq_true_1 _). vm_compute. reflexivity.
  - apply (Hps nd_cells2 [5]) with (l := l); [|exact Hl|exact Hp].
    apply (bool_decide_eq_true_1 _). vm_compute. reflexivity.
Qed.
Lemma nd_survive p v : (p, Some v) ∈ path_entries nd_filter [nd_g1; nd_g2] p -> survives nd_codec proxy_decode p v.
Proof.
  intros H. pose proof (nd_paths p _ H) as [-> |[-> | ->]].
  - replace (path_entries nd_filter [nd_g1; nd_g2] (field_path PATH_NONCE))
      with [(field_path PATH_NONCE, Some nonce5)] in H by (vm_compute; reflexivity).
    apply list_elem_of_singleton in H. injection H as ->. vm_compute. reflexivity.
  - replace (path_entries nd_filter [nd_g1; nd_g2] (native "0x01"))
      with [(native "0x01", Some (text "abc")); (native "0x01", Some (text "def"))] in H by (vm_compute; reflexivity).
    apply elem_of_cons in H as [H|H%list_elem_of_singleton]; injection H as ->; vm_compute; reflexivity.
  - replace (path_entries nd_filter [nd_g1; nd_g2] (container "ctn/k"))
      with [(container "ctn/k", @None Codec.crdt)] in H by (vm_compute; reflexivity).
    apply list_elem_of_singleton in H. discriminate H.
Qed.

(** The next block reads the second value, through the cache or without it. *)
Lemma Node_reads_witness : exists this2 s' s'' ro,
  nd_block nd_world = Ret (this2, s') /\ reads_through proxy_decode ro s' /\
  SetCommittedStore (SO := node_exec) (Some ro) s' = Ret (tt, s'') /\
  coherent proxy_decode (n_cache s') (n_backend s') /\
  ExecStoreTheory.view (HL := node_cells) (OL := node_exec) s'' (native "0x01") None = Some (IsCRDT (text "def")).
Proof.
  destruct nd_idle as (s0 & this0 & E0 & Hi & Hc & He & Hs & Hx).
  destruct applied2 as (v & v' & Ea & Eb & Hr & _).
  destruct (nd_first s0 this0 E0 Hi Hc He) as (this1 & s1 & E1 & Hg1).
  destruct (nd_second s0 this1 s1 v v' E1 Hg1 He Ea Eb Hr)
    as (_ & t2 & s2' & this2 & s2 & E2' & _ & _ & _ & EP & Hg2 & _).
  pose proof (bind_run _ (DebugPrecommit [3%Z]) _ _ _ _ _ E2' EP : nd_generation2 nd_world = _) as E2.
  destruct (commit_result nd_filter nd_codec 1 [nd_g1; nd_g2] this2 s0 s2 Hg2 (nd_reset_safe _ _ _))
    as (s' & EC & _).
  set (ro := MkROStore (fun _ => false) (fun _ => None)
    (fun p _ => (IsCRDT <$> shown proxy_decode (n_cache s') (n_backend s') p, None))).
  destruct (Node_reads nd_filter nd_codec proxy_decode 1 [nd_g1; nd_g2] this2 s0 s2 this2 s' Hg2 (nd_reset_safe _ _ _))
    as (Hco & _ & Hview).
  - intros p x Hp. rewrite (ss_cache _ _ Hs) in Hp. change (n_cache nd_world) with (∅ : gmap string Codec.crdt) in Hp.
    change ((∅ : gmap string Codec.crdt) !! p = Some x) in Hp. by rewrite lookup_empty in Hp.
  - exact nd_survive.
  - exact EC.
  - specialize (Hview (feeds_ret nd_generation2 this2 s2 ltac:(vm_compute; reflexivity) E2)).
    assert (Hpend : pendingWildcardDeletes (n_exec s2) = [])
      by (rewrite <- (state_of_ret _ _ _ _ E2); vm_compute; reflexivity).
    eexists this2, s', _, ro. split; [exact (bind_run _ (DebugCommit 1) _ _ _ _ _ E2 EC)|].
    split; [by intros p T|]. split; [reflexivity|]. split; [exact Hco|].
    etrans; [apply (Hview Hpend ro _ ltac:(by intros p T) eq_refl)|]. unfold cache_spec.
    replace (path_entries nd_filter [nd_g1; nd_g2] (native "0x01"))
      with [(native "0x01", Some (text "abc")); (native "0x01", Some (text "def"))] by (vm_compute; reflexivity).
    reflexivity.
Defined.

(** The slot of the path written in both generations shows what the cached store
    does. *)
Lemma Node_agree_witness : exists this2 s',
  nd_block nd_world = Ret (this2, s') /\ agree proxy_decode s' (native "0x01") /\
  slot_at (view_at (n_eth s') addr1) (native "0x01") = Some (slot_value (Some (text "def"))).
Proof.
  destruct nd_idle as (s0 & this0 & E0 & Hi & Hc & He & Hs & Hx).
  destruct applied2 as (v & v' & Ea & Eb & Hr & _ & Hslot).
  destruct (nd_first s0 this0 E0 Hi Hc He) as (this1 & s1 & E1 & Hg1).
  destruct (nd_second s0 this1 s1 v v' E1 Hg1 He Ea Eb Hr)
    as (_ & t2 & s2' & this2 & s2 & E2' & _ & _ & _ & EP & Hg2 & Hacc).
  pose proof (bind_run _ (DebugPrecommit [3%Z]) _ _ _ _ _ E2' EP : nd_generation2 nd_world = _) as E2.
  destruct (commit_result nd_filter nd_codec 1 [nd_g1; nd_g2] this2 s0 s2 Hg2 (nd_reset_safe _ _ _))
    as (s' & EC & [_ _ Heth _] & _).
  pose proof (bind_run _ (DebugCommit 1) _ _ _ _ _ E2 EC : nd_block nd_world = _) as E3.
  assert (Hn : dbErr (es_world (n_eth s')) = None) by (rewrite <- (state_of_ret _ _ _ _ E3); exact nd_block_err).
  assert (Hpath : path_addr (native "0x01") = addr1) by (vm_compute; reflexivity).
  assert (Hent : path_entries nd_filter [nd_g1; nd_g2] (native "0x01") =
    [(native "0x01", Some (text "abc")); (native "0x01", Some (text "def"))]) by (vm_compute; reflexivity).
  destruct (Node_agree nd_filter nd_codec proxy_decode 1 [nd_g1; nd_g2] this2 s0 s2 this2 s' (native "0x01") Hg2
    (nd_reset_safe _ _ _)) as [Hagree _].
  - intros p x Hp. rewrite (ss_cache _ _ Hs) in Hp. change (n_cache nd_world) with (∅ : gmap string Codec.crdt) in Hp.
    change ((∅ : gmap string Codec.crdt) !! p = Some x) in Hp. by rewrite lookup_empty in Hp.
  - exact nd_survive.
  - exact EC.
  - exact Hn.
  - vm_compute. reflexivity.
  - assert (Hu : forall es, forallb (fun x : string * option Codec.crdt => negb (bool_decide (slot_key x.1 = slot_key (native "0x01")))
        || bool_decide (x.1 = native "0x01")) es = true -> unshared (native "0x01") es).
    { intros es Hall x Hin Hk. rewrite forallb_forall in Hall. apply list_elem_of_In in Hin. specialize (Hall x Hin).
      apply orb_true_iff in Hall as [Ha|Ha]; [|by apply bool_decide_eq_true in Ha].
      rewrite Hk, bool_decide_eq_true_2 in Ha by done. discriminate Ha. }
    apply Forall_cons_2; [|apply Forall_cons_2; [|apply Forall_nil_2]]; apply Hu; vm_compute; reflexivity.
  - exists this2, s'. split; [exact E3|]. split.
    + apply Hagree.
      * intros ((x & El & Hnone) & _). rewrite Hent in El. injection El as <-. discriminate Hnone.
      * unfold agree. rewrite He, new_store_view, (ss_cache _ _ Hs), (ss_backend _ _ Hs). vm_compute. reflexivity.
    + destruct (Heth Hn) as (_ & Hv & _). rewrite Hv, Hacc. etrans; [exact Hslot|]. vm_compute. reflexivity.
Defined.
