(* ===== verification/RefExec.v ===== *)
(** * A reference instance for an execution in a node

    The node of WitnessesNode.v with the rest of what an execution calls: what
    is asked of the typed values, the effects of the cells on the node, the
    batches of cells and the empty values. *)
From S2P Require Import Prelude GoString Interfaces Heap Paths PathBuilder ExecStore ExecStoreOps ExecStoreTheory ExecStoreOpsTheory Accounts AccountsTheory CommitterTheory Codec CodecTheory EthLib EthAccount EthWorldState EthWriter Node NodeBlock NodeRead NodeExec Proxies Harness Reference RefCodec RefEth RefStore Witnesses WitnessesStore WitnessesEth WitnessesNode.
Import Constants PathTypes.

(** What a value or a cell returns from [Get]: the keys of a container, or the
    value. *)
Inductive nraw := NKeys (ks : list string) | NValue (v : Codec.crdt).
Definition container_keys (v : Codec.crdt) : option (list string) :=
  match v with CPath p => Some (map bytes_ascii (p : list bytes)) | _ => None end.
Definition of_keys (ks : list string) : Codec.crdt := CPath (map ascii_bytes ks : Path).
Definition n_raw (v : Codec.crdt) : nraw :=
  match container_keys v with Some ks => NKeys ks | None => NValue v end.

#[export] Instance n_crdt : CrdtLib Codec.crdt nraw := {|
  TypeID v := kind_number (kind v);
  MemSize v := match container_keys v with Some ks => 32 * Z.of_nat (length ks) | None => 32 end;
  IsDeltaApplied v := true;
  crdt_Get v := Some (n_raw v);
  Limits v := (None, None);
  crdt_New v r l := v;
  crdt_Clone v := v;
  as_Bytes v := None;
  is_Path v := bool_decide (is_Some (container_keys v));
  new_Path := of_keys [];
  Path_Exists k v := bool_decide (k ∈ default [] (container_keys v));
  Path_IsBlockBound v := false;
  Path_View v := n_raw v;
  is_DeltaSet r := match r with NKeys _ => true | NValue _ => false end;
  ds_Length r := match r with NKeys ks => Z.of_nat (length ks) | NValue _ => 0 end;
  ds_KeyAt i r := match r with NKeys ks => ks !! Z.to_nat i | NValue _ => None end;
  ds_Last r := match r with NKeys ks => last ks | NValue _ => None end;
  ds_IdxOf k r := match r with
                  | NKeys ks => match list_find (k =.) ks with Some (i, _) => Z.of_nat i | None => MaxUint64 end
                  | NValue _ => MaxUint64 end |}%Z.
#[export] Instance n_defaults : DefaultValues Codec.crdt := {|
  NewPath := of_keys []; NewString_empty := text ""; NewUnboundedU256 := CU256 (MkRInt 0 None : U256);
  NewUnboundedUint64 := CUint64 (MkRInt 0 None : Uint64); new_NInt64 := NInt64 0;
  NewBytes_empty := NBytes ([] : Bytes) |}%Z.

(** Setting a cell under the path it is indexed at replaces the value; under
    another one it updates the keys of a container. *)
Definition n_Set (tx : Z) (path : string) (v : option (any Codec.crdt)) (l : loc) : Go RefNode (option string) :=
  let! c := deref (H := node_cells) l in
  let! s := gget in
  if bool_decide (localCells (n_exec s) !! path = Some l) then
    update_cell (H := node_cells) (SetValue v) l ;;; gret None
  else match Value c with
       | Some (IsCRDT x) =>
           match container_keys x with
           | Some ks =>
               let k := str_drop (len (default "" (GetPath c))) path in
               let ks := match v with
                         | Some _ => ks ++ [k]
                         | None => List.filter (fun x => bool_decide (x <> k)) ks
                         end in
               update_cell (H := node_cells) (SetValue (Some (IsCRDT (of_keys ks)))) l ;;; gret None
           | None => gret (Some "not a container")
           end
       | _ => gret (Some "not a container")
       end.
Definition n_CopyTo (l : loc) : Go RefNode unit :=
  let! c := deref (H := node_cells) l in
  let! p := gsome (GetPath c) in
  let! s := gget in
  match localCells (n_exec s) !! p with
  | Some l' => update_cell (H := node_cells) (SetValue (Value c)) l'
  | None => addToLocalCache (CH := node_cells) (SO := node_exec) l
  end.
#[export] Instance n_effects : CellEffects RefNode nraw Codec.crdt := {|
  cell_Set := n_Set;
  cell_Get tx p l := let! c := deref (H := node_cells) l in
    gret (match Value c with Some (IsCRDT v) => crdt_Get v | _ => None end);
  cell_Do A tx p f l := gret (f l).2;
  cell_CopyTo := n_CopyTo |}.
Lemma n_effect_laws : EffectLaws (S := RefNode) (HL := node_cells) (OL := node_exec).
Proof.
  constructor.
  - intros tx p v l s e s' E. cbn in E. unfold n_Set in E.
    apply gbind_ret in E as (c & s1 & [_ ->]%deref_ret & E).
    apply gbind_ret in E as (s2 & s1 & Eg & E). unfold gget in Eg. simplify_eq. case_match.
    + apply gbind_ret in E as (? & ? & (d & _ & ->)%update_cell_ret & [_ <-]%gret_ret). apply ext_insert.
    + repeat case_match; try (apply gret_ret in E as [_ <-]; done).
      all: apply gbind_ret in E as (? & ? & (d & _ & ->)%update_cell_ret & [_ <-]%gret_ret);
        apply ext_insert.
  - intros tx p l s r s' E. cbn in E. by apply gbind_ret in E as (c & s1 & [_ ->]%deref_ret & [_ <-]%gret_ret).
  - intros A tx p f l s r s' E. cbn in E. by apply gret_ret in E as [_ <-].
  - intros l s u s' E. cbn in E. unfold n_CopyTo in E.
    apply gbind_ret in E as (c & s1 & [Hc ->]%deref_ret & E).
    apply gbind_ret in E as (p & s1 & [Hp <-]%gsome_ret & E).
    apply gbind_ret in E as (s2 & s1 & Eg & E). unfold gget in Eg. simplify_eq.
    destruct (localCells (n_exec s1) !! p) as [l'|] eqn:El.
    + apply update_cell_ret in E as (d & _ & ->). apply ext_insert.
    + rewrite (addToLocalCache_eq l c p) in E by done.
      apply (f_equal (fun o => match o with Ret (_, s) => s | Panic => s1 end)) in E.
      change (index_at (OL := node_exec) p l s1 = s') in E. subst s'.
      apply ext_index; [exact El|]. exists c. exact Hc.
Qed.
Lemma n_fresh_set : FreshSet (S := RefNode) (HL := node_cells) (OL := node_exec).
Proof.
  intros tx p v l c s Hl Hc _. exists (SetValue (Some (IsCRDT v)) c). split; [|done].
  cbn. unfold n_Set. rewrite (gbind_eq _ _ _ _ _ (deref_eq l s c Hc)). unfold gget, gbind at 1.
  change (localCells (n_exec s) !! p = Some l) in Hl. rewrite bool_decide_true by done.
  unfold update_cell. rewrite gbind_assoc, (gbind_eq _ _ _ _ _ (deref_eq l s c Hc)). reflexivity.
Qed.
#[export] Instance n_default_laws : DefaultLaws n_crdt n_defaults.
Proof. constructor. by repeat constructor. Qed.

#[export] Instance n_batch : CellBatchLib RefNode := {|
  Sorter ls := gret ls; To_InterThreadAccess ls := gret ls; To_InterThreadTransition ls := gret ls |}.
#[export] Instance n_sorter : SorterLaws (HL := node_cells) (CB := n_batch).
Proof. intros ls s _. by exists ls. Qed.
#[export] Instance n_harness : HarnessLib RefNode := {|
  To_InterProcTransition ls := gret ls;
  StateCells_Encode ls := gret [];
  StateCells_Decode b := gret [];
  hexutil_Encode b := "0x" +:+ hex_digits b |}.
Lemma hex_digit_no_slash d : (0 <= d < 16)%Z -> Ascii.eqb slash (hex_digit d) = false.
Proof.
  intros Hd.
  assert (Hf : forallb (fun d => negb (Ascii.eqb slash (hex_digit d))) (seqZ 0 16) = true) by (vm_compute; reflexivity).
  rewrite forallb_forall in Hf. apply negb_true_iff, Hf, list_elem_of_In, elem_of_seqZ. lia.
Qed.
Lemma hex_digits_no_slash b : byte_range b -> ContainsByte slash (hex_digits b) = false.
Proof.
  induction 1 as [|d b Hd _ IH]; [done|]. cbn [hex_digits ContainsByte].
  rewrite !hex_digit_no_slash; [exact IH|apply Z.mod_pos_bound; lia|].
  split; [apply Z.div_pos|apply Z.div_lt_upper_bound]; lia.
Qed.
#[export] Instance n_hexutil_laws : HexutilLaws n_harness.
Proof.
  constructor. intros b [Hb Hr]. split.
  - cbn -[hex_digits]. by rewrite len_hex_digits, Hb.
  - cbn [hexutil_Encode n_harness]. by rewrite ContainsByte_app, hex_digits_no_slash by done.
Qed.

(** A store that reads the cached store. *)
Definition n_open (c : gmap string Codec.crdt) (d : gmap string bytes) : ROStore Codec.crdt := {|
  ro_Has p := bool_decide (is_Some (shown proxy_decode c d p));
  ro_Get p := IsCRDT <$> shown proxy_decode c d p;
  ro_GetAs p T := (IsCRDT <$> shown proxy_decode c d p, None) |}.
Definition n_decode (b : bytes) (v : Codec.crdt) : option (any Codec.crdt) := None.

(** Decidable forms of the conditions on executions. *)
Definition exec_typed_b (h : gmap loc ecell) (st : ExecutionStateStore Codec.crdt) : bool :=
  forallb (fun pl => match h !! pl.2 with
                     | Some c => bool_decide (GetPath c = Some pl.1) && negb (is_raw c)
                     | None => false end) (map_to_list (localCells st)).
Lemma exec_ready_check (h : gmap loc ecell) st :
  exec_typed_b h st = true -> pendingWildcardDeletes st = [] -> exec_ready h st.
Proof.
  intros H Hp. split; [|exact Hp]. intros p l Hl. unfold exec_typed_b in H. rewrite forallb_forall in H.
  specialize (H (p, l)). cbn [fst snd] in H.
  assert (Hin : List.In (p, l) (map_to_list (localCells st))).
  { apply list_elem_of_In. by apply elem_of_map_to_list. }
  specialize (H Hin). destruct (h !! l) as [c|]; [|done].
  apply andb_true_iff in H as [H1 H2]. exists c. split; [done|].
  apply bool_decide_eq_true in H1. apply negb_true_iff in H2. by split.
Qed.
Definition exec_locs (st : ExecutionStateStore Codec.crdt) : list loc := (map_to_list (localCells st)).*2.
Lemma accessed_in (h : gmap loc ecell) p st l : accessed h p st = Some l ->
  l ∈ exec_locs st /\ p ∈ (map_to_list (localCells st)).*1.
Proof.
  intros (l' & Hp & E)%bind_Some. case_match; [done|]. injection E as <-.
  unfold exec_locs. split; apply list_elem_of_fmap; exists (p, l'); (split; [done|by apply elem_of_map_to_list]).
Qed.
Lemma separate_check (h : gmap loc ecell) execs :
  NoDup (List.concat (map exec_locs execs)) -> separate h execs.
Proof.
  induction execs as [|st execs IH]; [done|]. cbn. intros (_ & Hd & Hn)%NoDup_app. split; [|by apply IH].
  intros p l [Hl _]%accessed_in st' q Hst [Hq _]%accessed_in. apply (Hd l Hl).
  apply list_elem_of_In, in_concat. exists (exec_locs st').
  split; [by apply in_map, list_elem_of_In|by apply list_elem_of_In].
Qed.
