(* ===== verification/WitnessesExec.v ===== *)
(** * Executions in a node, at concrete inputs

    Three executions write two slots of an account, and the block accepts two
    of them; and the harness on a store of its own. *)
From S2P Require Import Prelude ExecStore ExecStoreOps ExecStoreTheory ExecStoreOpsTheory GoString AccountsTheory Interfaces Heap Paths PathsTheory DeltaSequence DeltaSequenceTheory Committer CommitterTheory LiveCache LiveStorage LiveTheory Pipeline Codec CodecTheory Proxy EthLib EthAccount EthWorldState EthWriter EthAccountTheory EthWorldTheory EthWriterTheory EthBlockTheory EthStoreTheory Node NodeTheory NodeBlock NodeRead NodeExec Accounts Proxies Harness Reference RefCodec RefEth Witnesses WitnessesStore WitnessesEth WitnessesNode RefExec.
Import Constants PathTypes.

(** The writers of the execution store, and the node with them. *)
Definition writers_of (s : RefNode) : list loc := default [] (result_of (Exec_GetWriters nd_filter nd_codec) s).
Definition start_of (s : RefNode) : RefNode := state_of (Exec_GetWriters nd_filter nd_codec) s.
Lemma result_of_ret {S A} (m : Go S A) s a s' : m s = Ret (a, s') -> result_of m s = Some a.
Proof. unfold result_of. by intros ->. Qed.
Lemma writers_idle (s : RefNode) ro : n_eth s = e_new -> committedStore (n_exec s) = Some ro ->
  idle nd_filter nd_codec (nd_committer (writers_of s)) (start_of s) /\ n_eth (start_of s) = e_new.
Proof.
  intros He Hro. destruct (Exec_GetWriters_idle nd_filter nd_codec (fun _ => None) s ro)
    as (x & wc & we & wd & s0 & EW & Hi & _ & _ & He' & _); [rewrite He; apply new_store_wf|exact Hro|].
  unfold writers_of, start_of. rewrite (result_of_ret _ _ _ _ EW), (state_of_ret _ _ _ _ EW).
  split; [exact Hi|by rewrite He'].
Qed.

(** ** Three executions *)
(** A store that has the containers. *)
Definition dirs : ROStore Codec.crdt := MkROStore (fun p => HasSuffix p "/") (fun _ => None) (fun _ _ => (None, None)).
(** The writes of a transaction into a new store. *)
Definition execute (tx : Z) (kvs : list (string * Codec.crdt)) : Go RefNode (ExecutionStateStore Codec.crdt) :=
  gmodify (fun s : RefNode => with_obj (NewExecutionStateStore (Some dirs)) s) ;;;
  gforeach (fun kv => ExecStore.Write n_decode tx kv.1 (Some kv.2) None ;;; gret tt) kvs ;;; ExecStore.this.
Definition ex_run : Go RefNode (list (ExecutionStateStore Codec.crdt)) :=
  gmap_list (fun e => execute e.1 e.2)
    [(2%Z, [(native "0x01", text "def"); (native "0x02", text "zzz")]);
     (1%Z, [(native "0x01", text "abc")]);
     (3%Z, [(native "0x02", text "bad")])].
Definition ex_written : RefNode := state_of ex_run nd_world.
Definition execs : list (ExecutionStateStore Codec.crdt) := default [] (result_of ex_run nd_world).
Definition ex_ws : list loc := writers_of ex_written.
Definition ex_start : RefNode := start_of ex_written.
Definition ex_export (st : ExecutionStateStore Codec.crdt) : list loc :=
  default [] (result_of (Export []) (with_obj st ex_start)).
Definition ex_ts : list loc := List.concat (map ex_export execs).
Definition ex_cells : gmap loc ecell := n_cells (state_of (Committer.Import ex_ts (nd_committer ex_ws)) ex_start).
Definition ex_txs : list Z := [1; 2]%Z.
Definition entries_def : list (string * option Codec.crdt) := [(native "0x01", Some (text "def"))].
Definition entries_ex : list (string * option Codec.crdt) := entries_def ++ [(native "0x02", Some (text "zzz"))].

Lemma ex_idle : idle nd_filter nd_codec (nd_committer ex_ws) ex_start /\ n_eth ex_start = e_new.
Proof. apply (writers_idle ex_written dirs); vm_compute; reflexivity. Qed.
Lemma ex_execs : Forall (exec_ready (n_cells ex_start)) execs /\ separate (n_cells ex_start) execs.
Proof.
  split; [|apply separate_check, (bool_decide_eq_true_1 _); vm_compute; reflexivity].
  unfold execs. set (l := result_of ex_run nd_world). vm_compute in l. subst l. cbn [default id].
  repeat apply Forall_cons_2; try apply Forall_nil_2; (apply exec_ready_check; vm_compute; reflexivity).
Qed.
Lemma one_ready (h : gmap loc ecell) (txs : list Z) (ts : list loc) (es : list (string * option Codec.crdt))
    (e : EthState (gmap bytes bytes)) v :
  untyped_free h -> kept nd_filter h ts = ts -> Forall (fun l => addr_of h l = addr1) ts ->
  (omap (fun l => finalized_cell h txs ts l ≫= cell_kv) ts : list (string * option Codec.crdt)) = es -> entries_ok es ->
  apply_entries es empty_view = Some v -> view_in_range v -> (forall ad, view_at e ad = None) ->
  block_ready nd_filter h txs ts e.
Proof.
  intros Hu Hk Ha Hes Hok Hap Hr Hn. apply (one_account h txs ts es e v); try done.
  unfold old_view. by rewrite Hn.
Qed.
(** Evaluates the conditions of a block with one account and the entries [es]. *)
Ltac one_block h txs ts es :=
  let Hn := fresh in
  intros Hn; eapply (one_ready h txs ts es); [..|exact Hn];
  [apply (bool_decide_eq_true_1 _); vm_compute; reflexivity|vm_compute; reflexivity
  |apply (bool_decide_eq_true_1 _); vm_compute; reflexivity|vm_compute; reflexivity
  |split; [repeat constructor; vm_compute; discriminate|apply (bool_decide_eq_true_1 _); vm_compute; reflexivity]
  |vm_compute; reflexivity|vm_compute; repeat split; discriminate].
Lemma ex_ready (e : EthState (gmap bytes bytes)) : (forall ad, view_at e ad = None) ->
  block_ready nd_filter ex_cells ex_txs ex_ts e.
Proof. one_block ex_cells ex_txs ex_ts (rev entries_ex). Qed.
Lemma nothing_cached (s : RefNode) : n_cache s = ∅ -> coherent proxy_decode (n_cache s) (n_backend s).
Proof. intros -> p v Hp. change ((∅ : gmap string Codec.crdt) !! p = Some v) in Hp. by rewrite lookup_empty in Hp. Qed.
(** At a path that none accessed, executions ask for nothing. *)
Lemma entry_at (l : list (ExecutionStateStore Codec.crdt)) (h0 h : gmap loc ecell) txs p x :
  x ∈ executions_entry nd_filter l h0 h txs p -> p ∈ flat_map (fun st => (map_to_list (localCells st)).*1) l.
Proof.
  intros Hx. unfold executions_entry, accepted_at in Hx.
  destruct (omap (accessed h0 p) l) as [|y ys] eqn:E; [by apply elem_of_nil in Hx|].
  assert (Hy : y ∈ omap (accessed h0 p) l) by (rewrite E; by left).
  apply list_elem_of_omap in Hy as (st & Hst & [_ Hp]%accessed_in).
  apply list_elem_of_In, in_flat_map. exists st. split; by apply list_elem_of_In.
Qed.
Lemma ex_entry p x : x ∈ executions_entry nd_filter execs (n_cells ex_start) ex_cells ex_txs p -> x ∈ entries_ex.
Proof.
  intros Hx. pose proof (entry_at _ _ _ _ _ _ Hx) as Hp.
  replace (flat_map (fun st => (map_to_list (localCells st)).*1) execs)
    with [native "0x01"; native "0x02"; native "0x01"; native "0x02"] in Hp by (vm_compute; reflexivity).
  assert (Hp' : p = native "0x01" \/ p = native "0x02").
  { rewrite !elem_of_cons, elem_of_nil in Hp. tauto. }
  clear Hp. destruct Hp' as [-> | ->].
  - replace (executions_entry nd_filter execs (n_cells ex_start) ex_cells ex_txs (native "0x01")) with entries_def in Hx
      by (vm_compute; reflexivity). apply list_elem_of_singleton in Hx as ->. by left.
  - replace (executions_entry nd_filter execs (n_cells ex_start) ex_cells ex_txs (native "0x02"))
      with [(native "0x02", Some (text "zzz"))] in Hx by (vm_compute; reflexivity).
    apply list_elem_of_singleton in Hx as ->. right. by left.
Qed.
Lemma ex_exports (tss : list (list loc)) :
  Forall2 (fun st ts => Export [] (with_obj st ex_start) = Ret (ts, with_obj st ex_start)) execs tss ->
  List.concat tss = ex_ts.
Proof.
  unfold ex_ts. intros H. f_equal. induction H as [|st ts l tss E _ IH]; [done|]. cbn. rewrite IH. f_equal.
  unfold ex_export. by rewrite (result_of_ret _ _ _ _ E).
Qed.

(** The three executions are a generation: of the two values of the first slot
    that of the later transaction stays, and of the second slot the accepted
    one. *)
Lemma Executions_generation_witness : exists this2 s2 this3 s3,
  Committer.Import ex_ts (nd_committer ex_ws) ex_start = Ret (this2, s2) /\
  DebugPrecommit ex_txs this2 s2 = Ret (this3, s3) /\
  generations nd_filter nd_codec ex_start [MkGeneration (n_cells s2) ex_txs ex_ts] this3 s3 /\
  path_entries nd_filter [MkGeneration (n_cells s2) ex_txs ex_ts] (native "0x01") = entries_def /\
  path_entries nd_filter [MkGeneration (n_cells s2) ex_txs ex_ts] (native "0x02") = [(native "0x02", Some (text "zzz"))].
Proof.
  destruct ex_idle as (Hi & He). destruct ex_execs as [Hr Hs].
  destruct (Executions_generation nd_filter nd_codec [] execs [] (nd_committer ex_ws) ex_start ex_start)
    as (tss & this2 & s2 & EX & _ & EI & _ & Hv & Hnext).
  - by apply generations_start.
  - exact Hr.
  - exact Hs.
  - by left.
  - by intros st p l _ _ ?%elem_of_nil.
  - rewrite (ex_exports tss EX) in EI, Hnext.
    assert (Ecs : n_cells s2 = ex_cells) by (unfold ex_cells; by rewrite (state_of_ret _ _ _ _ EI)).
    destruct (Hnext ex_txs) as (this3 & s3 & EP & Hg & Hent).
    { rewrite Ecs. apply ex_ready. intros ad. rewrite Hv, He. apply new_store_view. }
    exists this2, s2, this3, s3. do 3 (split; [assumption|]).
    split; (etrans; [apply (Hent nd_filter)|rewrite Ecs; vm_compute; reflexivity]).
Defined.

(** A new execution reads what the accepted ones left. *)
Lemma Executions_block_witness : exists (s' s'' : RefNode) this2 s2 this3 s3,
  Committer.Import ex_ts (nd_committer ex_ws) ex_start = Ret (this2, s2) /\
  DebugPrecommit ex_txs this2 s2 = Ret (this3, s3) /\ DebugCommit 1 this3 s3 = Ret (this3, s') /\
  n_exec s'' = NewExecutionStateStore (Some (n_open (n_cache s') (n_backend s'))) /\
  ExecStoreTheory.view (HL := node_cells) (OL := node_exec) s'' (native "0x01") None = Some (IsCRDT (text "def")) /\
  ExecStoreTheory.view (HL := node_cells) (OL := node_exec) s'' (native "0x02") None = Some (IsCRDT (text "zzz")) /\
  exists l err s4, ReadCell n_decode 5 (native "0x01") None None s'' = Ret ((Some (IsCRDT (text "def")), l, err), s4).
Proof.
  destruct ex_idle as (Hi & He). destruct ex_execs as [Hr Hs].
  destruct (Executions_block nd_filter nd_codec proxy_decode n_decode 1 [] execs (nd_committer ex_ws) ex_start)
    as (tss & this2 & s2 & EX & EI & _ & Hv & Hnext).
  - exact Hi.
  - exact Hr.
  - exact Hs.
  - by left.
  - apply nothing_cached. vm_compute. reflexivity.
  - rewrite (ex_exports tss EX) in EI, Hnext.
    assert (Ecs : n_cells s2 = ex_cells) by (unfold ex_cells; by rewrite (state_of_ret _ _ _ _ EI)).
    destruct (Hnext ex_txs) as (this3 & s3 & EP & Hcm).
    { rewrite Ecs. apply ex_ready. intros ad. rewrite Hv, He. apply new_store_view. }
    { intros p v Hp. rewrite Ecs in Hp. apply ex_entry in Hp. unfold entries_ex, entries_def in Hp.
      apply elem_of_cons in Hp as [Hp|Hp%list_elem_of_singleton]; injection Hp as -> ->; vm_compute; reflexivity. }
    destruct (Hcm (nd_reset_safe _ _ _)) as (s' & ECm & Hview).
    set (s'' := with_obj (NewExecutionStateStore (Some (n_open (n_cache s') (n_backend s')))) s').
    assert (Hrd : reads_through proxy_decode (n_open (n_cache s') (n_backend s')) s') by (intros p T; reflexivity).
    exists s', s'', this2, s2, this3, s3. do 3 (split; [assumption|]). split; [reflexivity|].
    destruct (Hview _ s'' Hrd eq_refl) as [Hs'' Hread]. rewrite !Hs''.
    specialize (Hread 5%Z (native "0x01") None None ltac:(by left)).
    rewrite Ecs in *. split; [vm_compute; reflexivity|]. split; [vm_compute; reflexivity|].
    replace (listed_at n_decode _ (native "0x01")) with (Ret (A := bool) true) in Hread by (vm_compute; reflexivity).
    destruct Hread as (l & s4 & err & E & _). exists l, err, s4. rewrite E.
    match goal with |- Ret ((?x, _, _), _) = Ret ((?y, _, _), _) => replace x with y by (vm_compute; reflexivity) end.
    reflexivity.
Defined.




(** ** The harness *)
(** A store with the cell of the slot 0x01, of transaction 1. *)
Definition ij_world : RefNode := with_obj
  (MkExecutionStateStore (Some dirs) {[ native "0x01" := 2 ]} [] Platform.NewPlatform LATEST_STATE_VERSION 0) nd_world.
Definition ij_keys : list string := [native "0x01"; native "0x02"].
Definition ij_vals : list (option Codec.crdt) := [Some (text "def"); Some (text "zzz")].
Definition ij_injected : RefNode := state_of (inject_all ij_keys ij_vals None) ij_world.
Definition ij_ts : list loc := default [] (result_of (Export (SL := keep_slices) [Some Sorter]) ij_injected).
Definition ij_loaded : RefNode :=
  state_of (load_debug (SL := keep_slices) n_decode nd_filter nd_codec ij_ts) ij_injected.
Definition ij_cells : gmap loc ecell := n_cells ij_loaded.

Lemma ij_ready (e : EthState (gmap bytes bytes)) : (forall ad, view_at e ad = None) ->
  block_ready nd_filter ij_cells [1%Z] ij_ts e.
Proof. one_block ij_cells [1%Z] ij_ts entries_def. Qed.
Lemma ij_entry p x :
  x ∈ executions_entry nd_filter [n_exec ij_injected] (n_cells ij_injected) ij_cells [1%Z] p -> x ∈ entries_def.
Proof.
  intros Hx. pose proof (entry_at _ _ _ _ _ _ Hx) as Hp.
  replace (flat_map (fun st => (map_to_list (localCells st)).*1) [n_exec ij_injected])
    with [native "0x01"; native "0x02"] in Hp by (vm_compute; reflexivity).
  apply elem_of_cons in Hp as [->|Hp%list_elem_of_singleton]; [|subst p].
  - by replace (executions_entry nd_filter [n_exec ij_injected] (n_cells ij_injected) ij_cells [1%Z] (native "0x01"))
      with entries_def in Hx by (vm_compute; reflexivity).
  - replace (executions_entry nd_filter [n_exec ij_injected] (n_cells ij_injected) ij_cells [1%Z] (native "0x02"))
      with (@nil (string * option Codec.crdt)) in Hx by (vm_compute; reflexivity). destruct (proj1 (elem_of_nil _) Hx).
Qed.

(** The value injected into the cell of transaction 1 is committed, that of the
    new cell is not. *)
Lemma InjectTransitions_commits_witness : exists s' : RefNode,
  InjectTransitions (SL := keep_slices) n_decode nd_filter nd_codec n_open ij_keys ij_vals ij_world = Ret (None, s') /\
  shown proxy_decode (n_cache s') (n_backend s') (native "0x01") = Some (text "def") /\
  shown proxy_decode (n_cache s') (n_backend s') (native "0x02") = None.
Proof.
  destruct (InjectTransitions_commits (SL := keep_slices) (SLL := keep_slices_laws) n_decode nd_filter nd_codec
    proxy_decode n_open ltac:(reflexivity) ij_keys ij_vals None ij_world ij_injected)
    as (ts & this2 & s2 & EX & EL & Hv & Hrun).
  - by eexists.
  - vm_compute. reflexivity.
  - replace (n_eth ij_injected) with e_new by (vm_compute; reflexivity). apply new_store_wf.
  - apply exec_ready_check; vm_compute; reflexivity.
  - apply nothing_cached. vm_compute. reflexivity.
  - assert (Ets : ts = ij_ts) by (unfold ij_ts; by rewrite (result_of_ret _ _ _ _ EX)). subst ts.
    assert (Ecs : n_cells s2 = ij_cells) by (unfold ij_cells, ij_loaded; by rewrite (state_of_ret _ _ _ _ EL)).
    destruct Hrun as (s' & E & _ & Hsh & Hlost).
    { rewrite Ecs. apply ij_ready. intros ad. rewrite Hv.
      replace (n_eth ij_injected) with e_new by (vm_compute; reflexivity). apply new_store_view. }
    { intros p v Hp. rewrite Ecs in Hp. apply ij_entry in Hp.
      apply list_elem_of_singleton in Hp. injection Hp as -> ->. vm_compute. reflexivity. }
    exists s'. split; [exact E|]. rewrite Ecs in Hsh. split.
    + rewrite Hsh. vm_compute. reflexivity.
    + rewrite Hlost; [vm_compute; reflexivity|]. intros l Hl.
      replace (accessed (n_cells ij_injected) (native "0x02") (n_exec ij_injected)) with (Some 6) in Hl by (vm_compute; reflexivity).
      injection Hl as <-. vm_compute. reflexivity.
Defined.

(** Two accounts, one of them twice, in a store of their own. *)
Definition addr_two : bytes := repeat 34%Z 20.
Lemma accounts_created_witness : exists s' : RefNode,
  (new_store n_open ;;; create_accounts n_decode [addr1; addr_two; addr1]) nd_world = Ret (None, s') /\
  Has (account_root acct1 +:+ PATH_STORAGE_NATIVE) s' = Ret (true, s') /\
  ExecStoreTheory.view (HL := node_cells) (OL := node_exec) s' (native "0x01") None = None.
Proof.
  destruct (accounts_created n_decode n_open n_effect_laws n_fresh_set [addr1; addr_two; addr1] nd_world)
    as (s' & E & Hm & Ho).
  - repeat (apply Forall_cons; split; [split; [reflexivity|repeat constructor; lia]|]). by apply Forall_nil.
  - intros p T. by split.
  - exists s'. split; [exact E|]. split.
    + change acct1 with (hexutil_Encode addr1) at 1.
      apply (Hm addr1 ltac:(by left) (PATH_STORAGE_NATIVE, PATH)). unfold default_table.
      rewrite !elem_of_cons. do 7 right. left. reflexivity.
    + apply Ho. intros b e Hb He. unfold default_table in He.
      repeat (apply elem_of_cons in He as [->|He]; [rewrite !elem_of_cons, elem_of_nil in Hb;
        destruct Hb as [->|[->|[->|[]]]]; intros Ee; vm_compute in Ee; discriminate Ee|]).
      destruct (proj1 (elem_of_nil _) He).
Defined.

(** An account in a store of its own: all its built-in paths are committed, with
    the empty values of their types. *)
Example CreateAccountInStore_creates :
  match CreateAccountInStore (SL := keep_slices) n_decode nd_filter nd_codec n_open [addr1] nd_world with
  | Ret (err, s') => Some (err, map (fun e => (e.1, shown proxy_decode (n_cache s') (n_backend s') (account_root acct1 +:+ e.1)))
      default_table)
  | Panic => None
  end = Some (None, map (fun e => (e.1, default_value e.2)) default_table).
Proof. vm_compute. reflexivity. Qed.
